(* ===== verification/_CoqProject ===== *)
-Q . S2P
Prelude.v
Proto.v
Concrete.v
Topics.v
Seal.v
Handshake.v
Stream.v
Text.v
Allowlist.v
Policy.v
Registries.v
AuditLog.v
Disk.v
Session.v
Ca.v
Broker.v
Forward.v
Service.v
Cli.v
Exec.v
JobRunner.v
Pty.v
ShellStream.v
ControlChannel.v
Ip.v
IpText.v
Netbox.v
NetboxSync.v
NetboxClient.v
SinkTasks.v
Enroll.v
Inventory.v
Auth.v
AgentMain.v
Coordinator.v
Wiring.v
System.v
Startup.v
Command.v
Uplink.v
Teardown.v
CliMain.v
AgentCli.v
