(* ===== verification/Prelude.v ===== *)
(** * open-ssm-agent: a verification development (root file)

    ** The program

    open-ssm-agent lets operators run commands and interactive shells on hosts without any
    inbound port on them.  A coordinator (osa-coordinator) serves operators over gRPC and
    talks to the agents through an embedded MQTT broker; an agent (osa-agent) on each host
    dials out to that broker; the operators use a command-line client (osa-cli); osa-core
    holds the protocol both ends share.  The broker is not trusted: everything that matters
    travels sealed inside sessions the two ends agree on over it.

    One job, end to end: a host enrolls with a join token and gets a certificate (files
    Enroll, Service, Ca); its agent connects, raises its durable epoch and runs the
    authenticated handshake (ControlChannel, Session, Handshake, Broker); an operator, whose
    token the interceptor checked (Auth), calls Exec; the policy decides per host and the
    decision is written to the hash-chained audit log before anything is sent (Policy,
    AuditLog, Service); the bridge seals the dispatch (Broker, Seal); the agent opens it,
    checks its own allowlist and runs it at most once (ControlChannel, Allowlist, JobRunner,
    Exec); sealed results go back to that operator (Broker, Cli).  Shells take the same way
    and then stream both directions under their own subkeys (Pty, ShellStream).  The
    agent collects an inventory, which it prints (Inventory, AgentCli); a snapshot a host
    publishes goes to NetBox (Broker, Netbox).

    ** Files, and the code each models

    - Prelude: results, bounded machine integers ([bint lo hi] with [wrap], checked and
      saturating operations), byte strings, tactics, the hint database [osa].
    - Proto: the messages of the IDL as records, identifiers and port errors (osa-core
      domain.rs, ports.rs); classes [Crypto], [Prost], [UuidLib] for the libraries and their
      laws.  Concrete: one instance of each, for the witnesses.
    - Text: [str] operations (trim, split, decimal numbers).  Ip: [IpAddr] parsing and order.
      IpText: its text, and that parsing reads it back.
    - Topics (osa-core topics.rs), Seal (seal.rs, wire.rs), Handshake (handshake.rs), Stream
      (stream.rs: the reorder buffer), Allowlist (allowlist.rs, osa-agent backstop.rs).
    - Policy (osa-coordinator policy.rs), AuditLog (osa-core audit.rs and osa-coordinator
      audit_log.rs, the Postgres store as a step relation over concurrent transactions),
      Registries (epoch.rs, revocation.rs, token.rs; in memory and Postgres, behind the
      classes [Epochs], [Revocations], [JoinTokens]), Ca (ca.rs).
    - Disk: files with what is visible and what is durable, and crashes.
    - Session (session.rs of both ends), Broker (broker.rs: every handler and the event loop
      as [bridge_step]), Forward (its receive thread and bounded queue, as two concurrent
      parties), Service (service.rs: handlers, fan-out tasks and shell tasks as
      [service_step]).
    - Cli (osa-cli main.rs): requests, exec report and exit status, audit verification,
      the interactive session; CliMain: each subcommand, from its arguments through the
      interceptor and the handler to its output and exit status.
    - Exec (exec.rs), JobRunner (jobstore.rs, dispatch.rs over crashes and restarts), Pty
      (pty.rs), ShellStream (shell_stream.rs, up to the operator's stream at the bridge),
      ControlChannel (control_channel.rs: one
      connection as [agent_step]), AgentMain (the reconnect loop), AgentCli (main.rs: every
      subcommand of the agent), Enroll (enroll.rs over faulty files with modes), Inventory (inventory.rs), Uplink (the sending
      of results by concurrent job tasks, the result queue and [publish_results], up to the
      operator's stream), Teardown ([shutdown] of pty.rs and the drop of shell_stream.rs over
      a table of processes with groups, sessions and dispositions of SIGHUP).
    - Netbox (netbox.rs: the sink over the port [NetboxDevices]), NetboxSync (laws of a NetBox
      that answers, a reference one, convergence), NetboxClient (the JSON adapter), SinkTasks
      (the sink's code run call by call by concurrent tasks under its per-host lock).
    - Auth (osa-core auth.rs, osa-coordinator auth.rs and jwks.rs, the router and builders of
      main.rs).
    - Startup (main.rs [main], broker.rs [spawn], db.rs): from the command line to a serving
      coordinator, on a database that outlives it or in memory.
    - Coordinator: service and bridge as one process, with the bounded channels between them
      and the stores they share ([co_step]); Wiring: its well-formedness.
    - Command: the path of a typed command through Cli, Service and JobRunner.
    - System: one coordinator and one host's agent, with the network between them
      ([sys_step]).

    State is explicit: a record per component and a function per handler; concurrent parties
    are lists of events or moves, over all of which the theorems quantify, and failures of
    stores, files and sends are arguments of the event.  Libraries (AEAD, X25519, ECDSA,
    protobuf, X.509, JWT, TOML, UUID, URL, HTTP) are class members or arguments; what a theorem
    needs of them is a law class ([CryptoLaws], [ProstLaws], [X509Laws], [JwtLaws],
    [NetboxLaws], ...) with a concrete instance.

    In System the broker delivers anything in any order, as often as it likes, invents
    messages, and may stand between the two ends in the handshake; messages are delayed and
    replayed across reconnects, crashes and restarts.  [possible_run] assumes of it only what
    the cryptography gives: it forges no signature of the coordinator's CA key ([unforged]),
    and it does not know keys agreed on a transcript the coordinator signed, so under those
    only the coordinator's own frames open ([unopened]); of the agent, that its ephemerals are
    fresh ([new_keys]) and that each identity it loads pins that CA key ([pins]).  That the
    agent's session keys were agreed on such a transcript is derived from its check of the
    server's signature.  The kernel's signals and reaping are a class too ([Kernel] of file
    Teardown): what kill(2), wait(2) and the hangup of a terminal are documented to do, with
    nothing promised of a process that catches SIGHUP.

    A check and the action after it are two steps where another party can come between: the
    revocation check and the issuance of a renewal, the revocation check and the rest of a
    ClientHello ([co_step]), the sealing and the queueing of a result (file Uplink), the
    statements of a transaction (AuditLog).

    ** What the theorems show

    - End to end: whatever runs on a host, or is opened as a shell, has its own allow record
      and the host's own permission; the coordinator says to hosts only what it has audited;
      a revoked host is cut off from the acknowledgement on, but for what had passed its check
      by then, and stays so over restarts on the database; what is typed at the CLI is what
      runs, and its output reaches an operator who keeps up; the CLI and the agent's own
      subcommands report success only for what happened; the coordinator serves only when it
      is ready, and its state is well formed in every run.
    - Authority: a session exists only for an authenticated, unrevoked host with a fresh
      epoch; the two ends of a handshake agree, against any broker that cannot forge
      signatures; every operator subject is that of an accepted bearer token; every
      command has its own allow record in the log, written first; the agent acts only on what
      the holder of its pinned CA sealed, and only within its own allowlist and caps, for the
      whole life of the process.
    - Transport: each direction, dispatches, keystrokes and terminal output arrive in order
      and at most once whatever the broker does, and all of it when it behaves, the reader
      keeps its bounded queue from filling (the code drops then) and no write fails; the
      nonces given to the cipher never repeat; an envelope opens only with its own header; the bridge's bounded queue is
      transparent; which results of concurrent jobs get through is stated exactly.
    - Durability: jobs are spawned at most once per retained record, and epochs grow, across
      crashes; identities are written whole; renewal keeps them.
    - Records: the audit chain never forks, verifies exactly, and cannot be altered unseen
      without a SHA-256 collision; what is exported verifies in the client.
    - Service: tokens are single-use, enrollment and renewal issue only to the right host, all
      replicas share one CA, results reach exactly their operator, each host of a fan-out is
      answered once, resources stay bounded.
    - Host: a command or shell run as a user has exactly that user's identity; output is
      capped; the end of a shell kills its group and the foreground processes that leave SIGHUP
      at its default, and touches nothing outside its session.
    - Inventory: snapshots are canonical, an upsert writes only its own device and its interfaces, reconciling
      converges, dedup is exact; concurrent upserts of one host are a sequence of whole ones;
      printed addresses read back.

    Lemmas that show a window the code accepts, or where it falls short of its comments, keep
    their own names:
    [revocation_window], [failed_server_hello_keeps_old_work], [unreported_host_exits_zero],
    [parse_head_not_only_hex], [reorder_saturation_redelivers],
    [failed_upsert_hides_later_snapshot], [forced_reenroll_can_mix], [params_hash_unchecked],
    [foreground_job_survives], [concurrent_results_lost].

    ** Fuel and bounds

    [to_dec] prints at most 20 digits, enough for every [u64], and [u16_hex] four, enough for a
    group of an address; trimming recurses on the length
    of the string, which every step shortens; NetBox retries are the code's own bound (three
    after the first); a fan-out task is done after at most two steps per host and one more;
    a key set is read up to 1 MiB; start-up probes its listener 50 times, as the code does.
    No other definition takes fuel: loops over the network or the terminal are folds over the
    list of what arrives.

    ** Not modelled

    TLS, MQTT, gRPC and SQL themselves, which are libraries; argument parsing (clap) and
    logging of the three programs; the readiness notifications of the runtime (pty.rs maps each system call's result); the
    generated IDL beyond its records; timing, except where the code compares times. *)
From Stdlib Require Export ZArith Lia Ascii.
From Stdlib Require Import Strings.Byte Eqdep_dec.
From stdpp Require Export base tactics list strings gmap.

Global Open Scope Z_scope.

(** ** Results of fallible code: Rust's [Result]. *)

Inductive result (A E : Type) : Type :=
| Ok (a : A)
| Err (e : E).
Arguments Ok {A E} a.
Arguments Err {A E} e.

Declare Scope osa_scope.
Delimit Scope osa_scope with osa.

(** [let? x := c in k] is the [?] operator of Rust: an error returns early. *)
Notation "'let?' x ':=' c 'in' k" :=
  (match c with Ok x => k | Err err => Err err end)
  (at level 10, x pattern, c at level 200, k at level 200) : osa_scope.
Notation "'let!' x ':=' c 'in' k" :=
  (match c with Some x => k | None => None end)
  (at level 10, x pattern, c at level 200, k at level 200) : osa_scope.
Global Open Scope osa_scope.

Definition is_ok {A E} (r : result A E) : bool :=
  match r with Ok _ => true | Err _ => false end.

Definition ok {A E} (r : result A E) : option A :=
  match r with Ok a => Some a | Err _ => None end.

Definition map_err {A E F} (f : E -> F) (r : result A E) : result A F :=
  match r with Ok a => Ok a | Err e => Err (f e) end.

Definition ok_or {A E} (o : option A) (e : E) : result A E :=
  match o with Some a => Ok a | None => Err e end.

#[global] Instance result_eq_dec {A E} `{EqDecision A, EqDecision E} :
  EqDecision (result A E).
Proof. solve_decision. Defined.

(** ** Bytes *)

Abbreviation byte := (Init.Byte.byte).
Abbreviation bytes := (list byte).

#[global] Instance byte_eq_dec : EqDecision byte := Byte.byte_eq_dec.
#[global] Program Instance byte_countable : Countable byte :=
  inj_countable Byte.to_N Byte.of_N _.
Next Obligation. intros b. apply Byte.of_to_N. Qed.

Definition byte_val (b : byte) : Z := Z.of_N (Byte.to_N b).

Definition byte_of_Z (z : Z) : byte :=
  match Byte.of_N (Z.to_N (z mod 256)) with Some b => b | None => Byte.x00 end.

(** [to_be_bytes] of an [n]-byte integer (two's complement for negatives). *)
Fixpoint be_bytes (n : nat) (z : Z) : bytes :=
  match n with
  | O => []
  | S m => byte_of_Z (z / 256 ^ Z.of_nat m) :: be_bytes m z
  end.

(** [str::as_bytes]. *)
Definition bytes_of (s : string) : bytes := String.list_byte_of_string s.

(** ** Machine integers: [bint lo hi] holds the integers of [[lo, hi)). *)

Definition in_range (lo hi z : Z) : bool := (lo <=? z) && (z <? hi).

Record bint (lo hi : Z) : Type := mk_bint {
  bval : Z;
  bval_ok : in_range lo hi bval = true
}.
Arguments mk_bint {lo hi} bval bval_ok.
Arguments bval {lo hi} b.
Arguments bval_ok {lo hi} b.

Abbreviation u16 := (bint 0 (2 ^ 16)).
Abbreviation u32 := (bint 0 (2 ^ 32)).
Abbreviation u64 := (bint 0 (2 ^ 64)).
Abbreviation i32 := (bint (- 2 ^ 31) (2 ^ 31)).
Abbreviation i64 := (bint (- 2 ^ 63) (2 ^ 63)).

(** [TryFrom] between integer widths. *)
Definition try_from {lo hi} (z : Z) : option (bint lo hi) :=
  match Bool.bool_dec (in_range lo hi z) true with
  | left H => Some (mk_bint z H)
  | right _ => None
  end.

Class Bounds (lo hi : Z) := bounds_lt : (lo <? hi) = true.
#[global] Instance u16_bounds : Bounds 0 (2 ^ 16) := eq_refl.
#[global] Instance u32_bounds : Bounds 0 (2 ^ 32) := eq_refl.
#[global] Instance u64_bounds : Bounds 0 (2 ^ 64) := eq_refl.
#[global] Instance i32_bounds : Bounds (- 2 ^ 31) (2 ^ 31) := eq_refl.
#[global] Instance i64_bounds : Bounds (- 2 ^ 63) (2 ^ 63) := eq_refl.

Definition wrapZ (lo hi z : Z) : Z := lo + (z - lo) mod (hi - lo).

Lemma in_range_spec lo hi z : in_range lo hi z = true <-> lo <= z < hi.
Proof. unfold in_range. rewrite andb_true_iff, Z.leb_le, Z.ltb_lt. lia. Qed.

Lemma in_range_lo lo hi : (lo <? hi) = true -> in_range lo hi lo = true.
Proof. rewrite Z.ltb_lt, in_range_spec. lia. Defined.

(** The [as] cast: reduction modulo the width. *)
Definition wrap {lo hi} `{B : Bounds lo hi} (z : Z) : bint lo hi :=
  match try_from (wrapZ lo hi z) with
  | Some b => b
  | None => mk_bint lo (in_range_lo lo hi B)
  end.

(** [wrapping_add], [saturating_add] and [checked_add]. *)
Definition wrapping_add {lo hi} `{B : Bounds lo hi} (a : bint lo hi) (z : Z) : bint lo hi :=
  wrap (bval a + z).
Definition saturating_add {lo hi} `{B : Bounds lo hi} (a : bint lo hi) (z : Z) : bint lo hi :=
  wrap (Z.min (bval a + z) (hi - 1)).
Definition checked_add {lo hi} (a : bint lo hi) (z : Z) : option (bint lo hi) :=
  try_from (bval a + z).

Lemma bint_eq {lo hi} (a b : bint lo hi) : bval a = bval b -> a = b.
Proof.
  destruct a as [x Hx], b as [y Hy]. simpl. intros ->.
  f_equal. apply (Eqdep_dec.UIP_dec Bool.bool_dec).
Qed.

#[global] Instance bint_eq_dec {lo hi} : EqDecision (bint lo hi).
Proof.
  intros a b. destruct (decide (bval a = bval b)) as [H|H].
  - left. by apply bint_eq.
  - right. congruence.
Defined.

#[global] Program Instance bint_countable {lo hi} : Countable (bint lo hi) :=
  inj_countable bval try_from _.
Next Obligation.
  intros lo hi [x Hx]. simpl. unfold try_from.
  destruct (Bool.bool_dec _ _) as [H|H]; [|congruence].
  f_equal. by apply bint_eq.
Qed.

(** A length-prefixed field: [len.to_be_bytes() ++ field], the framing shared by
    the AEAD header, the handshake transcripts and the audit encoding. *)
Definition enc_field (f : bytes) : bytes := be_bytes 8 (Z.of_nat (length f)) ++ f.

(** [Vec::len() as u64] is exact: no object reaches 2^64 bytes. *)
Definition short (f : bytes) : Prop := Z.of_nat (length f) < 2 ^ 64.

#[global] Instance short_dec f : Decision (short f).
Proof. unfold short. apply _. Defined.

(** [<[u8; 32]>::try_from]: a fixed-width array from a slice. *)
Definition array32 (b : bytes) : option bytes :=
  if decide (length b = 32%nat) then Some b else None.

(** ** Strings *)

(** [str::strip_prefix]. *)
Fixpoint strip_prefix (p s : string) : option string :=
  match p, s with
  | EmptyString, _ => Some s
  | String a p', String b s' => if decide (a = b) then strip_prefix p' s' else None
  | String _ _, EmptyString => None
  end.

(** [str::split_once] on a single (ASCII) character: the first occurrence. *)
Fixpoint split_once (c : ascii) (s : string) : option (string * string) :=
  match s with
  | EmptyString => None
  | String a s' =>
      if decide (a = c) then Some (EmptyString, s')
      else match split_once c s' with
           | Some (l, r) => Some (String a l, r)
           | None => None
           end
  end.

(** [str::replace(c, "")]. *)
Fixpoint remove_char (c : ascii) (s : string) : string :=
  match s with
  | EmptyString => EmptyString
  | String a s' => if decide (a = c) then remove_char c s' else String a (remove_char c s')
  end.

Fixpoint has_char (c : ascii) (s : string) : bool :=
  match s with
  | EmptyString => false
  | String a s' => bool_decide (a = c) || has_char c s'
  end.

(** [str::split(c)]: every piece between separators, empty ones included. *)
Fixpoint split_on (c : ascii) (s : string) : list string :=
  match s with
  | EmptyString => [EmptyString]
  | String a s' =>
      if decide (a = c) then EmptyString :: split_on c s'
      else match split_on c s' with
           | p :: ps => String a p :: ps
           | [] => [String a EmptyString]
           end
  end.

Definition is_empty (s : string) : bool :=
  match s with EmptyString => true | _ => false end.

(** ** Automation *)

Create HintDb osa.
Create Rewrite HintDb osa.
Create Rewrite HintDb osa_str.

(** Split every [match] of the goal or of a hypothesis, closing the branches that
    contradict a known equation. *)
Ltac split_match :=
  match goal with
  | |- context [match ?x with _ => _ end] => destruct x eqn:?
  | H : context [match ?x with _ => _ end] |- _ => destruct x eqn:?
  end.
Ltac split_matches := repeat (split_match; simplify_eq/=; try done).

Ltac bool_to_prop :=
  repeat match goal with
  | H : (_ && _) = true |- _ => apply andb_true_iff in H; destruct H
  | H : (_ || _) = false |- _ => apply orb_false_iff in H; destruct H
  | H : negb _ = true |- _ => apply negb_true_iff in H
  | H : negb _ = false |- _ => apply negb_false_iff in H
  | H : bool_decide _ = true |- _ => apply bool_decide_eq_true in H
  | H : bool_decide _ = false |- _ => apply bool_decide_eq_false in H
  | H : (_ =? _) = true |- _ => apply Z.eqb_eq in H
  | H : (_ =? _) = false |- _ => apply Z.eqb_neq in H
  | H : (_ <=? _) = true |- _ => apply Z.leb_le in H
  | H : (_ <=? _) = false |- _ => apply Z.leb_gt in H
  | H : (_ <? _) = true |- _ => apply Z.ltb_lt in H
  | H : (_ <? _) = false |- _ => apply Z.ltb_ge in H
  end.

(** ** Generic lemmas: bytes and integers *)

Lemma byte_of_Z_val z : byte_val (byte_of_Z z) = z mod 256.
Proof.
  unfold byte_val, byte_of_Z.
  pose proof (Z.mod_pos_bound z 256 ltac:(lia)) as Hb.
  destruct (Byte.of_N (Z.to_N (z mod 256))) as [b|] eqn:E.
  - apply Byte.to_of_N in E. rewrite E. lia.
  - apply Byte.of_N_None_iff in E. lia.
Qed.

Lemma byte_of_Z_inj x y : byte_of_Z x = byte_of_Z y -> x mod 256 = y mod 256.
Proof. intros H. by rewrite <- !byte_of_Z_val, H. Qed.

Lemma length_be_bytes n z : length (be_bytes n z) = n.
Proof. induction n; simpl; auto. Qed.

Lemma mod_pow_succ x n :
  x mod 256 ^ Z.of_nat (S n) =
  x mod 256 ^ Z.of_nat n + 256 ^ Z.of_nat n * ((x / 256 ^ Z.of_nat n) mod 256).
Proof.
  rewrite Nat2Z.inj_succ, Z.pow_succ_r by lia.
  rewrite (Z.mul_comm 256), Z.rem_mul_r by lia. done.
Qed.

Lemma be_bytes_inj n x y :
  be_bytes n x = be_bytes n y -> x mod 256 ^ Z.of_nat n = y mod 256 ^ Z.of_nat n.
Proof.
  induction n as [|n IH]; intros H.
  - by rewrite !Z.mod_1_r.
  - cbn [be_bytes] in H. injection H as Hh Ht.
    rewrite !mod_pow_succ, (IH Ht). by rewrite (byte_of_Z_inj _ _ Hh).
Qed.

Lemma bint_range {lo hi} (a : bint lo hi) : lo <= bval a < hi.
Proof. apply in_range_spec, bval_ok. Qed.

Lemma mod_eq_close m x y : 0 < m -> x mod m = y mod m -> -m < x - y < m -> x = y.
Proof.
  intros Hm He Hc.
  pose proof (Z.div_mod x m ltac:(lia)). pose proof (Z.div_mod y m ltac:(lia)).
  rewrite He in *. remember (x / m) as q. remember (y / m) as r.
  assert (q = r) as -> by nia. lia.
Qed.

Lemma be_bytes_bint_inj {lo hi} n (a b : bint lo hi) :
  hi - lo <= 256 ^ Z.of_nat n ->
  be_bytes n (bval a) = be_bytes n (bval b) -> a = b.
Proof.
  intros Hw H%be_bytes_inj. apply bint_eq.
  pose proof (bint_range a). pose proof (bint_range b).
  eapply mod_eq_close; [|exact H|]; nia.
Qed.

Lemma try_from_Some {lo hi} z (b : bint lo hi) : try_from z = Some b <-> bval b = z.
Proof.
  unfold try_from. split.
  - destruct (Bool.bool_dec _ _); naive_solver.
  - intros <-. destruct (Bool.bool_dec _ _) as [H|H].
    + f_equal. by apply bint_eq.
    + by destruct (H (bval_ok b)).
Qed.

Lemma try_from_None {lo hi} z : @try_from lo hi z = None <-> ~ lo <= z < hi.
Proof.
  unfold try_from. rewrite <- (in_range_spec lo hi z).
  destruct (Bool.bool_dec _ _); naive_solver.
Qed.

Lemma wrapZ_range lo hi z : lo < hi -> lo <= wrapZ lo hi z < hi.
Proof. intros. unfold wrapZ. pose proof (Z.mod_pos_bound (z - lo) (hi - lo)). lia. Qed.

Lemma wrap_val {lo hi} `{B : Bounds lo hi} z : bval (wrap z : bint lo hi) = wrapZ lo hi z.
Proof.
  unfold wrap. destruct (try_from (wrapZ lo hi z)) as [b|] eqn:E.
  - by apply try_from_Some in E.
  - apply try_from_None in E. destruct E. apply wrapZ_range.
    by apply Z.ltb_lt.
Qed.

Lemma wrapZ_id lo hi z : lo <= z < hi -> wrapZ lo hi z = z.
Proof. intros. unfold wrapZ. rewrite Z.mod_small; lia. Qed.

Lemma wrap_small {lo hi} `{B : Bounds lo hi} z :
  lo <= z < hi -> bval (wrap z : bint lo hi) = z.
Proof. intros. by rewrite wrap_val, wrapZ_id. Qed.

Lemma saturating_add_val {lo hi} `{B : Bounds lo hi} (a : bint lo hi) z :
  0 <= z -> bval (saturating_add a z) = Z.min (bval a + z) (hi - 1).
Proof.
  intros. pose proof (bint_range a). unfold saturating_add. rewrite wrap_small; lia.
Qed.

#[export] Hint Rewrite @wrap_val @length_be_bytes : osa.

(** ** Generic lemmas: fields *)

Lemma enc_field_inj f1 f2 r1 r2 :
  short f1 -> short f2 ->
  enc_field f1 ++ r1 = enc_field f2 ++ r2 -> f1 = f2 /\ r1 = r2.
Proof.
  unfold enc_field, short. intros H1 H2 H. rewrite <- !app_assoc in H.
  apply app_inj_1 in H as [Hl H]; [|by rewrite !length_be_bytes].
  apply be_bytes_inj in Hl. rewrite !Z.mod_small in Hl by lia.
  apply app_inj_1 in H; [done|lia].
Qed.

Lemma be_app_inj n x y r1 r2 :
  be_bytes n x ++ r1 = be_bytes n y ++ r2 ->
  be_bytes n x = be_bytes n y /\ r1 = r2.
Proof. intros H. apply app_inj_1 in H; [done|by rewrite !length_be_bytes]. Qed.

Lemma bytes_of_inj s1 s2 : bytes_of s1 = bytes_of s2 -> s1 = s2.
Proof.
  intros H. rewrite <- (String.string_of_list_byte_of_string s1).
  unfold bytes_of in H. by rewrite H, String.string_of_list_byte_of_string.
Qed.

Lemma length_bytes_of s : length (bytes_of s) = String.length s.
Proof. induction s as [|a s IH]; simpl; [done|]. by rewrite <- IH. Qed.

Lemma array32_Some b a : array32 b = Some a <-> a = b /\ length b = 32%nat.
Proof. unfold array32. case_decide; naive_solver. Qed.

(** ** Generic lemmas: strings *)

Lemma append_nil_l s : String.append "" s = s.
Proof. done. Qed.

Lemma append_cons a s t : String.append (String a s) t = String a (String.append s t).
Proof. done. Qed.

Lemma append_assoc (a b c : string) : (a +:+ b) +:+ c = a +:+ (b +:+ c).
Proof. induction a as [|x a IH]; [done|]. by rewrite !append_cons, IH. Qed.

Lemma strip_prefix_app p s : strip_prefix p (p +:+ s) = Some s.
Proof.
  induction p as [|a p IH]; [done|].
  rewrite append_cons. simpl. by rewrite decide_True.
Qed.

Lemma strip_prefix_Some p s r : strip_prefix p s = Some r <-> s = p +:+ r.
Proof.
  split; [|intros ->; apply strip_prefix_app].
  revert s. induction p as [|a p IH]; intros s; simpl; [naive_solver|].
  destruct s as [|b s]; [done|]. case_decide as Hd; [|done].
  intros Hs%IH. by subst.
Qed.

Lemma split_once_app c l r :
  has_char c l = false -> split_once c (l +:+ String c r) = Some (l, r).
Proof.
  induction l as [|a l IH].
  - intros _. rewrite append_nil_l. simpl. by rewrite decide_True.
  - rewrite append_cons. simpl. intros [Ha Hl]%orb_false_iff.
    bool_to_prop. rewrite decide_False by done. by rewrite IH.
Qed.

Lemma split_once_Some c s l r :
  split_once c s = Some (l, r) -> s = l +:+ String c r /\ has_char c l = false.
Proof.
  revert l. induction s as [|a s IH]; intros l; simpl; [done|].
  case_decide as Hd.
  - intros [= <- <-]. subst. by rewrite append_nil_l.
  - destruct (split_once c s) as [[l' r']|] eqn:E; [|done].
    intros [= <- <-]. destruct (IH l' eq_refl) as [-> Hl].
    rewrite append_cons. split; [done|]. simpl. rewrite Hl.
    by rewrite bool_decide_eq_false_2.
Qed.

Lemma has_char_app c s t : has_char c (s +:+ t) = has_char c s || has_char c t.
Proof.
  induction s as [|a s IH]; [done|]. rewrite append_cons. simpl. rewrite IH.
  by rewrite orb_assoc.
Qed.

Lemma has_char_remove c d s :
  has_char c s = false -> has_char c (remove_char d s) = false.
Proof.
  induction s as [|a s IH]; [done|]. simpl. intros [Ha Hs]%orb_false_iff.
  destruct (decide (a = d)); [auto|]. simpl. by rewrite Ha, (IH Hs).
Qed.

Lemma has_char_remove_eq c s : has_char c (remove_char c s) = false.
Proof.
  induction s as [|a s IH]; [done|]. simpl. case_decide; [done|].
  simpl. by rewrite bool_decide_eq_false_2.
Qed.

Lemma remove_char_fixed c s : has_char c s = false -> remove_char c s = s.
Proof.
  induction s as [|a s IH]; [done|]. simpl. intros [Ha Hs]%orb_false_iff.
  bool_to_prop. by rewrite decide_False, IH.
Qed.

Lemma append_inj_l (p s t : string) : p +:+ s = p +:+ t -> s = t.
Proof. induction p as [|a p IH]; [done|]. rewrite !append_cons. intros [=]. auto. Qed.

#[export] Hint Rewrite append_nil_l append_cons append_assoc : osa_str.

(** ** Generic lemmas: finite sets *)

Lemma size_list_to_set_le {A} `{Countable A} (l : list A) :
  (size (list_to_set l : gset A) <= length l)%nat.
Proof.
  induction l as [|x l IH]; cbn [list_to_set length]; [by rewrite size_empty|].
  rewrite size_union_alt, size_singleton.
  assert (size ((list_to_set l : gset A) ∖ {[x]}) <= size (list_to_set l : gset A))%nat
    by (apply subseteq_size; set_solver).
  lia.
Qed.
