(* ===== verification/Proto.v ===== *)
(** * The shared IDL (osa-proto) and the libraries the program calls

    The message types of [osa.proto] as the generated Rust types have them, the
    domain newtypes of [osa-core/src/domain.rs], the port errors, and the
    interfaces of code that is not part of the repository: protobuf encoding
    (prost), UUID text forms (uuid) and the cryptographic primitives (sha2, hkdf,
    aes-gcm, x25519-dalek, p256).  Each interface is a class of operations with a
    class of laws stating the documented behaviour the program relies on. *)
From S2P Require Import Prelude.

(** ** Identifiers (domain.rs) *)

(** A UUID is a 128-bit value. *)
Abbreviation Uuid := (bint 0 (2 ^ 128)).
#[global] Instance uuid_bounds : Bounds 0 (2 ^ 128) := eq_refl.

Record HostId := mkHostId { host_uuid : Uuid }.
#[global] Instance HostId_eq_dec : EqDecision HostId.
Proof. solve_decision. Defined.
#[global] Program Instance HostId_countable : Countable HostId :=
  inj_countable' host_uuid mkHostId _.
Next Obligation. by intros []. Qed.

(** Errors crossing a port boundary (ports.rs). *)
Inductive PortError :=
| Transport (msg : string)
| Denied
| NotFound
| Invalid (msg : string)
| Backend (msg : string).
#[global] Instance PortError_eq_dec : EqDecision PortError.
Proof. solve_decision. Defined.

(** ** Control-channel messages *)

Inductive Kind := KindUnspecified | KindControl | KindStream.
#[global] Instance Kind_eq_dec : EqDecision Kind.
Proof. solve_decision. Defined.

(** The discriminant [kind as i32]. *)
Definition kind_i32 (k : Kind) : i32 :=
  wrap (match k with KindUnspecified => 0 | KindControl => 1 | KindStream => 2 end).

Record Envelope := mkEnvelope {
  env_host_id : string;
  env_sid : string;
  env_seq : u64;
  env_kind : i32;
  env_ciphertext : bytes
}.

Record ClientHello := mkClientHello {
  ch_sid : string;
  ch_client_eph : bytes;
  ch_cert_der : bytes;
  ch_sig : bytes;
  ch_epoch : u64
}.

Record ServerHello := mkServerHello {
  sh_sid : string;
  sh_server_eph : bytes;
  sh_sig : bytes
}.

Record ActionDescriptor := mkAction {
  ad_kind : string;
  ad_target : string;
  ad_run_as : string;
  ad_params_hash : bytes
}.

Record Dispatch := mkDispatch {
  d_job_id : string;
  d_kind : string;
  d_run_as : string;
  d_params : bytes
}.

Record ExecParams := mkExecParams { ep_argv : list string }.
Record ShellParams := mkShellParams { sp_rows : u32; sp_cols : u32 }.
Record StreamFrame := mkFrame { sf_data : bytes; sf_eof : bool }.

Inductive Terminal :=
| ExitCode (code : i32)
| Signal (sig : i32)
| TermError (msg : string).

Record JobOutcome := mkOutcome {
  jo_terminal : option Terminal;
  jo_output_truncated : bool;
  jo_timed_out : bool
}.

Inductive OutStream := StreamUnspecified | Stdout | Stderr.

Definition stream_i32 (s : OutStream) : i32 :=
  wrap (match s with StreamUnspecified => 0 | Stdout => 1 | Stderr => 2 end).

Record OutputChunk := mkChunk { oc_stream : i32; oc_data : bytes }.

Inductive Body :=
| BChunk (c : OutputChunk)
| BOutcome (o : JobOutcome).

Record JobResult := mkResult { jr_job_id : string; jr_body : option Body }.

Record InventorySystem := mkSystem {
  is_hostname : string; is_os : string; is_kernel : string;
  is_cpu_count : u64; is_memory_bytes : u64
}.
Record InventoryInterface := mkIface {
  ii_name : string; ii_mac : string; ii_ip_addresses : list string
}.
Record InventoryGap := mkGap { ig_field : string; ig_reason : string }.
Record Inventory := mkInventory {
  inv_dmi_serial : option string;
  inv_system : option InventorySystem;
  inv_interfaces : list InventoryInterface;
  inv_gaps : list InventoryGap
}.

(** ** Operator-facing messages *)

Record DispatchRequest := mkDispatchRequest {
  dr_action : option ActionDescriptor;
  dr_params : bytes
}.
Inductive ExecEventBody := EvChunk (c : OutputChunk) | EvOutcome (o : JobOutcome).
Record ExecEvent := mkExecEvent { ee_host_id : string; ee_event : option ExecEventBody }.

Record ShellOpen := mkShellOpen {
  so_host_id : string; so_run_as : string; so_rows : u32; so_cols : u32
}.
Inductive ShellClientMsg := CmOpen (o : ShellOpen) | CmInput (d : bytes) | CmClose (b : bool).
Inductive ShellServerMsg := SmOutput (d : bytes) | SmClosed (b : bool).

(** The exported audit entry of the wire protocol. *)
Record WireAuditEntry := mkWireAudit {
  wa_seq : u64; wa_ts_unix : i64; wa_subject : string; wa_kind : string;
  wa_target : string; wa_run_as : string; wa_decision : string;
  wa_prev_hash : bytes; wa_hash : bytes
}.

#[global] Instance Envelope_eq_dec : EqDecision Envelope.
Proof. solve_decision. Defined.
#[global] Instance ActionDescriptor_eq_dec : EqDecision ActionDescriptor.
Proof. solve_decision. Defined.
#[global] Instance Dispatch_eq_dec : EqDecision Dispatch.
Proof. solve_decision. Defined.
#[global] Instance StreamFrame_eq_dec : EqDecision StreamFrame.
Proof. solve_decision. Defined.
#[global] Instance Terminal_eq_dec : EqDecision Terminal.
Proof. solve_decision. Defined.
#[global] Instance JobOutcome_eq_dec : EqDecision JobOutcome.
Proof. solve_decision. Defined.
#[global] Instance OutputChunk_eq_dec : EqDecision OutputChunk.
Proof. solve_decision. Defined.
#[global] Instance Body_eq_dec : EqDecision Body.
Proof. solve_decision. Defined.
#[global] Instance JobResult_eq_dec : EqDecision JobResult.
Proof. solve_decision. Defined.

(** ** Protobuf encoding (prost) *)

Class Codec (M : Type) := {
  encode_msg : M -> bytes;
  decode_msg : bytes -> result M string  (** the error renders the decode failure *)
}.

Class CodecLaw (M : Type) `{Codec M} :=
  decode_encode : forall m : M, decode_msg (encode_msg m) = Ok m.

(** The messages that travel as bytes. *)
Class Prost := {
  #[global] prost_envelope :: Codec Envelope;
  #[global] prost_client_hello :: Codec ClientHello;
  #[global] prost_server_hello :: Codec ServerHello;
  #[global] prost_dispatch :: Codec Dispatch;
  #[global] prost_exec_params :: Codec ExecParams;
  #[global] prost_shell_params :: Codec ShellParams;
  #[global] prost_stream_frame :: Codec StreamFrame;
  #[global] prost_job_result :: Codec JobResult;
  #[global] prost_job_outcome :: Codec JobOutcome;
  #[global] prost_inventory :: Codec Inventory
}.

Class ProstLaws `{Prost} := {
  #[global] law_envelope :: CodecLaw Envelope;
  #[global] law_client_hello :: CodecLaw ClientHello;
  #[global] law_server_hello :: CodecLaw ServerHello;
  #[global] law_dispatch :: CodecLaw Dispatch;
  #[global] law_exec_params :: CodecLaw ExecParams;
  #[global] law_shell_params :: CodecLaw ShellParams;
  #[global] law_stream_frame :: CodecLaw StreamFrame;
  #[global] law_job_result :: CodecLaw JobResult;
  #[global] law_job_outcome :: CodecLaw JobOutcome;
  #[global] law_inventory :: CodecLaw Inventory
}.

(** ** UUID text forms (uuid crate) *)

Class UuidLib := {
  uuid_to_string : Uuid -> string;   (** [Display]: lowercase, hyphenated *)
  uuid_simple : Uuid -> string;      (** [simple()]: lowercase, no hyphens *)
  uuid_parse : string -> option Uuid (** [parse_str] / [FromStr] *)
}.

Class UuidLaws `{UuidLib} := {
  uuid_parse_to_string : forall u, uuid_parse (uuid_to_string u) = Some u;
  uuid_parse_simple : forall u, uuid_parse (uuid_simple u) = Some u;
  uuid_simple_spec : forall u, uuid_simple u = remove_char "-" (uuid_to_string u);
  uuid_no_slash : forall u, has_char "/" (uuid_to_string u) = false;
  uuid_simple_nonempty : forall u, uuid_simple u <> EmptyString;
  uuid_to_string_length : forall u, String.length (uuid_to_string u) = 36%nat
}.

(** ** Cryptographic primitives *)

(** [sha256] (sha2), HKDF-SHA256 (hkdf), AES-256-GCM (aes-gcm), X25519
    (x25519-dalek) and ECDSA P-256 (p256).  Keys and digests are byte strings. *)
Class Crypto := {
  sha256 : bytes -> bytes;
  hkdf : forall (salt ikm info : bytes), bytes;       (** extract, then expand to 32 bytes *)
  hkdf_expand : forall (prk info : bytes), bytes;     (** expand to 32 bytes *)
  aead_encrypt : forall (key nonce aad msg : bytes), bytes;
  aead_decrypt : forall (key nonce aad ct : bytes), option bytes;
  x25519_public : bytes -> bytes;
  x25519_dh : forall (secret public : bytes), bytes;
  was_contributory : bytes -> bool;
  ecdsa_sign : forall (key_pem : string) (msg : bytes), option bytes; (** [None]: the PEM does not load *)
  ecdsa_key_loads : bytes -> bool;                    (** [VerifyingKey::from_sec1_bytes] *)
  ecdsa_sig_parses : bytes -> bool;                   (** [Signature::from_slice] *)
  ecdsa_verify : forall (key_sec1 msg sig : bytes), bool;
  ecdsa_public : string -> bytes                      (** the SEC1 public key of a PEM key *)
}.

Class CryptoLaws `{Crypto} := {
  sha256_length : forall m, length (sha256 m) = 32%nat;
  aead_correct : forall k n a m, aead_decrypt k n a (aead_encrypt k n a m) = Some m;
  x25519_public_length : forall s, length (x25519_public s) = 32%nat;
  x25519_comm : forall s t,
    x25519_dh s (x25519_public t) = x25519_dh t (x25519_public s);
  ecdsa_correct : forall pem msg sig,
    ecdsa_sign pem msg = Some sig ->
    ecdsa_key_loads (ecdsa_public pem) = true /\ ecdsa_sig_parses sig = true /\
    ecdsa_verify (ecdsa_public pem) msg sig = true
}.
