(* ===== verification/Concrete.v ===== *)
(** * Concrete instances of the library interfaces

    A self-delimiting byte encoding of every message, a UUID text form and a
    transparent model of the cryptographic primitives.  They satisfy the laws of
    [Proto] and make the model executable: the witnesses of the properties that
    assume those laws evaluate the program on concrete inputs with them. *)
From Stdlib Require Import Strings.Byte.
From S2P Require Import Prelude Proto.

(** ** Self-delimiting frames: each byte is preceded by 1, the end is 0. *)

Fixpoint frame (b : bytes) : bytes :=
  match b with
  | [] => [x00]
  | x :: b' => x01 :: x :: frame b'
  end.

Fixpoint unframe (b : bytes) : option (bytes * bytes) :=
  match b with
  | x00 :: r => Some ([], r)
  | x01 :: x :: r =>
      match unframe r with Some (f, r') => Some (x :: f, r') | None => None end
  | _ => None
  end.

Fixpoint pos_bytes (p : positive) : bytes :=
  match p with xH => [] | xO q => x00 :: pos_bytes q | xI q => x01 :: pos_bytes q end.

Fixpoint bytes_pos (b : bytes) : option positive :=
  match b with
  | [] => Some xH
  | x00 :: r => xO <$> bytes_pos r
  | x01 :: r => xI <$> bytes_pos r
  | _ => None
  end.

(** ** Serializers *)

Class Ser (A : Type) := {
  ser : A -> bytes;
  deser : bytes -> option A;
  deser_ser : forall a, deser (ser a) = Some a
}.

Lemma unframe_frame b r : unframe (frame b ++ r) = Some (b, r).
Proof. induction b as [|x b IH]; simpl; [done|]. by rewrite IH. Qed.

Lemma bytes_pos_pos p : bytes_pos (pos_bytes p) = Some p.
Proof. induction p as [p IH|p IH|]; simpl; rewrite ?IH; done. Qed.

#[global] Instance ser_bytes : Ser bytes := {| ser b := b; deser b := Some b; deser_ser _ := eq_refl |}.

#[global] Instance ser_string : Ser string.
Proof.
  refine
  {| ser := bytes_of; deser b := Some (String.string_of_list_byte b) |}.
  abstract (intros s; simpl; f_equal; apply String.string_of_list_byte_of_string).
Defined.

#[global] Instance ser_bool : Ser bool.
Proof.
  refine
  {| ser (b : bool) := if b then [x01] else []; deser l := Some (match l with [] => false | _ => true end) |}.
  abstract (by intros []).
Defined.

#[global] Instance ser_bint {lo hi} : Ser (bint lo hi).
Proof.
  refine
  {| ser z := pos_bytes (encode z); deser l := bytes_pos l ≫= decode |}.
  abstract (intros z; cbv beta; rewrite bytes_pos_pos; apply countable.decode_encode).
Defined.

#[global] Instance ser_pair {A B} `{Ser A, Ser B} : Ser (A * B).
Proof.
  refine
  {| ser p := frame (ser p.1) ++ ser p.2;
     deser l := match unframe l with
                | Some (x, y) =>
                    match deser x, deser y with Some a, Some b => Some (a, b) | _, _ => None end
                | None => None
                end |}.
  abstract (intros [a b]; simpl; by rewrite unframe_frame, !deser_ser).
Defined.

#[global] Instance ser_option {A} `{Ser A} : Ser (option A).
Proof.
  refine
  {| ser o := match o with None => [] | Some a => x01 :: ser a end;
     deser l := match l with [] => Some None | _ :: r => Some <$> deser r end |}.
  abstract (intros [a|]; simpl; [by rewrite deser_ser|done]).
Defined.

#[global] Instance ser_sum {A B} `{Ser A, Ser B} : Ser (A + B).
Proof.
  refine
  {| ser s := match s with inl a => x00 :: ser a | inr b => x01 :: ser b end;
     deser l := match l with
                | x00 :: r => inl <$> deser r
                | x01 :: r => inr <$> deser r
                | _ => None
                end |}.
  abstract (intros [a|b]; simpl; by rewrite deser_ser).
Defined.

Fixpoint ser_seq {A} `{Ser A} (l : list A) : bytes :=
  match l with [] => [] | a :: l' => frame (ser a) ++ ser_seq l' end.

Fixpoint deser_seq {A} `{Ser A} (fuel : nat) (b : bytes) : option (list A) :=
  match fuel, b with
  | _, [] => Some []
  | O, _ => None
  | S f, _ =>
      match unframe b with
      | Some (x, r) =>
          match deser x, deser_seq f r with Some a, Some l => Some (a :: l) | _, _ => None end
      | None => None
      end
  end.

Lemma deser_seq_ser {A} `{Ser A} (l : list A) fuel :
  (length (ser_seq l) <= fuel)%nat -> deser_seq fuel (ser_seq l) = Some l.
Proof.
  revert fuel. induction l as [|a l IH]; intros fuel Hf; [by destruct fuel|].
  cbn [ser_seq] in *. rewrite length_app in Hf.
  assert (1 <= length (frame (ser a)))%nat by (destruct (ser a); simpl; lia).
  destruct fuel as [|fuel]; [lia|].
  destruct (frame (ser a) ++ ser_seq l) as [|x r] eqn:E.
  { apply app_eq_nil in E as [E _]. rewrite E in *. simpl in *. lia. }
  cbn [deser_seq]. rewrite <- E, unframe_frame, deser_ser, IH by lia. done.
Qed.

#[global] Instance ser_list {A} `{Ser A} : Ser (list A) | 5.
Proof.
  refine
  {| ser := ser_seq; deser b := deser_seq (length b) b |}.
  abstract (intros l; by apply deser_seq_ser).
Defined.

Ltac iso := let m := fresh in intros m; destruct m; reflexivity.

Definition ser_iso {M T} `{Ser T} (to : M -> T) (from : T -> M)
    (Hft : forall m, from (to m) = m) : Ser M.
Proof.
  refine {| ser m := ser (to m); deser b := from <$> deser b |}.
  intros m. rewrite deser_ser. simpl. by rewrite Hft.
Defined.

#[global] Instance ser_envelope : Ser Envelope :=
  ser_iso (fun e => (env_host_id e, (env_sid e, (env_seq e, (env_kind e, env_ciphertext e)))))
    (fun '(a, (b, (c, (d, e)))) => mkEnvelope a b c d e) ltac:(iso).
#[global] Instance ser_client_hello : Ser ClientHello :=
  ser_iso (fun h => (ch_sid h, (ch_client_eph h, (ch_cert_der h, (ch_sig h, ch_epoch h)))))
    (fun '(a, (b, (c, (d, e)))) => mkClientHello a b c d e) ltac:(iso).
#[global] Instance ser_server_hello : Ser ServerHello :=
  ser_iso (fun h => (sh_sid h, (sh_server_eph h, sh_sig h)))
    (fun '(a, (b, c)) => mkServerHello a b c) ltac:(iso).
#[global] Instance ser_dispatch : Ser Dispatch :=
  ser_iso (fun d => (d_job_id d, (d_kind d, (d_run_as d, d_params d))))
    (fun '(a, (b, (c, d))) => mkDispatch a b c d) ltac:(iso).
#[global] Instance ser_exec_params : Ser ExecParams :=
  ser_iso ep_argv mkExecParams ltac:(iso).
#[global] Instance ser_shell_params : Ser ShellParams :=
  ser_iso (fun p => (sp_rows p, sp_cols p)) (fun '(a, b) => mkShellParams a b) ltac:(iso).
#[global] Instance ser_stream_frame : Ser StreamFrame :=
  ser_iso (fun f => (sf_eof f, sf_data f)) (fun '(a, b) => mkFrame b a) ltac:(iso).
#[global] Instance ser_terminal : Ser Terminal :=
  ser_iso (fun t => match t with ExitCode c => inl (inl c) | Signal s => inl (inr s) | TermError m => inr m end)
    (fun s => match s with inl (inl c) => ExitCode c | inl (inr c) => Signal c | inr m => TermError m end)
    ltac:(iso).
#[global] Instance ser_job_outcome : Ser JobOutcome :=
  ser_iso (fun o => (jo_terminal o, (jo_output_truncated o, jo_timed_out o)))
    (fun '(a, (b, c)) => mkOutcome a b c) ltac:(iso).
#[global] Instance ser_output_chunk : Ser OutputChunk :=
  ser_iso (fun c => (oc_stream c, oc_data c)) (fun '(a, b) => mkChunk a b) ltac:(iso).
#[global] Instance ser_body : Ser Body :=
  ser_iso (fun b => match b with BChunk c => inl c | BOutcome o => inr o end)
    (fun s => match s with inl c => BChunk c | inr o => BOutcome o end) ltac:(iso).
#[global] Instance ser_job_result : Ser JobResult :=
  ser_iso (fun r => (jr_job_id r, jr_body r)) (fun '(a, b) => mkResult a b) ltac:(iso).
#[global] Instance ser_inv_system : Ser InventorySystem :=
  ser_iso (fun s => (is_hostname s, (is_os s, (is_kernel s, (is_cpu_count s, is_memory_bytes s)))))
    (fun '(a, (b, (c, (d, e)))) => mkSystem a b c d e) ltac:(iso).
#[global] Instance ser_inv_iface : Ser InventoryInterface :=
  ser_iso (fun i => (ii_name i, (ii_mac i, ii_ip_addresses i)))
    (fun '(a, (b, c)) => mkIface a b c) ltac:(iso).
#[global] Instance ser_inv_gap : Ser InventoryGap :=
  ser_iso (fun g => (ig_field g, ig_reason g)) (fun '(a, b) => mkGap a b) ltac:(iso).
#[global] Instance ser_inventory : Ser Inventory :=
  ser_iso (fun i => (inv_dmi_serial i, (inv_system i, (inv_interfaces i, inv_gaps i))))
    (fun '(a, (b, (c, d))) => mkInventory a b c d) ltac:(iso).

Definition codec_of_ser {M} `{Ser M} : Codec M :=
  {| encode_msg := ser; decode_msg b := ok_or (deser b) "failed to decode Protobuf message" |}.

Lemma codec_of_ser_law {M} `{Ser M} : @CodecLaw M codec_of_ser.
Proof. intros m. simpl. by rewrite deser_ser. Qed.

Module Toy.

#[global] Instance prost : Prost := {|
  prost_envelope := codec_of_ser; prost_client_hello := codec_of_ser;
  prost_server_hello := codec_of_ser; prost_dispatch := codec_of_ser;
  prost_exec_params := codec_of_ser; prost_shell_params := codec_of_ser;
  prost_stream_frame := codec_of_ser; prost_job_result := codec_of_ser;
  prost_job_outcome := codec_of_ser; prost_inventory := codec_of_ser
|}.

#[global] Instance prost_laws : ProstLaws.
Proof. split; apply codec_of_ser_law. Qed.

(** *** UUID text: 32 lowercase hex digits, hyphens after 8, 12, 16 and 20. *)

Definition hex_digit (z : Z) : ascii :=
  ascii_of_N (Z.to_N (if z <? 10 then 48 + z else 87 + z)).
Definition hex_val (c : ascii) : option Z :=
  let n := Z.of_N (N_of_ascii c) in
  if (48 <=? n) && (n <=? 57) then Some (n - 48)
  else if (97 <=? n) && (n <=? 102) then Some (n - 87) else None.
Fixpoint hex_of (n : nat) (z : Z) : string :=
  match n with
  | O => EmptyString
  | S m => String (hex_digit ((z / 16 ^ Z.of_nat m) mod 16)) (hex_of m z)
  end.
Fixpoint hex_parse (acc : Z) (s : string) : option Z :=
  match s with
  | EmptyString => Some acc
  | String c s' => match hex_val c with Some d => hex_parse (acc * 16 + d) s' | None => None end
  end.
Definition hyphen_before (n : nat) : bool :=
  match n with 24%nat | 20%nat | 16%nat | 12%nat => true | _ => false end.
Fixpoint hex_hyphenated (n : nat) (z : Z) : string :=
  match n with
  | O => EmptyString
  | S m => let rest := String (hex_digit ((z / 16 ^ Z.of_nat m) mod 16)) (hex_hyphenated m z) in
           if hyphen_before n then String "-" rest else rest
  end.

#[global] Instance uuid_lib : UuidLib := {|
  uuid_to_string u := hex_hyphenated 32 (bval u);
  uuid_simple u := hex_of 32 (bval u);
  uuid_parse s :=
    let d := remove_char "-" s in
    if decide (String.length d = 32%nat) then hex_parse 0 d ≫= try_from else None
|}.

Lemma hex_val_digit z : 0 <= z < 16 -> hex_val (hex_digit z) = Some z.
Proof.
  intros H. unfold hex_digit, hex_val.
  destruct (Z.ltb_spec z 10); rewrite N_ascii_embedding by lia;
    rewrite Z2N.id by lia.
  - destruct (Z.leb_spec 48 (48 + z)), (Z.leb_spec (48 + z) 57); simpl; try lia.
    f_equal; lia.
  - destruct (Z.leb_spec 48 (87 + z)), (Z.leb_spec (87 + z) 57),
      (Z.leb_spec 97 (87 + z)), (Z.leb_spec (87 + z) 102); simpl; try lia.
    f_equal; lia.
Qed.

Lemma hex_digit_ne c z : 0 <= z < 16 -> hex_val c = None -> hex_digit z <> c.
Proof. intros Hz Hc <-. by rewrite hex_val_digit in Hc. Qed.

Lemma hex_parse_of n acc z :
  hex_parse acc (hex_of n z) = Some (acc * 16 ^ Z.of_nat n + z mod 16 ^ Z.of_nat n).
Proof.
  revert acc. induction n as [|n IH]; intros acc.
  - simpl. rewrite Z.mod_1_r. f_equal. lia.
  - cbn [hex_of hex_parse].
    rewrite hex_val_digit by (apply Z.mod_pos_bound; lia). rewrite IH. f_equal.
    rewrite Nat2Z.inj_succ, Z.pow_succ_r by lia.
    rewrite (Z.mul_comm 16 (16 ^ _)), (Z.rem_mul_r z) by lia. lia.
Qed.

Lemma length_hex_of n z : String.length (hex_of n z) = n.
Proof. induction n; simpl; auto. Qed.

Lemma has_char_hex c n z : hex_val c = None -> has_char c (hex_of n z) = false.
Proof.
  intros Hc. induction n as [|n IH]; [done|]. cbn [hex_of has_char]. rewrite IH.
  rewrite bool_decide_eq_false_2; [done|].
  apply hex_digit_ne; [apply Z.mod_pos_bound; lia|done].
Qed.

Lemma hex_hyphenated_strip n z : remove_char "-" (hex_hyphenated n z) = hex_of n z.
Proof.
  induction n as [|n IH]; [done|]. cbn [hex_hyphenated hex_of].
  assert (hex_digit ((z / 16 ^ Z.of_nat n) mod 16) <> "-"%char) as Hd.
  { apply hex_digit_ne; [apply Z.mod_pos_bound; lia|done]. }
  destruct (hyphen_before (S n)); cbn [remove_char].
  - rewrite decide_True by done. by rewrite decide_False, IH.
  - by rewrite decide_False, IH.
Qed.

Lemma has_slash_hyphenated n z : has_char "/" (hex_hyphenated n z) = false.
Proof.
  induction n as [|n IH]; [done|]. cbn [hex_hyphenated].
  assert (hex_digit ((z / 16 ^ Z.of_nat n) mod 16) <> "/"%char) as Hd.
  { apply hex_digit_ne; [apply Z.mod_pos_bound; lia|done]. }
  destruct (hyphen_before (S n)); cbn [has_char]; rewrite IH, (bool_decide_eq_false_2 (_ = _)) by done;
    rewrite ?bool_decide_eq_false_2 by done; done.
Qed.

Lemma parse_digits (u : Uuid) : hex_parse 0 (hex_of 32 (bval u)) ≫= try_from = Some u.
Proof.
  rewrite hex_parse_of. pose proof (bint_range u). cbn [mbind option_bind].
  apply try_from_Some. change (16 ^ Z.of_nat 32) with (2 ^ 128).
  rewrite Z.mod_small by lia. lia.
Qed.

#[global] Instance uuid_laws : UuidLaws.
Proof.
  split.
  - intros u. cbv beta iota zeta delta [uuid_parse uuid_to_string uuid_lib].
    rewrite hex_hyphenated_strip, length_hex_of, decide_True by done. apply parse_digits.
  - intros u. cbv beta iota zeta delta [uuid_parse uuid_simple uuid_lib].
    rewrite remove_char_fixed by by apply has_char_hex.
    rewrite length_hex_of, decide_True by done. apply parse_digits.
  - intros u. cbv beta iota zeta delta [uuid_simple uuid_to_string uuid_lib].
    by rewrite hex_hyphenated_strip.
  - intros u. apply has_slash_hyphenated.
  - intros u. discriminate.
  - intros u. reflexivity.
Qed.

(** *** Transparent cryptography: a ciphertext names its key, nonce and header. *)

Definition pad32 (b : bytes) : bytes := take 32 (b ++ replicate 32 x00).
Definition byte_add (a b : byte) : byte := byte_of_Z (byte_val a + byte_val b).

#[global] Instance crypto : Crypto := {|
  sha256 := pad32;
  hkdf salt ikm info := pad32 (info ++ ikm ++ salt);
  hkdf_expand prk info := frame prk ++ info;
  aead_encrypt k n a m := frame k ++ (frame n ++ (frame a ++ m));
  aead_decrypt k n a c :=
    match unframe c with
    | Some (k', c1) =>
        match unframe c1 with
        | Some (n', c2) =>
            match unframe c2 with
            | Some (a', m) => if decide (k' = k /\ n' = n /\ a' = a) then Some m else None
            | None => None
            end
        | None => None
        end
    | None => None
    end;
  x25519_public := pad32;
  x25519_dh s p := zip_with byte_add (pad32 s) p;
  was_contributory b := negb (bool_decide (b = replicate 32 x00));
  ecdsa_sign pem msg := if is_empty pem then None else Some (frame (bytes_of pem) ++ msg);
  ecdsa_key_loads k := negb (bool_decide (k = []));
  ecdsa_sig_parses s := negb (bool_decide (s = []));
  ecdsa_verify k msg s := bool_decide (s = frame k ++ msg);
  ecdsa_public := bytes_of
|}.

Lemma length_pad32 b : length (pad32 b) = 32%nat.
Proof. unfold pad32. rewrite length_take, length_app, length_replicate. lia. Qed.

Lemma zip_add_comm l k : zip_with byte_add l k = zip_with byte_add k l.
Proof.
  revert k. induction l as [|x l IH]; intros [|y k]; simpl; try done.
  f_equal; [|done]. unfold byte_add. by rewrite Z.add_comm.
Qed.

#[global] Instance crypto_laws : CryptoLaws.
Proof.
  split.
  - intros m. apply length_pad32.
  - intros k n a m. cbv beta iota delta [aead_decrypt aead_encrypt crypto].
    rewrite !unframe_frame. by rewrite decide_True.
  - intros s. apply length_pad32.
  - intros s t. apply zip_add_comm.
  - intros pem msg sig. cbv beta iota delta [ecdsa_sign ecdsa_key_loads ecdsa_sig_parses ecdsa_verify ecdsa_public crypto].
    destruct pem as [|c pem]; cbn [is_empty]; [done|]. intros [= <-].
    split; [|split]; [by rewrite bool_decide_eq_false_2 ..|by rewrite bool_decide_eq_true_2].
Qed.

End Toy.
