(* ===== verification/Topics.v ===== *)
(** * MQTT topic scheme (osa-core/src/topics.rs)

    Every topic of a host lives under [/tenants/<tenant>/], where the tenant is the
    host id with its hyphens stripped.  The agent builds topics from the host id;
    the coordinator recovers the tenant from the topic of a received message. *)
From S2P Require Import Prelude Proto Concrete.

Definition ROOT : string := "osa/v1".
Definition HEARTBEAT_FILTER : string := "/tenants/+/osa/v1/up/heartbeat".
Definition HS_UP_FILTER : string := "/tenants/+/osa/v1/up/hs".
Definition CTRL_UP_FILTER : string := "/tenants/+/osa/v1/up/ctrl".
Definition RESULT_UP_FILTER : string := "/tenants/+/osa/v1/up/result".
Definition STREAM_UP_FILTER : string := "/tenants/+/osa/v1/up/stream".
Definition INVENTORY_UP_FILTER : string := "/tenants/+/osa/v1/up/inventory".

Definition tenant (host_id : string) : string := remove_char "-" host_id.
Definition tenant_prefix (host_id : string) : string := "/tenants/" +:+ (tenant host_id +:+ "/").

Definition heartbeat (host_id : string) : string := tenant_prefix host_id +:+ (ROOT +:+ "/up/heartbeat").
Definition hs_up (host_id : string) : string := tenant_prefix host_id +:+ (ROOT +:+ "/up/hs").
Definition hs_down (host_id : string) : string := tenant_prefix host_id +:+ (ROOT +:+ "/down/hs").
Definition ctrl_up (host_id : string) : string := tenant_prefix host_id +:+ (ROOT +:+ "/up/ctrl").
Definition ctrl_down (host_id : string) : string := tenant_prefix host_id +:+ (ROOT +:+ "/down/ctrl").
Definition dispatch_down (host_id : string) : string := tenant_prefix host_id +:+ (ROOT +:+ "/down/dispatch").
Definition result_up (host_id : string) : string := tenant_prefix host_id +:+ (ROOT +:+ "/up/result").
Definition stream_down (host_id : string) : string := tenant_prefix host_id +:+ (ROOT +:+ "/down/stream").
Definition stream_up (host_id : string) : string := tenant_prefix host_id +:+ (ROOT +:+ "/up/stream").
Definition inventory_up (host_id : string) : string := tenant_prefix host_id +:+ (ROOT +:+ "/up/inventory").

Definition tenant_for_tail (topic tail : string) : option string :=
  let! rest := strip_prefix "/tenants/" topic in
  let! p := split_once "/" rest in
  let (ten, rest_tail) := p in
  if bool_decide (rest_tail = tail) && negb (is_empty ten) then Some ten else None.

Definition tenant_from_heartbeat (topic : string) := tenant_for_tail topic "osa/v1/up/heartbeat".
Definition tenant_from_hs_up (topic : string) := tenant_for_tail topic "osa/v1/up/hs".
Definition tenant_from_ctrl_up (topic : string) := tenant_for_tail topic "osa/v1/up/ctrl".
Definition tenant_from_result_up (topic : string) := tenant_for_tail topic "osa/v1/up/result".
Definition tenant_from_stream_up (topic : string) := tenant_for_tail topic "osa/v1/up/stream".
Definition tenant_from_inventory_up (topic : string) := tenant_for_tail topic "osa/v1/up/inventory".

(** ** Specification *)

(** A host id usable in a topic: no level separator, and a non-empty tenant. *)
Definition routable (host_id : string) : Prop :=
  has_char "/" host_id = false /\ tenant host_id <> EmptyString.

(** What the broker guarantees of a publish (validate-tenant-prefix): the topic is
    under the prefix of the client certificate's organization. *)
Definition confined (host_id topic : string) : Prop :=
  exists rest, topic = tenant_prefix host_id +:+ rest.

(** The MQTT [+] wildcard: the filter's literal levels, any single level for [+]. *)
Fixpoint filter_levels (f t : list string) : bool :=
  match f, t with
  | [], [] => true
  | x :: f', y :: t' => (bool_decide (x = "+") || bool_decide (x = y)) && filter_levels f' t'
  | _, _ => false
  end.
Definition filter_matches (flt topic : string) : bool :=
  filter_levels (split_on "/" flt) (split_on "/" topic).

(** ** Lemmas *)

Lemma tenant_no_slash h : has_char "/" h = false -> has_char "/" (tenant h) = false.
Proof. apply has_char_remove. Qed.

Lemma prefix_shape h rest :
  tenant_prefix h +:+ rest = "/tenants/" +:+ (tenant h +:+ String "/" rest).
Proof. unfold tenant_prefix. by rewrite !append_assoc. Qed.

Lemma is_empty_false s : s <> EmptyString <-> is_empty s = false.
Proof. by destruct s. Qed.

(** Parsing any topic of a host: the tail decides, and the tenant is the host's. *)
Lemma tenant_for_tail_topic h rest tail :
  routable h ->
  tenant_for_tail (tenant_prefix h +:+ rest) tail =
  if decide (rest = tail) then Some (tenant h) else None.
Proof.
  intros [Hs Hne]. unfold tenant_for_tail.
  rewrite prefix_shape, strip_prefix_app, split_once_app by by apply tenant_no_slash.
  apply is_empty_false in Hne. rewrite Hne. simpl. rewrite andb_true_r.
  destruct (decide (rest = tail)); [by rewrite bool_decide_eq_true_2|by rewrite bool_decide_eq_false_2].
Qed.

Lemma tenant_for_tail_Some topic tail t :
  tenant_for_tail topic tail = Some t ->
  topic = "/tenants/" +:+ (t +:+ String "/" tail) /\ has_char "/" t = false /\ t <> EmptyString.
Proof.
  unfold tenant_for_tail.
  destruct (strip_prefix _ _) as [r|] eqn:E; [|done]. apply strip_prefix_Some in E as ->.
  destruct (split_once _ _) as [[l m]|] eqn:E2; [|done].
  apply split_once_Some in E2 as [-> Hl].
  destruct (_ && _) eqn:Hb; [|done]. intros [= <-]. bool_to_prop. subst.
  split; [done|]. split; [done|]. by apply is_empty_false.
Qed.

Lemma uuid_routable `{UuidLaws} u : routable (uuid_to_string u).
Proof.
  split; [apply uuid_no_slash|]. unfold tenant. rewrite <- uuid_simple_spec.
  apply uuid_simple_nonempty.
Qed.

#[export] Hint Resolve uuid_routable : osa.

Lemma split_on_cons_char c s : split_on c (String c s) = EmptyString :: split_on c s.
Proof. simpl. by rewrite decide_True. Qed.

Lemma split_on_app c l r :
  has_char c l = false -> split_on c (l +:+ String c r) = l :: split_on c r.
Proof.
  induction l as [|a l IH].
  - intros _. rewrite append_nil_l. apply split_on_cons_char.
  - rewrite append_cons. simpl. intros [Ha Hl]%orb_false_iff. bool_to_prop.
    rewrite decide_False by done. by rewrite IH.
Qed.

(** The filter with one wildcard level matches exactly the tails it names. *)
Lemma filter_host h tail :
  has_char "/" h = false ->
  filter_levels (split_on "/" ("/tenants/+/" +:+ tail)) (split_on "/" (tenant_prefix h +:+ tail)) =
  filter_levels (split_on "/" tail) (split_on "/" tail).
Proof.
  intros Hs. rewrite prefix_shape.
  change ("/tenants/+/" +:+ tail) with ("" +:+ String "/" ("tenants" +:+ String "/" ("+" +:+ String "/" tail))).
  change ("/tenants/" +:+ (tenant h +:+ String "/" tail))
    with ("" +:+ String "/" ("tenants" +:+ String "/" (tenant h +:+ String "/" tail))).
  rewrite !split_on_app by (done || by apply tenant_no_slash). done.
Qed.

(** ** Properties *)

(** Every uplink topic of a host parses back to exactly that host's tenant,
    under its own parser and under no other: the six message kinds are disjoint. *)
Theorem uplink_topics_roundtrip (h : string) :
  routable h ->
  let topics := [heartbeat h; hs_up h; ctrl_up h; result_up h; stream_up h; inventory_up h] in
  let parsers := [tenant_from_heartbeat; tenant_from_hs_up; tenant_from_ctrl_up;
                  tenant_from_result_up; tenant_from_stream_up; tenant_from_inventory_up] in
  forall i j f t, parsers !! i = Some f -> topics !! j = Some t ->
  f t = if decide (i = j) then Some (tenant h) else None.
Proof.
  intros Hr topics parsers i j f t Hi Hj. subst topics parsers.
  repeat (destruct i as [|i]; simpl in Hi; simplify_eq);
  repeat (destruct j as [|j]; simpl in Hj; simplify_eq);
  (etransitivity; [apply tenant_for_tail_topic; exact Hr|reflexivity]).
Qed.

Lemma uplink_topics_roundtrip_witness :
  routable "11111111-2222-4333-8444-555555555555" /\
  tenant_from_hs_up (hs_up "11111111-2222-4333-8444-555555555555")
    = Some "11111111222243338444555555555555" /\
  tenant_from_heartbeat (hs_up "11111111-2222-4333-8444-555555555555") = None.
Proof.
  assert (routable "11111111-2222-4333-8444-555555555555") as Hr by (split; [reflexivity|discriminate]).
  split; [exact Hr|]. split.
  - exact (uplink_topics_roundtrip _ Hr 1%nat 1%nat _ _ eq_refl eq_refl).
  - exact (uplink_topics_roundtrip _ Hr 0%nat 1%nat _ _ eq_refl eq_refl).
Defined.

(** Publisher identity: a topic the broker accepted from a host (it is confined
    to that host's prefix) can only ever be attributed to that host's tenant, and the
    tenant determines the UUID: two hosts with the same tenant are the same host. *)
Theorem confined_topic_names_its_host `{UuidLaws} (u v : Uuid) (topic tail : string) (t : string) :
  confined (uuid_to_string u) topic ->
  tenant_for_tail topic tail = Some t ->
  t = uuid_simple u /\ (tenant (uuid_to_string v) = t -> v = u).
Proof.
  intros [rest ->] Ht. rewrite tenant_for_tail_topic in Ht by apply uuid_routable.
  destruct (decide (rest = tail)); simplify_eq. unfold tenant.
  rewrite <- !uuid_simple_spec. split; [done|]. intros Hv.
  apply (f_equal uuid_parse) in Hv. rewrite !uuid_parse_simple in Hv. congruence.
Qed.

Lemma confined_topic_names_its_host_witness :
  let u : Uuid := wrap 7 in
  confined (uuid_to_string u) (ctrl_up (uuid_to_string u)) /\
  tenant_from_ctrl_up (ctrl_up (uuid_to_string u)) = Some (uuid_simple u) /\
  uuid_simple u = uuid_simple u.
Proof.
  intros u.
  assert (confined (uuid_to_string u) (ctrl_up (uuid_to_string u))) as Hc by (eexists; reflexivity).
  assert (tenant_from_ctrl_up (ctrl_up (uuid_to_string u)) = Some (uuid_simple u)) as Ht by reflexivity.
  split; [exact Hc|]. split; [exact Ht|].
  exact (proj1 (confined_topic_names_its_host u u _ _ _ Hc Ht)).
Defined.

(** The subscription filters of the coordinator cover every host's uplinks. *)
Lemma filters_cover_uplinks h :
  has_char "/" h = false ->
  filter_matches HEARTBEAT_FILTER (heartbeat h) = true /\
  filter_matches HS_UP_FILTER (hs_up h) = true /\
  filter_matches CTRL_UP_FILTER (ctrl_up h) = true /\
  filter_matches RESULT_UP_FILTER (result_up h) = true /\
  filter_matches STREAM_UP_FILTER (stream_up h) = true /\
  filter_matches INVENTORY_UP_FILTER (inventory_up h) = true.
Proof.
  intros Hs. unfold filter_matches, heartbeat, hs_up, ctrl_up, result_up, stream_up, inventory_up.
  split_and!; (etransitivity; [apply (filter_host h _ Hs)|reflexivity]).
Qed.
