(* ===== verification/Seal.v ===== *)
(** * The payload seal and the wire codec (osa-core/src/seal.rs, wire.rs)

    Per-session and per-direction AES-256-GCM keys, the seq-derived nonce, the
    routing header bound as additional data, and the sealed envelope. *)
From Stdlib Require Import Strings.Byte.
From S2P Require Import Prelude Proto Concrete.

Inductive Direction := CoordToAgent | AgentToCoord.
#[global] Instance Direction_eq_dec : EqDecision Direction.
Proof. solve_decision. Defined.

Inductive HandshakeError := WeakPeerKey.
Inductive OpenError := AeadFailed.

Definition LABEL_C2A : bytes := bytes_of "osa/v1 c2a".
Definition LABEL_A2C : bytes := bytes_of "osa/v1 a2c".
Definition LABEL_STREAM : bytes := bytes_of "osa/v1 stream ".

(** One side's ephemeral X25519 secret and the public key it sends. *)
Record Handshake := mkHandshake { hs_secret : bytes; hs_public : bytes }.

Record SessionKeys := mkKeys { c2a : bytes; a2c : bytes }.

(** Lexicographic [<=] on byte arrays (the derived [Ord] of [[u8; 32]]). *)
Fixpoint bytes_leb (a b : bytes) : bool :=
  match a, b with
  | [], _ => true
  | _ :: _, [] => false
  | x :: a', y :: b' =>
      (byte_val x <? byte_val y) || ((byte_val x =? byte_val y) && bytes_leb a' b')
  end.

(** The 96-bit GCM nonce: four zero bytes, then [seq] big-endian. *)
Definition nonce (seq : u64) : bytes := replicate 4 x00 ++ be_bytes 8 (bval seq).

(** The AEAD additional data: the length-prefixed routing header. *)
Definition aad (host_id sid : string) (seq : u64) (kind : i32) : bytes :=
  enc_field (bytes_of host_id) ++ (enc_field (bytes_of sid) ++
  (be_bytes 8 (bval seq) ++ be_bytes 4 (bval kind))).

Definition CTRL_SESSION_READY : bytes := bytes_of "osa/v1 session-ready".
Definition CTRL_SESSION_ACK : bytes := bytes_of "osa/v1 session-ack".

(** Lowercase hex of a byte ([{b:02x}]). *)
Definition nibble_char (n : Z) : ascii :=
  ascii_of_N (Z.to_N (if n <? 10 then 48 + n else 87 + n)).
Definition hex_byte (b : byte) : string :=
  String (nibble_char (byte_val b / 16)) (String (nibble_char (byte_val b mod 16)) EmptyString).
Fixpoint to_hex (b : bytes) : string :=
  match b with [] => EmptyString | x :: b' => hex_byte x +:+ to_hex b' end.

Section Seal.
Context `{Crypto}.

(** [Handshake::new]: the seed is what the OS CSPRNG returned, [None] on failure. *)
Definition Handshake_new (seed : option bytes) : option Handshake :=
  let! s := seed in Some (mkHandshake s (x25519_public s)).

Definition from_shared (shared binding : bytes) : SessionKeys :=
  mkKeys (hkdf binding shared LABEL_C2A) (hkdf binding shared LABEL_A2C).

Definition derive (self : Handshake) (peer_public binding : bytes) : result SessionKeys HandshakeError :=
  let shared := x25519_dh (hs_secret self) peer_public in
  if negb (was_contributory shared) then Err WeakPeerKey
  else
    let '(lo, hi) :=
      if bytes_leb (hs_public self) peer_public
      then (hs_public self, peer_public) else (peer_public, hs_public self) in
    Ok (from_shared shared (binding ++ (lo ++ hi))).

Definition expand_stream (dir_key stream_id : bytes) : bytes :=
  hkdf_expand dir_key (LABEL_STREAM ++ stream_id).

Definition derive_stream (self : SessionKeys) (stream_id : bytes) : SessionKeys :=
  mkKeys (expand_stream (c2a self) stream_id) (expand_stream (a2c self) stream_id).

Definition cipher (self : SessionKeys) (dir : Direction) : bytes :=
  match dir with CoordToAgent => c2a self | AgentToCoord => a2c self end.

Definition seal (self : SessionKeys) (dir : Direction) (seq : u64) (ad plaintext : bytes) : bytes :=
  aead_encrypt (cipher self dir) (nonce seq) ad plaintext.

Definition open_sealed (self : SessionKeys) (dir : Direction) (seq : u64) (ad ct : bytes)
    : result bytes OpenError :=
  ok_or (aead_decrypt (cipher self dir) (nonce seq) ad ct) AeadFailed.

Definition params_hash (params : bytes) : bytes := sha256 params.
Definition sha256_hex (b : bytes) : string := to_hex (sha256 b).

Definition seal_envelope (keys : SessionKeys) (dir : Direction) (host_id sid : string)
    (seq : u64) (kind : Kind) (plaintext : bytes) : Envelope :=
  let k := kind_i32 kind in
  mkEnvelope host_id sid seq k (seal keys dir seq (aad host_id sid seq k) plaintext).

Definition open_envelope (keys : SessionKeys) (dir : Direction) (env : Envelope)
    : result bytes OpenError :=
  open_sealed keys dir (env_seq env)
    (aad (env_host_id env) (env_sid env) (env_seq env) (env_kind env)) (env_ciphertext env).

(** AEAD integrity: a ciphertext opens only under the nonce and additional data
    it was sealed with. *)
Class AeadBinding := aead_binding : forall k n a m n' a' m',
  aead_decrypt k n' a' (aead_encrypt k n a m) = Some m' -> n' = n /\ a' = a.

End Seal.
Arguments AeadBinding {_}.

Module ToySeal.
#[global] Instance toy_aead_binding : AeadBinding.
Proof.
  intros k n a m n' a' m'.
  cbv beta iota delta [aead_decrypt aead_encrypt Toy.crypto].
  rewrite !unframe_frame. case_decide; naive_solver.
Qed.
End ToySeal.

(** ** Lemmas *)

Lemma bytes_leb_total a b : bytes_leb a b = true \/ bytes_leb b a = true.
Proof.
  revert b. induction a as [|x a IH]; intros [|y b]; simpl; auto.
  rewrite !orb_true_iff, !andb_true_iff, !Z.ltb_lt, !Z.eqb_eq.
  destruct (IH b), (Z.lt_trichotomy (byte_val x) (byte_val y)) as [?|[?|?]]; intuition congruence.
Qed.

Lemma byte_val_inj x y : byte_val x = byte_val y -> x = y.
Proof.
  unfold byte_val. intros Hv%N2Z.inj.
  pose proof (Byte.of_to_N x) as Hx. pose proof (Byte.of_to_N y) as Hy. congruence.
Qed.

Lemma bytes_leb_antisym a b : bytes_leb a b = true -> bytes_leb b a = true -> a = b.
Proof.
  revert b. induction a as [|x a IH]; intros [|y b]; simpl; try done.
  rewrite !orb_true_iff, !andb_true_iff, !Z.ltb_lt, !Z.eqb_eq. intros Hab Hba.
  assert (x = y) as -> by (apply byte_val_inj; intuition lia).
  f_equal. apply IH; intuition lia.
Qed.

(** The canonical order is role-independent: both sides sort the pair alike. *)
Lemma canonical_pair_comm a b :
  (if bytes_leb a b then (a, b) else (b, a)) = (if bytes_leb b a then (b, a) else (a, b)).
Proof.
  destruct (bytes_leb a b) eqn:E1, (bytes_leb b a) eqn:E2; try done.
  - by rewrite (bytes_leb_antisym _ _ E1 E2).
  - destruct (bytes_leb_total a b); congruence.
Qed.

Lemma nonce_inj s t : nonce s = nonce t -> s = t.
Proof.
  unfold nonce. intros He%app_inv_head. by apply (be_bytes_bint_inj 8) in He.
Qed.

Lemma aad_inj h1 h2 s1 s2 q1 q2 k1 k2 :
  short (bytes_of h1) -> short (bytes_of h2) -> short (bytes_of s1) -> short (bytes_of s2) ->
  aad h1 s1 q1 k1 = aad h2 s2 q2 k2 -> h1 = h2 /\ s1 = s2 /\ q1 = q2 /\ k1 = k2.
Proof.
  intros Hh1 Hh2 Hs1 Hs2. unfold aad. intros He.
  apply enc_field_inj in He as [Hh He]; [|done..].
  apply enc_field_inj in He as [Hs He]; [|done..].
  apply be_app_inj in He as [Hq Hk].
  apply bytes_of_inj in Hh, Hs. apply (be_bytes_bint_inj 8) in Hq; [|done].
  apply (be_bytes_bint_inj 4) in Hk; done.
Qed.

Section SealLemmas.
Context `{CryptoLaws}.

Lemma open_seal keys dir seq ad pt :
  open_sealed keys dir seq ad (seal keys dir seq ad pt) = Ok pt.
Proof. unfold open_sealed, seal. by rewrite aead_correct. Qed.

Lemma open_seal_envelope keys dir h s q k pt :
  open_envelope keys dir (seal_envelope keys dir h s q k pt) = Ok pt.
Proof. apply open_seal. Qed.

(** Both sides of an exchange derive the same keys. *)
Lemma derive_comm s t binding :
  derive (mkHandshake s (x25519_public s)) (x25519_public t) binding =
  derive (mkHandshake t (x25519_public t)) (x25519_public s) binding.
Proof.
  unfold derive. simpl. rewrite (x25519_comm s t).
  destruct (was_contributory _); simpl; [|done].
  by rewrite (canonical_pair_comm (x25519_public s) (x25519_public t)).
Qed.

End SealLemmas.

(** ** Properties *)

(** Sealing then opening an envelope in the same direction under the same keys
    returns the plaintext, for any routing header, sequence number and kind. *)
Theorem envelope_roundtrip `{CryptoLaws} keys dir host sid seq kind plaintext :
  open_envelope keys dir (seal_envelope keys dir host sid seq kind plaintext) = Ok plaintext.
Proof. apply open_seal_envelope. Qed.

Lemma envelope_roundtrip_witness :
  let keys := mkKeys (bytes_of "kc2a") (bytes_of "ka2c") in
  open_envelope keys AgentToCoord
    (seal_envelope keys AgentToCoord "h" "s" (wrap 3) KindControl (bytes_of "hi")) = Ok (bytes_of "hi").
Proof. intros keys. apply envelope_roundtrip. Defined.

(** No splicing: an envelope carrying a ciphertext sealed for one routing header
    opens under the same key only if its whole cleartext header (host, session,
    sequence, kind) is the one it was sealed with, and then yields the plaintext that
    was sealed. *)
Theorem envelope_no_splice `{CryptoLaws} `{!AeadBinding} keys dir host sid seq kind plaintext env pt :
  short (bytes_of host) -> short (bytes_of sid) ->
  short (bytes_of (env_host_id env)) -> short (bytes_of (env_sid env)) ->
  env_ciphertext env = env_ciphertext (seal_envelope keys dir host sid seq kind plaintext) ->
  open_envelope keys dir env = Ok pt ->
  env = seal_envelope keys dir host sid seq kind plaintext /\ pt = plaintext.
Proof.
  intros Hh Hs Hh' Hs' Hct Ho.
  assert (env = seal_envelope keys dir host sid seq kind plaintext) as ->.
  { unfold open_envelope, open_sealed in Ho. rewrite Hct in Ho. simpl in Ho.
    unfold seal in Ho. destruct (aead_decrypt _ _ _ _) as [m|] eqn:E; simplify_eq/=.
    apply aead_binding in E as [_ Ha]. apply aad_inj in Ha as (? & ? & ? & ?); [|done..].
    destruct env; simpl in *. subst. done. }
  rewrite open_seal_envelope in Ho. by simplify_eq.
Qed.

Lemma envelope_no_splice_witness :
  let keys := mkKeys (bytes_of "kc2a") (bytes_of "ka2c") in
  let env := seal_envelope keys AgentToCoord "h" "s" (wrap 3) KindControl (bytes_of "hi") in
  open_envelope keys AgentToCoord env = Ok (bytes_of "hi") /\ env = env /\ bytes_of "hi" = bytes_of "hi".
Proof.
  intros keys env.
  assert (open_envelope keys AgentToCoord env = Ok (bytes_of "hi")) as Ho by reflexivity.
  split; [exact Ho|].
  apply (envelope_no_splice
           keys AgentToCoord "h" "s" (wrap 3) KindControl (bytes_of "hi") env (bytes_of "hi"));
    (reflexivity || exact Ho).
Defined.
