(* ===== verification/Handshake.v ===== *)
(** * Authenticated session handshake (osa-core/src/handshake.rs)

    Transcripts, ECDSA sign/verify and the signature-authenticated Diffie-Hellman
    key agreement of the agent ([Initiator]) and the coordinator ([respond]). *)
From S2P Require Import Prelude Proto Concrete Seal.

Inductive HsError :=
| BadKey
| BadPeerKey
| BadSignature
| BadEphemeral (e : HandshakeError)
| Rng.

Definition CLIENT_CTX : bytes := bytes_of "osa/v1 hs c2s".
Definition SERVER_CTX : bytes := bytes_of "osa/v1 hs s2c".

Definition push_field (buf field : bytes) : bytes := buf ++ enc_field field.

Definition client_transcript (sid : bytes) (epoch : u64) (client_eph : bytes) : bytes :=
  let t := CLIENT_CTX in
  let t := push_field t sid in
  let t := t ++ be_bytes 8 (bval epoch) in
  push_field t client_eph.

Definition server_transcript (sid client_eph server_eph : bytes) : bytes :=
  let t := SERVER_CTX in
  let t := push_field t sid in
  let t := push_field t client_eph in
  push_field t server_eph.

Definition session_binding (sid client_eph server_eph cert_der : bytes) : bytes :=
  let b := push_field [] sid in
  let b := push_field b client_eph in
  let b := push_field b server_eph in
  push_field b cert_der.

(** The agent's in-flight state between [ClientHello] and [ServerHello]. *)
Record Initiator := mkInitiator { ini_eph : Handshake; ini_sid : bytes; ini_cert_der : bytes }.

(** The signed content of a [ClientHello] (the message carries the certificate). *)
Record HelloContent := mkHello { hc_client_eph : bytes; hc_sig : bytes }.

Record ServerResponse := mkServerResponse {
  sr_server_eph : bytes; sr_sig : bytes; sr_keys : SessionKeys
}.

Section Handshake.
Context `{Crypto}.

Definition sign (signing_key_pem : string) (msg : bytes) : result bytes HsError :=
  ok_or (ecdsa_sign signing_key_pem msg) BadKey.

Definition verify_sig (public_key_sec1 msg sig : bytes) : result unit HsError :=
  if negb (ecdsa_key_loads public_key_sec1) then Err BadPeerKey
  else if negb (ecdsa_sig_parses sig) then Err BadSignature
  else if ecdsa_verify public_key_sec1 msg sig then Ok tt else Err BadSignature.

Definition Initiator_start (seed : option bytes) (sid : bytes) (epoch : u64) (cert_der : bytes)
    (signing_key_pem : string) : result (Initiator * HelloContent) HsError :=
  let? eph := ok_or (Handshake_new seed) Rng in
  let client_eph := hs_public eph in
  let? sig := sign signing_key_pem (client_transcript sid epoch client_eph) in
  Ok (mkInitiator eph sid cert_der, mkHello client_eph sig).

Definition Initiator_finish (self : Initiator) (server_eph server_sig ca_public_key_sec1 : bytes)
    : result SessionKeys HsError :=
  let client_eph := hs_public (ini_eph self) in
  let? _ := verify_sig ca_public_key_sec1
              (server_transcript (ini_sid self) client_eph server_eph) server_sig in
  let binding := session_binding (ini_sid self) client_eph server_eph (ini_cert_der self) in
  map_err BadEphemeral (derive (ini_eph self) server_eph binding).

Definition respond (seed : option bytes) (sid : bytes) (epoch : u64) (client_eph client_sig : bytes)
    (agent_public_key_sec1 cert_der : bytes) (ca_signing_key_pem : string)
    : result ServerResponse HsError :=
  let? _ := verify_sig agent_public_key_sec1 (client_transcript sid epoch client_eph) client_sig in
  let? eph := ok_or (Handshake_new seed) Rng in
  let server_eph := hs_public eph in
  let? sig := sign ca_signing_key_pem (server_transcript sid client_eph server_eph) in
  let binding := session_binding sid client_eph server_eph cert_der in
  let? keys := map_err BadEphemeral (derive eph client_eph binding) in
  Ok (mkServerResponse server_eph sig keys).

End Handshake.

(** ** Lemmas *)

Lemma push_field_app b f : push_field b f = b ++ enc_field f.
Proof. done. Qed.

Lemma client_transcript_inj sid1 sid2 e1 e2 k1 k2 :
  short sid1 -> short sid2 -> short k1 -> short k2 ->
  client_transcript sid1 e1 k1 = client_transcript sid2 e2 k2 ->
  sid1 = sid2 /\ e1 = e2 /\ k1 = k2.
Proof.
  intros H1 H2 H3 H4. unfold client_transcript, push_field. rewrite <- !app_assoc.
  intros He%app_inv_head. apply enc_field_inj in He as [-> He]; [|done..].
  apply be_app_inj in He as [Hq Hk]. apply (be_bytes_bint_inj 8) in Hq as ->; [|done].
  rewrite <- (app_nil_r (enc_field k1)), <- (app_nil_r (enc_field k2)) in Hk.
  by apply enc_field_inj in Hk as [-> _].
Qed.

Lemma server_transcript_inj sid1 sid2 c1 c2 s1 s2 :
  short sid1 -> short sid2 -> short c1 -> short c2 -> short s1 -> short s2 ->
  server_transcript sid1 c1 s1 = server_transcript sid2 c2 s2 ->
  sid1 = sid2 /\ c1 = c2 /\ s1 = s2.
Proof.
  intros H1 H2 H3 H4 H5 H6. unfold server_transcript, push_field. rewrite <- !app_assoc.
  intros He%app_inv_head. apply enc_field_inj in He as [-> He]; [|done..].
  apply enc_field_inj in He as [-> He]; [|done..].
  rewrite <- (app_nil_r (enc_field s1)), <- (app_nil_r (enc_field s2)) in He.
  by apply enc_field_inj in He as [-> _].
Qed.

Lemma contexts_disjoint : exists i, CLIENT_CTX !! i <> SERVER_CTX !! i.
Proof. exists 10%nat. discriminate. Qed.

(** A client signature can never be replayed as a server signature: the two
    transcripts start with different, equally long context strings. *)
Lemma transcripts_separated sid1 e k sid2 c s :
  client_transcript sid1 e k <> server_transcript sid2 c s.
Proof.
  unfold client_transcript, server_transcript, push_field. rewrite <- !app_assoc.
  intros He. apply app_inj_1 in He as [He _]; [|done]. discriminate He.
Qed.

Lemma verify_sig_Ok `{Crypto} pk msg sig :
  verify_sig pk msg sig = Ok tt <->
  ecdsa_key_loads pk = true /\ ecdsa_sig_parses sig = true /\ ecdsa_verify pk msg sig = true.
Proof.
  unfold verify_sig.
  destruct (ecdsa_key_loads pk), (ecdsa_sig_parses sig), (ecdsa_verify pk msg sig); simpl; intuition congruence.
Qed.

Section HandshakeLemmas.
Context `{CryptoLaws}.

Lemma verify_sign pem msg sig :
  sign pem msg = Ok sig -> verify_sig (ecdsa_public pem) msg sig = Ok tt.
Proof.
  unfold sign. destruct (ecdsa_sign pem msg) as [s|] eqn:E; intros ?; simplify_eq/=.
  apply verify_sig_Ok. by apply ecdsa_correct.
Qed.

Lemma derive_contributory t peer binding :
  was_contributory (x25519_dh t peer) = true ->
  exists ks, derive (mkHandshake t (x25519_public t)) peer binding = Ok ks.
Proof. intros Hc. unfold derive. simpl. rewrite Hc. simpl. destruct (bytes_leb _ _); eauto. Qed.

Lemma respond_inv seed sid epoch ceph csig apk cert ca_pem resp :
  respond seed sid epoch ceph csig apk cert ca_pem = Ok resp ->
  verify_sig apk (client_transcript sid epoch ceph) csig = Ok tt /\
  exists s, seed = Some s /\ sr_server_eph resp = x25519_public s /\
    sign ca_pem (server_transcript sid ceph (x25519_public s)) = Ok (sr_sig resp) /\
    derive (mkHandshake s (x25519_public s)) ceph
      (session_binding sid ceph (x25519_public s) cert) = Ok (sr_keys resp).
Proof.
  unfold respond, Handshake_new. intros Hr.
  destruct (verify_sig _ _ _) as [[]|] eqn:Ev; [|done].
  destruct seed as [s|]; simplify_eq/=.
  destruct (sign _ _) as [sg|] eqn:Es; [|done].
  destruct (derive _ _ _) as [ks|] eqn:Ed; simplify_eq/=.
  split; [done|]. exists s. done.
Qed.

Lemma start_inv seed sid epoch cert pem ini hello :
  Initiator_start seed sid epoch cert pem = Ok (ini, hello) ->
  exists s, seed = Some s /\ ini = mkInitiator (mkHandshake s (x25519_public s)) sid cert /\
    hc_client_eph hello = x25519_public s /\
    sign pem (client_transcript sid epoch (x25519_public s)) = Ok (hc_sig hello).
Proof.
  unfold Initiator_start, Handshake_new. destruct seed as [s|]; simpl; [|done].
  destruct (sign _ _) as [sg|] eqn:Es; [|done]. intros ?; simplify_eq. by exists s.
Qed.

End HandshakeLemmas.

(** ** Properties *)

(** A run of either end: what the agent started, what the coordinator answered. *)
Record Started := mkStarted { st_sid : bytes; st_epoch : u64; st_cert : bytes; st_ini : Initiator; st_hello : HelloContent }.
Record Responded := mkResponded {
  rp_sid : bytes; rp_epoch : u64; rp_client_eph : bytes; rp_client_sig : bytes; rp_agent_key : bytes; rp_cert : bytes; rp_resp : ServerResponse
}.
Definition started `{Crypto} (agent_pem : string) (a : Started) : Prop :=
  exists seed, Initiator_start seed (st_sid a) (st_epoch a) (st_cert a) agent_pem = Ok (st_ini a, st_hello a).
Definition responded `{Crypto} (ca_pem : string) (r : Responded) : Prop :=
  exists seed, respond seed (rp_sid r) (rp_epoch r) (rp_client_eph r) (rp_client_sig r) (rp_agent_key r) (rp_cert r) ca_pem = Ok (rp_resp r).

(** Unforgeability, for one signature: if it verifies, its message was signed in a run. *)
Definition client_sig_genuine `{Crypto} (agent_pem : string) (as_ : list Started) (msg sig : bytes) : Prop :=
  ecdsa_verify (ecdsa_public agent_pem) msg sig = true ->
  exists a, a ∈ as_ /\ msg = client_transcript (st_sid a) (st_epoch a) (hc_client_eph (st_hello a)).
Definition server_sig_genuine `{Crypto} (ca_pem : string) (rs : list Responded) (msg sig : bytes) : Prop :=
  ecdsa_verify (ecdsa_public ca_pem) msg sig = true ->
  exists r, r ∈ rs /\ msg = server_transcript (rp_sid r) (rp_client_eph r) (sr_server_eph (rp_resp r)).

(** The fields of a run fit the length prefix of the transcripts. *)
Definition short_run (r : Responded) : Prop := short (rp_sid r) /\ short (rp_client_eph r) /\ short (sr_server_eph (rp_resp r)).

Lemma Initiator_finish_inv `{Crypto} ini server_eph sig ca_key ks :
  Initiator_finish ini server_eph sig ca_key = Ok ks ->
  ecdsa_verify ca_key (server_transcript (ini_sid ini) (hs_public (ini_eph ini)) server_eph) sig = true /\
  derive (ini_eph ini) server_eph (session_binding (ini_sid ini) (hs_public (ini_eph ini)) server_eph (ini_cert_der ini)) = Ok ks.
Proof.
  unfold Initiator_finish. destruct (verify_sig _ _ _) as [[]|] eqn:Ev; [|done]. apply verify_sig_Ok in Ev as (_ & _ & Hv).
  destruct (derive _ _ _) as [k|]; [|done]. by intros [= ->].
Qed.

Lemma x25519_short `{CryptoLaws} s : short (x25519_public s).
Proof. unfold short. rewrite x25519_public_length. done. Qed.

(** C9. Agreement.  The agent started [a]; the coordinator answered the hellos [rs]; what
    either end was sent is arbitrary, except that the signatures it checks are not forged.
    If the agent finishes, one of the coordinator's answers has its session id and both
    ephemerals, and when that answer was for the agent's certificate both ends hold the same
    keys.  If the coordinator answered a hello under the agent's key, the agent had started a
    handshake with that session id, epoch and ephemeral. *)
Theorem handshake_agreement `{CryptoLaws} agent_pem ca_pem (as_ : list Started) (rs : list Responded) a server_eph server_sig ks :
  Forall (started agent_pem) as_ -> Forall (responded ca_pem) rs -> a ∈ as_ ->
  Forall (fun a => short (st_sid a)) as_ -> Forall short_run rs -> short server_eph ->
  server_sig_genuine ca_pem rs (server_transcript (ini_sid (st_ini a)) (hs_public (ini_eph (st_ini a))) server_eph) server_sig ->
  (Initiator_finish (st_ini a) server_eph server_sig (ecdsa_public ca_pem) = Ok ks ->
   exists r, r ∈ rs /\ rp_sid r = st_sid a /\ rp_client_eph r = hc_client_eph (st_hello a) /\ sr_server_eph (rp_resp r) = server_eph /\
     (rp_cert r = st_cert a -> sr_keys (rp_resp r) = ks)) /\
  (forall r, r ∈ rs -> rp_agent_key r = ecdsa_public agent_pem ->
   client_sig_genuine agent_pem as_ (client_transcript (rp_sid r) (rp_epoch r) (rp_client_eph r)) (rp_client_sig r) ->
   exists a, a ∈ as_ /\ st_sid a = rp_sid r /\ st_epoch a = rp_epoch r /\ hc_client_eph (st_hello a) = rp_client_eph r).
Proof.
  rewrite !Forall_forall. intros Has Hrs Ha Hsid Hshort Hse Hgen. split.
  - destruct (Has a Ha) as (seed & (s & _ & Hini & Hce & _)%start_inv). rewrite Hce. pose proof (Hsid a Ha).
    rewrite Hini in Hgen |- *. intros [Hv Hd]%Initiator_finish_inv. simpl in Hgen, Hv, Hd.
    destruct (Hgen Hv) as (r & Hr & Hm). destruct (Hshort r Hr) as (H1' & H2' & H3').
    apply server_transcript_inj in Hm as (Es & Ec & Ee); try done; [|apply x25519_short]. exists r. do 4 (split; [done|]). intros Hc.
    destruct (Hrs r Hr) as (rseed & (_ & t & _ & Ht & _ & Hk)%respond_inv). rewrite Ht in Ee. rewrite Hc, <- Es, <- Ec, derive_comm, <- Ee in Hk.
    rewrite Hk in Hd. by injection Hd.
  - intros r Hr Hkey Hg. destruct (Hrs r Hr) as (rseed & (Hv & _)%respond_inv). rewrite Hkey in Hv. apply verify_sig_Ok in Hv as (_ & _ & Hv).
    destruct (Hg Hv) as (b & Hb & Hm). exists b. split; [done|]. destruct (Has b Hb) as (bseed & (s & _ & _ & Hce & _)%start_inv).
    destruct (Hshort r Hr) as (H1' & H2' & _). rewrite Hce in Hm |- *.
    apply client_transcript_inj in Hm as (-> & -> & ->); try done; [by apply Hsid|apply x25519_short].
Qed.

(** Honest messages delivered unaltered: the agent finishes with the coordinator's keys. *)
Lemma finish_of_respond `{CryptoLaws} aseed cseed sid epoch cert agent_pem ca_pem ini hello resp :
  Initiator_start aseed sid epoch cert agent_pem = Ok (ini, hello) ->
  respond cseed sid epoch (hc_client_eph hello) (hc_sig hello) (ecdsa_public agent_pem) cert ca_pem = Ok resp ->
  Initiator_finish ini (sr_server_eph resp) (sr_sig resp) (ecdsa_public ca_pem) = Ok (sr_keys resp).
Proof.
  intros (s & -> & -> & Hce & _)%start_inv (_ & t & -> & Hse & Hsg & Hd)%respond_inv.
  rewrite Hce, Hse in *. unfold Initiator_finish. simpl.
  rewrite (verify_sign _ _ _ Hsg), derive_comm, Hd. done.
Qed.

(** The coordinator never rejects an honest hello: whenever both random sources
    work, both signing keys load and the exchange is contributory, the whole
    handshake completes (start, respond and finish all return). *)
Theorem handshake_completes `{CryptoLaws} s t sid epoch cert agent_pem ca_pem :
  (forall m, is_Some (ecdsa_sign agent_pem m)) ->
  (forall m, is_Some (ecdsa_sign ca_pem m)) ->
  was_contributory (x25519_dh t (x25519_public s)) = true ->
  exists ini hello resp,
    Initiator_start (Some s) sid epoch cert agent_pem = Ok (ini, hello) /\
    respond (Some t) sid epoch (hc_client_eph hello) (hc_sig hello) (ecdsa_public agent_pem) cert ca_pem = Ok resp /\
    Initiator_finish ini (sr_server_eph resp) (sr_sig resp) (ecdsa_public ca_pem) = Ok (sr_keys resp).
Proof.
  intros Ha Hc Hdh.
  destruct (Ha (client_transcript sid epoch (x25519_public s))) as [asig Ea].
  destruct (Hc (server_transcript sid (x25519_public s) (x25519_public t))) as [csig Ec].
  assert (sign agent_pem (client_transcript sid epoch (x25519_public s)) = Ok asig) as Hs.
  { unfold sign. by rewrite Ea. }
  assert (sign ca_pem (server_transcript sid (x25519_public s) (x25519_public t)) = Ok csig) as Hs'.
  { unfold sign. by rewrite Ec. }
  destruct (derive_contributory t (x25519_public s)
    (session_binding sid (x25519_public s) (x25519_public t) cert) Hdh) as [ks Hd].
  eexists _, _, _. split; [|split].
  - unfold Initiator_start. simpl. by rewrite Hs.
  - unfold respond. simpl. rewrite (verify_sign _ _ _ Hs). simpl. by rewrite Hs', Hd.
  - unfold Initiator_finish. simpl. by rewrite (verify_sign _ _ _ Hs'), derive_comm, Hd.
Qed.

Definition demo_started : result (Initiator * HelloContent) HsError :=
  Initiator_start (Some (bytes_of "a")) (bytes_of "sid") (wrap 1) (bytes_of "cert") "agent".
Definition demo_responded (hello : HelloContent) : result ServerResponse HsError :=
  respond (Some (bytes_of "c")) (bytes_of "sid") (wrap 1) (hc_client_eph hello) (hc_sig hello) (ecdsa_public "agent") (bytes_of "cert") "ca".
Lemma handshake_agreement_witness :
  exists ini hello resp ks, demo_started = Ok (ini, hello) /\ demo_responded hello = Ok resp /\
    Initiator_finish ini (sr_server_eph resp) (sr_sig resp) (ecdsa_public "ca") = Ok ks /\ sr_keys resp = ks.
Proof.
  destruct demo_started as [[ini hello]|] eqn:Ea; [|discriminate Ea]. destruct (demo_responded hello) as [resp|] eqn:Er; [|injection Ea as <- <-; discriminate Er].
  destruct (Initiator_finish ini (sr_server_eph resp) (sr_sig resp) (ecdsa_public "ca")) as [ks|] eqn:Ef;
    [|injection Ea as <- <-; injection Er as <-; discriminate Ef].
  set (a := mkStarted (bytes_of "sid") (wrap 1) (bytes_of "cert") ini hello).
  set (r := mkResponded (bytes_of "sid") (wrap 1) (hc_client_eph hello) (hc_sig hello) (ecdsa_public "agent") (bytes_of "cert") resp).
  exists ini, hello, resp, ks. do 3 (split; [first [reflexivity|exact Er|exact Ef]|]).
  destruct (handshake_agreement "agent" "ca" [a] [r] a (sr_server_eph resp) (sr_sig resp) ks) as [Hf _].
  - repeat constructor. exists (Some (bytes_of "a")). exact Ea.
  - repeat constructor. exists (Some (bytes_of "c")). exact Er.
  - left.
  - repeat constructor.
  - injection Ea as <- <-. injection Er as <-. repeat constructor.
  - injection Ea as <- <-. injection Er as <-. reflexivity.
  - intros _. exists r. split; [left|]. injection Ea as <- <-. reflexivity.
  - destruct (Hf Ef) as (r' & Hr & _ & _ & _ & Hk). apply list_elem_of_singleton in Hr. subst r'. by apply Hk.
Defined.

Lemma handshake_completes_witness :
  exists ini hello resp,
    Initiator_start (Some (bytes_of "a")) (bytes_of "sid") (wrap 1) (bytes_of "cert") "agent" = Ok (ini, hello) /\
    respond (Some (bytes_of "c")) (bytes_of "sid") (wrap 1) (hc_client_eph hello) (hc_sig hello)
      (ecdsa_public "agent") (bytes_of "cert") "ca" = Ok resp /\
    Initiator_finish ini (sr_server_eph resp) (sr_sig resp) (ecdsa_public "ca") = Ok (sr_keys resp).
Proof.
  apply handshake_completes; [intros m; eexists; reflexivity..|reflexivity].
Defined.

(** What a signature commits to: equal transcripts have equal contents (session
    id, epoch and ephemeral keys), and no client transcript is a server transcript,
    so a signature over one message authenticates exactly that message. *)
Theorem transcripts_injective sid1 sid2 e1 e2 c1 c2 s1 s2 :
  short sid1 -> short sid2 -> short c1 -> short c2 -> short s1 -> short s2 ->
  (client_transcript sid1 e1 c1 = client_transcript sid2 e2 c2 -> sid1 = sid2 /\ e1 = e2 /\ c1 = c2) /\
  (server_transcript sid1 c1 s1 = server_transcript sid2 c2 s2 -> sid1 = sid2 /\ c1 = c2 /\ s1 = s2) /\
  client_transcript sid1 e1 c1 <> server_transcript sid2 c2 s2.
Proof.
  intros. split; [|split].
  - by apply client_transcript_inj.
  - by apply server_transcript_inj.
  - apply transcripts_separated.
Qed.

Lemma transcripts_injective_witness :
  let sid := bytes_of "s" in let k := bytes_of "k" in
  short sid /\ short k /\
  (client_transcript sid (wrap 1) k = client_transcript sid (wrap 1) k -> sid = sid /\ @eq u64 (wrap 1) (wrap 1) /\ k = k).
Proof.
  intros sid k. assert (short sid) as Hs by reflexivity. assert (short k) as Hk by reflexivity.
  split; [exact Hs|]. split; [exact Hk|].
  apply (transcripts_injective sid sid (wrap 1) (wrap 1) k k k k Hs Hs Hk Hk Hk Hk).
Defined.
