(* ===== verification/Stream.v ===== *)
(** * Reliable-stream ordering and dedup (osa-core/src/stream.rs)

    [ReorderBuffer] orders one monotonic [seq] stream: duplicates are dropped,
    out-of-order items are held within a window of [capacity] ahead of the head. *)
From S2P Require Import Prelude Proto.

Inductive Accept (T : Type) :=
| Deliver (items : list T)
| Duplicate
| Buffered
| Overflow (item : T).
Arguments Deliver {T} items.
Arguments Duplicate {T}.
Arguments Buffered {T}.
Arguments Overflow {T} item.

Record ReorderBuffer (T : Type) := mkBuffer {
  rb_start : u64;
  rb_next : u64;
  rb_pending : gmap u64 T;
  rb_capacity : nat
}.
Arguments mkBuffer {T} rb_start rb_next rb_pending rb_capacity.
Arguments rb_start {T} r.
Arguments rb_next {T} r.
Arguments rb_pending {T} r.
Arguments rb_capacity {T} r.

Section Buffer.
Context {T : Type}.
Implicit Types (b : ReorderBuffer T).

Definition new_buffer (start : u64) (capacity : nat) : ReorderBuffer T :=
  mkBuffer start start ∅ capacity.

Definition next_expected b : u64 := rb_next b.

Definition ack b : option u64 :=
  if bval (rb_start b) <? bval (rb_next b) then Some (wrap (bval (rb_next b) - 1)) else None.

Definition buffered b : nat := size (rb_pending b).

Definition reset b (start : u64) : ReorderBuffer T := mkBuffer start start ∅ (rb_capacity b).

(** The [while let Some(x) = pending.remove(&next)] loop.  Every turn removes an
    entry, so [size pending] turns are enough. *)
Fixpoint drain (fuel : nat) (next : u64) (pending : gmap u64 T) (out : list T)
    : u64 * gmap u64 T * list T :=
  match fuel with
  | O => (next, pending, out)
  | S f =>
      match pending !! next with
      | Some x => drain f (saturating_add next 1) (delete next pending) (out ++ [x])
      | None => (next, pending, out)
      end
  end.

Definition accept b (seq : u64) (item : T) : ReorderBuffer T * Accept T :=
  if (bval seq <? bval (rb_next b)) || bool_decide (is_Some (rb_pending b !! seq)) then (b, Duplicate)
  else if bool_decide (seq = rb_next b) then
    let '(next, pending, out) :=
      drain (size (rb_pending b)) (saturating_add (rb_next b) 1) (rb_pending b) [item] in
    (mkBuffer (rb_start b) next pending (rb_capacity b), Deliver out)
  else if Z.of_nat (rb_capacity b) <? Z.max 0 (bval seq - bval (rb_next b)) then (b, Overflow item)
  else (mkBuffer (rb_start b) (rb_next b) (<[seq := item]> (rb_pending b)) (rb_capacity b), Buffered).

(** ** Specification: a run of offers and what it delivered *)

Definition delivered_of (a : Accept T) : list T :=
  match a with Deliver l => l | _ => [] end.
Definition is_overflow (a : Accept T) : bool :=
  match a with Overflow _ => true | _ => false end.

(** Offer a sequence of items; returns the buffer, everything delivered in order,
    and whether some offer overflowed. *)
Fixpoint run_offers b (offers : list (u64 * T)) : ReorderBuffer T * list T * bool :=
  match offers with
  | [] => (b, [], false)
  | (s, x) :: rest =>
      let '(b1, a) := accept b s x in
      let '(b2, d, o) := run_offers b1 rest in
      (b2, delivered_of a ++ d, is_overflow a || o)
  end.

(** The item first offered under a sequence number. *)
Fixpoint first_offer (offers : list (u64 * T)) (k : Z) : option T :=
  match offers with
  | [] => None
  | (s, x) :: rest => if bval s =? k then Some x else first_offer rest k
  end.

(** The window invariant: every held key is ahead of the head, within capacity. *)
Definition window b : Prop :=
  bval (rb_start b) <= bval (rb_next b) /\
  forall k x, rb_pending b !! k = Some x ->
    bval (rb_next b) < bval k <= bval (rb_next b) + Z.of_nat (rb_capacity b).

(** [owns b seen d]: the buffer holds exactly the offers [seen] it has not delivered,
    and [d] is what it delivered: the first item offered for each sequence number. *)
Definition owns b (seen : list (u64 * T)) (d : list T) : Prop :=
  bval (rb_next b) = bval (rb_start b) + Z.of_nat (length d) /\
  (forall i x, d !! i = Some x -> first_offer seen (bval (rb_start b) + Z.of_nat i) = Some x) /\
  (forall k x, rb_pending b !! k = Some x -> first_offer seen (bval k) = Some x) /\
  (forall k, is_Some (first_offer seen (bval k)) -> bval (rb_next b) <= bval k ->
     is_Some (rb_pending b !! k)).

End Buffer.

(** ** Lemmas *)

Section BufferLemmas.
Context {T : Type}.
Implicit Types (b : ReorderBuffer T) (seen : list (u64 * T)).

Lemma sat_succ (n : u64) : bval n < 2 ^ 64 - 1 -> bval (saturating_add n 1) = bval n + 1.
Proof. intros. rewrite saturating_add_val; lia. Qed.

Lemma first_offer_app seen s (x : T) k :
  first_offer (seen ++ [(s, x)]) k =
  match first_offer seen k with
  | Some y => Some y
  | None => if bval s =? k then Some x else None
  end.
Proof.
  induction seen as [|[s' y] seen IH]; simpl; [done|].
  destruct (bval s' =? k); [done|]. apply IH.
Qed.

Lemma first_offer_range seen k (x : T) :
  (forall s y, (s, y) ∈ seen -> bval s < 2 ^ 64 - 1) ->
  first_offer seen k = Some x -> k < 2 ^ 64 - 1.
Proof.
  induction seen as [|[s' y] seen IH]; simpl; [done|]. intros Hs.
  destruct (bval s' =? k) eqn:E; bool_to_prop.
  - intros _. rewrite <- E. eapply Hs. left.
  - apply IH. intros. eapply Hs. by right.
Qed.

(** The drain loop: with every held key above the head and a valid head, it moves the
    contiguous run out of [pending], and stops at the first gap. *)
Lemma drain_spec fuel next (pending : gmap u64 T) out next' pending' out' :
  (size pending <= fuel)%nat ->
  (forall k, is_Some (pending !! k) -> bval next <= bval k < 2 ^ 64 - 1) ->
  bval next <= 2 ^ 64 - 1 ->
  drain fuel next pending out = (next', pending', out') ->
  exists run, out' = out ++ run /\
    bval next' = bval next + Z.of_nat (length run) /\
    pending' !! next' = None /\
    (forall i x, run !! i = Some x -> exists k, bval k = bval next + Z.of_nat i /\ pending !! k = Some x) /\
    (forall k, pending' !! k = if bval k <? bval next' then None else pending !! k).
Proof.
  revert next pending out. induction fuel as [|fuel IH]; intros next pending out Hsz Hk Hn; simpl.
  - assert (pending = ∅) as -> by (apply map_size_empty_inv; lia).
    intros ?; simplify_eq. exists []. rewrite app_nil_r. split_and!; simpl; try done; try lia.
    intros k. rewrite lookup_empty. by destruct (_ <? _).
  - destruct (pending !! next) as [x|] eqn:E.
    + intros Hd. assert (bval next < 2 ^ 64 - 1) as Hlt by (apply (Hk next); eauto).
      pose proof (sat_succ next Hlt) as Hs.
      apply IH in Hd as (run & -> & Hnx & Hnone & Hrun & Hp).
      * exists (x :: run). split_and!.
        -- by rewrite <- app_assoc.
        -- simpl. lia.
        -- done.
        -- intros [|i] y Hi; simplify_eq/=.
           ++ exists next. split; [lia|done].
           ++ destruct (Hrun _ _ Hi) as (k & Hkv & Hkp). exists k. split; [lia|].
              by apply lookup_delete_Some in Hkp as [_ ?].
        -- intros k. rewrite Hp. destruct (bval k <? bval next') eqn:Ek; [done|].
           bool_to_prop. rewrite lookup_delete_ne; [done|]. intros ->. lia.
      * rewrite map_size_delete, E. lia.
      * intros k [y Hy]. apply lookup_delete_Some in Hy as [Hne Hy].
        destruct (Hk k) as [? ?]; [eauto|].
        assert (bval next <> bval k) by (intros He; by apply Hne, bint_eq). lia.
      * lia.
    + intros ?; simplify_eq. exists []. rewrite app_nil_r. split_and!; simpl; try done; try lia.
      intros k. destruct (bval k <? bval next') eqn:Ek; [|done]. bool_to_prop.
      destruct (pending' !! k) eqn:Ep; [|done]. destruct (Hk k); [eauto|]. lia.
Qed.

Lemma accept_window b s x b' a :
  bval s < 2 ^ 64 - 1 -> (forall k y, rb_pending b !! k = Some y -> bval k < 2 ^ 64 - 1) ->
  window b -> accept b s x = (b', a) -> window b'.
Proof.
  intros Hs Hmax [Hst Hw]. unfold accept.
  destruct (_ || _) eqn:E1; [by intros ?; simplify_eq|]. apply orb_false_iff in E1 as [E1 _].
  destruct (bool_decide (s = rb_next b)) eqn:E2; bool_to_prop; [subst s|].
  - destruct (drain _ _ _ _) as [[n p] o] eqn:Ed. intros ?; simplify_eq/=.
    pose proof (sat_succ (rb_next b) Hs) as Hsu.
    apply drain_spec in Ed as (run & -> & Hn & Hnone & _ & Hp); [| lia | | lia].
    + split; simpl; [lia|]. intros k y Hky. rewrite Hp in Hky.
      destruct (bval k <? bval n) eqn:Ek; [done|]. bool_to_prop.
      specialize (Hw _ _ Hky). simpl in *.
      assert (bval n <> bval k); [|lia]. intros He. apply bint_eq in He as <-.
      rewrite Hp in Hnone. destruct (bval n <? bval n) eqn:En; bool_to_prop; [lia|congruence].
    + intros k [y Hy]. specialize (Hw _ _ Hy). split; [lia|eauto].
  - destruct (_ <? _) eqn:E3; intros ?; simplify_eq/=; [done|].
    split; [done|]. simpl. intros k y Hky.
    apply lookup_insert_Some in Hky as [[-> ->]|[_ Hky]]; [|eauto]. bool_to_prop.
    assert (bval k <> bval (rb_next b)) by (intros He; by apply E2, bint_eq). lia.
Qed.

(** The invariant, over each of the three ways to take an offer: a duplicate, the next
    item with what it unblocks, and an item held back. *)
Lemma duplicate_owns b seen d s x :
  bval s < bval (rb_next b) \/ is_Some (rb_pending b !! s) -> owns b seen d -> owns b (seen ++ [(s, x)]) d.
Proof.
  intros E1 (Hlen & Hd & Hp & Hall). split_and!; [done| | |].
  - intros i y Hi. rewrite first_offer_app, (Hd _ _ Hi). done.
  - intros k y Hk. rewrite first_offer_app, (Hp _ _ Hk). done.
  - intros k Hk Hge. rewrite first_offer_app in Hk.
    destruct (first_offer seen (bval k)) eqn:Ef; [apply Hall; eauto|].
    destruct (bval s =? bval k) eqn:Esk; [|by destruct Hk]. bool_to_prop.
    apply bint_eq in Esk as ->. destruct E1; [lia|done].
Qed.

Lemma drain_owns b seen d x n p o :
  bval (rb_next b) < 2 ^ 64 - 1 -> (forall k y, (k, y) ∈ seen -> bval k < 2 ^ 64 - 1) ->
  window b -> owns b seen d -> rb_pending b !! rb_next b = None ->
  drain (size (rb_pending b)) (saturating_add (rb_next b) 1) (rb_pending b) [x] = (n, p, o) ->
  owns (mkBuffer (rb_start b) n p (rb_capacity b)) (seen ++ [(rb_next b, x)]) (d ++ o).
Proof.
  intros Hs Hmax [Hst Hw] (Hlen & Hd & Hp & Hall) Hno Edr. pose proof (sat_succ (rb_next b) Hs) as Hsu.
  apply drain_spec in Edr as (run & -> & Hn & Hnone & Hrun & Hpn); [| lia | | lia].
  2:{ intros k [y Hy]. specialize (Hw _ _ Hy). split; [lia|]. by eapply first_offer_range, Hp. }
  assert (first_offer seen (bval (rb_next b)) = None) as Hfresh.
  { destruct (first_offer seen _) eqn:Ef; [|done]. destruct (Hall (rb_next b)) as [y Hy]; [eauto|lia|congruence]. }
  split_and!; simpl.
  - rewrite length_app. simpl. lia.
  - intros i y Hi. rewrite first_offer_app.
    apply lookup_app_Some in Hi as [Hi|[Hge Hi]]; [by rewrite (Hd _ _ Hi)|].
    destruct (i - length d)%nat as [|j] eqn:Ei; simplify_eq/=.
    + replace (bval (rb_start b) + Z.of_nat i) with (bval (rb_next b)) by lia. rewrite Hfresh. by rewrite Z.eqb_refl.
    + destruct (Hrun _ _ Hi) as (k & Hkv & Hkp).
      replace (bval (rb_start b) + Z.of_nat i) with (bval k) by lia. by rewrite (Hp _ _ Hkp).
  - intros k y Hk. rewrite Hpn in Hk. rewrite first_offer_app.
    destruct (bval k <? bval n); [done|]. by rewrite (Hp _ _ Hk).
  - intros k Hk Hge. rewrite Hpn. rewrite first_offer_app in Hk.
    destruct (bval k <? bval n) eqn:Ek; bool_to_prop; [lia|].
    destruct (first_offer seen (bval k)) eqn:Ef; [apply Hall; eauto; lia|].
    destruct (bval (rb_next b) =? bval k) eqn:Esk; [|by destruct Hk]. bool_to_prop. lia.
Qed.

Lemma held_owns b seen d s x :
  bval (rb_next b) <= bval s -> rb_pending b !! s = None -> owns b seen d ->
  owns (mkBuffer (rb_start b) (rb_next b) (<[s := x]> (rb_pending b)) (rb_capacity b)) (seen ++ [(s, x)]) d.
Proof.
  intros E1 Hno (Hlen & Hd & Hp & Hall). split_and!; simpl.
  - done.
  - intros i y Hi. by rewrite first_offer_app, (Hd _ _ Hi).
  - intros k y Hk. rewrite first_offer_app.
    apply lookup_insert_Some in Hk as [[<- <-]|[_ Hk]]; [|by rewrite (Hp _ _ Hk)].
    destruct (first_offer seen (bval s)) eqn:Ef; [|by rewrite Z.eqb_refl].
    destruct (Hall s) as [y Hy]; [eauto|lia|congruence].
  - intros k Hk Hge. rewrite first_offer_app in Hk. apply lookup_insert_is_Some'.
    destruct (first_offer seen (bval k)) eqn:Ef; [right; apply Hall; eauto|].
    destruct (bval s =? bval k) eqn:Esk; [|by destruct Hk]. bool_to_prop. left. by apply bint_eq.
Qed.

(** The invariant is preserved by every offer that does not overflow. *)
Lemma accept_owns b seen d s x b' a :
  bval s < 2 ^ 64 - 1 -> (forall k y, (k, y) ∈ seen -> bval k < 2 ^ 64 - 1) ->
  window b -> owns b seen d -> accept b s x = (b', a) -> is_overflow a = false ->
  owns b' (seen ++ [(s, x)]) (d ++ delivered_of a).
Proof.
  intros Hs Hmax Hw Ho. unfold accept. destruct (_ || _) eqn:E1.
  { intros ? _; simplify_eq/=. rewrite app_nil_r. apply duplicate_owns; [|done].
    apply orb_true_iff in E1 as [E1|E1]; bool_to_prop; auto. }
  apply orb_false_iff in E1 as [E1 E1']. bool_to_prop. apply eq_None_not_Some in E1'.
  destruct (bool_decide (s = rb_next b)) eqn:E2; bool_to_prop; [subst s|].
  - destruct (drain _ _ _ _) as [[n p] o] eqn:Edr. intros ? _; simplify_eq/=. by apply drain_owns.
  - destruct (_ <? _) eqn:E3; intros ? Hov; simplify_eq/=. rewrite app_nil_r. by apply held_owns.
Qed.

Lemma accept_start_cap b s (x : T) :
  rb_start (accept b s x).1 = rb_start b /\ rb_capacity (accept b s x).1 = rb_capacity b.
Proof.
  unfold accept. destruct (_ || _); [done|]. case_bool_decide.
  - by destruct (drain _ _ _ _) as [[n p] o].
  - by destruct (_ <? _).
Qed.

Lemma run_offers_spec b seen d offers b' d' :
  (forall k y, (k, y) ∈ seen ++ offers -> bval k < 2 ^ 64 - 1) ->
  window b -> owns b seen d -> run_offers b offers = (b', d', false) ->
  window b' /\ owns b' (seen ++ offers) (d ++ d') /\ rb_start b' = rb_start b.
Proof.
  revert b seen d d'. induction offers as [|[s x] offers IH]; intros b seen d d' Hmax Hw Ho; simpl.
  { intros ?; simplify_eq. by rewrite !app_nil_r. }
  destruct (accept b s x) as [b1 a] eqn:Ea. destruct (run_offers b1 offers) as [[b2 d2] o] eqn:Er.
  intros ?; simplify_eq.
  match goal with H : _ || _ = false |- _ => apply orb_false_iff in H as [Hov ->] end.
  assert (bval s < 2 ^ 64 - 1) as Hs by (apply (Hmax s x); set_solver).
  assert (forall k y, (k, y) ∈ seen -> bval k < 2 ^ 64 - 1) as Hseen.
  { intros k y Hk. apply (Hmax k y). set_solver. }
  assert (forall k y, rb_pending b !! k = Some y -> bval k < 2 ^ 64 - 1) as Hpm.
  { intros k y Hk. destruct Ho as (_ & _ & Hp & _). by eapply first_offer_range, Hp. }
  pose proof (accept_window _ _ _ _ _ Hs Hpm Hw Ea) as Hw1.
  pose proof (accept_owns _ _ _ _ _ _ _ Hs Hseen Hw Ho Ea Hov) as Ho1.
  destruct (accept_start_cap b s x) as [Hst _]. rewrite Ea in Hst. simpl in Hst.
  destruct (IH b1 (seen ++ [(s, x)]) (d ++ delivered_of a) d2) as (? & Hfin & ?);
    [by rewrite <- app_assoc|done..|].
  rewrite <- !app_assoc in Hfin. simpl in Hfin. split_and!; [done|done|congruence].
Qed.

Lemma accept_keys_below b s (x : T) b1 a :
  bval s < 2 ^ 64 - 1 -> (forall k y, rb_pending b !! k = Some y -> bval k < 2 ^ 64 - 1) ->
  window b -> accept b s x = (b1, a) ->
  forall k y, rb_pending b1 !! k = Some y -> bval k < 2 ^ 64 - 1.
Proof.
  intros Hs Hp [_ Hw]. unfold accept.
  destruct (_ || _) eqn:E1; [by intros ?; simplify_eq|]. apply orb_false_iff in E1 as [E1 _].
  destruct (bool_decide (s = rb_next b)) eqn:E2; bool_to_prop; [subst s|].
  - destruct (drain _ _ _ _) as [[n p] o] eqn:Ed. intros ?; simplify_eq/=.
    pose proof (sat_succ (rb_next b) Hs) as Hsu.
    apply drain_spec in Ed as (run & _ & _ & _ & _ & Hpn); [| lia | | lia].
    + intros k y. rewrite Hpn. destruct (_ <? _); [done|]. apply Hp.
    + intros k [y Hy]. specialize (Hw _ _ Hy). split; [lia|eauto].
  - destruct (_ <? _); intros ?; simplify_eq/=; [done|].
    intros k y [[-> ->]|[_ Hk]]%lookup_insert_Some; eauto.
Qed.

Lemma new_window start cap : window (new_buffer (T := T) start cap).
Proof. split; simpl; [lia|]. intros k x. by rewrite lookup_empty. Qed.

Lemma new_owns start cap : owns (new_buffer (T := T) start cap) [] [].
Proof.
  split_and!; simpl.
  - lia.
  - done.
  - intros k x. by rewrite lookup_empty.
  - intros k [x Hx]. done.
Qed.

Lemma window_size b : window b -> (size (rb_pending b) <= rb_capacity b)%nat.
Proof.
  intros [_ Hw].
  assert (size (dom (rb_pending b)) <=
          size (list_to_set (wrap <$> seqZ (bval (rb_next b) + 1) (Z.of_nat (rb_capacity b))) : gset u64))%nat
    as Hle.
  { apply subseteq_size. intros k [x Hx]%elem_of_dom. apply elem_of_list_to_set, list_elem_of_fmap.
    exists (bval k). split.
    - apply bint_eq. rewrite wrap_small; [done|apply bint_range].
    - apply elem_of_seqZ. specialize (Hw _ _ Hx). lia. }
  rewrite size_dom in Hle. etrans; [exact Hle|].
  etrans; [apply size_list_to_set_le|]. rewrite length_fmap, length_seqZ. lia.
Qed.

End BufferLemmas.

(** ** Properties *)

(** In-order, exactly-once delivery: over any run of offers without an overflow
    (and below the saturation point), what has been delivered is, position by
    position, the first item offered for each consecutive sequence number from
    [start]; nothing is skipped, repeated or reordered, and the cumulative ack names
    the last one. *)
Theorem reorder_delivers_in_order_once {T} (start : u64) (cap : nat)
    (offers : list (u64 * T)) b d :
  (forall k y, (k, y) ∈ offers -> bval k < 2 ^ 64 - 1) ->
  run_offers (new_buffer start cap) offers = (b, d, false) ->
  bval (next_expected b) = bval start + Z.of_nat (length d) /\
  (forall i, (i < length d)%nat -> first_offer offers (bval start + Z.of_nat i) = d !! i) /\
  (ack b = None <-> d = []) /\
  (forall n, ack b = Some n -> bval n = bval start + Z.of_nat (length d) - 1).
Proof.
  intros Hmax Hr.
  destruct (run_offers_spec (new_buffer start cap) [] [] offers b d) as ([Hle _] & Ho & Hst);
    [done|apply new_window|apply new_owns|done|].
  destruct Ho as (Hlen & Hd & _). simpl in *. rewrite Hst in *. simpl in *.
  pose proof (bint_range (rb_next b)). split_and!.
  - done.
  - intros i Hi. destruct (lookup_lt_is_Some_2 d i Hi) as [x Hx]. by rewrite (Hd _ _ Hx).
  - unfold ack. rewrite Hst. simpl. destruct (_ <? _) eqn:E; bool_to_prop.
    + split; [done|]. intros ->. simpl in *. lia.
    + split; [|done]. intros _. apply nil_length_inv. lia.
  - intros n. unfold ack. rewrite Hst. simpl. destruct (_ <? _) eqn:E; [|done]. bool_to_prop.
    intros [= <-]. rewrite wrap_small; pose proof (bint_range start); lia.
Qed.

Lemma reorder_delivers_in_order_once_witness :
  let offers := [(wrap 0, 10); (wrap 2, 12); (wrap 0, 99); (wrap 1, 11)] : list (u64 * Z) in
  exists b d, run_offers (new_buffer (wrap 0) 8) offers = (b, d, false) /\ d = [10; 11; 12] /\
  bval (next_expected b) = bval (wrap 0 : u64) + Z.of_nat (length d).
Proof.
  intros offers. eexists _, _. split; [vm_compute; reflexivity|]. split; [reflexivity|].
  apply (reorder_delivers_in_order_once (wrap 0) 8 offers); [|vm_compute; reflexivity].
  intros k y. unfold offers. rewrite !elem_of_cons.
  intros Hk. destruct_or!; simplify_eq; try reflexivity. by apply not_elem_of_nil in Hk.
Defined.

(** Completeness of the window: if every sequence number below [start + n] was
    offered in some order and no offer overflowed, all [n] of them were delivered. *)
Theorem reorder_complete {T} (start : u64) (cap n : nat) (offers : list (u64 * T)) b d :
  (forall k y, (k, y) ∈ offers -> bval k < 2 ^ 64 - 1) ->
  (forall i, (i < n)%nat -> is_Some (first_offer offers (bval start + Z.of_nat i))) ->
  run_offers (new_buffer start cap) offers = (b, d, false) ->
  (n <= length d)%nat.
Proof.
  intros Hmax Hall Hr.
  destruct (run_offers_spec (new_buffer start cap) [] [] offers b d) as ([Hle Hw] & Ho & Hst);
    [done|apply new_window|apply new_owns|done|].
  destruct Ho as (Hlen & _ & _ & Hp). simpl in *. rewrite Hst in *. simpl in *.
  destruct (decide (n <= length d)%nat) as [|Hn]; [done|].
  destruct (Hall (length d)) as [x Hx]; [lia|]. rewrite <- Hlen in Hx.
  destruct (Hp (rb_next b)) as [y Hy]; [eauto|lia|]. specialize (Hw _ _ Hy). lia.
Qed.

Lemma reorder_complete_witness :
  let offers := [(wrap 2, 12); (wrap 1, 11); (wrap 0, 10)] : list (u64 * Z) in
  exists b d, run_offers (new_buffer (wrap 0) 8) offers = (b, d, false) /\ (3 <= length d)%nat.
Proof.
  intros offers. eexists _, _. split; [vm_compute; reflexivity|].
  apply (reorder_complete (wrap 0) 8 3 offers (run_offers (new_buffer (wrap 0) 8) offers).1.1).
  - intros k y. unfold offers. rewrite !elem_of_cons.
    intros Hk. destruct_or!; simplify_eq; try reflexivity. by apply not_elem_of_nil in Hk.
  - intros i Hi. destruct i as [|[|[|i]]]; [eexists; vm_compute; reflexivity..|lia].
  - vm_compute. reflexivity.
Defined.

(** Bounded memory: however the peer orders or floods its sequence numbers, the
    buffer never holds more than [capacity] items. *)
Theorem reorder_memory_bounded {T} (start : u64) (cap : nat) (offers : list (u64 * T)) :
  (forall k y, (k, y) ∈ offers -> bval k < 2 ^ 64 - 1) ->
  (buffered (run_offers (new_buffer start cap) offers).1.1 <= cap)%nat.
Proof.
  intros Hmax. unfold buffered.
  cut (forall b, window b -> (forall k y, rb_pending b !! k = Some y -> bval k < 2 ^ 64 - 1) ->
         window (run_offers b offers).1.1 /\ rb_capacity (run_offers b offers).1.1 = rb_capacity b).
  { intros Hc. destruct (Hc (new_buffer start cap)) as [Hw Hcap]; [apply new_window| |].
    { intros k y. simpl. by rewrite lookup_empty. }
    apply window_size in Hw. by rewrite Hcap in Hw. }
  induction offers as [|[s x] offers IH]; intros b Hw Hp; simpl; [done|].
  destruct (accept b s x) as [b1 a] eqn:Ea.
  assert (bval s < 2 ^ 64 - 1) as Hs by (apply (Hmax s x); set_solver).
  destruct (accept_start_cap b s x) as [_ Hcap]. rewrite Ea in Hcap. simpl in Hcap.
  specialize (IH ltac:(intros; eapply Hmax; by right) b1).
  destruct IH as [Hw' Hc'].
  - by eapply accept_window.
  - by eapply accept_keys_below.
  - destruct (run_offers b1 offers) as [[b2 d2] o]. simpl in *. by rewrite Hc'.
Qed.

Lemma reorder_memory_bounded_witness :
  let offers := [(wrap 5, 1); (wrap 6, 1); (wrap 7, 1); (wrap 900, 1)] : list (u64 * Z) in
  (buffered (run_offers (new_buffer (wrap 4) 2) offers).1.1 <= 2)%nat.
Proof.
  intros offers. apply (reorder_memory_bounded (wrap 4) 2 offers).
  intros k y. unfold offers. rewrite !elem_of_cons.
  intros Hk. destruct_or!; simplify_eq; try reflexivity. by apply not_elem_of_nil in Hk.
Defined.

(** At the end of the sequence space the head saturates: once [next] is
    [u64::MAX], offering that sequence number delivers it every time and leaves the
    buffer unchanged, so the duplicate is not dropped there. *)
Theorem reorder_saturation_redelivers {T} (b : ReorderBuffer T) (x : T) :
  bval (rb_next b) = 2 ^ 64 - 1 -> rb_pending b = ∅ ->
  accept b (rb_next b) x = (b, Deliver [x]).
Proof.
  intros Hn Hp. unfold accept. rewrite Hp, lookup_empty.
  rewrite Z.ltb_irrefl, (bool_decide_eq_false_2 (is_Some None)) by (by intros []). simpl.
  rewrite bool_decide_eq_true_2 by done. rewrite map_size_empty. simpl.
  assert (saturating_add (rb_next b) 1 = rb_next b) as ->.
  { apply bint_eq. rewrite saturating_add_val; lia. }
  destruct b. simpl in *. by subst.
Qed.

Lemma reorder_saturation_redelivers_witness :
  let b : ReorderBuffer Z := new_buffer (wrap (2 ^ 64 - 1)) 8 in
  accept b (rb_next b) 1 = (b, Deliver [1]) /\ accept b (rb_next b) 2 = (b, Deliver [2]).
Proof. intros b. split; apply reorder_saturation_redelivers; reflexivity. Defined.
