(* ===== verification/Text.v ===== *)
(** * Text functions of the Rust standard library used by the program

    Rust strings are UTF-8; here a string is its bytes.  [trim] removes the encodings
    of the Unicode White_Space characters from both ends, [is_control] covers the
    Unicode Cc category, and the ASCII case functions act on single bytes. *)
From S2P Require Import Prelude.

Definition chr (n : N) : string := String (ascii_of_N n) EmptyString.
Definition seq2 (a b : N) : string := chr a +:+ chr b.
Definition seq3 (a b c : N) : string := chr a +:+ (chr b +:+ chr c).

(** UTF-8 encodings of the characters with the White_Space property. *)
Definition white_space : list string :=
  [chr 9; chr 10; chr 11; chr 12; chr 13; chr 32;
   seq2 0xC2 0x85; seq2 0xC2 0xA0; seq3 0xE1 0x9A 0x80;
   seq3 0xE2 0x80 0x80; seq3 0xE2 0x80 0x81; seq3 0xE2 0x80 0x82; seq3 0xE2 0x80 0x83;
   seq3 0xE2 0x80 0x84; seq3 0xE2 0x80 0x85; seq3 0xE2 0x80 0x86; seq3 0xE2 0x80 0x87;
   seq3 0xE2 0x80 0x88; seq3 0xE2 0x80 0x89; seq3 0xE2 0x80 0x8A;
   seq3 0xE2 0x80 0xA8; seq3 0xE2 0x80 0xA9; seq3 0xE2 0x80 0xAF; seq3 0xE2 0x81 0x9F;
   seq3 0xE3 0x80 0x80].

(** UTF-8 encodings of the control characters (Cc): U+0000-1F, U+7F, U+80-9F. *)
Definition control_chars : list string :=
  (chr <$> ([0; 1; 2; 3; 4; 5; 6; 7; 8; 9; 10; 11; 12; 13; 14; 15; 16; 17; 18; 19; 20; 21; 22;
             23; 24; 25; 26; 27; 28; 29; 30; 31; 127]%N)) ++
  (seq2 0xC2 <$> ([0x80; 0x81; 0x82; 0x83; 0x84; 0x85; 0x86; 0x87; 0x88; 0x89; 0x8A; 0x8B; 0x8C;
                   0x8D; 0x8E; 0x8F; 0x90; 0x91; 0x92; 0x93; 0x94; 0x95; 0x96; 0x97; 0x98; 0x99;
                   0x9A; 0x9B; 0x9C; 0x9D; 0x9E; 0x9F]%N)).

Fixpoint strip_any (ps : list string) (s : string) : option string :=
  match ps with
  | [] => None
  | p :: ps' => match strip_prefix p s with Some r => Some r | None => strip_any ps' s end
  end.

(** [trim_start_matches]: every turn removes at least one byte, so the length of the
    string bounds the number of turns. *)
Fixpoint trim_start_go (fuel : nat) (ps : list string) (s : string) : string :=
  match fuel with
  | O => s
  | S f => match strip_any ps s with Some r => trim_start_go f ps r | None => s end
  end.
Definition trim_start_of (ps : list string) (s : string) : string :=
  trim_start_go (String.length s) ps s.
Definition trim_end_of (ps : list string) (s : string) : string :=
  String.rev (trim_start_of (String.rev <$> ps) (String.rev s)).
Definition trim_of (ps : list string) (s : string) : string := trim_end_of ps (trim_start_of ps s).

(** [str::trim]. *)
Definition trim (s : string) : string := trim_of white_space s.

(** [s.chars().any(char::is_control)]: a control encoding occurs somewhere. *)
Fixpoint any_of (ps : list string) (s : string) : bool :=
  bool_decide (is_Some (strip_any ps s)) ||
  match s with EmptyString => false | String _ s' => any_of ps s' end.

(** [to_ascii_lowercase] and [eq_ignore_ascii_case]. *)
Definition lower_char (c : ascii) : ascii :=
  let n := N_of_ascii c in
  if (65 <=? n)%N && (n <=? 90)%N then ascii_of_N (n + 32) else c.
Fixpoint to_ascii_lowercase (s : string) : string :=
  match s with EmptyString => EmptyString | String c s' => String (lower_char c) (to_ascii_lowercase s') end.
Definition eq_ignore_ascii_case (a b : string) : bool :=
  bool_decide (to_ascii_lowercase a = to_ascii_lowercase b).

(** [starts_with_any]: some pattern is a prefix. *)
Definition starts_with_any (ps : list string) (s : string) : bool :=
  bool_decide (is_Some (strip_any ps s)).

(** [u64::to_string]: at most 20 digits. *)
Definition digit_char (d : Z) : ascii := ascii_of_N (Z.to_N (48 + d)).
Fixpoint dec_go (fuel : nat) (n : Z) : string :=
  match fuel with
  | O => EmptyString
  | S f => if n <? 10 then String (digit_char n) EmptyString
           else dec_go f (n / 10) +:+ String (digit_char (n mod 10)) EmptyString
  end.
Definition to_dec (n : Z) : string := dec_go 20 n.

(** A signed integer. *)
Definition z_text (z : Z) : string := if z <? 0 then "-" +:+ to_dec (- z) else to_dec z.

(** [println!]: the line and its end. *)
Definition newline : string := String (ascii_of_N 10) EmptyString.
Definition println (line : string) : bytes := bytes_of (line +:+ newline).

(** [str::parse] for an unsigned integer: an optional [+], then one or more digits. *)
Definition digit_val (c : ascii) : option Z :=
  let n := N_of_ascii c in
  if (48 <=? n)%N && (n <=? 57)%N then Some (Z.of_N n - 48) else None.
Fixpoint dec_parse (acc : Z) (s : string) : option Z :=
  match s with
  | EmptyString => Some acc
  | String c s' => let! d := digit_val c in dec_parse (10 * acc + d) s'
  end.
Definition parse_unsigned {lo hi} (s : string) : option (bint lo hi) :=
  let body := match strip_prefix "+" s with Some r => r | None => s end in
  if is_empty body then None else let! z := dec_parse 0 body in try_from z.

(** Printable ASCII without the space. *)
Definition graphic (c : ascii) : bool := (33 <=? N_of_ascii c)%N && (N_of_ascii c <=? 126)%N.
Fixpoint all_chars (p : ascii -> bool) (s : string) : bool :=
  match s with EmptyString => true | String c s' => p c && all_chars p s' end.

(** ** Lemmas *)

Lemma length_append s t : String.length (s +:+ t) = (String.length s + String.length t)%nat.
Proof. induction s as [|a s IH]; [done|]. rewrite append_cons. simpl. by rewrite IH. Qed.

Lemma strip_any_Some ps s r :
  strip_any ps s = Some r -> exists p, p ∈ ps /\ s = p +:+ r.
Proof.
  induction ps as [|p ps IH]; simpl; [done|].
  destruct (strip_prefix p s) eqn:E.
  - intros [= <-]. exists p. split; [left|by apply strip_prefix_Some].
  - intros (q & Hq & ->)%IH. exists q. split; [by right|done].
Qed.

Lemma strip_any_shorter ps s r :
  Forall (fun p => p <> EmptyString) ps -> strip_any ps s = Some r ->
  (String.length r < String.length s)%nat.
Proof.
  intros Hne (p & Hp & ->)%strip_any_Some. rewrite length_append.
  rewrite Forall_forall in Hne. specialize (Hne p Hp). destruct p; [done|]. simpl. lia.
Qed.

(** After trimming, no pattern is left at the front. *)
Lemma trim_start_clean fuel ps s :
  Forall (fun p => p <> EmptyString) ps -> (String.length s <= fuel)%nat ->
  strip_any ps (trim_start_go fuel ps s) = None.
Proof.
  intros Hne. revert s. induction fuel as [|fuel IH]; intros s Hf; simpl.
  - destruct (strip_any ps s) eqn:E; [|done]. apply strip_any_shorter in E; [lia|done].
  - destruct (strip_any ps s) eqn:E; [|done]. apply IH.
    apply strip_any_shorter in E; [lia|done].
Qed.

Lemma trim_start_id ps s : strip_any ps s = None -> trim_start_of ps s = s.
Proof. intros E. unfold trim_start_of. destruct (String.length s); simpl; [done|]. by rewrite E. Qed.

Lemma white_space_nonempty : Forall (fun p => p <> EmptyString) white_space.
Proof. repeat constructor; discriminate. Qed.

Definition heads (ps : list string) (c : ascii) : bool :=
  existsb (fun p => match p with String a _ => bool_decide (a = c) | EmptyString => true end) ps.

Lemma strip_any_head ps c s : heads ps c = false -> strip_any ps (String c s) = None.
Proof.
  induction ps as [|p ps IH]; simpl; [done|]. intros [Hp Hps]%orb_false_iff.
  destruct p as [|a p]; [done|]. bool_to_prop. simpl. rewrite decide_False by done. auto.
Qed.

Lemma graphic_heads c :
  graphic c = true -> heads white_space c = false /\ heads (String.rev <$> white_space) c = false.
Proof. destruct c as [[] [] [] [] [] [] [] []]; vm_compute; done. Qed.

Lemma all_chars_app p s t : all_chars p (s +:+ t) = all_chars p s && all_chars p t.
Proof. induction s as [|a s IH]; [done|]. rewrite append_cons. simpl. by rewrite IH, andb_assoc. Qed.

Lemma trim_start_graphic ps s :
  (forall c, graphic c = true -> heads ps c = false) ->
  all_chars graphic s = true -> trim_start_of ps s = s.
Proof.
  intros Hh Ha. destruct s as [|c s]; [done|]. apply trim_start_id, strip_any_head, Hh.
  simpl in Ha. by bool_to_prop.
Qed.

Lemma rev_app_rev s t : String.rev_app s t = String.rev s +:+ t.
Proof.
  unfold String.rev. revert t. induction s as [|c s IH]; intros t; [done|]. simpl.
  rewrite IH, (IH (String c EmptyString)), append_assoc. done.
Qed.

Lemma rev_append s t : String.rev (s +:+ t) = String.rev t +:+ String.rev s.
Proof.
  induction s as [|c s IH]; rewrite ?append_nil_l, ?append_cons.
  - induction (String.rev t) as [|a u IHu]; [done|]. by rewrite append_cons, <- IHu.
  - unfold String.rev at 1 3. simpl. by rewrite !rev_app_rev, IH, append_assoc.
Qed.

Lemma rev_rev s : String.rev (String.rev s) = s.
Proof.
  induction s as [|c s IH]; [done|]. unfold String.rev at 2. simpl.
  rewrite rev_app_rev, rev_append, IH. done.
Qed.

Lemma all_chars_rev p s : all_chars p (String.rev s) = all_chars p s.
Proof.
  induction s as [|c s IH]; [done|]. unfold String.rev. simpl.
  rewrite rev_app_rev, all_chars_app, IH. simpl. rewrite andb_true_r. apply andb_comm.
Qed.

(** A string of printable characters is unchanged by [trim]. *)
Lemma trim_graphic s : all_chars graphic s = true -> trim s = s.
Proof.
  intros Ha. unfold trim, trim_of, trim_end_of.
  rewrite (trim_start_graphic white_space); [|by intros c [? ?]%graphic_heads|done].
  rewrite trim_start_graphic; [apply rev_rev|by intros c [? ?]%graphic_heads|by rewrite all_chars_rev].
Qed.

Lemma digit_val_char d : 0 <= d < 10 -> digit_val (digit_char d) = Some d /\ graphic (digit_char d) = true /\
  digit_char d <> "+"%char.
Proof.
  intros Hd. assert (d ∈ [0; 1; 2; 3; 4; 5; 6; 7; 8; 9]) as Hin by (rewrite !elem_of_cons; lia).
  rewrite !elem_of_cons in Hin. repeat destruct Hin as [->|Hin]; [vm_compute; done..|].
  by apply not_elem_of_nil in Hin.
Qed.

Lemma dec_parse_app acc s t :
  dec_parse acc (s +:+ t) = let! a := dec_parse acc s in dec_parse a t.
Proof.
  revert acc. induction s as [|c s IH]; intros acc; [done|]. rewrite append_cons. simpl.
  destruct (digit_val c); [apply IH|done].
Qed.

Lemma dec_go_spec fuel n :
  0 <= n < 10 ^ Z.of_nat fuel -> (0 < fuel)%nat ->
  dec_parse 0 (dec_go fuel n) = Some n /\ all_chars graphic (dec_go fuel n) = true /\
  exists c s, dec_go fuel n = String c s /\ c <> "+"%char.
Proof.
  revert n. induction fuel as [|fuel IH]; intros n Hn Hf; [lia|].
  cbn [dec_go]. destruct (n <? 10) eqn:E; bool_to_prop.
  - destruct (digit_val_char n) as (Hv & Hg & Hp); [lia|]. simpl. rewrite Hv, Hg. simpl.
    split; [f_equal; lia|]. split; [done|]. eauto.
  - rewrite Nat2Z.inj_succ, Z.pow_succ_r in Hn by lia.
    destruct fuel as [|fuel]; [simpl in Hn; lia|].
    destruct (IH (n / 10)) as (Hp & Hg & c & s & Hc & Hne); [|lia|].
    { split; [apply Z.div_pos; lia|]. apply Z.div_lt_upper_bound; lia. }
    pose proof (Z.mod_pos_bound n 10 ltac:(lia)).
    destruct (digit_val_char (n mod 10)) as (Hv & Hg' & _); [lia|].
    rewrite dec_parse_app, all_chars_app, Hp, Hg. cbn [dec_parse all_chars]. rewrite Hv, Hg'.
    split; [f_equal; pose proof (Z.div_mod n 10); lia|]. split; [done|].
    rewrite Hc. eauto.
Qed.

(** Printing a [u64] and parsing it back, also through [trim]. *)
Lemma parse_to_dec (n : u64) : parse_unsigned (trim (to_dec (bval n))) = Some n.
Proof.
  pose proof (bint_range n). unfold to_dec.
  destruct (dec_go_spec 20 (bval n)) as (Hp & Hg & c & s & Hc & Hne); [|lia|].
  { split; [lia|]. change (10 ^ Z.of_nat 20) with 100000000000000000000. lia. }
  rewrite trim_graphic by done. unfold parse_unsigned. rewrite Hc in *. cbn [strip_prefix].
  rewrite decide_False by congruence. simpl is_empty. cbv iota. rewrite Hp. by apply try_from_Some.
Qed.

(** ** Trimming is idempotent, also by fewer patterns *)

Lemma strip_any_None ps s : strip_any ps s = None <-> forall p, p ∈ ps -> strip_prefix p s = None.
Proof.
  induction ps as [|p ps IH]; simpl; [split; [by intros _ p ?%not_elem_of_nil|done]|].
  destruct (strip_prefix p s) as [r|] eqn:E.
  - split; [done|]. intros Hp. specialize (Hp p). rewrite E in Hp. apply Hp. by left.
  - rewrite IH. split; intros Hp q; [intros [->|?]%elem_of_cons; auto|intros ?; apply Hp; by right].
Qed.

Lemma strip_any_sub ps ps' s : ps' ⊆ ps -> strip_any ps s = None -> strip_any ps' s = None.
Proof. intros Hs. rewrite !strip_any_None. auto. Qed.

Lemma strip_any_app ps s t : strip_any ps (s +:+ t) = None -> strip_any ps s = None.
Proof.
  rewrite !strip_any_None. intros Hn p Hp. destruct (strip_prefix p s) as [r|] eqn:E; [|done].
  apply strip_prefix_Some in E as ->. specialize (Hn p Hp). by rewrite append_assoc, strip_prefix_app in Hn.
Qed.

Lemma trim_start_suffix fuel ps s : exists p, s = p +:+ trim_start_go fuel ps s.
Proof.
  revert s. induction fuel as [|fuel IH]; intros s; simpl; [by exists EmptyString|].
  destruct (strip_any ps s) as [r|] eqn:E; [|by exists EmptyString].
  apply strip_any_Some in E as (p & _ & ->). destruct (IH r) as [q Hq]. exists (p +:+ q). by rewrite append_assoc, <- Hq.
Qed.

Lemma rev_nonempty ps : Forall (fun p => p <> EmptyString) ps -> Forall (fun p => p <> EmptyString) (String.rev <$> ps).
Proof.
  rewrite !Forall_forall. intros Hp q (p & -> & Hin)%list_elem_of_fmap He. apply (Hp p Hin). by rewrite <- (rev_rev p), He.
Qed.

Lemma length_rev s : String.length (String.rev s) = String.length s.
Proof.
  induction s as [|c s IH]; [done|]. unfold String.rev. simpl. rewrite rev_app_rev, length_append, IH. simpl. lia.
Qed.

(** Neither end of a trimmed string matches. *)
Lemma trim_of_clean ps s :
  Forall (fun p => p <> EmptyString) ps ->
  strip_any ps (trim_of ps s) = None /\ strip_any (String.rev <$> ps) (String.rev (trim_of ps s)) = None.
Proof.
  intros Hne. unfold trim_of, trim_end_of, trim_start_of. rewrite rev_rev. split; [|apply trim_start_clean; [by apply rev_nonempty|done]].
  set (u := trim_start_go (String.length s) ps s).
  assert (strip_any ps u = None) as Hu by by apply trim_start_clean.
  destruct (trim_start_suffix (String.length (String.rev u)) (String.rev <$> ps) (String.rev u)) as [p Hp].
  set (v := trim_start_go _ _ _) in *. apply (f_equal String.rev) in Hp. rewrite rev_rev, rev_append in Hp.
  apply (strip_any_app _ _ (String.rev p)). by rewrite <- Hp.
Qed.

Lemma trim_of_fixed ps ps' s :
  Forall (fun p => p <> EmptyString) ps -> ps' ⊆ ps -> trim_of ps' (trim_of ps s) = trim_of ps s.
Proof.
  intros Hne Hsub. destruct (trim_of_clean ps s Hne) as [Hs He]. set (u := trim_of ps s) in *.
  unfold trim_of, trim_end_of. rewrite (trim_start_id ps') by by eapply strip_any_sub.
  rewrite trim_start_id; [apply rev_rev|]. eapply strip_any_sub; [|exact He].
  intros q (p & -> & Hp)%list_elem_of_fmap. apply list_elem_of_fmap. eauto.
Qed.

Lemma any_of_char ps c s : String c EmptyString ∈ ps -> any_of ps s = false -> has_char c s = false.
Proof.
  intros Hc. induction s as [|a s IH]; [done|]. simpl. intros [Ha Hs]%orb_false_iff. apply IH in Hs. rewrite Hs.
  destruct (decide (a = c)) as [->|Hne]; [|by rewrite bool_decide_eq_false_2].
  apply bool_decide_eq_false in Ha. destruct Ha. destruct (strip_any ps (String c s)) as [r|] eqn:E; [done|].
  rewrite strip_any_None in E. specialize (E _ Hc). simpl in E. by rewrite decide_True in E.
Qed.
