(* ===== verification/Allowlist.v ===== *)
(** * Host-local action backstop (osa-core/src/allowlist.rs, osa-agent/src/backstop.rs)

    The agent's own deny-by-default check on every dispatched action. *)
From S2P Require Import Prelude Proto.

Inductive BackstopDenial :=
| DenyVerb (kind : string)
| DenyRunAs (run_as : string).
#[global] Instance BackstopDenial_eq_dec : EqDecision BackstopDenial.
Proof. solve_decision. Defined.

Record LocalAllowlist := mkAllowlist { al_verbs : list string; al_run_as : list string }.

Definition deny_all : LocalAllowlist := mkAllowlist [] [].

(** An entry admits a value if it is the wildcard or equal to it. *)
Definition entry_matches (v x : string) : bool := bool_decide (v = "*") || bool_decide (v = x).

Definition permits (self : LocalAllowlist) (action : ActionDescriptor) : result unit BackstopDenial :=
  if is_empty (ad_kind action) || negb (existsb (fun v => entry_matches v (ad_kind action)) (al_verbs self))
  then Err (DenyVerb (ad_kind action))
  else if negb (existsb (fun u => entry_matches u (ad_run_as action)) (al_run_as self))
  then Err (DenyRunAs (ad_run_as action))
  else Ok tt.

(** ** Loading from host configuration *)

Record AllowlistDoc := mkAllowlistDoc { doc_verbs : list string; doc_run_as : list string }.

Inductive LoadError := ReadFailed | NotToml.

(** [read] is what reading the file returned, [parse] the TOML deserializer. *)
Definition load (path : option string) (read : string -> option string)
    (parse : string -> option AllowlistDoc) : result LocalAllowlist LoadError :=
  match path with
  | None => Ok deny_all
  | Some path =>
      let? doc := ok_or (read path) ReadFailed in
      let? parsed := ok_or (parse doc) NotToml in
      Ok (mkAllowlist (doc_verbs parsed) (doc_run_as parsed))
  end.

(** ** Specification and lemmas *)

Definition grants (l : list string) (x : string) : Prop := "*" ∈ l \/ x ∈ l.

Lemma existsb_grants l x : existsb (fun v => entry_matches v x) l = true <-> grants l x.
Proof.
  unfold grants, entry_matches. rewrite existsb_exists. split.
  - intros (v & Hin & Hv). apply list_elem_of_In in Hin.
    apply orb_true_iff in Hv as [Hv|Hv]; bool_to_prop; subst; auto.
  - intros [Hin|Hin]; eexists; (split; [by apply list_elem_of_In|]);
      [by rewrite bool_decide_eq_true_2|].
    rewrite (bool_decide_eq_true_2 (x = x)) by done. by rewrite orb_true_r.
Qed.

Lemma existsb_grants_false l x : existsb (fun v => entry_matches v x) l = false <-> ~ grants l x.
Proof. rewrite <- not_true_iff_false. by rewrite existsb_grants. Qed.

Lemma permits_ok_inv self action :
  permits self action = Ok tt ->
  ad_kind action <> EmptyString /\ grants (al_verbs self) (ad_kind action) /\
  grants (al_run_as self) (ad_run_as action).
Proof.
  unfold permits. destruct (is_empty _) eqn:Ek; [done|]. simpl.
  destruct (existsb _ (al_verbs self)) eqn:Ev; [|done].
  destruct (existsb _ (al_run_as self)) eqn:Er; [|done]. intros _.
  apply existsb_grants in Ev, Er. split; [|done]. by destruct (ad_kind action).
Qed.

#[export] Hint Resolve permits_ok_inv : osa.

(** ** Properties *)

(** The backstop decides exactly the allowlist: an action is permitted iff its
    verb is non-empty and listed (or wildcarded) and its [run_as] (the empty default
    identity included) is listed or wildcarded; otherwise the denial names the field
    that failed, the verb first. *)
Theorem permits_spec (self : LocalAllowlist) (action : ActionDescriptor) :
  match permits self action with
  | Ok _ => ad_kind action <> EmptyString /\ grants (al_verbs self) (ad_kind action) /\
            grants (al_run_as self) (ad_run_as action)
  | Err (DenyVerb k) => k = ad_kind action /\
            (ad_kind action = EmptyString \/ ~ grants (al_verbs self) (ad_kind action))
  | Err (DenyRunAs r) => r = ad_run_as action /\
            grants (al_verbs self) (ad_kind action) /\ ~ grants (al_run_as self) (ad_run_as action)
  end.
Proof.
  destruct (permits self action) as [[]|e] eqn:Ep; [by apply permits_ok_inv|].
  unfold permits in Ep. destruct (is_empty _) eqn:Ek; simplify_eq/=.
  { split; [done|]. left. by destruct (ad_kind action). }
  destruct (existsb _ (al_verbs self)) eqn:Ev; simplify_eq/=.
  - destruct (existsb _ (al_run_as self)) eqn:Er; simplify_eq/=.
    by rewrite existsb_grants in Ev; rewrite existsb_grants_false in Er.
  - by rewrite existsb_grants_false in Ev; eauto.
Qed.

(** An unconfigured host permits nothing. *)
Lemma load_unconfigured_denies read parse action :
  exists al, load None read parse = Ok al /\ permits al action = Err (DenyVerb (ad_kind action)).
Proof. exists deny_all. split; [done|]. unfold permits. simpl. by rewrite orb_true_r. Qed.
