(* ===== verification/Policy.v ===== *)
(** * Deny-by-default RBAC (osa-coordinator/src/policy.rs)

    Role bindings, the TOML policy loader and the decision function of the
    coordinator's policy decision point. *)
From S2P Require Import Prelude Proto Text Concrete Allowlist.

Definition ANONYMOUS_SUBJECT : string := "anonymous".

Inductive Selector := SelAny | SelHost (h : Uuid).
#[global] Instance Selector_eq_dec : EqDecision Selector.
Proof. solve_decision. Defined.

Definition Selector_matches (self : Selector) (target : Uuid) : bool :=
  match self with SelAny => true | SelHost h => bool_decide (h = target) end.

Record Binding := mkBinding {
  b_subject : string; b_verbs : list string; b_selectors : list Selector; b_run_as : list string
}.

Definition Binding_allows (self : Binding) (subject kind : string) (target : Uuid) (run_as : string) : bool :=
  bool_decide (b_subject self = subject) &&
  negb (is_empty kind) &&
  existsb (fun v => entry_matches v kind) (b_verbs self) &&
  existsb (fun s => Selector_matches s target) (b_selectors self) &&
  existsb (fun u => entry_matches u run_as) (b_run_as self).

Record RbacPolicyEngine := mkEngine { bindings : list Binding }.

Definition empty_engine : RbacPolicyEngine := mkEngine [].
Definition engine_is_empty (self : RbacPolicyEngine) : bool :=
  match bindings self with [] => true | _ => false end.

Record BindingDoc := mkBindingDoc {
  bd_subject : string; bd_verbs : list string; bd_selectors : list string; bd_run_as : list string
}.
Record PolicyDoc := mkPolicyDoc { pd_binding : list BindingDoc }.

Inductive PolicyError :=
| PolicyNotToml
| BadSubject
| ReservedSubject
| NoVerbs (subject : string)
| NoSelectors (subject : string)
| NoRunAs (subject : string)
| PaddedRunAs (subject entry : string)
| BadSelector (s : string).

Section Policy.
Context `{UuidLib}.

Definition parse_selector (s : string) : result Selector PolicyError :=
  if bool_decide (s = "*") then Ok SelAny
  else match uuid_parse s with Some u => Ok (SelHost u) | None => Err (BadSelector s) end.

Fixpoint parse_selectors (l : list string) : result (list Selector) PolicyError :=
  match l with
  | [] => Ok []
  | s :: l' => let? x := parse_selector s in let? xs := parse_selectors l' in Ok (x :: xs)
  end.

Definition padded_entry (l : list string) : option string :=
  find (fun u => negb (bool_decide (trim u = u))) l.

(** One turn of the loader's loop over the document's bindings. *)
Definition load_binding (b : BindingDoc) : result Binding PolicyError :=
  if is_empty (bd_subject b) || negb (bool_decide (trim (bd_subject b) = bd_subject b)) then Err BadSubject
  else if bool_decide (bd_subject b = ANONYMOUS_SUBJECT) then Err ReservedSubject
  else match bd_verbs b, bd_selectors b, bd_run_as b with
       | [], _, _ => Err (NoVerbs (bd_subject b))
       | _, [], _ => Err (NoSelectors (bd_subject b))
       | _, _, [] => Err (NoRunAs (bd_subject b))
       | _, _, _ =>
           match padded_entry (bd_run_as b) with
           | Some u => Err (PaddedRunAs (bd_subject b) u)
           | None =>
               let? sels := parse_selectors (bd_selectors b) in
               Ok (mkBinding (bd_subject b) (bd_verbs b) sels (bd_run_as b))
           end
       end.

Fixpoint load_bindings (l : list BindingDoc) : result (list Binding) PolicyError :=
  match l with
  | [] => Ok []
  | b :: l' => let? x := load_binding b in let? xs := load_bindings l' in Ok (x :: xs)
  end.

(** [parse] is the TOML deserializer of [PolicyDoc]. *)
Definition from_toml (parse : string -> option PolicyDoc) (doc : string) : result RbacPolicyEngine PolicyError :=
  let? parsed := ok_or (parse doc) PolicyNotToml in
  let? bs := load_bindings (pd_binding parsed) in
  Ok (mkEngine bs).

Definition authorize (self : RbacPolicyEngine) (subject : string) (action : ActionDescriptor)
    : result unit PortError :=
  match uuid_parse (ad_target action) with
  | None => Err Denied
  | Some target =>
      if existsb (fun b => Binding_allows b subject (ad_kind action) target (ad_run_as action)) (bindings self)
      then Ok tt else Err Denied
  end.

End Policy.

(** ** Specification *)

Definition covers (sels : list Selector) (u : Uuid) : Prop := SelAny ∈ sels \/ SelHost u ∈ sels.

(** A binding grants an action on a host. *)
Definition binding_grants (b : Binding) (subject kind : string) (u : Uuid) (run_as : string) : Prop :=
  b_subject b = subject /\ kind <> EmptyString /\ grants (b_verbs b) kind /\
  covers (b_selectors b) u /\ grants (b_run_as b) run_as.

(** ** Lemmas *)

Lemma existsb_covers l u : existsb (fun s => Selector_matches s u) l = true <-> covers l u.
Proof.
  unfold covers. rewrite existsb_exists. split.
  - intros (s & Hin%list_elem_of_In & Hs). destruct s; simpl in Hs; bool_to_prop; subst; auto.
  - intros [Hin|Hin]; eexists; (split; [by apply list_elem_of_In|]); simpl; [done|].
    by rewrite bool_decide_eq_true_2.
Qed.

Lemma Binding_allows_spec b subject kind u run_as :
  Binding_allows b subject kind u run_as = true <-> binding_grants b subject kind u run_as.
Proof.
  unfold Binding_allows, binding_grants.
  rewrite !andb_true_iff, negb_true_iff, bool_decide_eq_true, !existsb_grants, existsb_covers.
  destruct kind; simpl; intuition congruence.
Qed.

Section PolicyLemmas.
Context `{UuidLib}.

Lemma authorize_total engine subject action :
  authorize engine subject action = Ok tt \/ authorize engine subject action = Err Denied.
Proof. unfold authorize. destruct (uuid_parse _); [|by right]. destruct (existsb _ _); auto. Qed.

Lemma load_binding_subject b x :
  load_binding b = Ok x -> b_subject x = bd_subject b /\ bd_subject b <> ANONYMOUS_SUBJECT.
Proof.
  unfold load_binding. destruct (_ || _); [done|].
  destruct (bool_decide (bd_subject b = ANONYMOUS_SUBJECT)) eqn:Ea; [done|]. bool_to_prop.
  destruct (bd_verbs b), (bd_selectors b), (bd_run_as b); try done.
  destruct (padded_entry _); [done|]. destruct (parse_selectors _); [|done].
  intros ?; by simplify_eq.
Qed.

Lemma load_bindings_subject l bs b :
  load_bindings l = Ok bs -> b ∈ bs -> b_subject b <> ANONYMOUS_SUBJECT.
Proof.
  revert bs. induction l as [|d l IH]; intros bs; simpl.
  { intros ?; simplify_eq. by intros ?%not_elem_of_nil. }
  destruct (load_binding d) as [x|] eqn:Ex; [|done].
  destruct (load_bindings l) as [xs|]; [|done]. intros ?; simplify_eq.
  rewrite elem_of_cons. intros [->|Hin]; [|by eapply IH].
  apply load_binding_subject in Ex as [-> ?]. done.
Qed.

End PolicyLemmas.

(** ** Properties *)

(** The decision point is exactly the role bindings: an action is authorized iff
    its target is a host id and some binding grants the subject that verb, a selector
    covering that host and that [run_as]; every other request is denied. *)
Theorem authorize_spec `{UuidLib} (engine : RbacPolicyEngine) (subject : string) (action : ActionDescriptor) :
  (authorize engine subject action = Ok tt <->
   exists u b, uuid_parse (ad_target action) = Some u /\ b ∈ bindings engine /\
     binding_grants b subject (ad_kind action) u (ad_run_as action)) /\
  (authorize engine subject action <> Ok tt -> authorize engine subject action = Err Denied).
Proof.
  split; [|by destruct (authorize_total engine subject action)].
  unfold authorize. destruct (uuid_parse (ad_target action)) as [u|].
  - destruct (existsb _ _) eqn:E.
    + apply existsb_exists in E as (b & Hin%list_elem_of_In & Hb).
      apply Binding_allows_spec in Hb. split; [eauto 10|done].
    + split; [done|]. intros (u' & b & [= <-] & Hin & Hb). exfalso.
      apply not_true_iff_false in E. apply E, existsb_exists. exists b.
      split; [by apply list_elem_of_In|by apply Binding_allows_spec].
  - split; [done|]. naive_solver.
Qed.

(** An unauthenticated caller is never authorized: no policy that loads grants
    the reserved anonymous subject anything, and an empty policy grants nobody
    anything. *)
Theorem anonymous_never_authorized `{UuidLib} parse doc engine action subject :
  from_toml parse doc = Ok engine ->
  authorize engine ANONYMOUS_SUBJECT action = Err Denied /\
  authorize empty_engine subject action = Err Denied.
Proof.
  intros Hl. split.
  - destruct (authorize_total engine ANONYMOUS_SUBJECT action) as [Ho|]; [|done]. exfalso.
    unfold from_toml in Hl. destruct (parse doc) as [d|]; [|done]. simpl in Hl.
    destruct (load_bindings _) as [bs|] eqn:El; simplify_eq.
    unfold authorize in Ho. destruct (uuid_parse _); [|done].
    destruct (existsb _ _) eqn:E; [|done].
    apply existsb_exists in E as (bd & Hin%list_elem_of_In & Hb).
    apply Binding_allows_spec in Hb as [Hs _]. simpl in Hin.
    by eapply load_bindings_subject in Hin.
  - unfold authorize. by destruct (uuid_parse _).
Qed.

Lemma anonymous_never_authorized_witness :
  let doc := mkPolicyDoc [mkBindingDoc "alice" ["exec"] ["*"] ["deploy"]] in
  exists engine, from_toml (fun _ => Some doc) "policy" = Ok engine /\
  authorize engine ANONYMOUS_SUBJECT
    (mkAction "exec" (uuid_to_string (wrap 7)) "deploy" []) = Err Denied.
Proof.
  intros doc. exists (mkEngine [mkBinding "alice" ["exec"] [SelAny] ["deploy"]]).
  assert (from_toml (fun _ => Some doc) "policy" =
          Ok (mkEngine [mkBinding "alice" ["exec"] [SelAny] ["deploy"]])) as Hl by reflexivity.
  split; [exact Hl|].
  apply (anonymous_never_authorized (fun _ => Some doc) "policy"
           (mkEngine [mkBinding "alice" ["exec"] [SelAny] ["deploy"]]) _ "bob" Hl).
Defined.
