(* ===== verification/Registries.v ===== *)
(** * Shared registries of the coordinator: session epochs, revocations, join tokens
    (osa-coordinator/src/epoch.rs, revocation.rs, token.rs)

    Each port has an in-memory adapter and a Postgres adapter.  The port is a class of
    operations with the laws its clients rely on; both adapters are instances, and the
    properties of histories are proved once against the class.  A database call may
    fail before its statement runs, or after it ran with the reply lost. *)
From Stdlib Require Import Sorting.Sorted.
From S2P Require Import Prelude Proto Concrete Seal.

(** How a database round trip can fail. *)
Inductive Fault :=
| NoFault
| NotSent (msg : string)    (** the statement did not run *)
| ReplyLost (msg : string). (** the statement ran; the caller sees an error *)

(** A statement under a fault: its effect on the table and what the caller sees. *)
Definition run_stmt {T A} (f : Fault) (stmt : T -> T * A) (t : T) : T * result A PortError :=
  match f with
  | NoFault => let '(t', a) := stmt t in (t', Ok a)
  | NotSent msg => (t, Err (Backend msg))
  | ReplyLost msg => (fst (stmt t), Err (Backend msg))
  end.

(** ** Session epochs (epoch.rs) *)

Class Epochs (S : Type) := {
  epoch_admit : S -> Fault -> HostId -> u64 -> S * result bool PortError;
  high_water : S -> HostId -> option Z
}.

Record EpochRegistry := mkEpochRegistry { marks : gmap HostId u64 }.

Definition EpochRegistry_admit (self : EpochRegistry) (host_id : HostId) (epoch : u64)
    : EpochRegistry * result bool PortError :=
  match marks self !! host_id with
  | Some high => if bval epoch <=? bval high then (self, Ok false)
                 else (mkEpochRegistry (<[host_id := epoch]> (marks self)), Ok true)
  | None => (mkEpochRegistry (<[host_id := epoch]> (marks self)), Ok true)
  end.

#[global] Instance EpochRegistry_epochs : Epochs EpochRegistry := {|
  epoch_admit s _ h e := EpochRegistry_admit s h e;
  high_water s h := bval <$> marks s !! h
|}.

(** The [session_epoch] table. *)
Record PgEpochs := mkPgEpochs { session_epoch : gmap HostId i64 }.

Definition to_bigint (epoch : u64) : result i64 PortError :=
  ok_or (try_from (bval epoch)) (Backend "session epoch out of range").

(** [INSERT .. ON CONFLICT DO UPDATE .. WHERE EXCLUDED.epoch > session_epoch.epoch]:
    the new table and the number of rows affected. *)
Definition upsert_epoch (h : HostId) (e : i64) (t : gmap HostId i64) : gmap HostId i64 * Z :=
  match t !! h with
  | None => (<[h := e]> t, 1)
  | Some high => if bval high <? bval e then (<[h := e]> t, 1) else (t, 0)
  end.

Definition PgEpochs_admit (self : PgEpochs) (f : Fault) (host_id : HostId) (epoch : u64)
    : PgEpochs * result bool PortError :=
  match to_bigint epoch with
  | Err e => (self, Err e)
  | Ok e =>
      let '(t, r) := run_stmt f (upsert_epoch host_id e) (session_epoch self) in
      (mkPgEpochs t, match r with Ok rows => Ok (rows =? 1) | Err e => Err e end)
  end.

#[global] Instance PgEpochs_epochs : Epochs PgEpochs := {|
  epoch_admit := PgEpochs_admit;
  high_water s h := bval <$> session_epoch s !! h
|}.

(** [above hw e]: [e] is strictly greater than the high-water mark, if there is one. *)
Definition above (hw : option Z) (e : Z) : Prop :=
  match hw with Some m => m < e | None => True end.

(** What an admission check promises: it admits only above the mark and raises the mark
    in the same step; whatever else happens, no mark is lowered. *)
Class EpochsLaws (S : Type) `{Epochs S} := {
  admit_true : forall s f h e s', epoch_admit s f h e = (s', Ok true) ->
    above (high_water s h) (bval e) /\ high_water s' h = Some (bval e);
  admit_false : forall s f h e s', epoch_admit s f h e = (s', Ok false) ->
    ~ above (high_water s h) (bval e) /\ s' = s;
  admit_marks : forall s f h e h', let s' := fst (epoch_admit s f h e) in
    high_water s' h' = high_water s h' \/
    (h' = h /\ above (high_water s h) (bval e) /\ high_water s' h = Some (bval e))
}.

(** A history of admission calls: the (host, epoch) pairs that were admitted. *)
Fixpoint admissions {S} `{Epochs S} (s : S) (calls : list (Fault * HostId * u64))
    : list (HostId * u64) :=
  match calls with
  | [] => []
  | (f, h, e) :: cs =>
      let '(s', r) := epoch_admit s f h e in
      match r with
      | Ok true => (h, e) :: admissions s' cs
      | _ => admissions s' cs
      end
  end.

Definition epochs_of (h : HostId) (l : list (HostId * u64)) : list Z :=
  (fun p => bval p.2) <$> filter (fun p => p.1 = h) l.

(** ** Revocations (revocation.rs) *)

Class Revocations (S : Type) := {
  revoke : S -> Fault -> HostId -> Z -> S * result unit PortError;  (** the [Z] is the clock *)
  is_revoked : S -> Fault -> HostId -> result bool PortError
}.

Record RevocationRegistry := mkRevocationRegistry { revoked : gset HostId }.

Definition RevocationRegistry_revoke (self : RevocationRegistry) (host_id : HostId) : RevocationRegistry :=
  mkRevocationRegistry ({[host_id]} ∪ revoked self).
Definition RevocationRegistry_is_revoked (self : RevocationRegistry) (host_id : HostId) : bool :=
  bool_decide (host_id ∈ revoked self).

#[global] Instance RevocationRegistry_revocations : Revocations RevocationRegistry := {|
  revoke s _ h _ := (RevocationRegistry_revoke s h, Ok tt);
  is_revoked s _ h := Ok (RevocationRegistry_is_revoked s h)
|}.

(** [SystemTime] is nanoseconds relative to the Unix epoch; [unix_seconds] of it. *)
Definition unix_seconds (t : Z) : i64 :=
  wrap (if t <? 0 then 0 else t / 1000000000).

(** The [revoked_identity] table: host and time of revocation. *)
Record PgRevocations := mkPgRevocations { revoked_identity : gmap HostId i64 }.

Definition PgRevocations_revoke (self : PgRevocations) (f : Fault) (host_id : HostId) (now : Z)
    : PgRevocations * result unit PortError :=
  let stmt t := (match t !! host_id with
                 | Some _ => t   (** [ON CONFLICT DO NOTHING] *)
                 | None => <[host_id := unix_seconds now]> t
                 end, tt) in
  let '(t, r) := run_stmt f stmt (revoked_identity self) in (mkPgRevocations t, r).

Definition PgRevocations_is_revoked (self : PgRevocations) (f : Fault) (host_id : HostId)
    : result bool PortError :=
  snd (run_stmt f (fun t => (t, bool_decide (is_Some (t !! host_id)))) (revoked_identity self)).

#[global] Instance PgRevocations_revocations : Revocations PgRevocations := {|
  revoke := PgRevocations_revoke;
  is_revoked := PgRevocations_is_revoked
|}.

(** A reader that gets an answer sees exactly the revocations recorded. *)
Class RevocationsLaws (S : Type) `{Revocations S} := {
  revoked_set : S -> gset HostId;
  is_revoked_exact : forall s f h b, is_revoked s f h = Ok b -> b = bool_decide (h ∈ revoked_set s);
  is_revoked_answers : forall s h, is_revoked s NoFault h = Ok (bool_decide (h ∈ revoked_set s));
  revoke_ok : forall s f h now s', revoke s f h now = (s', Ok tt) -> revoked_set s' = {[h]} ∪ revoked_set s;
  revoke_grows : forall s f h now, let s' := fst (revoke s f h now) in
    revoked_set s' = revoked_set s \/ revoked_set s' = {[h]} ∪ revoked_set s
}.

(** The state after a history of revoke calls. *)
Definition revoke_all {S} `{Revocations S} (s : S) (calls : list (Fault * HostId * Z)) : S :=
  foldl (fun s '(f, h, now) => fst (revoke s f h now)) s calls.

(** ** Join tokens (token.rs) *)

Inductive RedeemError := Unknown | Expired | AlreadyRedeemed | RedeemBackend.
#[global] Instance RedeemError_eq_dec : EqDecision RedeemError.
Proof. solve_decision. Defined.

Inductive MintError := MintRng | MintFull | MintBackend (msg : string).

Definition DEFAULT_MAX_OUTSTANDING : nat := 100 * 100.

Record TokenState := mkTokenState { tk_expires_at : Z; tk_redeemed : bool }.

Record JoinTokenRegistry := mkTokenRegistry {
  tokens : gmap string TokenState; jt_max_ttl : Z; jt_cap : nat
}.

Definition JoinTokenRegistry_new (max_ttl : Z) : JoinTokenRegistry :=
  mkTokenRegistry ∅ max_ttl DEFAULT_MAX_OUTSTANDING.

(** [retain(|_, s| !s.redeemed && now < s.expires_at)]. *)
Definition outstanding (now : Z) (p : string * TokenState) : Prop :=
  tk_redeemed (p.2) = false /\ now < tk_expires_at (p.2).
#[global] Instance outstanding_dec now p : Decision (outstanding now p).
Proof. unfold outstanding. apply _. Defined.
Definition sweep_tokens (now : Z) (m : gmap string TokenState) : gmap string TokenState :=
  filter (outstanding now) m.

(** [mint]: [now1] and [now2] are its two clock reads, [rng] the random bytes. *)
Definition JoinTokenRegistry_mint (self : JoinTokenRegistry) (ttl now1 now2 : Z) (rng : option bytes)
    : JoinTokenRegistry * result (string * i64) MintError :=
  let ttl := Z.min ttl (jt_max_ttl self) in
  let expires_at := now1 + ttl in
  let map := sweep_tokens now2 (tokens self) in
  let swept := mkTokenRegistry map (jt_max_ttl self) (jt_cap self) in
  if decide (jt_cap self <= size map)%nat then (swept, Err MintFull)
  else match rng with
       | None => (swept, Err MintRng)
       | Some raw =>
           let token := to_hex raw in
           (mkTokenRegistry (<[token := mkTokenState expires_at false]> map)
              (jt_max_ttl self) (jt_cap self),
            Ok (token, unix_seconds expires_at))
       end.

Definition redeem_token (token : string) (now : Z) (map : gmap string TokenState)
    : gmap string TokenState * result unit RedeemError :=
  match map !! token with
  | None => (map, Err Unknown)
  | Some state =>
      if tk_redeemed state then (map, Err AlreadyRedeemed)
      else if tk_expires_at state <=? now then (map, Err Expired)
      else (<[token := mkTokenState (tk_expires_at state) true]> map, Ok tt)
  end.

Definition JoinTokenRegistry_redeem (self : JoinTokenRegistry) (token : string) (now : Z)
    : JoinTokenRegistry * result unit RedeemError :=
  let '(m, r) := redeem_token token now (tokens self) in
  (mkTokenRegistry m (jt_max_ttl self) (jt_cap self), r).

(** *** PgJoinTokens: the [join_token] table keyed by the token's hash *)

Record TokenRow := mkTokenRow { tr_expires_at_unix : i64; tr_redeemed_at_unix : option i64 }.
Abbreviation TokenTable := (gmap bytes TokenRow).

Definition row_live (now : i64) (r : TokenRow) : bool :=
  bool_decide (tr_redeemed_at_unix r = None) && (bval now <? bval (tr_expires_at_unix r)).

(** [DELETE .. WHERE redeemed_at_unix IS NOT NULL OR expires_at_unix <= now]. *)
Definition pg_sweep (now : i64) (t : TokenTable) : TokenTable * unit :=
  (filter (fun p => row_live now p.2 = true) t, tt).
(** [SELECT count( * ) .. WHERE redeemed_at_unix IS NULL AND expires_at_unix > now]. *)
Definition pg_count (now : i64) (t : TokenTable) : TokenTable * nat :=
  (t, size (filter (fun p => row_live now p.2 = true) t)).
(** [INSERT]: refused on a duplicate key. *)
Definition pg_insert (h : bytes) (exp : i64) (t : TokenTable) : TokenTable * bool :=
  match t !! h with
  | Some _ => (t, false)
  | None => (<[h := mkTokenRow exp None]> t, true)
  end.
(** [UPDATE .. SET redeemed_at_unix = now WHERE token_hash = h AND ..]: rows affected. *)
Definition pg_redeem_update (h : bytes) (now : i64) (t : TokenTable) : TokenTable * Z :=
  match t !! h with
  | Some r => if row_live now r then (<[h := mkTokenRow (tr_expires_at_unix r) (Some now)]> t, 1) else (t, 0)
  | None => (t, 0)
  end.

Section PgTokens.
Context `{Crypto}.

Definition token_hash (token : string) : bytes := sha256 (bytes_of token).

(** [e.to_string()] of a failed statement. *)
Definition port_msg (e : PortError) : string := match e with Backend m => m | _ => EmptyString end.

(** The statements of one [mint], with the fault of each round trip; [dup] is the
    database's message for a duplicate key. *)
Definition PgJoinTokens_mint (max_ttl : Z) (cap : nat) (t : TokenTable) (ttl clock : Z)
    (rng : option bytes) (f1 f2 f3 : Fault) (dup : string) : TokenTable * result (string * i64) MintError :=
  let ttl := Z.min ttl max_ttl in
  let now := unix_seconds clock in
  let expires_at := saturating_add now (bval (wrap (ttl / 1000000000) : i64)) in
  match run_stmt f1 (pg_sweep now) t with
  | (t, Err e) => (t, Err (MintBackend (port_msg e)))
  | (t, Ok _) =>
      match run_stmt f2 (pg_count now) t with
      | (t, Err e) => (t, Err (MintBackend (port_msg e)))
      | (t, Ok n) =>
          if decide (cap <= n)%nat then (t, Err MintFull)
          else match rng with
               | None => (t, Err MintRng)
               | Some raw =>
                   let token := to_hex raw in
                   match run_stmt f3 (pg_insert (token_hash token) expires_at) t with
                   | (t, Ok true) => (t, Ok (token, expires_at))
                   | (t, Ok false) => (t, Err (MintBackend dup))
                   | (t, Err e) => (t, Err (MintBackend (port_msg e)))
                   end
               end
      end
  end.

(** [redeem]: the update, then, when it matched nothing, the classifying SELECT. *)
Definition PgJoinTokens_redeem (t : TokenTable) (token : string) (clock : Z) (f1 f2 : Fault)
    : TokenTable * result unit RedeemError :=
  let h := token_hash token in
  let now := unix_seconds clock in
  match run_stmt f1 (pg_redeem_update h now) t with
  | (t, Err e) => (t, Err RedeemBackend)
  | (t, Ok rows) =>
      if rows =? 1 then (t, Ok tt)
      else match run_stmt f2 (fun t => (t, t !! h)) t with
           | (t, Err e) => (t, Err RedeemBackend)
           | (t, Ok None) => (t, Err Unknown)
           | (t, Ok (Some r)) =>
               match tr_redeemed_at_unix r with
               | Some _ => (t, Err AlreadyRedeemed)
               | None => (t, Err Expired)
               end
           end
  end.

End PgTokens.

(** *** Histories of the atomic steps, shared by both adapters *)

(** A step of a token store: a sweep, an insertion, a redemption. *)
Inductive TokenStep (K : Type) :=
| StSweep (now : Z)
| StInsert (k : K) (exp : Z)
| StRedeem (k : K) (now : Z).
Arguments StSweep {K} now.
Arguments StInsert {K} k exp.
Arguments StRedeem {K} k now.

(** The atomic steps of a store over keys [K], and which keys are redeemable. *)
Class TokenStore (S K : Type) := {
  ts_sweep : Z -> S -> S;
  ts_insert : K -> Z -> S -> S;
  ts_redeem : K -> Z -> S -> S * bool;
  ts_unredeemed : S -> K -> Prop;
  ts_sweep_keeps : forall now s k, ts_unredeemed (ts_sweep now s) k -> ts_unredeemed s k;
  ts_insert_keeps : forall j exp s k, ts_unredeemed (ts_insert j exp s) k -> k = j \/ ts_unredeemed s k;
  ts_redeem_keeps : forall j now s k, ts_unredeemed (fst (ts_redeem j now s)) k -> ts_unredeemed s k;
  ts_redeem_once : forall k now s, snd (ts_redeem k now s) = true ->
    ts_unredeemed s k /\ ~ ts_unredeemed (fst (ts_redeem k now s)) k
}.

Definition ts_step {S K} `{TokenStore S K} (s : S) (st : TokenStep K) : S * bool :=
  match st with
  | StSweep now => (ts_sweep now s, false)
  | StInsert k exp => (ts_insert k exp s, false)
  | StRedeem k now => ts_redeem k now s
  end.

(** How often [k] is redeemed, and how often it is inserted, in a history. *)
Fixpoint redemptions {S K} `{TokenStore S K, EqDecision K} (k : K) (s : S) (h : list (TokenStep K)) : nat :=
  match h with
  | [] => 0
  | st :: h' =>
      let '(s', won) := ts_step s st in
      ((match st with StRedeem j _ => if decide (j = k) then if won then 1 else 0 else 0 | _ => 0 end)
       + redemptions k s' h')%nat
  end.
Definition inserts {K} `{EqDecision K} (k : K) (st : TokenStep K) : bool :=
  match st with StInsert j _ => bool_decide (j = k) | _ => false end.
Definition insertions {K} `{EqDecision K} (k : K) (h : list (TokenStep K)) : nat :=
  length (List.filter (inserts k) h).

(** The token steps an operation performs, in order (a statement that was not sent
    performs none). *)
Fixpoint run_steps {S K} `{TokenStore S K} (s : S) (h : list (TokenStep K)) : S :=
  match h with [] => s | st :: h' => run_steps (fst (ts_step s st)) h' end.

Section TokenInstances.

#[global] Instance memory_tokens : TokenStore (gmap string TokenState) string.
Proof.
  refine {|
    ts_sweep := sweep_tokens;
    ts_insert k exp m := <[k := mkTokenState exp false]> m;
    ts_redeem k now m := let '(m', r) := redeem_token k now m in (m', is_ok r);
    ts_unredeemed m k := exists e, m !! k = Some (mkTokenState e false) |}.
  - intros now s k (e & He). apply map_lookup_filter_Some in He as [? _]. eauto.
  - intros j exp s k (e & He). apply lookup_insert_Some in He as [[-> _]|[_ ?]]; eauto.
  - intros j now s k. unfold redeem_token. destruct (s !! j) as [[e' [] ]|] eqn:E; simpl; [done| |done].
    destruct (e' <=? now); simpl; [done|]. intros (e & He).
    apply lookup_insert_Some in He as [[-> ?]|[_ ?]]; [done|eauto].
  - intros k now s. unfold redeem_token. destruct (s !! k) as [[e' [] ]|] eqn:E; simpl; [done| |done].
    destruct (e' <=? now); simpl; [done|]. intros _. split; [eauto|].
    intros (e & He). rewrite lookup_insert_eq in He. done.
Defined.

#[global] Instance pg_tokens : TokenStore TokenTable bytes.
Proof.
  refine {|
    ts_sweep now t := fst (pg_sweep (unix_seconds now) t);
    ts_insert k exp t := fst (pg_insert k (wrap exp) t);
    ts_redeem k now t := let '(t', n) := pg_redeem_update k (unix_seconds now) t in (t', n =? 1);
    ts_unredeemed t k := exists e, t !! k = Some (mkTokenRow e None) |}.
  - intros now s k (e & He). apply map_lookup_filter_Some in He as [? _]. eauto.
  - intros j exp s k. unfold pg_insert. destruct (s !! j) eqn:E; simpl; [by right|].
    intros (e & He). apply lookup_insert_Some in He as [[-> _]|[_ ?]]; eauto.
  - intros j now s k. unfold pg_redeem_update. destruct (s !! j) as [r|]; [|done].
    destruct (row_live _ r); [|done]. simpl. intros (e & He).
    apply lookup_insert_Some in He as [[-> ?]|[_ ?]]; [done|eauto].
  - intros k now s. unfold pg_redeem_update. destruct (s !! k) as [r|] eqn:E; [|done].
    destruct (row_live _ r) eqn:El; [|done]. simpl. intros _.
    unfold row_live in El. bool_to_prop. destruct r as [e o]; simpl in *. subst.
    split; [eauto|]. intros (e' & He). rewrite lookup_insert_eq in He. done.
Defined.

End TokenInstances.

(** ** Lemmas: epochs *)

#[global] Instance EpochRegistry_laws : EpochsLaws EpochRegistry.
Proof.
  split; cbn [epoch_admit high_water EpochRegistry_epochs].
  - intros [m] _ h e s'. unfold EpochRegistry_admit. simpl. destruct (m !! h) as [hi|] eqn:E; simpl.
    + destruct (_ <=? _) eqn:El; [done|]. intros [= <-]. simpl. bool_to_prop.
      by rewrite lookup_insert_eq.
    + intros [= <-]. simpl. by rewrite lookup_insert_eq.
  - intros [m] _ h e s'. unfold EpochRegistry_admit. simpl. destruct (m !! h) as [hi|] eqn:E; simpl; [|done].
    destruct (_ <=? _) eqn:El; [|done]. intros [= <-]. bool_to_prop. split; [lia|done].
  - intros [m] _ h e h'. unfold EpochRegistry_admit. simpl. destruct (m !! h) as [hi|] eqn:E; simpl.
    + destruct (_ <=? _) eqn:El; [by left|]. simpl. bool_to_prop.
      destruct (decide (h' = h)) as [->|]; [right; rewrite lookup_insert_eq|left; rewrite lookup_insert_ne]; auto.
    + destruct (decide (h' = h)) as [->|]; [right; rewrite lookup_insert_eq|left; rewrite lookup_insert_ne]; auto.
Qed.

Lemma to_bigint_Ok e x : to_bigint e = Ok x -> bval x = bval e.
Proof. unfold to_bigint. destruct (try_from _) eqn:E; intros [= <-]. by apply try_from_Some in E. Qed.

(** What the conditional UPSERT does. *)
Lemma upsert_epoch_spec t h e :
  (snd (upsert_epoch h e t) = 1 /\ above (bval <$> t !! h) (bval e) /\
   fst (upsert_epoch h e t) = <[h := e]> t) \/
  (snd (upsert_epoch h e t) = 0 /\ ~ above (bval <$> t !! h) (bval e) /\
   fst (upsert_epoch h e t) = t).
Proof.
  unfold upsert_epoch. destruct (t !! h) as [hi|]; simpl; [|by left].
  destruct (_ <? _) eqn:E; simpl; bool_to_prop; [left|right]; repeat split; auto; lia.
Qed.

#[global] Instance PgEpochs_laws : EpochsLaws PgEpochs.
Proof.
  split; cbn [epoch_admit high_water PgEpochs_epochs]; intros [t] f h e; unfold PgEpochs_admit; simpl;
    (destruct (to_bigint e) as [x|] eqn:Ex; [apply to_bigint_Ok in Ex|]).
  - intros s'. destruct (upsert_epoch_spec t h x) as [(Hn & Ha & Ht)|(Hn & Ha & Ht)];
      destruct f; simpl; try done; destruct (upsert_epoch h x t); simpl in *; subst; simpl; [|done].
    intros [= <-]. simpl. rewrite lookup_insert_eq. simpl. by rewrite <- Ex.
  - by intros s'.
  - intros s'. destruct (upsert_epoch_spec t h x) as [(Hn & Ha & Ht)|(Hn & Ha & Ht)];
      destruct f; simpl; try done; destruct (upsert_epoch h x t); simpl in *; subst; simpl; [done|].
    intros [= <-]. by rewrite <- Ex.
  - by intros s'.
  - intros h'. destruct (upsert_epoch_spec t h x) as [(Hn & Ha & Ht)|(Hn & Ha & Ht)];
      destruct f; simpl; auto; destruct (upsert_epoch h x t); simpl in *; subst; simpl; auto;
      (destruct (decide (h' = h)) as [->|];
       [right; rewrite lookup_insert_eq; rewrite <- Ex; auto|left; by rewrite lookup_insert_ne]).
  - intros h'. by left.
Qed.

Section EpochLemmas.
Context {S : Type} `{EpochsLaws S}.

Lemma admit_monotone s f h e h' m :
  high_water s h' = Some m ->
  exists m', high_water (fst (epoch_admit s f h e)) h' = Some m' /\ m <= m'.
Proof.
  intros Hm. destruct (admit_marks s f h e h') as [Heq|(-> & Ha & Hn)].
  - exists m. split; [congruence|lia].
  - exists (bval e). split; [done|]. rewrite Hm in Ha. simpl in Ha. lia.
Qed.

(** Every later admission for a host is above its current mark. *)
Lemma admissions_above s calls h m :
  high_water s h = Some m -> Forall (fun x => m < x) (epochs_of h (admissions s calls)).
Proof.
  revert s m. induction calls as [|[[f h'] e] cs IH]; intros s m Hm; simpl; [constructor|].
  destruct (epoch_admit s f h' e) as [s' r] eqn:E.
  pose proof (admit_monotone s f h' e h m Hm) as (m' & Hm' & Hle). rewrite E in Hm'. simpl in Hm'.
  assert (Forall (fun x => m < x) (epochs_of h (admissions s' cs))) as Hrest.
  { eapply Forall_impl; [by apply IH|]. simpl. lia. }
  destruct r as [[]|]; [|done..]. apply admit_true in E as [Ha Hs'].
  unfold epochs_of. rewrite filter_cons. simpl. case_decide as Hd; [|done]. subst h'.
  rewrite Hm in Ha. constructor; [done|]. done.
Qed.

Lemma admissions_sorted s calls h : StronglySorted Z.lt (epochs_of h (admissions s calls)).
Proof.
  revert s. induction calls as [|[[f h'] e] cs IH]; intros s; simpl; [constructor|].
  destruct (epoch_admit s f h' e) as [s' r] eqn:E.
  destruct r as [[]|]; [|apply IH..]. apply admit_true in E as [Ha Hs'].
  unfold epochs_of. rewrite filter_cons. simpl. case_decide as Hd; [|apply IH]. subst h'.
  constructor; [apply IH|]. by apply admissions_above.
Qed.

End EpochLemmas.

(** ** Lemmas: revocations *)

#[global] Instance RevocationRegistry_laws : RevocationsLaws RevocationRegistry.
Proof.
  refine {| revoked_set := revoked |}; cbn [revoke is_revoked RevocationRegistry_revocations].
  - by intros s f h b [= <-].
  - done.
  - by intros s f h now s' [= <-].
  - intros s f h now. by right.
Defined.

#[global] Instance PgRevocations_laws : RevocationsLaws PgRevocations.
Proof.
  refine {| revoked_set s := dom (revoked_identity s) |}; cbn [revoke is_revoked PgRevocations_revocations].
  - intros s f h b. unfold PgRevocations_is_revoked. destruct f; simpl; [|done..]. intros [= <-].
    apply bool_decide_ext. by rewrite elem_of_dom.
  - intros s h. unfold PgRevocations_is_revoked. simpl. f_equal.
    apply bool_decide_ext. by rewrite elem_of_dom.
  - intros s f h now s'. unfold PgRevocations_revoke. destruct f; simpl; [|done..]. intros [= <-]. simpl.
    destruct (revoked_identity s !! h) eqn:E; simpl; [|by rewrite dom_insert_L].
    apply elem_of_dom_2 in E. set_solver.
  - intros s f h now. unfold PgRevocations_revoke.
    destruct f; simpl; try (by left); (destruct (revoked_identity s !! h); simpl; [by left|]);
      right; by rewrite dom_insert_L.
Defined.

Section RevocationLemmas.
Context {S : Type} `{RevocationsLaws S}.

Lemma revoke_all_keeps s calls h : h ∈ revoked_set s -> h ∈ revoked_set (revoke_all s calls).
Proof.
  revert s. induction calls as [|[[f h'] now] cs IH]; intros s Hin; [done|].
  unfold revoke_all. simpl. apply IH. destruct (revoke_grows s f h' now) as [->| ->]; set_solver.
Qed.

(** Only hosts named by a revoke call become revoked. *)
Lemma revoke_all_only s calls h :
  h ∈ revoked_set (revoke_all s calls) -> h ∈ revoked_set s \/ h ∈ (fun c : Fault * HostId * Z => c.1.2) <$> calls.
Proof.
  revert s. induction calls as [|[[f h'] now] cs IH]; intros s; [by left|].
  unfold revoke_all. simpl. intros [Hin|Hin]%IH; [|right; set_solver].
  destruct (revoke_grows s f h' now) as [Hg|Hg]; rewrite Hg in Hin; set_solver.
Qed.

End RevocationLemmas.

(** ** Lemmas: tokens *)

(** Each redemption of a key uses up an insertion, or its initial unredeemed state. *)
Lemma redemptions_bound {S K} `{TokenStore S K, EqDecision K} (k : K) (h : list (TokenStep K)) (s : S) :
  (redemptions k s h <= 1 + insertions k h)%nat /\
  (~ ts_unredeemed s k -> redemptions k s h <= insertions k h)%nat.
Proof.
  revert s. induction h as [|st h IH]; intros s; [simpl; unfold insertions; simpl; lia|].
  unfold insertions in *. destruct st as [now|j exp|j now]; cbn [redemptions ts_step List.filter inserts].
  - destruct (IH (ts_sweep now s)) as [Ha Hb]. split; [done|]. intros Hn. apply Hb. eauto using ts_sweep_keeps.
  - destruct (IH (ts_insert j exp s)) as [Ha Hb]. destruct (bool_decide (j = k)) eqn:E; bool_to_prop; simpl.
    + lia.
    + split; [done|]. intros Hn. apply Hb. intros [->|]%ts_insert_keeps; done.
  - destruct (ts_redeem j now s) as [s' won] eqn:E. destruct (IH s') as [Ha Hb].
    pose proof (ts_redeem_keeps j now s k) as Hk. pose proof (ts_redeem_once j now s) as Ho.
    rewrite E in Hk, Ho. simpl in Hk, Ho.
    destruct (decide (j = k)) as [->|]; simpl; [destruct won|].
    + destruct (Ho eq_refl) as [Hu Hn]. specialize (Hb Hn). split; [lia|]. done.
    + split; [done|]. auto.
    + split; [done|]. auto.
Qed.

Lemma insertions_nil {K} `{EqDecision K} (k : K) : (insertions k [] <= 1)%nat.
Proof. unfold insertions. simpl. lia. Qed.

Lemma insertions_sweep {K} `{EqDecision K} now (k : K) : (insertions k [StSweep now] <= 1)%nat.
Proof. unfold insertions. simpl. lia. Qed.

Lemma sweep_size now m : (size (sweep_tokens now m) <= size m)%nat.
Proof. apply subseteq_size, map_filter_subseteq || apply map_subseteq_size, map_filter_subseteq. Qed.

Lemma redeem_size tok now m : size (fst (redeem_token tok now m)) = size m.
Proof.
  unfold redeem_token. destruct (m !! tok) as [st|] eqn:E; [|done].
  destruct (tk_redeemed st); [done|]. destruct (tk_expires_at st <=? now); [done|]. simpl. rewrite map_size_insert. by rewrite E.
Qed.

(** The in-memory and Postgres high-water marks agree. *)
Definition epochs_sim (m : EpochRegistry) (p : PgEpochs) : Prop :=
  forall h, high_water m h = high_water p h.

Lemma epochs_sim_admit m p h e :
  epochs_sim m p -> bval e < 2 ^ 63 ->
  snd (epoch_admit m NoFault h e) = snd (epoch_admit p NoFault h e) /\
  epochs_sim (fst (epoch_admit m NoFault h e)) (fst (epoch_admit p NoFault h e)).
Proof.
  intros Hs Hb. pose proof (Hs h) as Hh. destruct m as [m], p as [p]. unfold epochs_sim in *.
  cbn [epoch_admit high_water EpochRegistry_epochs PgEpochs_epochs] in *. simpl in *.
  unfold EpochRegistry_admit, PgEpochs_admit, to_bigint. simpl.
  destruct (try_from (bval e)) as [x|] eqn:Ex; [apply try_from_Some in Ex|].
  2: { apply try_from_None in Ex. pose proof (bint_range e). lia. }
  simpl. unfold upsert_epoch.
  assert (forall h', bval <$> <[h:=e]> m !! h' = bval <$> <[h:=x]> p !! h') as Hins.
  { intros h'. destruct (decide (h' = h)) as [->|].
    - rewrite !lookup_insert_eq. simpl. by rewrite Ex.
    - by rewrite !lookup_insert_ne. }
  destruct (m !! h) as [a|], (p !! h) as [b|]; simplify_eq/=; [|done].
  rewrite Ex, Hh. destruct (bval e <=? bval b) eqn:E1, (bval b <? bval e) eqn:E2;
    bool_to_prop; try lia; done.
Qed.

Lemma epochs_sim_admissions m p calls :
  epochs_sim m p -> Forall (fun c : Fault * HostId * u64 => c.1.1 = NoFault /\ bval c.2 < 2 ^ 63) calls ->
  admissions m calls = admissions p calls.
Proof.
  revert m p. induction calls as [|[[f h] e] cs IH]; intros m p Hs Hc; [done|].
  apply Forall_cons in Hc as [[Hf Hb] Hc]. simpl in Hf, Hb. subst f. cbn [admissions].
  destruct (epochs_sim_admit m p h e Hs Hb) as [Hr Hs'].
  destruct (epoch_admit m NoFault h e) as [m' r], (epoch_admit p NoFault h e) as [p' r']. simpl in *. subst r'.
  rewrite (IH m' p' Hs' Hc). done.
Qed.

(** ** Properties *)

(** Anti-resurrection: over any history of admission calls on a store, on any
    number of replicas and with any database failures, the epochs admitted for a host
    strictly increase and exceed the mark the history started from; so no epoch is ever
    admitted twice. *)
Theorem epochs_strictly_increase {S} `{EpochsLaws S} (s : S) calls h :
  StronglySorted Z.lt (epochs_of h (admissions s calls)) /\
  Forall (above (high_water s h)) (epochs_of h (admissions s calls)).
Proof.
  split; [apply admissions_sorted|]. destruct (high_water s h) eqn:E; [by apply admissions_above|].
  by apply Forall_true.
Qed.

Definition demo_host : HostId := mkHostId (wrap 7).

Lemma epochs_strictly_increase_witness :
  let calls := [(NoFault, demo_host, wrap 5); (ReplyLost "timeout", demo_host, wrap 6);
                (NoFault, demo_host, wrap 6); (NoFault, demo_host, wrap 9)] in
  epochs_of demo_host (admissions (mkPgEpochs ∅) calls) = [5; 9] /\
  StronglySorted Z.lt (epochs_of demo_host (admissions (mkPgEpochs ∅) calls)).
Proof.
  intros calls. split; [vm_compute; reflexivity|].
  apply (epochs_strictly_increase (mkPgEpochs ∅) calls demo_host).
Defined.

(** The Postgres adapter refines the in-memory one: from empty stores, a history
    without database failures admits exactly the same calls on both, for every epoch
    that fits a BIGINT; an epoch that does not fit is refused with an error. *)
Theorem pg_epochs_refine_memory calls :
  Forall (fun c : Fault * HostId * u64 => c.1.1 = NoFault /\ bval c.2 < 2 ^ 63) calls ->
  admissions (mkEpochRegistry ∅) calls = admissions (mkPgEpochs ∅) calls /\
  (forall s f h e, 2 ^ 63 <= bval e ->
     PgEpochs_admit s f h e = (s, Err (Backend "session epoch out of range"))).
Proof.
  intros Hc. split.
  - apply epochs_sim_admissions; [|done]. intros h. simpl. by rewrite !lookup_empty.
  - intros s f h e He. unfold PgEpochs_admit, to_bigint.
    destruct (try_from (bval e)) as [x|] eqn:Ex; [|done].
    apply try_from_Some in Ex. pose proof (bint_range x). lia.
Qed.

Lemma pg_epochs_refine_memory_witness :
  let calls := [(NoFault, demo_host, wrap 5); (NoFault, demo_host, wrap 4)] in
  admissions (mkEpochRegistry ∅) calls = admissions (mkPgEpochs ∅) calls.
Proof.
  intros calls. apply (pg_epochs_refine_memory calls).
  repeat constructor; vm_compute; done.
Defined.

(** Revocation is permanent: once a revoke call has succeeded, no later history of
    revoke calls makes a reader see the host as not revoked, whatever fails; and a host
    that no call named is not revoked. *)
Theorem revocation_is_permanent {S} `{RevocationsLaws S} (s s' : S) f h now calls f' :
  revoke s f h now = (s', Ok tt) ->
  is_revoked (revoke_all s' calls) NoFault h = Ok true /\
  is_revoked (revoke_all s' calls) f' h <> Ok false /\
  (forall h', h' ∉ revoked_set s' -> h' ∉ (fun c : Fault * HostId * Z => c.1.2) <$> calls ->
     is_revoked (revoke_all s' calls) NoFault h' = Ok false).
Proof.
  intros Hr. apply revoke_ok in Hr.
  assert (h ∈ revoked_set (revoke_all s' calls)) as Hin by (apply revoke_all_keeps; set_solver).
  split; [|split].
  - rewrite is_revoked_answers. by rewrite bool_decide_eq_true_2.
  - intros Hf%is_revoked_exact. by rewrite bool_decide_eq_true_2 in Hf.
  - intros h' Hn Hc. rewrite is_revoked_answers, bool_decide_eq_false_2; [done|].
    intros Hh%revoke_all_only. naive_solver.
Qed.

Lemma revocation_is_permanent_witness :
  exists s', revoke (mkPgRevocations ∅) NoFault demo_host 5 = (s', Ok tt) /\
  is_revoked (revoke_all s' [(NotSent "down", mkHostId (wrap 8), 6)]) NoFault demo_host = Ok true.
Proof.
  exists (mkPgRevocations {[demo_host := unix_seconds 5]}).
  assert (revoke (mkPgRevocations ∅) NoFault demo_host 5 =
          (mkPgRevocations {[demo_host := unix_seconds 5]}, Ok tt)) as Hr by reflexivity.
  split; [exact Hr|].
  apply (revocation_is_permanent _ _ _ _ _ [(NotSent "down", mkHostId (wrap 8), 6)] NoFault Hr).
Defined.

(** What an operation on a token store did: minted a token, inserted one whose mint was
    answered with an error (its reply was lost), redeemed one, or none of these. *)
Inductive TokenEvent := EvMinted (token : string) | EvUnreported (token : string) | EvRedeemed (token : string) | EvNone.

(** The operations of both stores, with what the clock, the random source and the database
    answer; the last constructor is a statement of another replica's sweep. *)
Inductive MemoryOp := MoMint (ttl now1 now2 : Z) (rng : option bytes) | MoRedeem (token : string) (now : Z).
Inductive PgOp :=
| PoMint (max_ttl : Z) (cap : nat) (ttl clock : Z) (rng : option bytes) (f1 f2 f3 : Fault) (dup : string)
| PoRedeem (token : string) (clock : Z) (f1 f2 : Fault)
| PoSweep (clock : Z).

Definition memory_op (r : JoinTokenRegistry) (o : MemoryOp) : JoinTokenRegistry * TokenEvent :=
  match o with
  | MoMint ttl now1 now2 rng =>
      let '(r, res) := JoinTokenRegistry_mint r ttl now1 now2 rng in (r, match res with Ok (tok, _) => EvMinted tok | Err _ => EvNone end)
  | MoRedeem tok now => let '(r, res) := JoinTokenRegistry_redeem r tok now in (r, if is_ok res then EvRedeemed tok else EvNone)
  end.
Definition pg_op `{Crypto} (t : TokenTable) (o : PgOp) : TokenTable * TokenEvent :=
  match o with
  | PoMint max_ttl cap ttl clock rng f1 f2 f3 dup =>
      let '(t, res) := PgJoinTokens_mint max_ttl cap t ttl clock rng f1 f2 f3 dup in
      (t, match res, f3, rng with
          | Ok (tok, _), _, _ => EvMinted tok
          | Err _, ReplyLost _, Some raw => EvUnreported (to_hex raw)
          | Err _, _, _ => EvNone
          end)
  | PoRedeem tok clock f1 f2 => let '(t, res) := PgJoinTokens_redeem t tok clock f1 f2 in (t, if is_ok res then EvRedeemed tok else EvNone)
  | PoSweep clock => (fst (pg_sweep (unix_seconds clock) t), EvNone)
  end.

Fixpoint token_events {S O} (op : S -> O -> S * TokenEvent) (s : S) (ops : list O) : list TokenEvent :=
  match ops with
  | [] => []
  | o :: ops => let '(s, e) := op s o in e :: token_events op s ops
  end.

(** How often a token of the class [same] was minted, and how often redeemed. *)
Definition mints (same : string -> bool) (e : TokenEvent) : bool := match e with EvMinted t | EvUnreported t => same t | _ => false end.
Definition redeems (same : string -> bool) (e : TokenEvent) : bool := match e with EvRedeemed t => same t | _ => false end.
Definition times (p : TokenEvent -> bool) (es : list TokenEvent) : nat := length (List.filter p es).

(** A redemption needs an unredeemed token and uses it up; only a mint makes one. *)
Lemma events_bound {S O} (op : S -> O -> S * TokenEvent) same (U : S -> Prop) :
  (forall s o s' e, op s o = (s', e) -> (redeems same e = true -> U s /\ ~ U s') /\ (mints same e = false -> U s' -> U s)) ->
  forall ops s, let es := token_events op s ops in
  (times (redeems same) es <= 1 + times (mints same) es)%nat /\ (~ U s -> times (redeems same) es <= times (mints same) es)%nat.
Proof.
  intros Hop. induction ops as [|o ops IH]; intros s; [unfold times; simpl; lia|]. cbn [token_events].
  destruct (op s o) as [s' e] eqn:E. destruct (Hop s o s' e E) as [Hr Hm]. destruct (IH s') as [Ha Hb]. unfold times in *. cbn [List.filter].
  destruct (redeems same e) eqn:Er.
  - destruct (Hr eq_refl) as [Hu Hn]. specialize (Hb Hn). destruct e; simpl in Er |- *; try done. split; [lia|done].
  - destruct (mints same e); simpl; [lia|]. split; [done|]. auto.
Qed.

Lemma memory_op_spec token r o r' e :
  let U r := exists x, tokens r !! token = Some (mkTokenState x false) in
  let same t := bool_decide (t = token) in
  memory_op r o = (r', e) -> (redeems same e = true -> U r /\ ~ U r') /\ (mints same e = false -> U r' -> U r).
Proof.
  intros U same. destruct o as [ttl now1 now2 rng|tok now]; simpl.
  - assert (forall x, sweep_tokens now2 (tokens r) !! token = Some (mkTokenState x false) -> U r) as Hsw.
    { intros x Hx. exists x. by apply map_lookup_filter_Some in Hx as [? _]. }
    unfold JoinTokenRegistry_mint. case_decide; [intros [= <- <-]; split; [done|]; intros _ [x Hx]; eauto|].
    destruct rng as [raw|]; intros [= <- <-]; (split; [done|]); unfold same; simpl; [|intros _ [x Hx]; eauto].
    intros Hne [x Hx]. bool_to_prop. simpl in Hx. rewrite lookup_insert_ne in Hx by done. eauto.
  - unfold JoinTokenRegistry_redeem, redeem_token. destruct (tokens r !! tok) as [st|] eqn:Et; [|intros [= <- <-]; by split].
    destruct (tk_redeemed st) eqn:Es; [intros [= <- <-]; by split|]. destruct (_ <=? _); [intros [= <- <-]; by split|].
    destruct st as [x b]. simpl in Es. subst b. intros [= <- <-]. unfold same, U. simpl. split.
    + intros ->%bool_decide_eq_true. split; [eauto|]. intros [y Hy]. by rewrite lookup_insert_eq in Hy.
    + intros _ [y Hy]. apply lookup_insert_Some in Hy as [[_ ?]|[_ ?]]; [done|eauto].
Qed.

Lemma run_stmt_inv {T A} f (stmt : T -> T * A) t t' r : run_stmt f stmt t = (t', r) -> t' = t \/ t' = fst (stmt t).
Proof. destruct f; simpl; [destruct (stmt t)|..]; intros [= <- <-]; auto. Qed.

Lemma pg_op_spec `{Crypto} token t o t' e :
  let U (t : TokenTable) := exists x, t !! token_hash token = Some (mkTokenRow x None) in
  let same tok := bool_decide (token_hash tok = token_hash token) in
  pg_op t o = (t', e) -> (redeems same e = true -> U t /\ ~ U t') /\ (mints same e = false -> U t' -> U t).
Proof.
  intros U same. assert (forall now t1, U (fst (pg_sweep now t1)) -> U t1) as Hsw.
  { intros now t1 [x Hx]. exists x. by apply map_lookup_filter_Some in Hx as [? _]. }
  destruct o as [max_ttl cap ttl clock rng f1 f2 f3 dup|tok clock f1 f2|clock]; simpl.
  - unfold PgJoinTokens_mint. destruct (run_stmt f1 _ t) as [t1 [[]|]] eqn:E1;
      [|intros [= <- <-]; destruct rng, f3; (split; [done|]); intros _; apply run_stmt_inv in E1 as [-> | ->]; eauto].
    assert (U t1 -> U t) as H1' by (apply run_stmt_inv in E1 as [-> | ->]; eauto).
    destruct (run_stmt f2 _ t1) as [t2 r2] eqn:E2. assert (t2 = t1) as -> by (apply run_stmt_inv in E2; simpl in E2; tauto).
    destruct r2 as [n|]; [|intros [= <- <-]; destruct rng, f3; (split; [done|]); eauto].
    case_decide; [intros [= <- <-]; destruct rng, f3; (split; [done|]); eauto|]. destruct rng as [raw|]; [|intros [= <- <-]; destruct f3; (split; [done|]); eauto].
    destruct f3 as [|m|m]; unfold pg_insert; simpl; (destruct (t1 !! token_hash (to_hex raw)) as [row|] eqn:Er; simpl);
      intros [= <- <-]; (split; [done|]); eauto; unfold same; simpl; intros Hne [x Hx]; bool_to_prop; rewrite lookup_insert_ne in Hx by done; apply H1'; by exists x.
  - unfold PgJoinTokens_redeem. destruct (run_stmt f1 _ t) as [t1 r1] eqn:E1.
    assert (U t1 -> U t) as H1'.
    { apply run_stmt_inv in E1 as [-> | ->]; [done|]. unfold pg_redeem_update. destruct (t !! _) as [row|]; [|done].
      destruct (row_live _ _); [|done]. simpl. intros [x Hx]. apply lookup_insert_Some in Hx as [[_ ?]|[_ ?]]; [done|eexists; eauto]. }
    destruct r1 as [n|]; [|intros [= <- <-]; by split]. destruct (Z.eqb_spec n 1) as [->|Hn].
    + intros [= <- <-]. split; [|done]. unfold same. simpl. intros Hs%bool_decide_eq_true. destruct f1; [|done..]. simpl in E1.
      unfold pg_redeem_update in E1. destruct (t !! token_hash tok) as [[x red]|] eqn:Et; [|done].
      destruct (row_live _ _) eqn:El; [|done]. injection E1 as <-. unfold row_live in El. bool_to_prop. simpl in *. subst red. unfold U. rewrite <- Hs.
      split; [eauto|]. intros [y Hy]. by rewrite lookup_insert_eq in Hy.
    + destruct (run_stmt f2 _ t1) as [t2 r2] eqn:E2. assert (t2 = t1) as -> by (apply run_stmt_inv in E2; simpl in E2; tauto).
      destruct r2 as [[row|]|]; [destruct (tr_redeemed_at_unix row)|..]; intros [= <- <-]; by split.
  - intros [= <- <-]. split; [done|]. intros _. apply Hsw.
Qed.

(** C21. Join tokens are single-use.  Over any sequence of mints and redemptions of the
    in-memory registry, and of the Postgres store with failing statements and lost replies, a
    token is redeemed successfully at most as often as it was minted (on Postgres, a mint whose
    reply was lost included, and tokens told apart by their hash); and on Postgres this holds
    for any interleaving of the single statements of concurrent replicas. *)
Theorem join_token_single_use `{Crypto} (token : string) max_ttl (ops : list MemoryOp) (pg_ops : list PgOp) (stmts : list (TokenStep bytes)) :
  (let same t := bool_decide (t = token) in
   let es := token_events memory_op (JoinTokenRegistry_new max_ttl) ops in times (redeems same) es <= times (mints same) es)%nat /\
  (let same t := bool_decide (token_hash t = token_hash token) in
   let es := token_events pg_op ∅ pg_ops in times (redeems same) es <= times (mints same) es)%nat /\
  (redemptions (token_hash token) (∅ : TokenTable) stmts <= insertions (token_hash token) stmts)%nat.
Proof.
  split; [|split].
  - eapply events_bound; [intros s o s' e; apply memory_op_spec|]. intros [x Hx]. simpl in Hx. by rewrite lookup_empty in Hx.
  - eapply events_bound; [intros s o s' e; apply pg_op_spec|]. intros [x Hx]. by rewrite lookup_empty in Hx.
  - apply redemptions_bound. intros (e & He). by rewrite lookup_empty in He.
Qed.

(** The operations are made of those steps: [mint] sweeps and inserts the token it
    returns and no other, [redeem] is one redemption that returns [Ok] exactly when it
    wins; on Postgres a lost reply is the only way a performed step goes unreported. *)
Theorem join_token_operations `{Crypto} self ttl now1 now2 rng t max_ttl cap clock f1 f2 f3 dup token :
  (exists h, tokens (fst (JoinTokenRegistry_mint self ttl now1 now2 rng)) = run_steps (tokens self) h /\
     match snd (JoinTokenRegistry_mint self ttl now1 now2 rng) with
     | Ok (tok, _) => h = [StSweep now2; StInsert tok (now1 + Z.min ttl (jt_max_ttl self))]
     | Err _ => h = [StSweep now2]
     end) /\
  (tokens (fst (JoinTokenRegistry_redeem self token now1)), is_ok (snd (JoinTokenRegistry_redeem self token now1)))
    = ts_step (tokens self) (StRedeem token now1) /\
  (exists h, fst (PgJoinTokens_mint max_ttl cap t ttl clock rng f1 f2 f3 dup) = run_steps t h /\
     match snd (PgJoinTokens_mint max_ttl cap t ttl clock rng f1 f2 f3 dup) with
     | Ok (tok, exp) => h = [StSweep clock; StInsert (token_hash tok) (bval exp)]
     | Err _ => forall k, (insertions k h <= 1)%nat
     end) /\
  (snd (PgJoinTokens_redeem t token clock f1 f2) = Ok tt ->
     snd (ts_step t (StRedeem (token_hash token) clock)) = true).
Proof.
  split; [|split; [|split]].
  - unfold JoinTokenRegistry_mint. case_decide; [by exists [StSweep now2]|].
    destruct rng as [raw|]; [|by exists [StSweep now2]].
    by exists [StSweep now2; StInsert (to_hex raw) (now1 + Z.min ttl (jt_max_ttl self))].
  - unfold JoinTokenRegistry_redeem. cbn [ts_step ts_redeem memory_tokens].
    by destruct (redeem_token token now1 (tokens self)).
  - unfold PgJoinTokens_mint. simpl.
    set (now := unix_seconds clock). set (exp := saturating_add now _).
    destruct f1; [|by exists []; simpl; auto using insertions_nil|by exists [StSweep clock]; simpl; auto using insertions_sweep].
    simpl. destruct f2; [|by exists [StSweep clock]; simpl; auto using insertions_sweep..]. simpl.
    case_decide; [by exists [StSweep clock]; simpl; auto using insertions_sweep|].
    destruct rng as [raw|]; [|by exists [StSweep clock]; simpl; auto using insertions_sweep].
    assert (wrap (bval exp) = exp) as Hw.
    { apply bint_eq. pose proof (bint_range exp). by rewrite wrap_small. }
    assert (forall k, (insertions k [StSweep clock; StInsert (token_hash (to_hex raw)) (bval exp)] <= 1)%nat)
      as Hone.
    { intros k. unfold insertions. simpl. destruct (bool_decide _); simpl; lia. }
    destruct f3; simpl; [|by exists [StSweep clock]; simpl; auto using insertions_sweep
      |exists [StSweep clock; StInsert (token_hash (to_hex raw)) (bval exp)]; simpl; by rewrite Hw].
    exists [StSweep clock; StInsert (token_hash (to_hex raw)) (bval exp)].
    simpl. rewrite Hw.
    by destruct (pg_insert (token_hash (to_hex raw)) exp _) as [t' []].
  - unfold PgJoinTokens_redeem. cbn [ts_step ts_redeem pg_tokens].
    destruct f1; simpl; [|done..]. destruct (pg_redeem_update _ _ t) as [t' n].
    destruct (n =? 1); [done|]. simpl. destruct f2; simpl; [|done..].
    destruct (t' !! _) as [r|]; [|done]. by destruct (tr_redeemed_at_unix r).
Qed.

(** Life of a minted token (in memory): its lifetime is clamped to the registry's
    maximum; until then it redeems, and once only; after it, it is refused as expired;
    and the registry never holds more than its cap of tokens. *)
Theorem join_token_lifecycle self ttl now1 now2 rng self' tok exp :
  JoinTokenRegistry_mint self ttl now1 now2 rng = (self', Ok (tok, exp)) ->
  let expires := now1 + Z.min ttl (jt_max_ttl self) in
  exp = unix_seconds expires /\ expires <= now1 + jt_max_ttl self /\
  (size (tokens self') <= jt_cap self)%nat /\
  (forall now, expires <= now -> snd (JoinTokenRegistry_redeem self' tok now) = Err Expired) /\
  (forall now, now < expires ->
     let '(self'', r) := JoinTokenRegistry_redeem self' tok now in
     r = Ok tt /\ forall later, snd (JoinTokenRegistry_redeem self'' tok later) = Err AlreadyRedeemed).
Proof.
  unfold JoinTokenRegistry_mint. case_decide as Hc; [done|]. destruct rng as [raw|]; [|done].
  intros [= <- <- <-]. simpl. split; [done|]. split; [lia|]. split; [|split].
  - rewrite map_size_insert. destruct (_ !! _); simpl; lia.
  - intros now Hn. unfold JoinTokenRegistry_redeem, redeem_token. simpl. rewrite lookup_insert_eq. simpl.
    by apply Z.leb_le in Hn as ->.
  - intros now Hn. unfold JoinTokenRegistry_redeem, redeem_token. simpl. rewrite lookup_insert_eq. simpl.
    apply Z.leb_gt in Hn as ->. split; [done|]. intros later. simpl. by rewrite lookup_insert_eq.
Qed.

Lemma join_token_lifecycle_witness :
  exists self' tok exp,
  JoinTokenRegistry_mint (JoinTokenRegistry_new 600) 900 100 101 (Some (bytes_of "r")) = (self', Ok (tok, exp)) /\
  snd (JoinTokenRegistry_redeem self' tok 700) = Err Expired.
Proof.
  exists (mkTokenRegistry {[to_hex (bytes_of "r") := mkTokenState 700 false]} 600 DEFAULT_MAX_OUTSTANDING),
         (to_hex (bytes_of "r")), (unix_seconds 700).
  assert (JoinTokenRegistry_mint (JoinTokenRegistry_new 600) 900 100 101 (Some (bytes_of "r")) =
    (mkTokenRegistry {[to_hex (bytes_of "r") := mkTokenState 700 false]} 600 DEFAULT_MAX_OUTSTANDING,
     Ok (to_hex (bytes_of "r"), unix_seconds 700))) as Hm by reflexivity.
  split; [exact Hm|].
  apply (join_token_lifecycle _ _ _ _ _ _ _ _ Hm). apply Z.le_refl.
Defined.
