(* ===== verification/AuditLog.v ===== *)
(** * The hash-chained audit log (osa-core/src/audit.rs, osa-coordinator/src/audit_log.rs)

    The pure chain (encoding, sealing, verification), the in-memory store, and the
    Postgres store, whose append is a transaction of several statements that runs
    concurrently on several replicas: that one is a step relation over the shared
    database, with the advisory lock and the failure of any statement.  The abstract
    specification of a log is the list of the records appended to it. *)
From Stdlib Require Import Strings.Byte.
From S2P Require Import Prelude Proto Concrete Registries.

Abbreviation Hash := bytes (only parsing).

Definition GENESIS_PREV : bytes := replicate 32 x00.

Inductive Decision_ := Allow | Deny.
#[global] Instance Decision__eq_dec : EqDecision Decision_.
Proof. solve_decision. Defined.

Definition Decision_as_str (d : Decision_) : string :=
  match d with Allow => "allow" | Deny => "deny" end.

Definition Decision_parse (s : string) : option Decision_ :=
  if bool_decide (s = "allow") then Some Allow
  else if bool_decide (s = "deny") then Some Deny else None.

Record AuditRecord := mkRecord {
  ts_unix : i64; subject : string; kind : string; target : string; run_as : string;
  decision : Decision_
}.
#[global] Instance AuditRecord_eq_dec : EqDecision AuditRecord.
Proof. solve_decision. Defined.

Record AuditEntry := mkEntry {
  ae_seq : u64; ae_record : AuditRecord; ae_prev_hash : bytes; ae_hash : bytes
}.
#[global] Instance AuditEntry_eq_dec : EqDecision AuditEntry.
Proof. solve_decision. Defined.

Inductive AuditError :=
| OutOfOrder (index : nat) (seq expected : u64)
| BrokenLink (seq : u64)
| Altered (seq : u64)
| Truncated
| UnexpectedHead.

(** The bytes fed to the hash, in order. *)
Definition encode_entry (seq : u64) (r : AuditRecord) (prev_hash : bytes) : bytes :=
  be_bytes 8 (bval seq) ++ (be_bytes 8 (bval (ts_unix r)) ++
  (enc_field (bytes_of (subject r)) ++ (enc_field (bytes_of (kind r)) ++
  (enc_field (bytes_of (target r)) ++ (enc_field (bytes_of (run_as r)) ++
  (enc_field (bytes_of (Decision_as_str (decision r))) ++ prev_hash)))))).

(** A database row of [audit_log]. *)
Record AuditRow := mkRow {
  row_seq : i64; row_ts : i64; row_subject : string; row_kind : string; row_target : string;
  row_run_as : string; row_decision : string; row_prev_hash : bytes; row_hash : bytes
}.

(** [ORDER BY seq]. *)
Fixpoint insert_row (r : AuditRow) (l : list AuditRow) : list AuditRow :=
  match l with
  | [] => [r]
  | x :: l' => if bval (row_seq r) <=? bval (row_seq x) then r :: l else x :: insert_row r l'
  end.
Definition order_by_seq (l : list AuditRow) : list AuditRow := foldr insert_row [] l.

Definition hash_from_row (b : bytes) : result bytes PortError :=
  ok_or (array32 b) (Backend "audit row has a malformed hash").

(** The [?]-collecting traversal ([collect::<Result<Vec<_>, _>>()]). *)
Fixpoint collect {A B E} (f : A -> result B E) (l : list A) : result (list B) E :=
  match l with
  | [] => Ok []
  | x :: l' => let? y := f x in let? ys := collect f l' in Ok (y :: ys)
  end.

Section Audit.
Context `{Crypto}.

Definition compute_hash (seq : u64) (r : AuditRecord) (prev_hash : bytes) : bytes :=
  sha256 (encode_entry seq r prev_hash).

Definition AuditEntry_seal (seq : u64) (record : AuditRecord) (prev_hash : bytes) : AuditEntry :=
  mkEntry seq record prev_hash (compute_hash seq record prev_hash).

(** The loop of [verify], from [index] on with the running [prev]. *)
Fixpoint verify_from (index : nat) (prev : bytes) (entries : list AuditEntry) : result unit AuditError :=
  match entries with
  | [] => Ok tt
  | e :: es =>
      let expected : u64 := wrap (Z.of_nat index) in
      if negb (bool_decide (ae_seq e = expected)) then Err (OutOfOrder index (ae_seq e) expected)
      else if negb (bool_decide (ae_prev_hash e = prev)) then Err (BrokenLink (ae_seq e))
      else if negb (bool_decide (compute_hash (ae_seq e) (ae_record e) (ae_prev_hash e) = ae_hash e))
      then Err (Altered (ae_seq e))
      else verify_from (S index) (ae_hash e) es
  end.

Definition verify (entries : list AuditEntry) (expected_head : option bytes) : result unit AuditError :=
  let? _ := verify_from 0 GENESIS_PREV entries in
  match expected_head with
  | None => Ok tt
  | Some head =>
      match last entries with
      | Some e => if bool_decide (ae_hash e = head) then Ok tt else Err UnexpectedHead
      | None => Err Truncated
      end
  end.

(** *** MemoryAuditLog *)

Definition Memory_append (entries : list AuditEntry) (record : AuditRecord) : list AuditEntry :=
  let seq : u64 := wrap (Z.of_nat (length entries)) in
  let prev := match last entries with Some e => ae_hash e | None => GENESIS_PREV end in
  entries ++ [AuditEntry_seal seq record prev].

Definition Memory_export (entries : list AuditEntry) : result (list AuditEntry) PortError := Ok entries.

(** *** PgAuditLog: the statements of [append] *)

(** [SELECT seq, hash ... ORDER BY seq DESC LIMIT 1] and the match on its row. *)
Definition pg_head (table : list AuditRow) : result (u64 * bytes) PortError :=
  match last (order_by_seq table) with
  | Some row =>
      let? h := hash_from_row (row_hash row) in
      Ok (wrapping_add (wrap (bval (row_seq row)) : u64) 1, h)
  | None => Ok (wrap 0, GENESIS_PREV)
  end.

(** The values bound by the INSERT. *)
Definition entry_row (e : AuditEntry) : AuditRow :=
  let r := ae_record e in
  mkRow (wrap (bval (ae_seq e))) (ts_unix r) (subject r) (kind r) (target r) (run_as r)
    (Decision_as_str (decision r)) (ae_prev_hash e) (ae_hash e).

(** One row of [export]. *)
Definition row_entry (row : AuditRow) : result AuditEntry PortError :=
  let? d := ok_or (Decision_parse (row_decision row)) (Backend "audit row has an unknown decision") in
  let? p := hash_from_row (row_prev_hash row) in
  let? h := hash_from_row (row_hash row) in
  Ok (mkEntry (wrap (bval (row_seq row)))
        (mkRecord (row_ts row) (row_subject row) (row_kind row) (row_target row) (row_run_as row) d) p h).

Definition Pg_export (table : list AuditRow) : result (list AuditEntry) PortError :=
  collect row_entry (order_by_seq table).

(** [append] as one transaction ([append_lock] and the advisory lock keep every other one
    out): a fault rolls it back, or loses the reply to its commit. *)
Definition Pg_append (table : list AuditRow) (f : Fault) (record : AuditRecord) : list AuditRow * result unit PortError :=
  match pg_head table with
  | Err e => (table, Err e)
  | Ok (seq, prev) =>
      let row := entry_row (AuditEntry_seal seq record prev) in
      if bool_decide (row_seq row ∈ (row_seq <$> table)) then (table, Err (Backend "duplicate key"))
      else run_stmt f (fun t => (t ++ [row], tt)) table
  end.

(** The append running on a replica, statement by statement.  [append_lock] makes it the only one there. *)
Inductive AppendTask :=
| TBegun (record : AuditRecord)                          (** transaction open, READ COMMITTED set *)
| TLocked (record : AuditRecord)                         (** advisory lock held *)
| TRead (record : AuditRecord) (seq : u64) (prev : bytes) (** head read *)
| TInserted (record : AuditRecord) (row : AuditRow).     (** row inserted, not yet committed *)

(** The shared database and the replicas: the committed table, the holder of
    [CHAIN_LOCK_KEY], each replica's running append.  [committed] records, in commit
    order, the records of the transactions that committed. *)
Record Db := mkDb {
  table : list AuditRow;
  chain_lock : option nat;
  tasks : gmap nat AppendTask;
  committed : list AuditRecord
}.

Definition db_init : Db := mkDb [] None ∅ [].

Definition release (holder : option nat) (r : nat) : option nat :=
  if decide (holder = Some r) then None else holder.

Inductive db_step : Db -> Db -> Prop :=
| step_begin db r record :
    tasks db !! r = None ->
    db_step db (mkDb (table db) (chain_lock db) (<[r := TBegun record]> (tasks db)) (committed db))
| step_lock db r record :   (** [pg_advisory_xact_lock]: waits until the lock is free *)
    tasks db !! r = Some (TBegun record) -> chain_lock db = None ->
    db_step db (mkDb (table db) (Some r) (<[r := TLocked record]> (tasks db)) (committed db))
| step_read db r record seq prev :
    tasks db !! r = Some (TLocked record) -> pg_head (table db) = Ok (seq, prev) ->
    db_step db (mkDb (table db) (chain_lock db) (<[r := TRead record seq prev]> (tasks db)) (committed db))
| step_insert db r record seq prev :   (** the INSERT of the sealed entry; the key must be new *)
    let row := entry_row (AuditEntry_seal seq record prev) in
    tasks db !! r = Some (TRead record seq prev) ->
    row_seq row ∉ (row_seq <$> table db) ->
    db_step db (mkDb (table db) (chain_lock db) (<[r := TInserted record row]> (tasks db)) (committed db))
| step_commit db r row record :   (** the row becomes visible and the lock is released *)
    tasks db !! r = Some (TInserted record row) ->
    db_step db (mkDb (table db ++ [row]) (release (chain_lock db) r) (delete r (tasks db))
                  (committed db ++ [record]))
| step_fail db r task :   (** a statement fails or the connection is lost: roll back *)
    tasks db !! r = Some task ->
    db_step db (mkDb (table db) (release (chain_lock db) r) (delete r (tasks db)) (committed db)).

(** ** Specification: the chain of a list of records *)

Fixpoint chain_from (index : nat) (prev : bytes) (records : list AuditRecord) : list AuditEntry :=
  match records with
  | [] => []
  | r :: rs =>
      let e := AuditEntry_seal (wrap (Z.of_nat index)) r prev in
      e :: chain_from (S index) (ae_hash e) rs
  end.
Definition chain_of (records : list AuditRecord) : list AuditEntry := chain_from 0 GENESIS_PREV records.

(** The hash the next entry links to. *)
Definition head_of (prev : bytes) (entries : list AuditEntry) : bytes :=
  match last entries with Some e => ae_hash e | None => prev end.

End Audit.

Definition record_short (r : AuditRecord) : Prop :=
  short (bytes_of (subject r)) /\ short (bytes_of (kind r)) /\
  short (bytes_of (target r)) /\ short (bytes_of (run_as r)).
#[global] Instance record_short_dec r : Decision (record_short r).
Proof. unfold record_short. apply _. Defined.

(** Two chains hold entries whose encodings differ and hash alike. *)
Definition chains_collide `{Crypto} (es1 es2 : list AuditEntry) : Prop :=
  exists e1 e2, e1 ∈ es1 /\ e2 ∈ es2 /\
    encode_entry (ae_seq e1) (ae_record e1) (ae_prev_hash e1) <>
    encode_entry (ae_seq e2) (ae_record e2) (ae_prev_hash e2) /\
    compute_hash (ae_seq e1) (ae_record e1) (ae_prev_hash e1) =
    compute_hash (ae_seq e2) (ae_record e2) (ae_prev_hash e2).

(** ** Lemmas: the encoding *)

Lemma Decision_parse_as_str d : Decision_parse (Decision_as_str d) = Some d.
Proof. by destruct d. Qed.

Lemma Decision_as_str_inj d1 d2 : Decision_as_str d1 = Decision_as_str d2 -> d1 = d2.
Proof. by destruct d1, d2. Qed.

Lemma Decision_as_str_short d : short (bytes_of (Decision_as_str d)).
Proof. by destruct d. Qed.

(** Distinct (sequence, record, predecessor) triples have distinct encodings. *)
Lemma encode_entry_inj s1 s2 r1 r2 p1 p2 :
  record_short r1 -> record_short r2 ->
  encode_entry s1 r1 p1 = encode_entry s2 r2 p2 -> s1 = s2 /\ r1 = r2 /\ p1 = p2.
Proof.
  intros (?&?&?&?) (?&?&?&?). unfold encode_entry. intros He.
  apply be_app_inj in He as [Hs He]. apply be_app_inj in He as [Ht He].
  do 5 (apply enc_field_inj in He as [?%bytes_of_inj He]; [|first [apply Decision_as_str_short|assumption]..]).
  apply (be_bytes_bint_inj 8) in Hs, Ht; [|done..].
  destruct r1, r2; simpl in *. match goal with
  | Hd : Decision_as_str _ = _ |- _ => apply Decision_as_str_inj in Hd end. by subst.
Qed.

Section ChainLemmas.
Context `{Crypto}.

Lemma chain_from_snoc i p rs r :
  chain_from i p (rs ++ [r]) =
  chain_from i p rs ++
    [AuditEntry_seal (wrap (Z.of_nat (i + length rs))) r (head_of p (chain_from i p rs))].
Proof.
  revert i p. induction rs as [|x rs IH]; intros i p; simpl.
  - by rewrite Nat.add_0_r.
  - rewrite IH. rewrite Nat.add_succ_r. cbn [chain_from app]. unfold head_of. rewrite last_cons.
    by destruct (last (chain_from (S i) _ rs)).
Qed.

Lemma length_chain_from i p rs : length (chain_from i p rs) = length rs.
Proof. revert i p. induction rs as [|x rs IH]; intros; simpl; [done|]. by rewrite IH. Qed.

Lemma chain_from_records i p rs : ae_record <$> chain_from i p rs = rs.
Proof. revert i p. induction rs as [|x rs IH]; intros; simpl; [done|]. by rewrite IH. Qed.

Lemma verify_from_chain i p rs : verify_from i p (chain_from i p rs) = Ok tt.
Proof.
  revert i p. induction rs as [|x rs IH]; intros; simpl; [done|].
  rewrite !bool_decide_eq_true_2 by done. simpl. apply IH.
Qed.

Lemma verify_from_inv i p es :
  verify_from i p es = Ok tt -> es = chain_from i p (ae_record <$> es).
Proof.
  revert i p. induction es as [|e es IH]; intros i p; simpl; [done|].
  intros Hv. split_matches. bool_to_prop. apply IH in Hv.
  destruct e as [sq rc pv hs]; simpl in *. subst. unfold AuditEntry_seal. f_equal. exact Hv.
Qed.

Lemma chain_entry_hash i p rs e :
  e ∈ chain_from i p rs ->
  ae_hash e = compute_hash (ae_seq e) (ae_record e) (ae_prev_hash e).
Proof.
  revert i p. induction rs as [|x rs IH]; intros i p; simpl; [by intros ?%not_elem_of_nil|].
  rewrite elem_of_cons. intros [->|?]; [done|eauto].
Qed.

Lemma Memory_append_all rs : foldl Memory_append [] rs = chain_of rs.
Proof.
  induction rs as [|r rs IH] using rev_ind; [done|].
  rewrite foldl_app. simpl. rewrite IH. unfold chain_of. rewrite chain_from_snoc.
  unfold Memory_append. by rewrite length_chain_from.
Qed.

Lemma head_of_snoc p es e : head_of p (es ++ [e]) = ae_hash e.
Proof. unfold head_of. by rewrite last_snoc. Qed.

(** The head determines the chain, up to a hash collision inside the two chains. *)
Lemma head_determines_chain rs1 rs2 :
  Forall record_short rs1 -> Forall record_short rs2 ->
  Z.of_nat (length rs1) <= 2 ^ 64 -> Z.of_nat (length rs2) <= 2 ^ 64 ->
  rs1 <> [] -> rs2 <> [] ->
  head_of GENESIS_PREV (chain_of rs1) = head_of GENESIS_PREV (chain_of rs2) ->
  rs1 = rs2 \/ chains_collide (chain_of rs1) (chain_of rs2).
Proof.
  revert rs2. induction rs1 as [|x rs1 IH] using rev_ind; [done|].
  intros rs2 H1 H2 L1 L2 _ N2. destruct rs2 as [|y rs2 _] using rev_ind; [done|].
  rewrite length_app in L1, L2. simpl in L1, L2.
  apply Forall_app in H1 as [H1 [Hx _]%Forall_cons]. apply Forall_app in H2 as [H2 [Hy _]%Forall_cons].
  unfold chain_of. rewrite !chain_from_snoc, !head_of_snoc. simpl. intros Hh.
  destruct (decide (encode_entry (wrap (Z.of_nat (length rs1))) x (head_of GENESIS_PREV (chain_of rs1)) =
                    encode_entry (wrap (Z.of_nat (length rs2))) y (head_of GENESIS_PREV (chain_of rs2))))
    as [He|He].
  - apply encode_entry_inj in He as (Hs & -> & Hp); [|done..].
    apply (f_equal bval) in Hs. rewrite !wrap_small in Hs by lia.
    destruct rs1 as [|a rs1']; [destruct rs2; [by left|simpl in Hs; lia]|].
    destruct (IH rs2) as [->|(e1 & e2 & ?)]; try done; [lia|lia|by destruct rs2|by left|].
    right. exists e1, e2. unfold chain_of in *. set_solver.
  - right. eexists _, _. split; [apply elem_of_app; right; by left|].
    split; [apply elem_of_app; right; by left|]. done.
Qed.

End ChainLemmas.

(** ** Lemmas: the Postgres store *)

Section PgLemmas.
Context `{CryptoLaws}.

Lemma compute_hash_length seq r p : length (compute_hash seq r p) = 32%nat.
Proof. apply sha256_length. Qed.

Lemma chain_hash_lengths i p rs e :
  length p = 32%nat -> e ∈ chain_from i p rs ->
  length (ae_prev_hash e) = 32%nat /\ length (ae_hash e) = 32%nat.
Proof.
  revert i p. induction rs as [|r rs IH]; intros i p Hp; simpl; [by intros ?%not_elem_of_nil|].
  rewrite elem_of_cons. intros [->|Hin]; simpl.
  - by rewrite compute_hash_length.
  - eapply IH; [|done]. apply compute_hash_length.
Qed.

Lemma head_of_length i p rs :
  length p = 32%nat -> length (head_of p (chain_from i p rs)) = 32%nat.
Proof.
  intros Hp. unfold head_of. destruct (last _) as [e|] eqn:E; [|done].
  apply last_Some_elem_of in E. by eapply chain_hash_lengths in E as [_ ?].
Qed.

Lemma row_entry_row e :
  bval (ae_seq e) < 2 ^ 63 -> length (ae_prev_hash e) = 32%nat -> length (ae_hash e) = 32%nat ->
  row_entry (entry_row e) = Ok e.
Proof.
  intros Hs Hp Hh. unfold row_entry, entry_row. simpl. rewrite Decision_parse_as_str. simpl.
  unfold hash_from_row, array32. rewrite !decide_True by done. simpl.
  destruct e as [sq [] pv hs]; simpl in *. do 2 f_equal. apply bint_eq.
  pose proof (bint_range sq). by rewrite !wrap_small by (rewrite ?wrap_small; lia).
Qed.

Definition row_ge (n : Z) (r : AuditRow) : Prop := n <= bval (row_seq r).

Lemma chain_rows_ge i p rs :
  Z.of_nat (i + length rs) <= 2 ^ 63 ->
  Forall (row_ge (Z.of_nat i)) (entry_row <$> chain_from i p rs).
Proof.
  revert i p. induction rs as [|r rs IH]; intros i p Hl; simpl; [constructor|]. simpl in Hl. constructor.
  - unfold row_ge. simpl. rewrite !wrap_small; rewrite ?wrap_small; lia.
  - eapply Forall_impl; [apply IH; lia|]. unfold row_ge. lia.
Qed.

(** A stored chain is already in [seq] order. *)
Lemma chain_ordered i p rs :
  Z.of_nat (i + length rs) <= 2 ^ 63 ->
  order_by_seq (entry_row <$> chain_from i p rs) = entry_row <$> chain_from i p rs.
Proof.
  revert i p. induction rs as [|r rs IH]; intros i p Hl; [done|]. simpl in Hl.
  cbn [chain_from fmap list_fmap order_by_seq foldr]. fold order_by_seq.
  change (foldr insert_row []) with order_by_seq. rewrite IH by lia.
  pose proof (chain_rows_ge (S i) (compute_hash (wrap (Z.of_nat i)) r p) rs ltac:(lia)) as Hge.
  simpl. destruct (entry_row <$> chain_from (S i) _ rs) as [|x l]; simpl; [done|].
  apply Forall_cons in Hge as [Hx _]. unfold row_ge in Hx.
  replace (_ <=? _) with true; [done|]. symmetry. apply Z.leb_le. simpl.
  rewrite !wrap_small; rewrite ?wrap_small; lia.
Qed.

Lemma pg_head_chain rs :
  Z.of_nat (length rs) <= 2 ^ 63 ->
  pg_head (entry_row <$> chain_of rs) =
  Ok (wrap (Z.of_nat (length rs)), head_of GENESIS_PREV (chain_of rs)).
Proof.
  intros Hl. unfold pg_head, chain_of. rewrite chain_ordered by done.
  destruct rs as [|r rs _] using rev_ind; [done|].
  rewrite length_app in *. simpl in Hl.
  rewrite chain_from_snoc, fmap_app, head_of_snoc. cbn [fmap list_fmap]. rewrite last_snoc. simpl.
  unfold hash_from_row, array32. rewrite compute_hash_length. simpl. f_equal. f_equal.
  apply bint_eq. unfold wrapping_add.
  rewrite (wrap_small (lo := - 2 ^ 63)) by (rewrite wrap_small; lia).
  rewrite (wrap_small (Z.of_nat (length rs))), !wrap_small by (rewrite ?wrap_small; lia). lia.
Qed.

Lemma collect_chain i p rs :
  length p = 32%nat -> Z.of_nat (i + length rs) <= 2 ^ 63 ->
  collect row_entry (entry_row <$> chain_from i p rs) = Ok (chain_from i p rs).
Proof.
  revert i p. induction rs as [|r rs IH]; intros i p Hp Hl; [done|]. simpl in Hl.
  cbn [chain_from fmap list_fmap collect].
  rewrite row_entry_row; [|simpl; rewrite wrap_small; lia|done|apply compute_hash_length].
  rewrite IH; [done|apply compute_hash_length|lia].
Qed.

Lemma pg_export_chain rs :
  Z.of_nat (length rs) <= 2 ^ 63 -> Pg_export (entry_row <$> chain_of rs) = Ok (chain_of rs).
Proof.
  intros Hl. unfold Pg_export, chain_of. rewrite chain_ordered by done. by apply collect_chain.
Qed.

(** The record of a row; the table of the log, while it is not full. *)
Definition row_record (row : AuditRow) : AuditRecord :=
  mkRecord (row_ts row) (row_subject row) (row_kind row) (row_target row) (row_run_as row)
    (match Decision_parse (row_decision row) with Some d => d | None => Deny end).
Definition pg_chain (table : list AuditRow) : Prop :=
  Z.of_nat (length table) <= 2 ^ 63 -> table = entry_row <$> chain_of (row_record <$> table).

Lemma row_record_entry e : row_record (entry_row e) = ae_record e.
Proof. unfold row_record, entry_row. simpl. rewrite Decision_parse_as_str. by destruct (ae_record e). Qed.

(** An append that may have taken effect added exactly the sealed record. *)
Lemma pg_append_cases table f record :
  let '(table', r) := Pg_append table f record in
  (table' = table /\ is_ok r = false) \/
  exists seq prev, pg_head table = Ok (seq, prev) /\ table' = table ++ [entry_row (AuditEntry_seal seq record prev)].
Proof.
  unfold Pg_append. destruct (pg_head table) as [[seq prev]|e]; [|by left]. case_bool_decide; [by left|].
  destruct f; simpl; [right; eauto|by left|right; eauto].
Qed.

Lemma pg_append_chain table f record : pg_chain table -> pg_chain (fst (Pg_append table f record)).
Proof.
  intros Hc. pose proof (pg_append_cases table f record) as Ha. destruct (Pg_append table f record) as [tb r]. simpl.
  destruct Ha as [[-> _]|(seq & prev & Hh & ->)]; [done|]. intros Hl. rewrite length_app in Hl. simpl in Hl.
  specialize (Hc ltac:(lia)). rewrite Hc in Hh. rewrite pg_head_chain in Hh by (rewrite length_fmap; lia).
  injection Hh as <- <-. rewrite fmap_app. cbn [fmap list_fmap]. rewrite row_record_entry. simpl.
  unfold chain_of in *. rewrite chain_from_snoc, fmap_app, <- Hc. done.
Qed.

(** The single-writer invariant: the table is the chain of the committed records, and
    only the lock holder is between its head read and its commit, with that head. *)
Definition task_ok (db : Db) (r : nat) (t : AppendTask) : Prop :=
  match t with
  | TBegun _ => chain_lock db <> Some r
  | TLocked _ => chain_lock db = Some r
  | TRead _ seq prev => chain_lock db = Some r /\ pg_head (table db) = Ok (seq, prev)
  | TInserted record row =>
      chain_lock db = Some r /\ exists seq prev, pg_head (table db) = Ok (seq, prev) /\
      row = entry_row (AuditEntry_seal seq record prev)
  end.

Definition db_inv (db : Db) : Prop :=
  table db = entry_row <$> chain_of (committed db) /\
  map_Forall (task_ok db) (tasks db) /\
  (forall r, chain_lock db = Some r -> is_Some (tasks db !! r)).

Lemma db_step_committed db db' :
  db_step db db' -> (length (committed db) <= length (committed db'))%nat.
Proof. destruct 1; simpl; rewrite ?length_app; lia. Qed.

Lemma release_other holder r r' : release holder r = Some r' -> holder = Some r' /\ r <> r'.
Proof. unfold release. case_decide; naive_solver. Qed.

Lemma release_holder r : release (Some r) r = None.
Proof. unfold release. by rewrite decide_True. Qed.

(** A holder's step that only changes its own task keeps the others' tasks fine. *)
Lemma task_ok_update db r t tb :
  map_Forall (task_ok db) (tasks db) -> table db = tb ->
  (forall lk cm, task_ok (mkDb tb lk cm (committed db)) r t <-> task_ok (mkDb tb lk ∅ []) r t) ->
  task_ok (mkDb tb (chain_lock db) ∅ []) r t ->
  map_Forall (task_ok (mkDb tb (chain_lock db) (<[r := t]> (tasks db)) (committed db))) (<[r := t]> (tasks db)).
Proof.
  intros Hall <- Heq Ht r' t'. rewrite lookup_insert_Some. intros [[<- <-]|[? Hl]].
  - by apply Heq.
  - specialize (Hall _ _ Hl). by destruct t'.
Qed.

(** When the lock is released, every other task is still waiting for it. *)
Lemma task_ok_release db r t tb cm :
  db_inv db -> tasks db !! r = Some t -> (tb = table db \/ chain_lock db = Some r) ->
  map_Forall (task_ok (mkDb tb (release (chain_lock db) r) (delete r (tasks db)) cm)) (delete r (tasks db)).
Proof.
  intros (Ht & Hall & Hlk) Hr Htb r' t' [Hne Hl]%lookup_delete_Some.
  specialize (Hall _ _ Hl).
  assert (chain_lock db = Some r' -> release (chain_lock db) r = Some r') as Hkeep.
  { intros ->. unfold release. rewrite decide_False; [done|congruence]. }
  destruct Htb as [->|Hh].
  - destruct t'; simpl in *; [intros [? _]%release_other; done|by auto..|naive_solver|naive_solver].
  - destruct t'; simpl in *; rewrite Hh in *; [by rewrite release_holder|..]; naive_solver.
Qed.

Lemma db_step_inv db db' :
  db_inv db -> db_step db db' -> Z.of_nat (length (committed db')) <= 2 ^ 63 -> db_inv db'.
Proof.
  intros Hinv Hstep Hl. pose proof Hinv as (Ht & Hall & Hlk).
  destruct Hstep as [db r record Hr|db r record Hr Hf|db r record seq prev Hr Hp
    |db r record seq prev row Hr Hn|db r row record Hr|db r task Hr]; simpl in Hl.
  - split; [done|]. split; simpl.
    + apply (task_ok_update db r (TBegun record)); [done..|]. simpl. intros Hc. by destruct (Hlk r Hc); simplify_eq.
    + intros r' Hc. rewrite lookup_insert_is_Some'. eauto.
  - split; [done|]. split; simpl.
    + intros r' t'. rewrite lookup_insert_Some. intros [[<- <-]|[Hne Hr']]; [done|].
      specialize (Hall _ _ Hr'). destruct t'; simpl in *; rewrite Hf in *; naive_solver.
    + intros r' [= <-]. by rewrite lookup_insert_eq.
  - split; [done|]. split; simpl.
    + apply (task_ok_update db r (TRead record seq prev)); [done..|].
      split; [|done]. by apply (Hall _ _ Hr).
    + intros r' Hc. rewrite lookup_insert_is_Some'. eauto.
  - split; [done|]. split; simpl.
    + apply (task_ok_update db r (TInserted record row)); [done..|].
      destruct (Hall _ _ Hr) as [? ?]. split; [done|]. by exists seq, prev.
    + intros r' Hc. rewrite lookup_insert_is_Some'. eauto.
  - destruct (Hall _ _ Hr) as (Hh & seq & prev & Hp & ->).
    rewrite length_app in Hl. simpl in Hl.
    split; [|split]; simpl.
    + rewrite Ht. unfold chain_of. rewrite chain_from_snoc, fmap_app. f_equal.
      rewrite Ht, pg_head_chain in Hp by lia. by simplify_eq.
    + eapply task_ok_release; eauto.
    + intros r' [Hc ?]%release_other. congruence.
  - split; [done|]. split; simpl.
    + eapply task_ok_release; eauto.
    + intros r' [Hc ?]%release_other. rewrite lookup_delete_ne by done. eauto.
Qed.

Lemma db_reachable_inv db :
  rtc db_step db_init db -> Z.of_nat (length (committed db)) <= 2 ^ 63 -> db_inv db.
Proof.
  revert db. apply (rtc_ind_r (fun db => Z.of_nat (length (committed db)) <= 2 ^ 63 -> db_inv db)).
  - split; [done|]. split; [apply map_Forall_empty|done].
  - intros db db' _ Hs IH Hl. eapply db_step_inv; [apply IH|done|done].
    apply db_step_committed in Hs. lia.
Qed.

End PgLemmas.

(** ** Properties *)

(** The log implements its specification: after appending any records to an empty
    in-memory log, the export holds exactly those records in order, verifies, and
    verifies anchored at its own head. *)
Theorem audit_log_complete `{Crypto} (rs : list AuditRecord) :
  let log := foldl Memory_append [] rs in
  Memory_export log = Ok log /\ ae_record <$> log = rs /\
  verify log None = Ok tt /\ (rs <> [] -> verify log (ae_hash <$> last log) = Ok tt).
Proof.
  intros log. unfold log. rewrite Memory_append_all. unfold verify, chain_of.
  rewrite verify_from_chain, chain_from_records. repeat split; auto. intros Hne.
  destruct rs as [|r rs _] using rev_ind; [done|]. rewrite chain_from_snoc, last_snoc. simpl.
  by rewrite bool_decide_eq_true_2.
Qed.

(** Verification is exact: it accepts a list of entries iff it is, entry for entry,
    the chain an honest log would hold for those records and it ends at the anchor. *)
Theorem audit_verify_exact `{Crypto} (es : list AuditEntry) (anchor : option bytes) :
  verify es anchor = Ok tt <->
  es = foldl Memory_append [] (ae_record <$> es) /\
  (forall h, anchor = Some h -> ae_hash <$> last es = Some h).
Proof.
  rewrite Memory_append_all. unfold verify. split.
  - destruct (verify_from 0 GENESIS_PREV es) as [[]|] eqn:E; [|done].
    apply verify_from_inv in E. intros Hv. split; [done|]. intros h ->.
    destruct (last es); simpl; [|done]. destruct (bool_decide _) eqn:Eb; [|done]. bool_to_prop. by f_equal.
  - intros [He Ha]. rewrite He at 1. unfold chain_of. rewrite verify_from_chain.
    destruct anchor as [h|]; [|done]. specialize (Ha h eq_refl).
    destruct (last es); simplify_eq/=. by rewrite bool_decide_eq_true_2.
Qed.

(** C19. Tamper evidence against an anchor: two lists of entries that both verify
    against the same recorded head are the same list, unless they exhibit a SHA-256
    collision between two of their entries.  Alteration, removal, insertion,
    reordering and truncation are all covered. *)
Theorem audit_tamper_evident `{Crypto} (es1 es2 : list AuditEntry) (head : bytes) :
  Forall record_short (ae_record <$> es1) -> Forall record_short (ae_record <$> es2) ->
  Z.of_nat (length es1) <= 2 ^ 64 -> Z.of_nat (length es2) <= 2 ^ 64 ->
  verify es1 (Some head) = Ok tt -> verify es2 (Some head) = Ok tt ->
  es1 = es2 \/ chains_collide es1 es2.
Proof.
  intros H1 H2 L1 L2 V1 V2.
  assert (forall es, verify es (Some head) = Ok tt ->
    es = chain_of (ae_record <$> es) /\ (ae_record <$> es) <> [] /\
    head_of GENESIS_PREV es = head) as Hinv.
  { intros es. unfold verify. destruct (verify_from 0 GENESIS_PREV es) as [[]|] eqn:E; [|done].
    apply verify_from_inv in E. unfold head_of. destruct (last es) eqn:El; [|done].
    destruct (bool_decide _) eqn:Eb; [|done]. bool_to_prop. intros _.
    split; [done|]. split; [by destruct es|done]. }
  destruct (Hinv es1 V1) as (E1 & N1 & D1), (Hinv es2 V2) as (E2 & N2 & D2).
  rewrite E1, E2. destruct (head_determines_chain (ae_record <$> es1) (ae_record <$> es2))
    as [->|?]; auto; rewrite ?length_fmap; auto. by rewrite <- E1, <- E2, D1, D2.
Qed.

Definition demo_record (who : string) (d : Decision_) : AuditRecord :=
  mkRecord (wrap 1700000000) who "exec" "host" "" d.

Lemma audit_tamper_evident_witness :
  let log := foldl Memory_append [] [demo_record "alice" Allow; demo_record "bob" Deny] in
  exists head, verify log (Some head) = Ok tt /\ (log = log \/ chains_collide log log).
Proof.
  intros log. exists (head_of GENESIS_PREV log).
  assert (verify log (Some (head_of GENESIS_PREV log)) = Ok tt) as Hv by (vm_compute; reflexivity).
  split; [exact Hv|].
  apply (audit_tamper_evident log log (head_of GENESIS_PREV log)); try exact Hv.
  all: try (apply (bool_decide_unpack _); vm_compute; exact I).
  all: vm_compute; intros Hc; discriminate Hc.
Defined.

(** C18. The shared Postgres log never forks: under every interleaving of the
    statements of appends running on any number of replicas, with any statement
    failing at any point, the table exports the chain of exactly the committed
    records in commit order, and that chain verifies. *)
Theorem pg_audit_never_forks `{CryptoLaws} (db : Db) :
  rtc db_step db_init db -> Z.of_nat (length (committed db)) <= 2 ^ 63 ->
  exists es, Pg_export (table db) = Ok es /\ ae_record <$> es = committed db /\
    verify es None = Ok tt /\ es = foldl Memory_append [] (committed db).
Proof.
  intros Hr Hl. destruct (db_reachable_inv db Hr Hl) as [Ht _].
  exists (chain_of (committed db)). rewrite Ht, pg_export_chain, Memory_append_all by done.
  unfold verify, chain_of. by rewrite verify_from_chain, chain_from_records.
Qed.

Lemma pg_audit_never_forks_witness :
  exists db, rtc db_step db_init db /\ committed db = [demo_record "bob" Deny] /\
  exists es, Pg_export (table db) = Ok es /\ ae_record <$> es = committed db /\
    verify es None = Ok tt /\ es = foldl Memory_append [] (committed db).
Proof.
  set (a := demo_record "alice" Allow). set (b := demo_record "bob" Deny).
  assert (rtc db_step db_init (mkDb [entry_row (AuditEntry_seal (wrap 0) b GENESIS_PREV)]
            (release (Some 1%nat) 1) (delete 1%nat (<[1%nat := TInserted b (entry_row (AuditEntry_seal (wrap 0) b GENESIS_PREV))]>
              (<[1%nat := TRead b (wrap 0) GENESIS_PREV]> (<[1%nat := TLocked b]> (delete 0%nat
                (<[0%nat := TLocked a]> (<[1%nat := TBegun b]> (<[0%nat := TBegun a]> ∅)))))))) [b])) as Hr.
  { eapply rtc_l; [exact (step_begin db_init 0 a eq_refl)|].
    eapply rtc_l; [refine (step_begin _ 1 b _); reflexivity|].
    eapply rtc_l; [refine (step_lock _ 0 a _ _); reflexivity|].
    eapply rtc_l; [refine (step_fail _ 0 (TLocked a) _); reflexivity|].
    eapply rtc_l; [refine (step_lock _ 1 b _ _); reflexivity|].
    eapply rtc_l; [refine (step_read _ 1 b (wrap 0) GENESIS_PREV _ _); reflexivity|].
    eapply rtc_l; [refine (step_insert _ 1 b (wrap 0) GENESIS_PREV _ _);
                   [reflexivity|apply not_elem_of_nil]|].
    eapply rtc_l; [refine (step_commit _ 1 _ b _); reflexivity|]. apply rtc_refl. }
  eexists. split; [exact Hr|]. split; [reflexivity|].
  apply (pg_audit_never_forks _ Hr). vm_compute. intros Hc; discriminate Hc.
Defined.
