(* ===== verification/Disk.v ===== *)
(** * Durable files

    The agent's state directory as the program uses it: whole-file reads, and the
    write-temp, fsync, rename, fsync-directory sequence of [write_durably]
    (osa-agent/src/jobstore.rs), which [next_epoch] (osa-agent/src/session.rs) also
    runs.  A directory has the entries readers see and the entries that are known to
    be on disk; a crash keeps, file by file, either of the two. *)
From S2P Require Import Prelude.

Record Dir := mkDir { cur : gmap string bytes; durable : gmap string bytes }.

Definition dir_empty : Dir := mkDir ∅ ∅.

(** Why a system call failed ([io::Error]), its message rendered. *)
Inductive IoError := IoNotFound | IoOther (msg : string).

(** Where a durable write stops: before the rename, at the directory fsync, or nowhere. *)
Inductive WriteFault :=
| WOk
| WTemp (msg : string)      (** creating, writing, syncing or renaming the temp file fails *)
| WDirSync (msg : string).  (** the rename happened; the directory fsync fails *)

Definition write_durably (d : Dir) (path : string) (b : bytes) (f : WriteFault) : Dir * result unit IoError :=
  match f with
  | WTemp msg => (d, Err (IoOther msg))
  | WDirSync msg => (mkDir (<[path := b]> (cur d)) (durable d), Err (IoOther msg))
  | WOk => let c := <[path := b]> (cur d) in (mkDir c c, Ok tt)
  end.

(** [std::fs::read]: [f] is a read failure other than an absent file. *)
Definition read_file (d : Dir) (path : string) (f : option string) : result bytes IoError :=
  match f with
  | Some msg => Err (IoOther msg)
  | None => ok_or (cur d !! path) IoNotFound
  end.

(** A crash and restart: each entry is what was last durable or what was visible. *)
Definition crash (d d' : Dir) : Prop :=
  durable d' = cur d' /\
  forall p, cur d' !! p = cur d !! p \/ cur d' !! p = durable d !! p.

(** ** Lemmas *)

(** [possible d p v]: [v] is what [p] may hold, now or after a crash. *)
Definition possible (d : Dir) (p : string) (v : option bytes) : Prop :=
  v = cur d !! p \/ v = durable d !! p.

Lemma crash_possible d d' p v : crash d d' -> possible d' p v -> possible d p v.
Proof. intros [Hd Hc] Hv. unfold possible in *. destruct (Hc p); rewrite Hd in Hv; intuition congruence. Qed.

Lemma write_possible d path b f d' r p v :
  write_durably d path b f = (d', r) -> possible d' p v ->
  (p = path /\ v = Some b) \/ possible d p v.
Proof.
  unfold possible. destruct f; simpl; intros [= <- <-]; simpl; [|auto|];
    (destruct (decide (p = path)) as [->|]; [rewrite ?lookup_insert_eq|rewrite ?lookup_insert_ne by done]);
    intuition auto.
Qed.

Lemma write_ok d path b d' :
  write_durably d path b WOk = (d', Ok tt) -> forall v, possible d' path v -> v = Some b.
Proof. intros [= <-] v. unfold possible. simpl. rewrite lookup_insert_eq. tauto. Qed.

Lemma write_ok_inv d path b f d' : write_durably d path b f = (d', Ok tt) -> f = WOk.
Proof. by destruct f. Qed.
