(* ===== verification/Session.v ===== *)
(** * Sessions of both ends (osa-coordinator/src/session.rs, osa-agent/src/session.rs)

    The coordinator's session store and the agent's established session: sequence
    allocation (the AEAD nonce), the replay guards, the handshake steps of the agent
    and its durable session epoch. *)
From Stdlib Require Import Strings.Byte Sorting.Sorted.
From S2P Require Import Prelude Proto Concrete Text Seal Handshake Disk.

(** ** Coordinator side *)

Definition MAX_SESSIONS : nat := 500 * 100.

Record Session := mkSession {
  cs_sid : string; cs_keys : SessionKeys; cs_send_seq : u64; cs_recv_high : option u64
}.

Record SessionStore := mkStore { by_host : gmap HostId Session; ss_cap : nat }.

Definition SessionStore_new : SessionStore := mkStore ∅ MAX_SESSIONS.

(** The strict high-water rule of both replay guards. *)
Definition stale (high : option u64) (seq : u64) : bool :=
  match high with Some h => bval seq <=? bval h | None => false end.

Definition SessionStore_insert (self : SessionStore) (host : HostId) (sid : string) (keys : SessionKeys)
    : SessionStore * bool :=
  if bool_decide (by_host self !! host = None) && bool_decide (ss_cap self <= size (by_host self))%nat
  then (self, false)
  else (mkStore (<[host := mkSession sid keys (wrap 0) None]> (by_host self)) (ss_cap self), true).

Definition SessionStore_get (self : SessionStore) (host : HostId) : option Session := by_host self !! host.
Definition SessionStore_host_ids (self : SessionStore) : list HostId := (map_to_list (by_host self)).*1.

(** ** Agent side *)

Record AgentIdentity := mkIdentity {
  ai_host_id : string; ai_signing_key_pem : string; ai_cert_der : bytes; ai_ca_pubkey_sec1 : bytes
}.
Record Handshaking := mkHandshaking { hk_initiator : Initiator; hk_sid : string }.
Record Established := mkEstablished {
  est_keys : SessionKeys; est_sid : string; est_send_seq : u64; est_recv_high : option u64
}.

Definition KEY_FILE : string := "host.key".
Definition CERT_FILE : string := "host.crt".
Definition CA_FILE : string := "ca.crt".
Definition HOST_ID_FILE : string := "host_id".
Definition EPOCH_FILE : string := "session_epoch".

(** Parsers of the pem and x509-parser crates: PEM to DER, and the subject public key
    of a certificate. *)
Class Pki := {
  pem_to_der : bytes -> option bytes;
  subject_pubkey_sec1 : bytes -> option bytes
}.

(** Text of a file ([read_to_string]); the bytes of a string file are its text. *)
Definition utf8 (b : bytes) : string := String.string_of_list_byte b.

Definition AgentIdentity_load `{Pki} (d : Dir) (fail : string -> option string) : result AgentIdentity string :=
  let read f := map_err (fun _ => f) (read_file d f (fail f)) in
  let? host_id := read HOST_ID_FILE in
  let? key := read KEY_FILE in
  let? cert_pem := read CERT_FILE in
  let? cert_der := ok_or (pem_to_der cert_pem) "parsing host cert" in
  let? ca_pem := read CA_FILE in
  let? ca_der := ok_or (pem_to_der ca_pem) "parsing pinned CA" in
  let? ca_pub := ok_or (subject_pubkey_sec1 ca_der) "reading pinned CA public key" in
  Ok (mkIdentity (trim (utf8 host_id)) (utf8 key) cert_der ca_pub).

(** [next_epoch]: read, increment, persist, return. *)
Definition next_epoch (d : Dir) (rf : option string) (wf : WriteFault) : Dir * result u64 string :=
  let current : result u64 string :=
    match read_file d EPOCH_FILE rf with
    | Ok b => ok_or (parse_unsigned (trim (utf8 b))) "session epoch file is corrupt"
    | Err IoNotFound => Ok (wrap 0)
    | Err (IoOther m) => Err m
    end in
  match current with
  | Err e => (d, Err e)
  | Ok cur =>
      match checked_add cur 1 with
      | None => (d, Err "session epoch overflow (u64)")
      | Some next =>
          match write_durably d EPOCH_FILE (bytes_of (to_dec (bval next))) wf with
          | (d', Err _) => (d', Err "committing the epoch")
          | (d', Ok _) => (d', Ok next)
          end
      end
  end.

Definition accept_recv (high : option u64) (seq : u64) : option u64 * bool :=
  if stale high seq then (high, false) else (Some seq, true).

Section Sessions.
Context `{Crypto} `{Prost} `{UuidLib}.

Definition seal_downlink (self : Session) (host_id : string) (payload : bytes) : Session * bytes :=
  let seq := cs_send_seq self in
  (mkSession (cs_sid self) (cs_keys self) (wrapping_add seq 1) (cs_recv_high self),
   encode_msg (seal_envelope (cs_keys self) CoordToAgent host_id (cs_sid self) seq KindControl payload)).

Definition derive_stream_keys (self : Session) (stream_id : bytes) : SessionKeys :=
  derive_stream (cs_keys self) stream_id.

Definition open_uplink (self : Session) (env : Envelope) : Session * option bytes :=
  match open_envelope (cs_keys self) AgentToCoord env with
  | Err _ => (self, None)
  | Ok plaintext =>
      if stale (cs_recv_high self) (env_seq env) then (self, None)
      else (mkSession (cs_sid self) (cs_keys self) (cs_send_seq self) (Some (env_seq env)), Some plaintext)
  end.

Definition open_downlink (self : Established) (env : Envelope) : Established * option bytes :=
  match open_envelope (est_keys self) CoordToAgent env with
  | Err _ => (self, None)
  | Ok plaintext =>
      let '(high, ok) := accept_recv (est_recv_high self) (env_seq env) in
      (mkEstablished (est_keys self) (est_sid self) (est_send_seq self) high,
       if ok then Some plaintext else None)
  end.

(** [seal_uplink]: the counter is an atomic shared by the job tasks ([fetch_add]). *)
Definition seal_uplink (keys : SessionKeys) (send_seq : u64) (host_id sid : string) (payload : bytes)
    : u64 * bytes :=
  (wrapping_add send_seq 1,
   encode_msg (seal_envelope keys AgentToCoord host_id sid send_seq KindControl payload)).

(** [start_handshake]: [sid] is the fresh v4 UUID, [seed] the ephemeral secret. *)
Definition start_handshake (id : AgentIdentity) (epoch : u64) (fresh : Uuid) (seed : option bytes)
    : result (Handshaking * bytes) HsError :=
  let sid := uuid_to_string fresh in
  let? started := Initiator_start seed (bytes_of sid) epoch (ai_cert_der id) (ai_signing_key_pem id) in
  let msg := mkClientHello sid (hc_client_eph started.2) (ai_cert_der id) (hc_sig started.2) epoch in
  Ok (mkHandshaking started.1 sid, encode_msg msg).

Inductive FinishError := FinDecode | FinSid | FinEphemeral | FinVerify (e : HsError).

Definition finish_handshake (hs : Handshaking) (id : AgentIdentity) (server_hello : bytes)
    : result Established FinishError :=
  let? sh := map_err (fun _ => FinDecode) (decode_msg (M := ServerHello) server_hello) in
  if negb (bool_decide (sh_sid sh = hk_sid hs)) then Err FinSid
  else
    let? server_eph := ok_or (array32 (sh_server_eph sh)) FinEphemeral in
    let? keys := map_err FinVerify
      (Initiator_finish (hk_initiator hs) server_eph (sh_sig sh) (ai_ca_pubkey_sec1 id)) in
    Ok (mkEstablished keys (hk_sid hs) (wrap 0) None).

Inductive ConfirmError := ConfDecode | ConfSid | ConfOpen | ConfPayload.

Definition confirm_session (est : Established) (id : AgentIdentity) (beacon : bytes)
    : Established * result bytes ConfirmError :=
  match decode_msg (M := Envelope) beacon with
  | Err _ => (est, Err ConfDecode)
  | Ok env =>
      if negb (bool_decide (env_sid env = est_sid est)) then (est, Err ConfSid)
      else match open_downlink est env with
           | (est, None) => (est, Err ConfOpen)
           | (est, Some payload) =>
               if negb (bool_decide (payload = CTRL_SESSION_READY)) then (est, Err ConfPayload)
               else
                 let '(seq, ack) := seal_uplink (est_keys est) (est_send_seq est) (ai_host_id id)
                                      (est_sid est) CTRL_SESSION_ACK in
                 (mkEstablished (est_keys est) (est_sid est) seq (est_recv_high est), Ok ack)
           end
  end.

(** ** Histories *)

(** Sealing a list of payloads, one after the other. *)
Fixpoint seal_all_downlink (self : Session) (host_id : string) (ps : list bytes) : list bytes :=
  match ps with
  | [] => []
  | p :: ps' => let '(s, b) := seal_downlink self host_id p in b :: seal_all_downlink s host_id ps'
  end.
Fixpoint seal_all_uplink (keys : SessionKeys) (send_seq : u64) (host_id sid : string) (ps : list bytes) : list bytes :=
  match ps with
  | [] => []
  | p :: ps' => let '(q, b) := seal_uplink keys send_seq host_id sid p in
                b :: seal_all_uplink keys q host_id sid ps'
  end.

(** Feeding a receiver a list of envelopes: the payloads it accepts. *)
Fixpoint accept_all_downlink (self : Established) (envs : list Envelope) : list bytes :=
  match envs with
  | [] => []
  | e :: es => match open_downlink self e with
               | (s, Some p) => p :: accept_all_downlink s es
               | (s, None) => accept_all_downlink s es
               end
  end.
Fixpoint accept_all_uplink (self : Session) (envs : list Envelope) : list bytes :=
  match envs with
  | [] => []
  | e :: es => match open_uplink self e with
               | (s, Some p) => p :: accept_all_uplink s es
               | (s, None) => accept_all_uplink s es
               end
  end.

(** The envelopes an honest sender produces, from sequence number [seq] on. *)
Fixpoint envelopes_from (keys : SessionKeys) (dir : Direction) (kind : Kind) (host sid : string) (seq : Z) (ps : list bytes)
    : list Envelope :=
  match ps with
  | [] => []
  | p :: ps' => seal_envelope keys dir host sid (wrap seq) kind p ::
                envelopes_from keys dir kind host sid (seq + 1) ps'
  end.

End Sessions.

(** A history of the agent's epoch file: calls of [next_epoch] under any failures, and
    crashes.  The list holds the epochs returned, in order. *)
Inductive epoch_run : Dir -> list u64 -> Dir -> Prop :=
| er_done d : epoch_run d [] d
| er_call d rf wf d' r l d'' :
    next_epoch d rf wf = (d', r) -> epoch_run d' l d'' ->
    epoch_run d (match r with Ok e => e :: l | Err _ => l end) d''
| er_crash d d' l d'' : crash d d' -> epoch_run d' l d'' -> epoch_run d l d''.

(** ** Lemmas *)

(** The first sequence number a replay guard still accepts. *)
Definition next_seq (high : option u64) : nat :=
  match high with Some h => S (Z.to_nat (bval h)) | None => 0 end.

Lemma stale_next high seq : stale high seq = false <-> (next_seq high <= Z.to_nat (bval seq))%nat.
Proof.
  destruct high as [h|]; simpl; [|split; [lia|done]].
  pose proof (bint_range h). pose proof (bint_range seq). rewrite Z.leb_gt. lia.
Qed.

Section SessionLemmas.
Context `{CryptoLaws} `{ProstLaws}.

Lemma seal_all_downlink_eq sid keys high host ps seq :
  0 <= seq -> seq + Z.of_nat (length ps) <= 2 ^ 64 ->
  seal_all_downlink (mkSession sid keys (wrap seq) high) host ps =
  encode_msg <$> envelopes_from keys CoordToAgent KindControl host sid seq ps.
Proof.
  revert seq. induction ps as [|p ps IH]; intros seq Hs Hl; simpl in *; [done|]. f_equal.
  rewrite <- IH by lia. f_equal. unfold seal_downlink. simpl. f_equal.
  unfold wrapping_add. by rewrite wrap_small by lia.
Qed.

Lemma seal_all_uplink_eq keys host sid ps seq :
  0 <= seq -> seq + Z.of_nat (length ps) <= 2 ^ 64 ->
  seal_all_uplink keys (wrap seq) host sid ps =
  encode_msg <$> envelopes_from keys AgentToCoord KindControl host sid seq ps.
Proof.
  revert seq. induction ps as [|p ps IH]; intros seq Hs Hl; simpl in *; [done|]. f_equal.
  rewrite <- IH by lia. f_equal. unfold wrapping_add. by rewrite wrap_small by lia.
Qed.

Lemma envelopes_from_seqs keys dir kind host sid seq ps :
  0 <= seq -> seq + Z.of_nat (length ps) <= 2 ^ 64 ->
  (fun e => bval (env_seq e)) <$> envelopes_from keys dir kind host sid seq ps = seqZ seq (Z.of_nat (length ps)).
Proof.
  revert seq. induction ps as [|p ps IH]; intros seq Hs Hl; [done|]. cbn [length] in *.
  rewrite seqZ_cons by lia. cbn [envelopes_from fmap list_fmap].
  rewrite IH by lia. simpl. rewrite wrap_small by lia. repeat f_equal; lia.
Qed.

Lemma envelopes_nonces_nodup keys dir kind host sid ps :
  Z.of_nat (length ps) <= 2 ^ 64 ->
  NoDup ((fun e => nonce (env_seq e)) <$> envelopes_from keys dir kind host sid 0 ps).
Proof.
  intros Hl.
  apply (NoDup_fmap_1 (fun e => e)). rewrite list_fmap_id.
  assert (NoDup ((fun e => bval (env_seq e)) <$> envelopes_from keys dir kind host sid 0 ps)) as Hn.
  { rewrite envelopes_from_seqs by lia. apply NoDup_seqZ. }
  revert Hn. generalize (envelopes_from keys dir kind host sid 0 ps) as es.
  induction es as [|e es IH]; [constructor|]. cbn [fmap list_fmap].
  rewrite !NoDup_cons. intros [Hni Hn]. split; [|auto].
  intros (e' & He & Hin)%list_elem_of_fmap. apply Hni.
  apply nonce_inj in He. rewrite He. by apply (list_elem_of_fmap_2 (fun e => bval (env_seq e))).
Qed.

(** *** One receiver for both directions *)

Fixpoint recv_all (keys : SessionKeys) (dir : Direction) (high : option u64) (envs : list Envelope) : list bytes :=
  match envs with
  | [] => []
  | e :: es =>
      match open_envelope keys dir e with
      | Err _ => recv_all keys dir high es
      | Ok p => if stale high (env_seq e) then recv_all keys dir high es
                else p :: recv_all keys dir (Some (env_seq e)) es
      end
  end.

Lemma accept_all_downlink_eq keys sid sseq high envs :
  accept_all_downlink (mkEstablished keys sid sseq high) envs = recv_all keys CoordToAgent high envs.
Proof.
  revert high. induction envs as [|e es IH]; intros high; simpl; [done|].
  unfold open_downlink, accept_recv. simpl. destruct (open_envelope keys CoordToAgent e); [|apply IH].
  destruct (stale high (env_seq e)); simpl; by rewrite IH.
Qed.

Lemma accept_all_uplink_eq keys sid sseq high envs :
  accept_all_uplink (mkSession sid keys sseq high) envs = recv_all keys AgentToCoord high envs.
Proof.
  revert high. induction envs as [|e es IH]; intros high; simpl; [done|].
  unfold open_uplink. simpl. destruct (open_envelope keys AgentToCoord e); [|apply IH].
  destruct (stale high (env_seq e)); simpl; by rewrite IH.
Qed.

Lemma envelopes_from_elem keys dir kind host sid seq ps e :
  e ∈ envelopes_from keys dir kind host sid seq ps ->
  exists i p, ps !! i = Some p /\ e = seal_envelope keys dir host sid (wrap (seq + Z.of_nat i)) kind p.
Proof.
  revert seq. induction ps as [|p ps IH]; intros seq; simpl; [by intros ?%not_elem_of_nil|].
  rewrite elem_of_cons. intros [->|(i & p' & Hi & ->)%IH].
  - exists 0%nat, p. by rewrite Z.add_0_r.
  - exists (S i), p'. split; [done|]. do 2 f_equal. lia.
Qed.

(** An envelope is the sender's, or does not open (AEAD authenticity). *)
Definition authentic (keys : SessionKeys) (dir : Direction) (sent : list Envelope) (e : Envelope) : Prop :=
  e ∈ sent \/ exists err, open_envelope keys dir e = Err err.

Lemma recv_all_sublist keys dir kind host sid ps envs high :
  Z.of_nat (length ps) <= 2 ^ 64 ->
  Forall (authentic keys dir (envelopes_from keys dir kind host sid 0 ps)) envs ->
  sublist (recv_all keys dir high envs) (drop (next_seq high) ps).
Proof.
  intros Hl Hall. revert high. induction Hall as [|e es He Hes IH]; intros high; simpl.
  { apply sublist_nil_l. }
  destruct He as [(i & p & Hi & ->)%envelopes_from_elem|[err Herr]]; [|rewrite Herr; apply IH].
  rewrite open_seal_envelope. simpl. destruct (stale _ _) eqn:E; [apply IH|].
  apply stale_next in E. pose proof (lookup_lt_Some _ _ _ Hi) as Hlt.
  rewrite Z.add_0_l, wrap_small, Nat2Z.id in E by lia.
  specialize (IH (Some (wrap (0 + Z.of_nat i)))). simpl in IH.
  rewrite Z.add_0_l, wrap_small, Nat2Z.id in IH by lia. rewrite Z.add_0_l.
  transitivity (drop i ps).
  - rewrite (drop_S _ _ _ Hi). by apply sublist_skip.
  - replace i with (next_seq high + (i - next_seq high))%nat by lia. rewrite <- drop_drop.
    apply sublist_drop.
Qed.

Lemma recv_all_in_order keys dir kind host sid ps seq high :
  0 <= seq -> seq + Z.of_nat (length ps) <= 2 ^ 64 -> (next_seq high <= Z.to_nat seq)%nat ->
  recv_all keys dir high (envelopes_from keys dir kind host sid seq ps) = ps.
Proof.
  revert seq high. induction ps as [|p ps IH]; intros seq high Hs Hl Hn; [done|].
  cbn [envelopes_from recv_all length] in *. rewrite open_seal_envelope.
  replace (stale high _) with false.
  - f_equal. apply IH; [lia|lia|]. simpl. rewrite wrap_small; lia.
  - symmetry. apply stale_next. simpl. by rewrite wrap_small by lia.
Qed.

End SessionLemmas.

(** *** The durable epoch *)

(** The least epoch the next call could return, less one, is at least [m]. *)
Definition epoch_ge (m : Z) (v : option bytes) : Prop :=
  match v with
  | None => m <= 0
  | Some b => match parse_unsigned (hi := 2 ^ 64) (lo := 0) (trim (utf8 b)) with
              | Some n => m <= bval n | None => True end
  end.

Definition epoch_floor (m : Z) (d : Dir) : Prop := forall v, possible d EPOCH_FILE v -> epoch_ge m v.

Lemma utf8_bytes_of s : utf8 (bytes_of s) = s.
Proof. apply String.string_of_list_byte_of_string. Qed.

Lemma epoch_ge_written m (n : u64) : m <= bval n -> epoch_ge m (Some (bytes_of (to_dec (bval n)))).
Proof. intros. simpl. rewrite utf8_bytes_of. by rewrite parse_to_dec. Qed.

Lemma next_epoch_floor d rf wf d' r m :
  epoch_floor m d -> next_epoch d rf wf = (d', r) ->
  epoch_floor m d' /\ match r with Ok e => m < bval e /\ epoch_floor (bval e) d' | Err _ => True end.
Proof.
  intros Hf. unfold next_epoch.
  set (c := match read_file d EPOCH_FILE rf with Ok _ => _ | Err _ => _ end).
  assert (forall n, c = Ok n -> m <= bval n) as Hc.
  { intros n. specialize (Hf (cur d !! EPOCH_FILE) (or_introl eq_refl)). unfold c, read_file.
    destruct rf; simpl; [done|]. destruct (cur d !! EPOCH_FILE) as [b|]; simpl in *.
    - destruct (parse_unsigned _); simpl; [|done]. by intros [= <-].
    - intros [= <-]. by rewrite wrap_small by lia. }
  destruct c as [n|]; [|by intros [= <- <-]]. specialize (Hc n eq_refl).
  destruct (checked_add n 1) as [nx|] eqn:En; [|by intros [= <- <-]].
  apply try_from_Some in En.
  destruct (write_durably _ _ _ wf) as [d1 [[]|]] eqn:Ew; intros [= <- <-].
  - pose proof (write_ok_inv _ _ _ _ _ Ew) as ->.
    assert (forall k, k <= bval nx -> epoch_floor k d1) as Hk.
    { intros k Hk v Hv. rewrite (write_ok _ _ _ _ Ew v Hv). by apply epoch_ge_written. }
    split; [|split]; [apply Hk; lia|lia|apply Hk; lia].
  - split; [|done]. intros v Hv. eapply write_possible in Hv as [[_ ->]|Hv]; [|by apply Hf|exact Ew].
    apply epoch_ge_written. lia.
Qed.

Lemma epoch_run_sorted d l d' m :
  epoch_run d l d' -> epoch_floor m d ->
  StronglySorted Z.lt (bval <$> l) /\ Forall (fun e => m < bval e) l.
Proof.
  intros Hr. revert m. induction Hr as [d|d rf wf d1 r l d2 Hn Hr IH|d d1 l d2 Hc Hr IH]; intros m Hf.
  - split; constructor.
  - destruct (next_epoch_floor _ _ _ _ _ _ Hf Hn) as [Hf1 Hr1]. destruct r as [e|]; [|by apply IH].
    destruct Hr1 as [Hlt Hfe]. destruct (IH _ Hfe) as [Hs Ha]. split; cbn [fmap list_fmap]; constructor; auto.
    + by apply Forall_fmap.
    + eapply Forall_impl; [exact Ha|]. simpl. lia.
  - apply IH. intros v Hv. apply Hf. by eapply crash_possible.
Qed.

(** ** Properties *)

(** A session's channel delivers in order and at most once.  Whatever the broker
    does with the frames of a session in either direction (drop, duplicate, reorder,
    replay, inject frames that do not open), the payloads the receiver accepts are, in
    order, a sub-sequence of those sealed; delivered untouched, all are accepted. *)
Theorem channel_in_order_at_most_once `{CryptoLaws, ProstLaws} keys host sid (ps : list bytes) envs q :
  let down := envelopes_from keys CoordToAgent KindControl host sid 0 ps in
  let up := envelopes_from keys AgentToCoord KindControl host sid 0 ps in
  Z.of_nat (length ps) <= 2 ^ 64 ->
  (seal_all_downlink (mkSession sid keys (wrap 0) None) host ps = encode_msg <$> down /\
   accept_all_downlink (mkEstablished keys sid q None) down = ps /\
   (Forall (authentic keys CoordToAgent down) envs ->
    sublist (accept_all_downlink (mkEstablished keys sid q None) envs) ps)) /\
  (seal_all_uplink keys (wrap 0) host sid ps = encode_msg <$> up /\
   accept_all_uplink (mkSession sid keys q None) up = ps /\
   (Forall (authentic keys AgentToCoord up) envs ->
    sublist (accept_all_uplink (mkSession sid keys q None) envs) ps)).
Proof.
  intros down up Hl. split; (split; [|split]).
  - apply seal_all_downlink_eq; lia.
  - rewrite accept_all_downlink_eq. apply recv_all_in_order; simpl; lia.
  - intros Ha. rewrite accept_all_downlink_eq. by apply (recv_all_sublist _ _ KindControl host sid ps envs None).
  - apply seal_all_uplink_eq; lia.
  - rewrite accept_all_uplink_eq. apply recv_all_in_order; simpl; lia.
  - intros Ha. rewrite accept_all_uplink_eq. by apply (recv_all_sublist _ _ KindControl host sid ps envs None).
Qed.

Lemma channel_in_order_at_most_once_witness :
  let keys := mkKeys (bytes_of "kc") (bytes_of "ka") in
  let ps := [bytes_of "a"; bytes_of "b"; bytes_of "c"] in
  let down := envelopes_from keys CoordToAgent KindControl "h" "s" 0 ps in
  let replayed := down ++ down in
  accept_all_downlink (mkEstablished keys "s" (wrap 0) None) replayed = ps /\
  sublist (accept_all_downlink (mkEstablished keys "s" (wrap 0) None) replayed) ps.
Proof.
  intros keys ps down replayed. split; [vm_compute; reflexivity|].
  apply (channel_in_order_at_most_once keys "h" "s" ps replayed (wrap 0)).
  - vm_compute. intros Hc; discriminate Hc.
  - apply Forall_forall. intros e He. left. unfold replayed in He. apply elem_of_app in He. tauto.
Defined.

(** [frames], one per payload, are what the AEAD under [key] makes of the payloads with the
    nonces [ns]. *)
Definition frames_under `{Crypto} `{Prost} (key : bytes) (ns ps frames : list bytes) : Prop :=
  length ns = length ps /\
  Forall2 (fun np b => exists env ad, b = encode_msg env /\ env_ciphertext env = aead_encrypt key np.1 ad np.2) (zip ns ps) frames.

Lemma envelopes_under `{Crypto} `{Prost} keys dir kind host sid ps seq :
  let envs := envelopes_from keys dir kind host sid seq ps in
  frames_under (cipher keys dir) ((fun e => nonce (env_seq e)) <$> envs) ps (encode_msg <$> envs).
Proof.
  revert seq. induction ps as [|p ps IH]; intros seq; [split; [done|constructor]|].
  destruct (IH (seq + 1)) as [Hl Hf]. cbn [envelopes_from fmap list_fmap zip zip_with]. split; [simpl; by rewrite Hl|].
  constructor; [|exact Hf]. eexists _, _. by split.
Qed.

(** C16. AEAD nonces never repeat: the frames a fresh session seals in one direction
    (the agent's from any interleaving of its job tasks) are encryptions under that
    direction's key with nonces that are pairwise distinct, for the full 64-bit range of the
    counter. *)
Theorem nonces_never_repeat `{CryptoLaws, ProstLaws} keys host sid (ps : list bytes) :
  Z.of_nat (length ps) <= 2 ^ 64 ->
  (exists ns, NoDup ns /\ frames_under (c2a keys) ns ps (seal_all_downlink (mkSession sid keys (wrap 0) None) host ps)) /\
  (exists ns, NoDup ns /\ frames_under (a2c keys) ns ps (seal_all_uplink keys (wrap 0) host sid ps)).
Proof.
  intros Hl. rewrite (seal_all_downlink_eq sid keys None host ps 0), (seal_all_uplink_eq keys host sid ps 0) by lia. split.
  - eexists. split; [by apply (envelopes_nonces_nodup keys CoordToAgent KindControl host sid ps)|apply envelopes_under].
  - eexists. split; [by apply (envelopes_nonces_nodup keys AgentToCoord KindControl host sid ps)|apply envelopes_under].
Qed.

Lemma nonces_never_repeat_witness :
  exists ns, NoDup ns /\ frames_under (bytes_of "kc") ns [bytes_of "a"; bytes_of "b"]
    (seal_all_downlink (mkSession "s" (mkKeys (bytes_of "kc") (bytes_of "ka")) (wrap 0) None) "h" [bytes_of "a"; bytes_of "b"]).
Proof.
  apply (nonces_never_repeat (mkKeys (bytes_of "kc") (bytes_of "ka")) "h" "s" [bytes_of "a"; bytes_of "b"]).
  vm_compute. intros Hc; discriminate Hc.
Defined.

(** C20. The agent's session epoch never repeats or regresses: over any history of
    epoch allocations with any I/O failures, interrupted by crashes that lose whatever
    was not yet durable, and from any initial file, the epochs returned strictly
    increase; a corrupt file yields none. *)
Theorem session_epochs_survive_crashes d l d' :
  epoch_run d l d' ->
  StronglySorted Z.lt (bval <$> l) /\
  (forall b, (forall v, possible d EPOCH_FILE v -> v = Some b) ->
     parse_unsigned (lo := 0) (hi := 2 ^ 64) (trim (utf8 b)) = None -> forall rf wf e, snd (next_epoch d rf wf) <> Ok e).
Proof.
  intros Hr. split.
  - apply (epoch_run_sorted d l d' 0 Hr). intros [b|] _; simpl; [|lia].
    destruct (parse_unsigned _) as [n|]; [|done]. pose proof (bint_range n). lia.
  - intros b Hb Hp rf wf e. specialize (Hb (cur d !! EPOCH_FILE) (or_introl eq_refl)).
    unfold next_epoch, read_file. destruct rf; [done|]. rewrite Hb. simpl. by rewrite Hp.
Qed.

Lemma session_epochs_survive_crashes_witness :
  exists l d', epoch_run dir_empty l d' /\ bval <$> l = [1; 2; 3] /\ StronglySorted Z.lt (bval <$> l).
Proof.
  set (d1 := mkDir {[EPOCH_FILE := bytes_of "1"]} {[EPOCH_FILE := bytes_of "1"]}).
  set (d2 := mkDir {[EPOCH_FILE := bytes_of "2"]} {[EPOCH_FILE := bytes_of "2"]}).
  set (d3 := mkDir {[EPOCH_FILE := bytes_of "3"]} {[EPOCH_FILE := bytes_of "3"]}).
  assert (epoch_run dir_empty [wrap 1; wrap 2; wrap 3] d3) as Hr.
  { apply (er_call dir_empty None WOk d1 (Ok (wrap 1)) [wrap 2; wrap 3]); [vm_compute; reflexivity|].
    apply (er_crash d1 d1); [split; [reflexivity|intros p; left; reflexivity]|].
    apply (er_call d1 None (WTemp "disk full") d1 (Err "committing the epoch") [wrap 2; wrap 3]);
      [vm_compute; reflexivity|].
    apply (er_call d1 None WOk d2 (Ok (wrap 2)) [wrap 3]); [vm_compute; reflexivity|].
    apply (er_call d2 None WOk d3 (Ok (wrap 3)) []); [vm_compute; reflexivity|]. apply er_done. }
  exists [wrap 1; wrap 2; wrap 3], d3. split; [exact Hr|]. split; [vm_compute; reflexivity|].
  apply (session_epochs_survive_crashes _ _ _ Hr).
Defined.
