(* ===== verification/Ca.v ===== *)
(** * The embedded certificate authority (osa-coordinator/src/ca.rs)

    Host certificates (issued from CSRs, verified in the handshake, checked for
    renewal), the CA's own material and its generate-once persistence.  X.509 parsing,
    signing and key generation (rcgen, x509-parser, pem) are an interface with the laws
    a signing library documents. *)
From S2P Require Import Prelude Proto Concrete Seal Handshake Registries.

(** ** The X.509 libraries *)

Inductive GeneralName := GnUri (u : string) | GnDns (d : string) | GnOther.

(** A subject public key: the BIT STRING contents, and the EC point if it is an EC key. *)
Record SubjectKey := mkSubjectKey { sk_data : bytes; sk_ec : option bytes }.

(** A parsed certificate; [xc_sans] is [None] when there is no readable SAN extension. *)
Record X509Cert := mkX509 {
  xc_key : SubjectKey; xc_sans : option (list GeneralName); xc_not_before : Z; xc_not_after : Z;
  xc_organization : option string; xc_signature : bytes
}.

Inductive KeyUsage := KuDigitalSignature | KuKeyCertSign | KuCrlSign.
Inductive ExtKeyUsage := EkuClientAuth | EkuServerAuth.

Record CertificateParams := mkParams {
  cp_common_name : string; cp_organization : option string; cp_sans : list GeneralName;
  cp_is_ca : bool; cp_key_usages : list KeyUsage; cp_eku : list ExtKeyUsage;
  cp_not_before : Z; cp_not_after : Z
}.

Class X509 := {
  x509_from_der : bytes -> result X509Cert string;
  x509_verify_signature : X509Cert -> SubjectKey -> bool;
  csr_from_der : bytes -> result SubjectKey string;       (** checks the proof of possession *)
  pem_contents : string -> result bytes string;
  pem_of_der : bytes -> string;
  key_from_pem : string -> result SubjectKey string;      (** [KeyPair::from_pem], its public key *)
  issuer_from_pem : forall (cert_pem key_pem : string), result unit string;
  x509_sign : forall (params : CertificateParams) (subject : SubjectKey) (issuer_key_pem : string), result bytes string;
  is_ia5 : string -> bool                                 (** [Ia5String::try_from] succeeds *)
}.

Definition sans_of (l : list GeneralName) : option (list GeneralName) :=
  match l with [] => None | _ => Some l end.

(** Signing and parsing: a signed certificate parses back to what was signed, and its
    signature verifies under the issuer's key. *)
Class X509Laws `{X509} := {
  sign_parses : forall p k issuer der, x509_sign p k issuer = Ok der ->
    exists c, x509_from_der der = Ok c /\ xc_key c = k /\ xc_sans c = sans_of (cp_sans p) /\
      xc_not_before c = cp_not_before p /\ xc_not_after c = cp_not_after p /\
      xc_organization c = cp_organization p /\
      forall pub, key_from_pem issuer = Ok pub -> x509_verify_signature c pub = true;
  pem_round_trip : forall der, pem_contents (pem_of_der der) = Ok der;
  verify_by_data : forall c k1 k2, sk_data k1 = sk_data k2 ->
    x509_verify_signature c k1 = x509_verify_signature c k2
}.

(** ** ca.rs *)

Definition CLOCK_SKEW : Z := 5 * 60.

Record CaMaterial := mkMaterial { cm_cert_pem : string; cm_key_pem : string }.

Record EmbeddedCa := mkCa {
  ca_cert_der : bytes; ca_cert_pem : string; ca_key_pem : string; ca_cert_ttl : Z
}.

Record VerifiedHost := mkVerified { vh_host_id : HostId; vh_public_key_sec1 : bytes }.
Record ServerCert := mkServerCert { sc_cert_pem : string; sc_key_pem : string }.

(** [Display] of the handshake errors. *)
Definition HsError_display (e : HsError) : string :=
  match e with
  | BadKey => "identity signing key could not be loaded"
  | BadPeerKey => "peer public key could not be loaded"
  | BadSignature => "handshake signature did not verify"
  | BadEphemeral WeakPeerKey => "peer ephemeral key is unusable: peer public key is a low-order point"
  | Rng => "entropy source failed"
  end.

(** The CA root's parameters at time [now]. *)
Definition ca_params (now : Z) : CertificateParams :=
  mkParams "open-ssm-agent embedded CA" None [] true [KuKeyCertSign; KuCrlSign] []
    (now - CLOCK_SKEW) (now + 3650 * 86400).

(** [find_map] of the first URI name. *)
Fixpoint find_uri (l : list GeneralName) : option string :=
  match l with
  | [] => None
  | GnUri u :: _ => Some u
  | _ :: l' => find_uri l'
  end.

Section Ca.
Context `{Crypto} `{X509} `{UuidLib}.

Definition host_san_uri (h : HostId) : string := "urn:osa:host:" +:+ uuid_to_string (host_uuid h).

Definition from_material (cert_pem key_pem : string) (cert_ttl : Z) : result EmbeddedCa PortError :=
  if cert_ttl <=? 0 then Err (Invalid "cert_ttl must be positive")
  else
    let? key := map_err (fun e => Invalid ("stored CA key is unusable: " +:+ e)) (key_from_pem key_pem) in
    let? cert_der := map_err (fun e => Invalid ("stored CA cert is not valid PEM: " +:+ e)) (pem_contents cert_pem) in
    let? parsed := map_err (fun e => Invalid ("stored CA cert could not be parsed: " +:+ e)) (x509_from_der cert_der) in
    if negb (bool_decide (sk_data key = sk_data (xc_key parsed)))
    then Err (Invalid "stored CA key does not match the stored CA cert")
    else
      let? _ := map_err (fun e => Invalid ("stored CA cert is unusable: " +:+ e)) (issuer_from_pem cert_pem key_pem) in
      Ok (mkCa cert_der cert_pem key_pem cert_ttl).

(** [generate]: [fresh] is the generated key pair in PEM, [now] the clock. *)
Definition generate (cert_ttl now : Z) (fresh : result string string) : result (EmbeddedCa * CaMaterial) PortError :=
  if cert_ttl <=? 0 then Err (Invalid "cert_ttl must be positive")
  else
    let? key_pem := map_err Backend fresh in
    let? pub := map_err Backend (key_from_pem key_pem) in
    let? der := map_err Backend (x509_sign (ca_params now) pub key_pem) in
    let cert_pem := pem_of_der der in
    let? ca := from_material cert_pem key_pem cert_ttl in
    Ok (ca, mkMaterial cert_pem key_pem).

Definition host_id_from_cert (cert : X509Cert) : result HostId PortError :=
  let? san := ok_or (xc_sans cert) (Invalid "current cert has no SAN") in
  let? uri := ok_or (find_uri san) (Invalid "current cert has no URI SAN") in
  let? uuid := ok_or (let! s := strip_prefix "urn:osa:host:" uri in uuid_parse s)
                 (Invalid "SAN is not a host identity") in
  Ok (mkHostId uuid).

(** [validity().is_valid()] at time [now]. *)
Definition is_valid (c : X509Cert) (now : Z) : bool := (xc_not_before c <=? now) && (now <=? xc_not_after c).

Definition verify_host_cert (self : EmbeddedCa) (cert_der : bytes) (now : Z) : result VerifiedHost PortError :=
  let? cert := map_err (fun _ => Invalid "malformed host certificate") (x509_from_der cert_der) in
  let? ca := map_err Backend (x509_from_der (ca_cert_der self)) in
  if negb (x509_verify_signature cert (xc_key ca)) then Err (Invalid "host cert was not issued by this CA")
  else if negb (is_valid cert now) then Err (Invalid "host cert is expired or not yet valid")
  else
    let? host_id := host_id_from_cert cert in
    match sk_ec (xc_key cert) with
    | Some point => Ok (mkVerified host_id point)
    | None => Err (Invalid "host cert public key is not an EC key")
    end.

Definition respond_handshake (self : EmbeddedCa) (seed : option bytes) (sid : bytes) (epoch : u64)
    (client_eph client_sig public_key_sec1 cert_der : bytes) : result ServerResponse PortError :=
  map_err (fun e => Invalid ("session handshake failed: " +:+ HsError_display e))
    (respond seed sid epoch client_eph client_sig public_key_sec1 cert_der (ca_key_pem self)).

Definition validate_csr (csr : bytes) : result unit PortError :=
  let? _ := map_err (fun e => Invalid ("invalid CSR: " +:+ e)) (csr_from_der csr) in Ok tt.

(** [issue_server_cert]: [fresh] is the generated key pair. *)
Definition issue_server_cert (self : EmbeddedCa) (dns_names : list string) (now : Z) (fresh : result string string)
    : result ServerCert PortError :=
  match dns_names with
  | [] => Err (Invalid "a server cert needs at least one DNS name")
  | first :: _ =>
      let? key_pem := map_err Backend fresh in
      if negb (forallb is_ia5 dns_names) then Err (Backend "not an IA5 string")
      else
        let? pub := map_err Backend (key_from_pem key_pem) in
        let params := mkParams first None (GnDns <$> dns_names) false [KuDigitalSignature] [EkuServerAuth]
                        (now - CLOCK_SKEW) (now + ca_cert_ttl self) in
        let? der := map_err (fun e => Backend ("signing server cert: " +:+ e))
                      (x509_sign params pub (ca_key_pem self)) in
        Ok (mkServerCert (pem_of_der der) key_pem)
  end.

(** The parameters of a host certificate: nothing of the CSR but its key is used. *)
Definition host_params (self : EmbeddedCa) (host_id : HostId) (now : Z) : CertificateParams :=
  mkParams (uuid_to_string (host_uuid host_id)) (Some (uuid_simple (host_uuid host_id)))
    [GnUri (host_san_uri host_id)] false [KuDigitalSignature] [EkuClientAuth]
    (now - CLOCK_SKEW) (now + ca_cert_ttl self).

Definition issue (self : EmbeddedCa) (host_id : HostId) (csr : bytes) (now : Z) : result bytes PortError :=
  let? req := map_err (fun e => Invalid ("invalid CSR: " +:+ e)) (csr_from_der csr) in
  if negb (is_ia5 (host_san_uri host_id)) then Err (Backend "not an IA5 string")
  else map_err (fun e => Backend ("signing failed: " +:+ e))
         (x509_sign (host_params self host_id now) req (ca_key_pem self)).

Definition validate_renewal (self : EmbeddedCa) (current_cert csr : bytes) (now : Z) : result HostId PortError :=
  let? cert := map_err (fun _ => Invalid "malformed current certificate") (x509_from_der current_cert) in
  let? ca := map_err Backend (x509_from_der (ca_cert_der self)) in
  if negb (x509_verify_signature cert (xc_key ca)) then Err (Invalid "current cert was not issued by this CA")
  else if negb (is_valid cert now) then Err (Invalid "current cert is expired or not yet valid")
  else
    let? host_id := host_id_from_cert cert in
    let? req := map_err (fun e => Invalid ("invalid CSR: " +:+ e)) (csr_from_der csr) in
    if negb (bool_decide (sk_data req = sk_data (xc_key cert)))
    then Err (Invalid "CSR key does not match the current identity")
    else Ok host_id.

(** [load_or_generate]: the transaction runs under the advisory lock, so it is atomic;
    [select], [insert] and [commit] are the faults of its statements.  The table holds
    the rows of [ca_identity] in id order. *)
Definition load_or_generate (table : list CaMaterial) (cert_ttl now : Z) (fresh : result string string)
    (select insert commit : Fault) : list CaMaterial * result EmbeddedCa PortError :=
  match snd (run_stmt select (fun t => (t, head t)) table) with
  | Err e => (table, Err e)
  | Ok (Some row) =>
      match from_material (cm_cert_pem row) (cm_key_pem row) cert_ttl with
      | Err e => (table, Err e)
      | Ok ca => (table, snd (run_stmt commit (fun t : list CaMaterial => (t, ca)) table))
      end
  | Ok None =>
      match generate cert_ttl now fresh with
      | Err e => (table, Err e)
      | Ok (ca, material) =>
          match snd (run_stmt insert (fun t => (t ++ [material], tt)) table) with
          | Err e => (table, Err e)   (** the transaction rolls back *)
          | Ok _ => run_stmt commit (fun t => (t ++ [material], ca)) table
          end
      end
  end.

(** The CAs that a history of boots (on any replicas) obtains. *)
Fixpoint boots (table : list CaMaterial) (l : list (Z * Z * result string string * (Fault * Fault * Fault)))
    : list EmbeddedCa :=
  match l with
  | [] => []
  | (ttl, now, fresh, (f1, f2, f3)) :: l' =>
      let '(t, r) := load_or_generate table ttl now fresh f1 f2 f3 in
      match r with Ok ca => ca :: boots t l' | Err _ => boots t l' end
  end.

End Ca.

(** ** A concrete X.509: a certificate is its fields, signed by naming the issuer key *)

Module ToyX509.

#[global] Instance ser_Z : Ser Z.
Proof.
  refine {| ser z := pos_bytes (encode z); deser l := bytes_pos l ≫= decode |}.
  abstract (intros z; cbv beta; rewrite bytes_pos_pos; apply countable.decode_encode).
Defined.
#[global] Instance ser_gn : Ser GeneralName :=
  ser_iso (fun g => match g with GnUri u => inl u | GnDns d => inr (Some d) | GnOther => inr None end)
    (fun s => match s with inl u => GnUri u | inr (Some d) => GnDns d | inr None => GnOther end) ltac:(iso).
#[global] Instance ser_key : Ser SubjectKey :=
  ser_iso (fun k => (sk_data k, sk_ec k)) (fun '(a, b) => mkSubjectKey a b) ltac:(iso).
#[global] Instance ser_cert : Ser X509Cert :=
  ser_iso (fun c => (xc_key c, (xc_sans c, (xc_not_before c, (xc_not_after c, (xc_organization c, xc_signature c))))))
    (fun '(a, (b, (c, (d, (e, f))))) => mkX509 a b c d e f) ltac:(iso).

#[global] Instance x509 : X509 := {|
  x509_from_der b := ok_or (deser b) "der";
  x509_verify_signature c k := bool_decide (xc_signature c = sk_data k);
  csr_from_der b := ok_or (deser b) "csr";
  pem_contents s := Ok (bytes_of s);
  pem_of_der b := String.string_of_list_byte b;
  key_from_pem s := if is_empty s then Err "key" else Ok (mkSubjectKey (bytes_of s) (Some (bytes_of s)));
  issuer_from_pem _ _ := Ok tt;
  x509_sign p k issuer :=
    Ok (ser (mkX509 k (sans_of (cp_sans p)) (cp_not_before p) (cp_not_after p) (cp_organization p) (bytes_of issuer)));
  is_ia5 _ := true
|}.

#[global] Instance x509_laws : X509Laws.
Proof.
  split.
  - intros p k issuer der Hs.
    assert (der = ser (mkX509 k (sans_of (cp_sans p)) (cp_not_before p) (cp_not_after p)
                         (cp_organization p) (bytes_of issuer))) as -> by (cbn [x509_sign x509] in Hs; congruence).
    cbn [x509_from_der x509]. rewrite deser_ser. eexists. split; [done|].
    repeat split. intros pub. cbn [key_from_pem x509 x509_verify_signature].
    destruct (is_empty issuer); [done|]. intros [= <-]. by rewrite bool_decide_eq_true_2.
  - intros der. cbn [pem_contents pem_of_der x509]. f_equal. apply String.list_byte_of_string_of_list_byte.
  - intros c k1 k2 Hd. cbn [x509_verify_signature x509]. by rewrite Hd.
Qed.

End ToyX509.

(** ** Lemmas *)

Section CaLemmas.
Context `{X509Laws} `{UuidLaws} `{Crypto}.

(** What loading checked: the key signs for the published certificate. *)
Lemma from_material_inv cp kp ttl ca :
  from_material cp kp ttl = Ok ca ->
  0 < ttl /\ ca_cert_pem ca = cp /\ ca_key_pem ca = kp /\ ca_cert_ttl ca = ttl /\
  pem_contents cp = Ok (ca_cert_der ca) /\
  exists parsed pub, x509_from_der (ca_cert_der ca) = Ok parsed /\ key_from_pem kp = Ok pub /\
    sk_data pub = sk_data (xc_key parsed).
Proof.
  unfold from_material. destruct (ttl <=? 0) eqn:Et; [done|]. bool_to_prop.
  destruct (key_from_pem kp) as [pub|]; [|done]. simpl.
  destruct (pem_contents cp) as [der|]; [|done]. simpl.
  destruct (x509_from_der der) as [parsed|] eqn:Ep; [|done]. simpl.
  destruct (bool_decide (sk_data pub = _)) eqn:Ed; [|done]. bool_to_prop. simpl.
  destruct (issuer_from_pem cp kp); [|done]. intros [= <-]. simpl. eauto 10.
Qed.

Lemma host_id_from_san c h :
  xc_sans c = sans_of [GnUri (host_san_uri h)] -> host_id_from_cert c = Ok h.
Proof.
  intros Hs. unfold host_id_from_cert. rewrite Hs. cbn [sans_of ok_or find_uri].
  unfold host_san_uri. rewrite (strip_prefix_app "urn:osa:host:"), uuid_parse_to_string. by destruct h.
Qed.

(** An issued certificate, as any holder of the same CA material sees it. *)
Lemma issue_inv cp kp ttl ca ttl' ca' host csr now der :
  from_material cp kp ttl = Ok ca -> from_material cp kp ttl' = Ok ca' ->
  issue ca host csr now = Ok der ->
  exists key c root, csr_from_der csr = Ok key /\ x509_from_der der = Ok c /\ xc_key c = key /\
    x509_from_der (ca_cert_der ca') = Ok root /\ x509_verify_signature c (xc_key root) = true /\
    host_id_from_cert c = Ok host /\ xc_organization c = Some (uuid_simple (host_uuid host)) /\
    xc_not_before c = now - CLOCK_SKEW /\ xc_not_after c = now + ttl.
Proof.
  intros (_ & _ & Hk & Ht & _)%from_material_inv (_ & _ & _ & _ & _ & root & pub & Hr & Hp & Hd)%from_material_inv.
  unfold issue. destruct (csr_from_der csr) as [key|]; [|done]. simpl. rewrite Hk.
  destruct (is_ia5 _); [|done]. simpl.
  destruct (x509_sign _ key kp) as [d|] eqn:Es; [|done]. intros [= <-].
  destruct (sign_parses _ _ _ _ Es) as (c & Hc & Hkc & Hs & Hnb & Hna & Ho & Hv).
  exists key, c, root. simpl in *. rewrite Ht in Hna.
  repeat split; auto.
  - rewrite <- (verify_by_data c pub (xc_key root)) by done. auto.
  - by apply host_id_from_san.
Qed.

Lemma load_or_generate_table table ttl now fresh f1 f2 f3 t r :
  load_or_generate table ttl now fresh f1 f2 f3 = (t, r) ->
  (forall ca, r = Ok ca -> head t = Some (mkMaterial (ca_cert_pem ca) (ca_key_pem ca))) /\
  (forall m, head table = Some m -> t = table).
Proof.
  unfold load_or_generate. destruct f1; simpl; [|by intros [= <- <-]..].
  destruct table as [|m l]; simpl.
  - destruct (generate ttl now fresh) as [[ca mat]|] eqn:Eg; [|by intros [= <- <-]].
    assert (mat = mkMaterial (ca_cert_pem ca) (ca_key_pem ca)) as Hm.
    { unfold generate in Eg. destruct (ttl <=? 0); [done|]. destruct fresh as [kp|]; [|done]. simpl in Eg.
      destruct (key_from_pem kp); [|done]. simpl in Eg. destruct (x509_sign _ _ kp); [|done]. simpl in Eg.
      destruct (from_material _ kp ttl) as [ca'|] eqn:Ef; [|done]. simplify_eq.
      by apply from_material_inv in Ef as (_ & -> & -> & _). }
    destruct f2; simpl; [|by intros [= <- <-]..].
    destruct f3; simpl; intros [= <- <-]; simpl; (split; [|done]); [|done..].
    intros ca' [= <-]. by rewrite Hm.
  - destruct (from_material _ _ ttl) as [ca|] eqn:Ef; [|by intros [= <- <-]].
    apply from_material_inv in Ef as (_ & Hc & Hk & _).
    destruct f3; simpl; intros [= <- <-]; (split; [|done]); [|done..].
    intros ca' [= <-]. rewrite Hc, Hk. by destruct m.
Qed.

(** Whatever was loaded or generated is what its material loads as. *)
Lemma load_or_generate_material table ttl now fresh f1 f2 f3 t ca :
  load_or_generate table ttl now fresh f1 f2 f3 = (t, Ok ca) -> from_material (ca_cert_pem ca) (ca_key_pem ca) ttl = Ok ca.
Proof.
  assert (forall cp kp ca', from_material cp kp ttl = Ok ca' -> from_material (ca_cert_pem ca') (ca_key_pem ca') ttl = Ok ca') as Hfm.
  { intros cp kp ca' Hf. by pose proof (from_material_inv _ _ _ _ Hf) as (_ & -> & -> & _). }
  unfold load_or_generate. destruct f1; simpl; [|done|done]. destruct table as [|m l]; simpl.
  - destruct (generate ttl now fresh) as [[ca' mat]|] eqn:Eg; [|done].
    destruct f2; simpl; [|done|done]. destruct f3; simpl; intros [= _ <-].
    unfold generate in Eg. destruct (ttl <=? 0); [done|]. destruct fresh as [kp|]; [|done]. simpl in Eg.
    destruct (key_from_pem kp); [|done]. simpl in Eg. destruct (x509_sign _ _ kp); [|done]. simpl in Eg.
    destruct (from_material _ kp ttl) as [ca''|] eqn:Ef; [|done]. simplify_eq. by eapply Hfm.
  - destruct (from_material _ _ ttl) as [ca'|] eqn:Ef; [|done]. destruct f3; simpl; intros [= _ <-]. by eapply Hfm.
Qed.

Lemma boots_share table l m ca :
  head table = Some m -> ca ∈ boots table l -> ca_cert_pem ca = cm_cert_pem m /\ ca_key_pem ca = cm_key_pem m.
Proof.
  intros Hm. induction l as [|[[[ttl now] fresh] [[f1 f2] f3]] l IH]; simpl; [by intros ?%not_elem_of_nil|].
  destruct (load_or_generate table ttl now fresh f1 f2 f3) as [t r] eqn:E.
  apply load_or_generate_table in E as [Ha Hb]. specialize (Hb _ Hm) as ->.
  destruct r as [c|]; [|done]. specialize (Ha c eq_refl). rewrite Hm in Ha. simplify_eq.
  rewrite elem_of_cons. intros [->|]; auto.
Qed.

Lemma boots_agree table l c1 c2 :
  c1 ∈ boots table l -> c2 ∈ boots table l -> ca_cert_pem c1 = ca_cert_pem c2 /\ ca_key_pem c1 = ca_key_pem c2.
Proof.
  revert table. induction l as [|[[[ttl now] fresh] [[f1 f2] f3]] l IH]; intros table; simpl.
  { by intros ?%not_elem_of_nil. }
  destruct (load_or_generate table ttl now fresh f1 f2 f3) as [t r] eqn:E.
  apply load_or_generate_table in E as [Ha _]. destruct r as [c|]; [|apply IH].
  specialize (Ha c eq_refl).
  rewrite !elem_of_cons. intros [->|Hin1] [->|Hin2]; auto; [| |by eapply IH].
  - apply (boots_share _ _ _ _ Ha) in Hin2. simpl in Hin2. intuition congruence.
  - apply (boots_share _ _ _ _ Ha) in Hin1. simpl in Hin1. intuition congruence.
Qed.

End CaLemmas.

(** ** Properties *)

(** Issuing and verifying agree: a certificate this CA issues for a host verifies,
    on any replica holding the same CA material, exactly within its validity window, as
    that host with the CSR's EC key; and it carries the host's topic tenant. *)
Theorem issued_cert_verifies `{X509Laws, UuidLaws, Crypto} cp kp ttl ca ttl' replica host csr now der :
  from_material cp kp ttl = Ok ca -> from_material cp kp ttl' = Ok replica ->
  issue ca host csr now = Ok der ->
  exists key, csr_from_der csr = Ok key /\
    (forall t, verify_host_cert replica der t =
       if (now - CLOCK_SKEW <=? t) && (t <=? now + ttl)
       then match sk_ec key with
            | Some point => Ok (mkVerified host point)
            | None => Err (Invalid "host cert public key is not an EC key")
            end
       else Err (Invalid "host cert is expired or not yet valid")) /\
    exists c, x509_from_der der = Ok c /\ xc_organization c = Some (uuid_simple (host_uuid host)).
Proof.
  intros Hc Hr Hi. destruct (issue_inv _ _ _ _ _ _ _ _ _ _ Hc Hr Hi)
    as (key & c & root & Hk & Hd & Hkc & Hroot & Hv & Hh & Ho & Hnb & Hna).
  exists key. split; [done|]. split; [|eauto]. intros t. unfold verify_host_cert. rewrite Hd, Hroot. simpl.
  rewrite Hv. simpl. unfold is_valid. rewrite Hnb, Hna.
  destruct (_ && _); simpl; [|done]. by rewrite Hh, Hkc.
Qed.

Definition demo_ca : EmbeddedCa :=
  let pub := mkSubjectKey (bytes_of "ca-key") (Some (bytes_of "ca-key")) in
  let der := ser (mkX509 pub None (- 300) 315360000 None (bytes_of "ca-key")) in
  mkCa der (String.string_of_list_byte der) "ca-key" 3600.
Definition demo_csr : bytes := ser (mkSubjectKey (bytes_of "host-key") (Some (bytes_of "host-key"))).
Definition demo_cert : bytes :=
  match issue demo_ca demo_host demo_csr 1000 with Ok der => der | Err _ => [] end.

Lemma issued_cert_verifies_witness :
  issue demo_ca demo_host demo_csr 1000 = Ok demo_cert /\
  verify_host_cert demo_ca demo_cert 2000 = Ok (mkVerified demo_host (bytes_of "host-key")).
Proof.
  assert (from_material (ca_cert_pem demo_ca) "ca-key" 3600 = Ok demo_ca) as Hc by (vm_compute; reflexivity).
  assert (issue demo_ca demo_host demo_csr 1000 = Ok demo_cert) as Hi by (vm_compute; reflexivity).
  split; [exact Hi|].
  destruct (issued_cert_verifies _ _ _ _ _ _ _ _ _ _ Hc Hc Hi) as (key & Hk & Hv & _).
  rewrite (Hv 2000). assert (csr_from_der demo_csr = Ok (mkSubjectKey (bytes_of "host-key") (Some (bytes_of "host-key")))) as Hk' by (vm_compute; reflexivity).
  rewrite Hk' in Hk. injection Hk as <-. vm_compute. reflexivity.
Defined.

(** Renewal authenticates the holder: for a certificate this CA issued, a renewal
    request is accepted exactly when the certificate is still valid and the CSR proves
    the very same key, and then for the identity the certificate was issued for. *)
Theorem renewal_preserves_identity `{X509Laws, UuidLaws, Crypto} cp kp ttl ca host csr now der csr' t h :
  from_material cp kp ttl = Ok ca -> issue ca host csr now = Ok der ->
  validate_renewal ca der csr' t = Ok h <->
  h = host /\ now - CLOCK_SKEW <= t <= now + ttl /\
  exists key key', csr_from_der csr = Ok key /\ csr_from_der csr' = Ok key' /\ sk_data key' = sk_data key.
Proof.
  intros Hc Hi. destruct (issue_inv _ _ _ _ _ _ _ _ _ _ Hc Hc Hi)
    as (key & c & root & Hk & Hd & Hkc & Hroot & Hv & Hh & Ho & Hnb & Hna).
  unfold validate_renewal. rewrite Hd, Hroot. simpl. rewrite Hv. simpl. unfold is_valid. rewrite Hnb, Hna, Hh.
  destruct (_ && _) eqn:Ew; simpl; [bool_to_prop|apply andb_false_iff in Ew].
  - destruct (csr_from_der csr') as [key'|]; simpl;
      [|split; [done|]; intros (_ & _ & k1 & k2 & _ & Hk2 & _); discriminate Hk2].
    rewrite Hkc. destruct (bool_decide _) eqn:Ed; bool_to_prop; simpl;
      [|split; [done|]; intros (_ & _ & k1 & k2 & Hk1 & Hk2 & He); congruence].
    split; [intros [= <-]; eauto 10|by intros [-> _]].
  - split; [done|]. intros (_ & Hw & _). rewrite !Z.leb_gt in Ew. lia.
Qed.

Lemma renewal_preserves_identity_witness :
  validate_renewal demo_ca demo_cert demo_csr 2000 = Ok demo_host.
Proof.
  assert (from_material (ca_cert_pem demo_ca) "ca-key" 3600 = Ok demo_ca) as Hc by (vm_compute; reflexivity).
  assert (issue demo_ca demo_host demo_csr 1000 = Ok demo_cert) as Hi by (vm_compute; reflexivity).
  apply (renewal_preserves_identity _ _ _ _ _ _ _ _ _ _ _ Hc Hi).
  split; [reflexivity|]. split; [vm_compute; split; intros Hx; discriminate Hx|].
  exists (mkSubjectKey (bytes_of "host-key") (Some (bytes_of "host-key"))),
         (mkSubjectKey (bytes_of "host-key") (Some (bytes_of "host-key"))).
  split; [vm_compute; reflexivity|]. split; [vm_compute; reflexivity|reflexivity].
Defined.

(** One CA for all replicas: over any history of boots against one database, with
    any statement failing, every CA obtained has the same root certificate and key. *)
Theorem replicas_share_one_ca `{X509Laws, UuidLaws, Crypto} boots_history c1 c2 :
  c1 ∈ boots [] boots_history -> c2 ∈ boots [] boots_history ->
  ca_cert_pem c1 = ca_cert_pem c2 /\ ca_key_pem c1 = ca_key_pem c2.
Proof. apply boots_agree. Qed.

Lemma replicas_share_one_ca_witness :
  let l := [(3600, 0, Ok "ca-key", (NoFault, NoFault, ReplyLost "timeout"));
            (3600, 0, Ok "other-key", (NoFault, NoFault, NoFault));
            (60, 9, Ok "third-key", (NoFault, NoFault, NoFault))] in
  exists c1 c2, boots [] l = [c1; c2] /\ ca_cert_ttl c1 <> ca_cert_ttl c2 /\ ca_key_pem c1 = ca_key_pem c2.
Proof.
  intros l. exists demo_ca, (mkCa (ca_cert_der demo_ca) (ca_cert_pem demo_ca) "ca-key" 60).
  assert (boots [] l = [demo_ca; mkCa (ca_cert_der demo_ca) (ca_cert_pem demo_ca) "ca-key" 60]) as Hb
    by (vm_compute; reflexivity).
  split; [exact Hb|]. split; [vm_compute; intros Hx; discriminate Hx|].
  apply (replicas_share_one_ca l); rewrite Hb; [left|right; left].
Defined.
