(* ===== verification/Broker.v ===== *)
(** * The coordinator bridge (osa-coordinator/src/broker.rs)

    The single task that owns the live sessions, the pending jobs and the interactive
    shells: it routes every message of the (untrusted) broker by topic, serves the
    operator service's commands, and sweeps stale jobs.  One event of its [select!] loop
    is one step on the state [Bridge]; operator channels are bounded queues with a
    receiver that may be slow or gone, and a publish on the broker link may fail.

    The properties hold over any sequence of events (the broker and the agents may send
    anything): who can create a session, that hellos and frames are never replayed, that
    dispatches and results reach their peer or the failure is reported, that reconnects
    end the jobs of the old session, and that every resource stays bounded. *)
From Stdlib Require Import Sorting.Sorted.
From S2P Require Import Prelude Proto Concrete Topics Seal Handshake Registries Session Ca.

(** ** Bounded channels ([tokio::sync::mpsc]) *)

Record Chan (A : Type) := mkChan { ch_queue : list A; ch_cap : nat; ch_rx_open : bool }.
Arguments mkChan {A} ch_queue ch_cap ch_rx_open.
Arguments ch_queue {A} c.
Arguments ch_cap {A} c.
Arguments ch_rx_open {A} c.

Inductive SendResult := Sent | Full | Closed.

Definition try_send {A} (m : gmap nat (Chan A)) (id : nat) (x : A) : gmap nat (Chan A) * SendResult :=
  match m !! id with
  | None => (m, Closed)
  | Some c =>
      if negb (ch_rx_open c) then (m, Closed)
      else if decide (ch_cap c <= length (ch_queue c))%nat then (m, Full)
      else (<[id := mkChan (ch_queue c ++ [x]) (ch_cap c) true]> m, Sent)
  end.

(** ** Data of the bridge *)

Abbreviation HostResult := (HostId * JobResult)%type.

(** Commands carry the id of the channel whose sender the service handed over. *)
Inductive BridgeCommand :=
| CmdDispatch (host_id : HostId) (dispatch : Dispatch) (events : nat)
| CmdOnlineHosts
| CmdOpenShell (host_id : HostId) (stream_id run_as : string) (rows cols : u32) (output : nat)
| CmdShellInput (host_id : HostId) (stream_id : string) (data : bytes)
| CmdShellClose (host_id : HostId) (stream_id : string).

Record ShellRoute := mkRoute {
  rt_stream_id : string; rt_stream_keys : SessionKeys; rt_sid : string;
  rt_send_seq : u64; rt_recv_high : option u64; rt_output : nat
}.

Record PendingJob := mkPending { pj_events : nat; pj_deadline : Z }.

Definition MAX_PENDING_JOBS : nat := 4096.
Definition PENDING_TTL : Z := 600.
Definition ONLINE_AFTER_GAP : Z := 90.
Definition MAX_TRACKED_HOSTS : nat := 500 * 100.
Definition MAX_INFLIGHT_INVENTORY_UPSERTS : nat := 16.

Record Bridge (E R : Type) := mkBridge {
  sessions : SessionStore;
  last_seen : gmap string Z;                     (** [Instant]s, in seconds *)
  pending : gmap (HostId * string) PendingJob;
  shells : gmap HostId ShellRoute;
  results : gmap nat (Chan HostResult);          (** the operators' result streams *)
  outputs : gmap nat (Chan StreamFrame);         (** the operators' shell streams *)
  published : list (string * bytes);             (** what the link accepted, in order *)
  epochs : E;
  revocations : R;
  upserts : list (HostId * Inventory)            (** inventory upserts in flight *)
}.
Arguments mkBridge {E R}.
Arguments sessions {E R} b.
Arguments last_seen {E R} b.
Arguments pending {E R} b.
Arguments shells {E R} b.
Arguments results {E R} b.
Arguments outputs {E R} b.
Arguments published {E R} b.
Arguments epochs {E R} b.
Arguments revocations {E R} b.
Arguments upserts {E R} b.

(** Field updates. *)
Section Updates.
Context {E R : Type}.
Implicit Type b : Bridge E R.
Definition set_sessions b x := mkBridge x (last_seen b) (pending b) (shells b) (results b) (outputs b) (published b) (epochs b) (revocations b) (upserts b).
Definition set_last_seen b x := mkBridge (sessions b) x (pending b) (shells b) (results b) (outputs b) (published b) (epochs b) (revocations b) (upserts b).
Definition set_pending b x := mkBridge (sessions b) (last_seen b) x (shells b) (results b) (outputs b) (published b) (epochs b) (revocations b) (upserts b).
Definition set_shells b x := mkBridge (sessions b) (last_seen b) (pending b) x (results b) (outputs b) (published b) (epochs b) (revocations b) (upserts b).
Definition set_results b x := mkBridge (sessions b) (last_seen b) (pending b) (shells b) x (outputs b) (published b) (epochs b) (revocations b) (upserts b).
Definition set_outputs b x := mkBridge (sessions b) (last_seen b) (pending b) (shells b) (results b) x (published b) (epochs b) (revocations b) (upserts b).
Definition set_published b x := mkBridge (sessions b) (last_seen b) (pending b) (shells b) (results b) (outputs b) x (epochs b) (revocations b) (upserts b).
Definition set_epochs b (x : E) := mkBridge (sessions b) (last_seen b) (pending b) (shells b) (results b) (outputs b) (published b) x (revocations b) (upserts b).
Definition set_upserts b x := mkBridge (sessions b) (last_seen b) (pending b) (shells b) (results b) (outputs b) (published b) (epochs b) (revocations b) x.
End Updates.

(** What the environment decides during one event: the clocks, the ephemeral seed, the
    faults of the two stores, and whether the link accepts the first and the second
    publish of the event. *)
Record Env := mkEnv {
  ev_wall : Z; ev_instant : Z; ev_seed : option bytes;
  ev_revocations : Fault; ev_epochs : Fault; ev_link1 : bool; ev_link2 : bool
}.

Definition error_result (job_id msg : string) : JobResult :=
  mkResult job_id (Some (BOutcome (mkOutcome (Some (TermError msg)) false false))).

Definition eof_frame : StreamFrame := mkFrame [] true.

(** [link_tx.publish]: appended to what the link accepted, unless it fails. *)
Definition publish {E R} (b : Bridge E R) (link_ok : bool) (topic : string) (payload : bytes) : Bridge E R * bool :=
  if link_ok then (set_published b (published b ++ [(topic, payload)]), true) else (b, false).

(** [record_heartbeat] on the last-seen map. *)
Definition record_heartbeat (last_seen : gmap string Z) (host_id : string) (now : Z) (cap : nat)
    : gmap string Z * bool :=
  let m := filter (fun p => Z.max 0 (now - p.2) <= ONLINE_AFTER_GAP) last_seen in
  match m !! host_id with
  | Some _ => (<[host_id := now]> m, false)
  | None => if decide (cap <= size m)%nat then (m, false) else (<[host_id := now]> m, true)
  end.

(** Sending a terminal error to the streams of a list of jobs. *)
Definition fail_jobs (msg : string) (l : list ((HostId * string) * PendingJob)) (m : gmap nat (Chan HostResult))
    : gmap nat (Chan HostResult) :=
  foldl (fun m p => fst (try_send m (pj_events p.2) (p.1.1, error_result p.1.2 msg))) m l.

(** [purge_host_jobs]. *)
Definition purge_host_jobs {E R} (b : Bridge E R) (host : HostId) : Bridge E R :=
  let dropped := filter (fun p : (HostId * string) * PendingJob => p.1.1 = host) (pending b) in
  let kept := filter (fun p : (HostId * string) * PendingJob => p.1.1 <> host) (pending b) in
  set_pending (set_results b (fail_jobs "host reconnected; job interrupted" (map_to_list dropped) (results b))) kept.

(** [reap_stale_jobs] at instant [now]. *)
Definition reap_stale_jobs {E R} (b : Bridge E R) (now : Z) : Bridge E R :=
  let dropped := filter (fun p : (HostId * string) * PendingJob => pj_deadline p.2 <= now) (pending b) in
  let kept := filter (fun p : (HostId * string) * PendingJob => ~ pj_deadline p.2 <= now) (pending b) in
  set_pending (set_results b (fail_jobs "no result from host (timed out)" (map_to_list dropped) (results b))) kept.

(** ** Handlers *)

Section Bridge.
Context `{Crypto} `{Prost} `{UuidLib} `{X509} {E R : Type} `{Epochs E} `{Revocations R}.
Variable ca : EmbeddedCa.
Implicit Type b : Bridge E R.

Definition host_str (h : HostId) : string := uuid_to_string (host_uuid h).

Definition Route_seal_downlink (self : ShellRoute) (host : string) (frame : StreamFrame) : ShellRoute * bytes :=
  let seq := rt_send_seq self in
  (mkRoute (rt_stream_id self) (rt_stream_keys self) (rt_sid self) (wrapping_add seq 1) (rt_recv_high self) (rt_output self),
   encode_msg (seal_envelope (rt_stream_keys self) CoordToAgent host (rt_sid self) seq KindStream (encode_msg frame))).

Definition Route_open_uplink (self : ShellRoute) (env : Envelope) : ShellRoute * option StreamFrame :=
  match open_envelope (rt_stream_keys self) AgentToCoord env with
  | Err _ => (self, None)
  | Ok plaintext =>
      if stale (rt_recv_high self) (env_seq env) then (self, None)
      else (mkRoute (rt_stream_id self) (rt_stream_keys self) (rt_sid self) (rt_send_seq self)
              (Some (env_seq env)) (rt_output self), ok (decode_msg plaintext))
  end.

Definition put_session b (h : HostId) (s : Session) : Bridge E R :=
  set_sessions b (mkStore (<[h := s]> (by_host (sessions b))) (ss_cap (sessions b))).

(** The checks of [handle_client_hello] before any state changes: the hello, the
    verified identity, and the handshake response. *)
Definition check_client_hello b (tenant_name : string) (payload : bytes) (e : Env)
    : option (ClientHello * VerifiedHost * ServerResponse) :=
  let! hello := ok (decode_msg (M := ClientHello) payload) in
  let! client_eph := array32 (ch_client_eph hello) in
  if is_empty (ch_sid hello) || (128 <? Z.of_nat (String.length (ch_sid hello))) then None
  else
    let! verified := ok (verify_host_cert ca (ch_cert_der hello) (ev_wall e)) in
    if negb (bool_decide (tenant (host_str (vh_host_id verified)) = tenant_name)) then None
    else if match SessionStore_get (sessions b) (vh_host_id verified) with
            | Some s => bool_decide (cs_sid s = ch_sid hello) | None => false end then None
    else
      match is_revoked (revocations b) (ev_revocations e) (vh_host_id verified) with
      | Ok false =>
          let! resp := ok (respond_handshake ca (ev_seed e) (bytes_of (ch_sid hello)) (ch_epoch hello) client_eph
                             (ch_sig hello) (vh_public_key_sec1 verified) (ch_cert_der hello)) in
          Some (hello, verified, resp)
      | _ => None
      end.

Definition handle_client_hello b (tenant_name : string) (payload : bytes) (e : Env) : Bridge E R * option HostId :=
  match check_client_hello b tenant_name payload e with
  | None => (b, None)
  | Some (hello, verified, resp) =>
      let host := vh_host_id verified in
      let '(ep, admitted) := epoch_admit (epochs b) (ev_epochs e) host (ch_epoch hello) in
      let b := set_epochs b ep in
      match admitted with
      | Ok true =>
          match SessionStore_insert (sessions b) host (ch_sid hello) (sr_keys resp) with
          | (_, false) => (b, None)
          | (st, true) =>
              let b := set_sessions b st in
              let server_hello := mkServerHello (ch_sid hello) (sr_server_eph resp) (sr_sig resp) in
              match publish b (ev_link1 e) (hs_down (host_str host)) (encode_msg server_hello) with
              | (b, false) => (b, None)
              | (b, true) =>
                  let session := mkSession (ch_sid hello) (sr_keys resp) (wrap 0) None in
                  let '(session, beacon) := seal_downlink session (host_str host) CTRL_SESSION_READY in
                  let b := put_session b host session in
                  let b := fst (publish b (ev_link2 e) (ctrl_down (host_str host)) beacon) in
                  (b, Some host)
              end
          end
      | _ => (b, None)
      end
  end.

(** A session-keyed uplink: open under the host's live session, keeping its new state. *)
Definition open_on_session b (host : HostId) (env : Envelope) : Bridge E R * option bytes :=
  match by_host (sessions b) !! host with
  | None => (b, None)
  | Some session =>
      let '(session, pt) := open_uplink session env in (put_session b host session, pt)
  end.

Definition handle_ctrl_ack b (payload : bytes) : Bridge E R :=
  match decode_msg (M := Envelope) payload with
  | Err _ => b
  | Ok env =>
      match uuid_parse (env_host_id env) with
      | None => b
      | Some u =>
          match by_host (sessions b) !! mkHostId u with
          | None => b
          | Some s => if negb (bool_decide (cs_sid s = env_sid env)) then b
                      else fst (open_on_session b (mkHostId u) env)
          end
      end
  end.

Definition remove_pending b (key : HostId * string) : Bridge E R := set_pending b (delete key (pending b)).

Definition handle_result b (tenant_name : string) (payload : bytes) : Bridge E R :=
  match uuid_parse tenant_name with
  | None => b
  | Some u =>
      let host := mkHostId u in
      match decode_msg (M := Envelope) payload with
      | Err _ => b
      | Ok env =>
          match open_on_session b host env with
          | (b, None) => b
          | (b, Some plaintext) =>
              match decode_msg (M := JobResult) plaintext with
              | Err _ => b
              | Ok result =>
                  let key := (host, jr_job_id result) in
                  match pending b !! key with
                  | None => b
                  | Some job =>
                      let terminal := match jr_body result with Some (BOutcome _) => true | _ => false end in
                      let '(m, sent) := try_send (results b) (pj_events job) (host, result) in
                      let b := set_results b m in
                      match sent with
                      | Sent => if terminal then remove_pending b key else b
                      | Closed => remove_pending b key
                      | Full => remove_pending b key
                      end
                  end
              end
          end
      end
  end.

Definition decode_inventory b (tenant_name : string) (payload : bytes) : Bridge E R * option (HostId * Inventory) :=
  match uuid_parse tenant_name with
  | None => (b, None)
  | Some u =>
      match decode_msg (M := Envelope) payload with
      | Err _ => (b, None)
      | Ok env =>
          match open_on_session b (mkHostId u) env with
          | (b, None) => (b, None)
          | (b, Some plaintext) =>
              match decode_msg (M := Inventory) plaintext with
              | Err _ => (b, None)
              | Ok inv => (b, Some (mkHostId u, inv))
              end
          end
      end
  end.

(** [close_shell_route]: seal and publish the terminal frame; the caller drops the route. *)
Definition close_shell_route b (route : ShellRoute) (host : HostId) (link_ok : bool) : Bridge E R :=
  let '(_, sealed) := Route_seal_downlink route (host_str host) eof_frame in
  fst (publish b link_ok (stream_down (host_str host)) sealed).

Definition remove_shell b (host : HostId) : Bridge E R := set_shells b (delete host (shells b)).

Definition handle_stream_up b (tenant_name : string) (payload : bytes) (e : Env) : Bridge E R :=
  match uuid_parse tenant_name with
  | None => b
  | Some u =>
      let host := mkHostId u in
      match shells b !! host with
      | None => b
      | Some route =>
          match decode_msg (M := Envelope) payload with
          | Err _ => b
          | Ok env =>
              let '(route, frame) := Route_open_uplink route env in
              let b := set_shells b (<[host := route]> (shells b)) in
              match frame with
              | None => b
              | Some frame =>
                  let '(m, sent) := try_send (outputs b) (rt_output route) frame in
                  let b := set_outputs b m in
                  match sent with
                  | Sent => if sf_eof frame then remove_shell (close_shell_route b route host (ev_link1 e)) host else b
                  | Full => b
                  | Closed => remove_shell (close_shell_route b route host (ev_link1 e)) host
                  end
              end
          end
      end
  end.

Definition open_shell b (host : HostId) (stream_id run_as : string) (rows cols : u32) (output : nat) (e : Env) : Bridge E R :=
  match by_host (sessions b) !! host with
  | None => set_outputs b (fst (try_send (outputs b) output eof_frame))
  | Some session =>
      let stream_keys := derive_stream_keys session (bytes_of stream_id) in
      let dispatch := mkDispatch stream_id "shell" run_as (encode_msg (mkShellParams rows cols)) in
      let '(session', sealed) := seal_downlink session (host_str host) (encode_msg dispatch) in
      let b := put_session b host session' in
      match publish b (ev_link1 e) (dispatch_down (host_str host)) sealed with
      | (b, false) => set_outputs b (fst (try_send (outputs b) output eof_frame))
      | (b, true) =>
          set_shells b (<[host := mkRoute stream_id stream_keys (cs_sid session) (wrap 0) None output]> (shells b))
      end
  end.

Definition shell_input b (host : HostId) (stream_id : string) (data : bytes) (e : Env) : Bridge E R :=
  match shells b !! host with
  | None => b
  | Some route =>
      if negb (bool_decide (rt_stream_id route = stream_id)) then b
      else
        let '(route, sealed) := Route_seal_downlink route (host_str host) (mkFrame data false) in
        let b := set_shells b (<[host := route]> (shells b)) in
        match publish b (ev_link1 e) (stream_down (host_str host)) sealed with
        | (b, true) => b
        | (b, false) => remove_shell b host
        end
  end.

Definition shell_close b (host : HostId) (stream_id : string) (e : Env) : Bridge E R :=
  match shells b !! host with
  | None => b
  | Some route =>
      if negb (bool_decide (rt_stream_id route = stream_id)) then b
      else remove_shell (close_shell_route b route host (ev_link1 e)) host
  end.

(** Reporting a terminal error to the operator. *)
Definition report b (events : nat) (host : HostId) (job_id msg : string) : Bridge E R :=
  set_results b (fst (try_send (results b) events (host, error_result job_id msg))).

Definition handle_dispatch b (host : HostId) (dispatch : Dispatch) (events : nat) (e : Env) : Bridge E R :=
  let job_id := d_job_id dispatch in
  let key := (host, job_id) in
  if bool_decide (is_Some (pending b !! key)) then report b events host job_id "duplicate job_id"
  else if decide (MAX_PENDING_JOBS <= size (pending b))%nat then report b events host job_id "coordinator at job capacity"
  else match by_host (sessions b) !! host with
       | None => report b events host job_id "host is not connected"
       | Some session =>
           let '(session, sealed) := seal_downlink session (host_str host) (encode_msg dispatch) in
           let b := put_session b host session in
           match publish b (ev_link1 e) (dispatch_down (host_str host)) sealed with
           | (b, false) => report b events host job_id "failed to reach the host"
           | (b, true) =>
               set_pending b (<[key := mkPending events (ev_instant e + PENDING_TTL)]> (pending b))
           end
       end.

(** [handle_command], with the hosts it replies to [OnlineHosts]. *)
Definition handle_command b (cmd : BridgeCommand) (e : Env) : Bridge E R * option (list HostId) :=
  match cmd with
  | CmdDispatch host dispatch events => (handle_dispatch b host dispatch events e, None)
  | CmdOnlineHosts => (b, Some (SessionStore_host_ids (sessions b)))
  | CmdOpenShell host stream_id run_as rows cols output => (open_shell b host stream_id run_as rows cols output e, None)
  | CmdShellInput host stream_id data => (shell_input b host stream_id data e, None)
  | CmdShellClose host stream_id => (shell_close b host stream_id e, None)
  end.

(** ** The loop *)

(** [has_sink]: an inventory sink is configured. *)
Variable has_sink : bool.

(** The message arm: what the step established, if it did. *)
Definition on_message b (topic : string) (payload : bytes) (e : Env) : Bridge E R * option HostId :=
  match tenant_from_heartbeat topic with
  | Some t => (set_last_seen b (fst (record_heartbeat (last_seen b) t (ev_instant e) MAX_TRACKED_HOSTS)), None)
  | None =>
  match tenant_from_hs_up topic with
  | Some t =>
      match handle_client_hello b t payload e with
      | (b, Some host) => (remove_shell (purge_host_jobs b host) host, Some host)
      | (b, None) => (b, None)
      end
  | None =>
  match tenant_from_ctrl_up topic with
  | Some _ => (handle_ctrl_ack b payload, None)
  | None =>
  match tenant_from_result_up topic with
  | Some t => (handle_result b t payload, None)
  | None =>
  match tenant_from_stream_up topic with
  | Some t => (handle_stream_up b t payload e, None)
  | None =>
  match tenant_from_inventory_up topic with
  | Some t =>
      if has_sink then
        match decode_inventory b t payload with
        | (b, Some snapshot) =>
            (if decide (length (upserts b) < MAX_INFLIGHT_INVENTORY_UPSERTS)%nat
             then set_upserts b (upserts b ++ [snapshot]) else b, None)
        | (b, None) => (b, None)
        end
      else (b, None)
  | None => (b, None)
  end end end end end end.

(** The events: the three arms of [select!], the completion of an upsert task, and what
    operators do with their end of a channel. *)
Inductive Event :=
| EvMessage (topic : string) (payload : bytes) (e : Env)
| EvCommand (cmd : BridgeCommand) (e : Env)
| EvSweep (now : Z)
| EvUpsertDone (i : nat)
| EvNewResults (id cap : nat) | EvReadResults (id : nat) | EvDropResults (id : nat)
| EvNewOutput (id cap : nat) | EvReadOutput (id : nat) | EvDropOutput (id : nat).

Definition new_chan {A} (m : gmap nat (Chan A)) (id cap : nat) : gmap nat (Chan A) :=
  match m !! id with None => <[id := mkChan [] cap true]> m | Some _ => m end.
Definition read_chan {A} (m : gmap nat (Chan A)) (id : nat) : gmap nat (Chan A) :=
  alter (fun c => mkChan (tail (ch_queue c)) (ch_cap c) (ch_rx_open c)) id m.
Definition drop_chan {A} (m : gmap nat (Chan A)) (id : nat) : gmap nat (Chan A) :=
  alter (fun c => mkChan (ch_queue c) (ch_cap c) false) id m.

Definition bridge_step b (ev : Event) : Bridge E R :=
  match ev with
  | EvMessage topic payload e => fst (on_message b topic payload e)
  | EvCommand cmd e => fst (handle_command b cmd e)
  | EvSweep now => reap_stale_jobs b now
  | EvUpsertDone i => set_upserts b (delete i (upserts b))
  | EvNewResults id cap => set_results b (new_chan (results b) id cap)
  | EvReadResults id => set_results b (read_chan (results b) id)
  | EvDropResults id => set_results b (drop_chan (results b) id)
  | EvNewOutput id cap => set_outputs b (new_chan (outputs b) id cap)
  | EvReadOutput id => set_outputs b (read_chan (outputs b) id)
  | EvDropOutput id => set_outputs b (drop_chan (outputs b) id)
  end.

Definition run_bridge b (evs : list Event) : Bridge E R := foldl bridge_step b evs.

Definition bridge_init (ep : E) (rv : R) : Bridge E R :=
  mkBridge SessionStore_new ∅ ∅ ∅ ∅ ∅ [] ep rv [].

(** The [ClientHello]s that established a session, in order, with the host. *)
Fixpoint established b (evs : list Event) : list (HostId * ClientHello) :=
  match evs with
  | [] => []
  | ev :: evs' =>
      match ev with
      | EvMessage topic payload e =>
          match snd (on_message b topic payload e), decode_msg (M := ClientHello) payload with
          | Some h, Ok hello => (h, hello) :: established (bridge_step b ev) evs'
          | _, _ => established (bridge_step b ev) evs'
          end
      | _ => established (bridge_step b ev) evs'
      end
  end.

End Bridge.

(** ** Specification *)

(** A session that was not replaced: same keys and id, and a replay guard that has only
    moved forward. *)
Definition sess_evolves (s s' : option Session) : Prop :=
  match s, s' with
  | None, None => True
  | Some a, Some b =>
      cs_sid b = cs_sid a /\ cs_keys b = cs_keys a /\
      (next_seq (cs_recv_high a) <= next_seq (cs_recv_high b))%nat
  | _, _ => False
  end.

Definition sessions_evolve {E R} (b b' : Bridge E R) : Prop :=
  forall h, sess_evolves (by_host (sessions b) !! h) (by_host (sessions b') !! h).

(** The resource bounds of the bridge. *)
Definition chans_bounded {A} (m : gmap nat (Chan A)) : Prop :=
  map_Forall (fun _ c => (length (ch_queue c) <= ch_cap c)%nat) m.

Definition bounded {E R} (b : Bridge E R) : Prop :=
  (size (by_host (sessions b)) <= ss_cap (sessions b))%nat /\ ss_cap (sessions b) = MAX_SESSIONS /\
  (size (last_seen b) <= MAX_TRACKED_HOSTS)%nat /\
  (size (pending b) <= MAX_PENDING_JOBS)%nat /\
  (length (upserts b) <= MAX_INFLIGHT_INVENTORY_UPSERTS)%nat /\
  chans_bounded (results b) /\ chans_bounded (outputs b).

(** ** Lemmas: channels and maps *)

Lemma sess_evolves_refl s : sess_evolves s s.
Proof. destruct s; simpl; auto. Qed.
#[export] Hint Resolve sess_evolves_refl : osa.

Lemma sessions_evolve_refl {E R} (b b' : Bridge E R) : sessions b' = sessions b -> sessions_evolve b b'.
Proof. intros He h. rewrite He. apply sess_evolves_refl. Qed.

Lemma try_send_bounded {A} (m : gmap nat (Chan A)) id x : chans_bounded m -> chans_bounded (fst (try_send m id x)).
Proof.
  intros Hm. unfold try_send. destruct (m !! id) as [c|] eqn:E; [|done].
  destruct (ch_rx_open c); [|done]. simpl. case_decide; [done|].
  apply map_Forall_insert_2; [|done]. simpl. rewrite length_app. simpl. lia.
Qed.

Lemma fail_jobs_bounded msg l m : chans_bounded m -> chans_bounded (fail_jobs msg l m).
Proof.
  unfold fail_jobs. revert m. induction l as [|p l IH]; intros m Hm; simpl; [done|].
  apply IH, try_send_bounded, Hm.
Qed.

Lemma new_chan_bounded {A} (m : gmap nat (Chan A)) id cap : chans_bounded m -> chans_bounded (new_chan m id cap).
Proof. intros Hm. unfold new_chan. destruct (m !! id); [done|]. apply map_Forall_insert_2; simpl; [lia|done]. Qed.

Lemma alter_bounded {A} (f : Chan A -> Chan A) (m : gmap nat (Chan A)) id :
  (forall c, (length (ch_queue c) <= ch_cap c -> length (ch_queue (f c)) <= ch_cap (f c)))%nat ->
  chans_bounded m -> chans_bounded (alter f id m).
Proof.
  intros Hf Hm i c. rewrite lookup_alter_Some. intros [(-> & c' & Hc & ->)|[_ Hc]].
  - apply Hf. by apply (Hm _ _ Hc).
  - by apply (Hm _ _ Hc).
Qed.

Lemma size_filter_le {K} `{Countable K} {A} (P : K * A -> Prop) `{!forall x, Decision (P x)} (m : gmap K A) :
  (size (filter P m) <= size m)%nat.
Proof. apply map_subseteq_size, map_filter_subseteq. Qed.

Lemma size_insert_le {K} `{Countable K} {A} (m : gmap K A) k x n :
  (size m < n)%nat -> (size (<[k := x]> m) <= n)%nat.
Proof. intros Hs. rewrite map_size_insert. destruct (m !! k); simpl; lia. Qed.

Lemma size_update {K} `{Countable K} {A} (m : gmap K A) k x y : m !! k = Some y -> size (<[k := x]> m) = size m.
Proof. intros Hm. rewrite map_size_insert. by rewrite Hm. Qed.

Lemma size_delete_le {K} `{Countable K} {A} (m : gmap K A) k : (size (delete k m) <= size m)%nat.
Proof. apply map_subseteq_size, delete_subseteq. Qed.

Lemma length_delete_le {A} (l : list A) i : (length (delete i l) <= length l)%nat.
Proof.
  revert i. induction l as [|x l IH]; intros [|i]; simpl; [lia..|]. apply le_n_S, IH.
Qed.

Lemma record_heartbeat_size m host now cap :
  (size m <= cap)%nat -> (size (fst (record_heartbeat m host now cap)) <= cap)%nat.
Proof.
  intros Hm. unfold record_heartbeat.
  pose proof (size_filter_le (fun p : string * Z => Z.max 0 (now - p.2) <= ONLINE_AFTER_GAP) m).
  destruct (filter _ m !! host) eqn:E; simpl.
  - rewrite (size_update _ _ _ _ E). lia.
  - case_decide; simpl; [lia|]. apply size_insert_le. lia.
Qed.

(** ** Lemmas: the handlers *)

Section BridgeLemmas.
Context `{Crypto} `{Prost} `{UuidLib} `{X509} {E R : Type} `{Epochs E} `{Revocations R}.
Variable ca : EmbeddedCa.
Implicit Type b : Bridge E R.

(** Everything a hello was checked for before the bridge acts on it. *)
Lemma check_client_hello_inv b t payload e hello v resp :
  check_client_hello ca b t payload e = Some (hello, v, resp) ->
  decode_msg payload = Ok hello /\ length (ch_client_eph hello) = 32%nat /\
  0 < Z.of_nat (String.length (ch_sid hello)) <= 128 /\
  verify_host_cert ca (ch_cert_der hello) (ev_wall e) = Ok v /\
  tenant (host_str (vh_host_id v)) = t /\
  (forall s, by_host (sessions b) !! vh_host_id v = Some s -> cs_sid s <> ch_sid hello) /\
  is_revoked (revocations b) (ev_revocations e) (vh_host_id v) = Ok false /\
  respond_handshake ca (ev_seed e) (bytes_of (ch_sid hello)) (ch_epoch hello) (ch_client_eph hello)
    (ch_sig hello) (vh_public_key_sec1 v) (ch_cert_der hello) = Ok resp.
Proof.
  unfold check_client_hello.
  destruct (decode_msg payload) as [h|]; [|done]. simpl.
  destruct (array32 (ch_client_eph h)) as [eph|] eqn:Ea; [|done]. apply array32_Some in Ea as [-> Hl].
  destruct (_ || _) eqn:Es; [done|]. bool_to_prop.
  destruct (verify_host_cert ca (ch_cert_der h) (ev_wall e)) as [v'|] eqn:Ev; [|done]. simpl.
  destruct (bool_decide (tenant _ = t)) eqn:Et; [|done]. bool_to_prop. simpl.
  set (dup := match SessionStore_get _ _ with Some s => _ | None => _ end).
  destruct dup eqn:Ed; [done|]. unfold dup in Ed.
  destruct (is_revoked _ _ _) as [[]|] eqn:Er; [done| |done].
  destruct (respond_handshake _ _ _ _ _ _ _ _) as [r|] eqn:Eh; [|done]. intros [= <- <- <-].
  repeat split; auto.
  - destruct (ch_sid h); [done|]. simpl. lia.
  - intros s Hs. unfold SessionStore_get in Ed. rewrite Hs in Ed. by bool_to_prop.
Qed.

Lemma publish_sessions b ok topic p : sessions (fst (publish b ok topic p)) = sessions b.
Proof. by destruct ok. Qed.

Lemma put_session_evolves b h s s' :
  by_host (sessions b) !! h = Some s -> sess_evolves (Some s) (Some s') -> sessions_evolve b (put_session b h s').
Proof.
  intros Hs He h'. simpl. destruct (decide (h' = h)) as [->|Hne].
  - by rewrite lookup_insert_eq, Hs.
  - rewrite lookup_insert_ne by done. apply sess_evolves_refl.
Qed.

Lemma open_uplink_evolves s env : sess_evolves (Some s) (Some (fst (open_uplink s env))).
Proof.
  unfold open_uplink. destruct (open_envelope _ _ _); [|apply sess_evolves_refl].
  destruct (stale _ _) eqn:Es; [apply sess_evolves_refl|]. simpl. apply stale_next in Es.
  repeat split; lia.
Qed.

Lemma seal_downlink_evolves s h p : sess_evolves (Some s) (Some (fst (seal_downlink s h p))).
Proof. simpl. auto. Qed.

Lemma open_on_session_evolves b h env : sessions_evolve b (fst (open_on_session b h env)).
Proof.
  unfold open_on_session. destruct (by_host (sessions b) !! h) as [s|] eqn:Es; [|by apply sessions_evolve_refl].
  pose proof (open_uplink_evolves s env) as He. destruct (open_uplink s env) as [s' pt]. simpl in *.
  by apply (put_session_evolves b h s).
Qed.

Lemma sessions_evolve_eq b b1 b2 : sessions_evolve b b1 -> sessions b2 = sessions b1 -> sessions_evolve b b2.
Proof. intros He Hs h. rewrite Hs. apply He. Qed.

Lemma handle_ctrl_ack_evolves b payload : sessions_evolve b (handle_ctrl_ack b payload).
Proof.
  unfold handle_ctrl_ack. destruct (decode_msg _) as [env|]; [|by apply sessions_evolve_refl].
  destruct (uuid_parse _) as [u|]; [|by apply sessions_evolve_refl].
  destruct (by_host _ !! _) as [s|]; [|by apply sessions_evolve_refl].
  destruct (negb _); [by apply sessions_evolve_refl|]. apply open_on_session_evolves.
Qed.

Lemma handle_result_evolves b t payload : sessions_evolve b (handle_result b t payload).
Proof.
  unfold handle_result. destruct (uuid_parse t) as [u|]; [|by apply sessions_evolve_refl].
  destruct (decode_msg _) as [env|]; [|by apply sessions_evolve_refl].
  pose proof (open_on_session_evolves b (mkHostId u) env) as He.
  destruct (open_on_session b (mkHostId u) env) as [b' [pt|]]; simpl in He; [|done].
  destruct (decode_msg _) as [r|]; [|done]. destruct (pending b' !! _) as [job|]; [|done].
  destruct (try_send _ _ _) as [m []]; [destruct (jr_body r) as [[]|]|..];
    by apply (sessions_evolve_eq b b').
Qed.

Lemma decode_inventory_evolves b t payload : sessions_evolve b (fst (decode_inventory b t payload)).
Proof.
  unfold decode_inventory. destruct (uuid_parse t) as [u|]; [|by apply sessions_evolve_refl].
  destruct (decode_msg _) as [env|]; [|by apply sessions_evolve_refl].
  pose proof (open_on_session_evolves b (mkHostId u) env) as He.
  destruct (open_on_session b (mkHostId u) env) as [b' [pt|]]; simpl in He; [|done].
  by destruct (decode_msg _).
Qed.

Lemma handle_stream_up_sessions b t payload e : sessions (handle_stream_up b t payload e) = sessions b.
Proof.
  unfold handle_stream_up. destruct (uuid_parse t) as [u|]; [|done].
  destruct (shells b !! _) as [rt|]; [|done]. destruct (decode_msg _) as [env|]; [|done].
  destruct (Route_open_uplink rt env) as [rt' [f|]]; [|done].
  destruct (try_send _ _ _) as [m []]; [destruct (sf_eof f)|done|]; simpl; try done;
    unfold close_shell_route; simpl; by rewrite publish_sessions.
Qed.

Lemma seal_and_publish_evolves b h s p topic ok :
  by_host (sessions b) !! h = Some s ->
  sessions_evolve b (fst (publish (put_session b h (fst (seal_downlink s (host_str h) p))) ok topic
    (snd (seal_downlink s (host_str h) p)))).
Proof.
  intros Hs. eapply sessions_evolve_eq; [|apply publish_sessions].
  apply (put_session_evolves b h s); [done|]. apply seal_downlink_evolves.
Qed.

Lemma handle_command_evolves b cmd e : sessions_evolve b (fst (handle_command b cmd e)).
Proof.
  destruct cmd as [h d ev| |h sid ra rows cols out|h sid data|h sid]; simpl.
  - unfold handle_dispatch. destruct (bool_decide _); [by apply sessions_evolve_refl|].
    case_decide; [by apply sessions_evolve_refl|].
    destruct (by_host _ !! h) as [s|] eqn:Es; [|by apply sessions_evolve_refl].
    pose proof (seal_and_publish_evolves b h s (encode_msg d) (dispatch_down (host_str h)) (ev_link1 e) Es) as He.
    destruct (seal_downlink s (host_str h) (encode_msg d)) as [s' sealed]. simpl in He.
    destruct (publish _ _ _ _) as [b' []]; by apply (sessions_evolve_eq b b').
  - by apply sessions_evolve_refl.
  - unfold open_shell. destruct (by_host _ !! h) as [s|] eqn:Es; [|by apply sessions_evolve_refl].
    pose proof (seal_and_publish_evolves b h s
      (encode_msg (mkDispatch sid "shell" ra (encode_msg (mkShellParams rows cols))))
      (dispatch_down (host_str h)) (ev_link1 e) Es) as He.
    destruct (seal_downlink s (host_str h) _) as [s' sealed]. simpl in He.
    destruct (publish _ _ _ _) as [b' []]; by apply (sessions_evolve_eq b b').
  - unfold shell_input. destruct (shells b !! h) as [rt|]; [|by apply sessions_evolve_refl].
    destruct (negb _); [by apply sessions_evolve_refl|].
    destruct (Route_seal_downlink _ _ _) as [rt' sealed]. apply sessions_evolve_refl. by destruct (ev_link1 e).
  - unfold shell_close. destruct (shells b !! h) as [rt|]; [|by apply sessions_evolve_refl].
    destruct (negb _); [by apply sessions_evolve_refl|]. apply sessions_evolve_refl.
    unfold close_shell_route. simpl. apply publish_sessions.
Qed.

(** A hello that creates or replaces a session passed every check, and its epoch was
    admitted in the same step; only that host's session is affected. *)
Definition authenticated_hello b (t : string) (payload : bytes) (e : Env) (hello : ClientHello) (v : VerifiedHost)
    (resp : ServerResponse) : Prop :=
  check_client_hello ca b t payload e = Some (hello, v, resp) /\
  snd (epoch_admit (epochs b) (ev_epochs e) (vh_host_id v) (ch_epoch hello)) = Ok true.

Lemma handle_client_hello_cases b t payload e :
  let '(b', r) := handle_client_hello ca b t payload e in
  (sessions b' = sessions b /\ r = None) \/
  exists hello v resp, authenticated_hello b t payload e hello v resp /\
    (r = None \/ r = Some (vh_host_id v)) /\
    (exists q, q ∈ [wrap 0; wrap 1] /\
       by_host (sessions b') = <[vh_host_id v := mkSession (ch_sid hello) (sr_keys resp) q None]> (by_host (sessions b))) /\
    ss_cap (sessions b') = ss_cap (sessions b) /\
    (by_host (sessions b) !! vh_host_id v = None -> (size (by_host (sessions b)) < ss_cap (sessions b))%nat).
Proof.
  unfold handle_client_hello. destruct (check_client_hello ca b t payload e) as [[[hello v] resp]|] eqn:Ec; [|by left].
  destruct (epoch_admit (epochs b) (ev_epochs e) (vh_host_id v) (ch_epoch hello)) as [ep [[]|]] eqn:Ea; [|by left..].
  unfold SessionStore_insert. cbn [sessions set_epochs].
  destruct (bool_decide (by_host (sessions b) !! vh_host_id v = None) && _) eqn:Ei; [by left|].
  apply andb_false_iff in Ei.
  assert (by_host (sessions b) !! vh_host_id v = None -> (size (by_host (sessions b)) < ss_cap (sessions b))%nat) as Hcap.
  { intros Hn. destruct Ei as [Ei|Ei]; bool_to_prop; [done|lia]. }
  assert (authenticated_hello b t payload e hello v resp) as Hauth.
  { split; [done|]. by rewrite Ea. }
  destruct (ev_link1 e); simpl.
  - right. exists hello, v, resp. split; [done|]. split; [by right|].
    rewrite publish_sessions. simpl. rewrite insert_insert_eq. split; [|done].
    exists (wrap 1). split; [set_solver|done].
  - right. exists hello, v, resp. split; [done|]. split; [by left|]. simpl. split; [|done].
    exists (wrap 0). split; [set_solver|done].
Qed.

(** What one event does to the sessions. *)
Lemma bridge_step_sessions has_sink b ev :
  sessions_evolve b (bridge_step ca has_sink b ev) \/
  exists topic payload e t hello v resp,
    ev = EvMessage topic payload e /\ tenant_from_hs_up topic = Some t /\
    authenticated_hello b t payload e hello v resp /\
    (exists q, q ∈ [wrap 0; wrap 1] /\ by_host (sessions (bridge_step ca has_sink b ev)) =
       <[vh_host_id v := mkSession (ch_sid hello) (sr_keys resp) q None]> (by_host (sessions b))).
Proof.
  destruct ev; simpl; try (left; by apply sessions_evolve_refl); [|left; apply handle_command_evolves].
  unfold on_message.
  destruct (tenant_from_heartbeat topic); [left; by apply sessions_evolve_refl|].
  destruct (tenant_from_hs_up topic) as [t|] eqn:Et.
  { pose proof (handle_client_hello_cases b t payload e) as Hc.
    destruct (handle_client_hello ca b t payload e) as [b' r].
    destruct Hc as [[Hs ->]|(hello & v & resp & Ha & Hr & Hq & _)].
    - left. by apply sessions_evolve_refl.
    - right. exists topic, payload, e, t, hello, v, resp. split; [done|]. split; [done|]. split; [done|].
      by destruct Hr as [-> | ->]. }
  left. destruct (tenant_from_ctrl_up topic); [apply handle_ctrl_ack_evolves|].
  destruct (tenant_from_result_up topic); [apply handle_result_evolves|].
  destruct (tenant_from_stream_up topic); [apply sessions_evolve_refl, handle_stream_up_sessions|].
  destruct (tenant_from_inventory_up topic) as [t|]; [|by apply sessions_evolve_refl].
  destruct has_sink; [|by apply sessions_evolve_refl].
  pose proof (decode_inventory_evolves b t payload) as He.
  destruct (decode_inventory b t payload) as [b' [snap|]]; simpl in *; [|done].
  case_decide; by apply (sessions_evolve_eq b b').
Qed.

(** *** Bounds *)

Lemma bounded_results b x : chans_bounded x -> bounded b -> bounded (set_results b x).
Proof. unfold bounded. simpl. tauto. Qed.
Lemma bounded_outputs b x : chans_bounded x -> bounded b -> bounded (set_outputs b x).
Proof. unfold bounded. simpl. tauto. Qed.
Lemma bounded_shells b x : bounded b -> bounded (set_shells b x).
Proof. done. Qed.
Lemma bounded_pending b x : (size x <= MAX_PENDING_JOBS)%nat -> bounded b -> bounded (set_pending b x).
Proof. unfold bounded. simpl. tauto. Qed.
Lemma bounded_publish b ok topic p : bounded b -> bounded (fst (publish b ok topic p)).
Proof. by destruct ok. Qed.
Lemma bounded_put_session b h s s' :
  by_host (sessions b) !! h = Some s -> bounded b -> bounded (put_session b h s').
Proof. intros Hs. unfold bounded. simpl. by rewrite (size_update _ _ _ _ Hs). Qed.

Lemma bounded_send_result b id x : bounded b -> bounded (set_results b (fst (try_send (results b) id x))).
Proof. intros Hb. apply bounded_results; [|done]. apply try_send_bounded, Hb. Qed.
Lemma bounded_send_output b id x : bounded b -> bounded (set_outputs b (fst (try_send (outputs b) id x))).
Proof. intros Hb. apply bounded_outputs; [|done]. apply try_send_bounded, Hb. Qed.

Lemma bounded_remove_pending b k : bounded b -> bounded (remove_pending b k).
Proof.
  intros Hb. apply bounded_pending; [|done]. destruct Hb as (_ & _ & _ & Hp & _).
  pose proof (size_delete_le (pending b) k). lia.
Qed.

Lemma bounded_filter_jobs b (P : (HostId * string) * PendingJob -> Prop) `{!forall x, Decision (P x)} msg l :
  bounded b ->
  bounded (set_pending (set_results b (fail_jobs msg l (results b))) (filter P (pending b))).
Proof.
  intros Hb. apply bounded_pending; [|apply bounded_results; [|done]].
  - destruct Hb as (_ & _ & _ & Hp & _). pose proof (size_filter_le P (pending b)). lia.
  - apply fail_jobs_bounded, Hb.
Qed.

Lemma open_on_session_bounded b h env : bounded b -> bounded (fst (open_on_session b h env)).
Proof.
  intros Hb. unfold open_on_session. destruct (by_host (sessions b) !! h) as [s|] eqn:Es; [|done].
  destruct (open_uplink s env) as [s' pt]. by apply (bounded_put_session b h s).
Qed.

Lemma handle_ctrl_ack_bounded b payload : bounded b -> bounded (handle_ctrl_ack b payload).
Proof.
  intros Hb. unfold handle_ctrl_ack. destruct (decode_msg _); [|done]. destruct (uuid_parse _); [|done].
  destruct (by_host _ !! _); [|done]. destruct (negb _); [done|]. by apply open_on_session_bounded.
Qed.

Lemma handle_result_bounded b t payload : bounded b -> bounded (handle_result b t payload).
Proof.
  intros Hb. unfold handle_result. destruct (uuid_parse t) as [u|]; [|done]. destruct (decode_msg _) as [env|]; [|done].
  pose proof (open_on_session_bounded b (mkHostId u) env Hb) as Hb'.
  destruct (open_on_session b (mkHostId u) env) as [b' [pt|]]; simpl in Hb'; [|done].
  destruct (decode_msg _) as [r|]; [|done]. destruct (pending b' !! _) as [job|]; [|done].
  pose proof (bounded_send_result b' (pj_events job) (mkHostId u, r) Hb') as Hs.
  destruct (try_send _ _ _) as [m []]; [destruct (jr_body r) as [[]|]|..]; simpl in Hs; try done;
    by apply bounded_remove_pending.
Qed.

Lemma decode_inventory_bounded b t payload : bounded b -> bounded (fst (decode_inventory b t payload)).
Proof.
  intros Hb. unfold decode_inventory. destruct (uuid_parse t) as [u|]; [|done]. destruct (decode_msg _) as [env|]; [|done].
  pose proof (open_on_session_bounded b (mkHostId u) env Hb) as Hb'.
  destruct (open_on_session b (mkHostId u) env) as [b' [pt|]]; simpl in Hb'; [|done]. by destruct (decode_msg _).
Qed.

Lemma close_route_bounded b rt h ok : bounded b -> bounded (remove_shell (close_shell_route b rt h ok) h).
Proof. intros Hb. apply bounded_shells. unfold close_shell_route. simpl. by apply bounded_publish. Qed.

Lemma handle_stream_up_bounded b t payload e : bounded b -> bounded (handle_stream_up b t payload e).
Proof.
  intros Hb. unfold handle_stream_up. destruct (uuid_parse t) as [u|]; [|done].
  destruct (shells b !! _) as [rt|]; [|done]. destruct (decode_msg _) as [env|]; [|done].
  destruct (Route_open_uplink rt env) as [rt' [f|]]; [|done]. cbn [outputs set_shells].
  pose proof (bounded_send_output (set_shells b (<[mkHostId u := rt']> (shells b))) (rt_output rt') f Hb) as Hs.
  simpl in Hs. destruct (try_send _ _ _) as [m []]; [destruct (sf_eof f)|..]; simpl in Hs; try done;
    by apply close_route_bounded.
Qed.

Lemma handle_command_bounded b cmd e : bounded b -> bounded (fst (handle_command b cmd e)).
Proof.
  intros Hb. destruct cmd as [h d ev| |h sid ra rows cols out|h sid data|h sid]; simpl; [| done | | |].
  - unfold handle_dispatch, report. destruct (bool_decide _); [by apply bounded_send_result|].
    case_decide as Hc; [by apply bounded_send_result|].
    destruct (by_host _ !! h) as [s|] eqn:Es; [|by apply bounded_send_result]. simpl.
    destruct (ev_link1 e); simpl.
    + apply bounded_pending; [apply size_insert_le; simpl; lia|]. by apply (bounded_put_session b h s).
    + apply (bounded_send_result (put_session b h _)). by apply (bounded_put_session b h s).
  - unfold open_shell. destruct (by_host _ !! h) as [s|] eqn:Es; [|by apply bounded_send_output]. simpl.
    destruct (ev_link1 e); simpl.
    + apply bounded_shells. by apply (bounded_put_session b h s).
    + apply (bounded_send_output (put_session b h _)). by apply (bounded_put_session b h s).
  - unfold shell_input. destruct (shells b !! h) as [rt|]; [|done]. destruct (negb _); [done|]. simpl.
    by destruct (ev_link1 e).
  - unfold shell_close. destruct (shells b !! h) as [rt|]; [|done]. destruct (negb _); [done|].
    by apply close_route_bounded.
Qed.

Lemma handle_client_hello_bounded b t payload e : bounded b -> bounded (fst (handle_client_hello ca b t payload e)).
Proof.
  intros Hb. unfold handle_client_hello.
  destruct (check_client_hello ca b t payload e) as [[[hello v] resp]|]; [|done].
  destruct (epoch_admit _ _ _ _) as [ep [[]|]]; [|done..]. unfold SessionStore_insert. cbn [sessions set_epochs].
  destruct (bool_decide (by_host (sessions b) !! vh_host_id v = None) && _) eqn:Ei; [done|].
  assert (bounded (set_sessions (set_epochs b ep)
    (mkStore (<[vh_host_id v := mkSession (ch_sid hello) (sr_keys resp) (wrap 0) None]> (by_host (sessions b)))
       (ss_cap (sessions b))))) as Hi.
  { unfold bounded in *. simpl. split; [|tauto]. rewrite map_size_insert.
    apply andb_false_iff in Ei. destruct (by_host (sessions b) !! vh_host_id v) eqn:El; simpl; [tauto|].
    destruct Ei as [Ei|Ei]; bool_to_prop; [done|lia]. }
  destruct (ev_link1 e); simpl; [|done]. apply bounded_publish.
  eapply bounded_put_session; [|exact Hi]. simpl. by rewrite lookup_insert_eq.
Qed.

Lemma bridge_step_bounded has_sink b ev : bounded b -> bounded (bridge_step ca has_sink b ev).
Proof.
  intros Hb. destruct ev; simpl.
  - unfold on_message. destruct (tenant_from_heartbeat topic).
    { unfold bounded in *. simpl. repeat split; try tauto. apply record_heartbeat_size. tauto. }
    destruct (tenant_from_hs_up topic) as [t|].
    { pose proof (handle_client_hello_bounded b t payload e Hb) as Hc.
      destruct (handle_client_hello ca b t payload e) as [b' [h|]]; simpl in *; [|done].
      apply bounded_shells. by apply bounded_filter_jobs. }
    destruct (tenant_from_ctrl_up topic); [by apply handle_ctrl_ack_bounded|].
    destruct (tenant_from_result_up topic); [by apply handle_result_bounded|].
    destruct (tenant_from_stream_up topic); [by apply handle_stream_up_bounded|].
    destruct (tenant_from_inventory_up topic) as [t|]; [|done]. destruct has_sink; [|done].
    pose proof (decode_inventory_bounded b t payload Hb) as Hi.
    destruct (decode_inventory b t payload) as [b' [snap|]]; simpl in *; [|done].
    case_decide as Hd; [|done]. unfold bounded in *. simpl. rewrite length_app. simpl.
    unfold MAX_INFLIGHT_INVENTORY_UPSERTS in *. repeat split; try tauto. lia.
  - by apply handle_command_bounded.
  - by apply bounded_filter_jobs.
  - unfold bounded in *. simpl. repeat split; try tauto.
    destruct Hb as (_ & _ & _ & _ & Hu & _). pose proof (length_delete_le (upserts b) i). lia.
  - apply bounded_results; [|done]. apply new_chan_bounded, Hb.
  - apply bounded_results; [|done]. apply alter_bounded; [|apply Hb]. intros [[] ? ?]; simpl; lia.
  - apply bounded_results; [|done]. apply alter_bounded; [|apply Hb]. done.
  - apply bounded_outputs; [|done]. apply new_chan_bounded, Hb.
  - apply bounded_outputs; [|done]. apply alter_bounded; [|apply Hb]. intros [[] ? ?]; simpl; lia.
  - apply bounded_outputs; [|done]. apply alter_bounded; [|apply Hb]. done.
Qed.

Lemma bridge_init_bounded (ep : E) (rv : R) : bounded (bridge_init ep rv).
Proof.
  unfold bounded, bridge_init. simpl. rewrite !map_size_empty.
  repeat split; try lia; apply map_Forall_empty.
Qed.

Lemma run_bridge_bounded has_sink b evs : bounded b -> bounded (run_bridge ca has_sink b evs).
Proof.
  revert b. induction evs as [|ev evs IH]; intros b Hb; simpl; [done|]. by apply IH, bridge_step_bounded.
Qed.

(** *** Epochs and revocations: only an admission touches the epoch store *)

Lemma publish_epochs b ok topic p : epochs (fst (publish b ok topic p)) = epochs b.
Proof. by destruct ok. Qed.

Lemma open_on_session_epochs b h env : epochs (fst (open_on_session b h env)) = epochs b.
Proof. unfold open_on_session. destruct (by_host _ !! _); [|done]. by destruct (open_uplink _ _). Qed.

Lemma handle_ctrl_ack_epochs b payload : epochs (handle_ctrl_ack b payload) = epochs b.
Proof.
  unfold handle_ctrl_ack. destruct (decode_msg _); [|done]. destruct (uuid_parse _); [|done].
  destruct (by_host _ !! _); [|done]. destruct (negb _); [done|]. apply open_on_session_epochs.
Qed.

Lemma handle_result_epochs b t payload : epochs (handle_result b t payload) = epochs b.
Proof.
  unfold handle_result. destruct (uuid_parse t) as [u|]; [|done]. destruct (decode_msg _) as [env|]; [|done].
  pose proof (open_on_session_epochs b (mkHostId u) env) as He.
  destruct (open_on_session b (mkHostId u) env) as [b' [pt|]]; simpl in He; [|done].
  destruct (decode_msg _) as [r|]; [|done]. destruct (pending b' !! _); [|done].
  by destruct (try_send _ _ _) as [m []]; [destruct (jr_body r) as [[]|]|..].
Qed.

Lemma decode_inventory_epochs b t payload : epochs (fst (decode_inventory b t payload)) = epochs b.
Proof.
  unfold decode_inventory. destruct (uuid_parse t) as [u|]; [|done]. destruct (decode_msg _) as [env|]; [|done].
  pose proof (open_on_session_epochs b (mkHostId u) env) as He.
  destruct (open_on_session b (mkHostId u) env) as [b' [pt|]]; simpl in He; [|done]. by destruct (decode_msg _).
Qed.

Lemma handle_stream_up_epochs b t payload e : epochs (handle_stream_up b t payload e) = epochs b.
Proof.
  unfold handle_stream_up. destruct (uuid_parse t) as [u|]; [|done].
  destruct (shells b !! _) as [rt|]; [|done]. destruct (decode_msg _) as [env|]; [|done].
  destruct (Route_open_uplink rt env) as [rt' [f|]]; [|done].
  destruct (try_send _ _ _) as [m []]; [destruct (sf_eof f)|done|]; simpl; try done;
    unfold close_shell_route; simpl; by rewrite publish_epochs.
Qed.

Lemma handle_command_epochs b cmd e : epochs (fst (handle_command b cmd e)) = epochs b.
Proof.
  destruct cmd as [h d ev| |h sid ra rows cols out|h sid data|h sid]; simpl; [| done | | |].
  - unfold handle_dispatch. destruct (bool_decide _); [done|]. case_decide; [done|].
    destruct (by_host _ !! h); [|done]. simpl. by destruct (ev_link1 e).
  - unfold open_shell. destruct (by_host _ !! h); [|done]. simpl. by destruct (ev_link1 e).
  - unfold shell_input. destruct (shells b !! h); [|done]. destruct (negb _); [done|]. simpl. by destruct (ev_link1 e).
  - unfold shell_close. destruct (shells b !! h); [|done]. destruct (negb _); [done|].
    unfold close_shell_route. simpl. by rewrite publish_epochs.
Qed.

Lemma handle_client_hello_epochs b t payload e :
  let '(b', r) := handle_client_hello ca b t payload e in
  (epochs b' = epochs b /\ r = None) \/
  exists hello v resp, check_client_hello ca b t payload e = Some (hello, v, resp) /\
    epochs b' = fst (epoch_admit (epochs b) (ev_epochs e) (vh_host_id v) (ch_epoch hello)) /\
    (forall h, r = Some h -> h = vh_host_id v /\
       epoch_admit (epochs b) (ev_epochs e) h (ch_epoch hello) = (epochs b', Ok true)).
Proof.
  unfold handle_client_hello. destruct (check_client_hello ca b t payload e) as [[[hello v] resp]|]; [|by left].
  destruct (epoch_admit _ _ _ _) as [ep r] eqn:Ea.
  assert (forall b' o, epochs b' = ep -> (forall h, o = Some h -> h = vh_host_id v /\ r = Ok true) ->
    (epochs b' = epochs b /\ o = None) \/
    exists hello0 v0 resp0, Some (hello, v, resp) = Some (hello0, v0, resp0) /\
    epochs b' = fst (epoch_admit (epochs b) (ev_epochs e) (vh_host_id v0) (ch_epoch hello0)) /\
    (forall h, o = Some h -> h = vh_host_id v0 /\
       epoch_admit (epochs b) (ev_epochs e) h (ch_epoch hello0) = (epochs b', Ok true))) as Hgoal.
  { intros b' o He Ho. right. exists hello, v, resp. split; [done|]. rewrite Ea. split; [done|].
    intros h Hh. destruct (Ho h Hh) as [-> ->]. by rewrite Ea, He. }
  destruct r as [[]|]; [|by apply Hgoal..].
  destruct (SessionStore_insert _ _ _ _) as [st []]; [|by apply Hgoal].
  pose proof (publish_epochs (set_sessions (set_epochs b ep) st) (ev_link1 e) (hs_down (host_str (vh_host_id v)))
    (encode_msg (mkServerHello (ch_sid hello) (sr_server_eph resp) (sr_sig resp)))) as Hp.
  destruct (publish _ (ev_link1 e) _ _) as [b1 []]; simpl in Hp; [|by apply Hgoal].
  apply Hgoal; [by rewrite publish_epochs|]. naive_solver.
Qed.

(** The epoch store across one event. *)
Lemma bridge_step_epochs has_sink b ev :
  epochs (bridge_step ca has_sink b ev) = epochs b \/
  exists f h e, epochs (bridge_step ca has_sink b ev) = fst (epoch_admit (epochs b) f h e).
Proof.
  destruct ev; simpl; try (by left); [|left; apply handle_command_epochs].
  unfold on_message.
  destruct (tenant_from_heartbeat topic); [by left|].
  destruct (tenant_from_hs_up topic) as [t|].
  { pose proof (handle_client_hello_epochs b t payload e) as Hc.
    destruct (handle_client_hello ca b t payload e) as [b' r].
    destruct Hc as [[He ->]|(hello & v & resp & _ & He & _)]; [by left|]. right.
    exists (ev_epochs e), (vh_host_id v), (ch_epoch hello). by destruct r. }
  left. destruct (tenant_from_ctrl_up topic); [apply handle_ctrl_ack_epochs|].
  destruct (tenant_from_result_up topic); [apply handle_result_epochs|].
  destruct (tenant_from_stream_up topic); [apply handle_stream_up_epochs|].
  destruct (tenant_from_inventory_up topic) as [t|]; [|done]. destruct has_sink; [|done].
  pose proof (decode_inventory_epochs b t payload) as He.
  destruct (decode_inventory b t payload) as [b' [snap|]]; simpl in *; [|done]. by case_decide.
Qed.

(** A message that establishes a session is a hello whose epoch was just admitted. *)
Lemma on_message_established has_sink b topic payload e h :
  snd (on_message ca has_sink b topic payload e) = Some h ->
  exists hello, decode_msg payload = Ok hello /\
    epoch_admit (epochs b) (ev_epochs e) h (ch_epoch hello) =
      (epochs (fst (on_message ca has_sink b topic payload e)), Ok true).
Proof.
  unfold on_message.
  destruct (tenant_from_heartbeat topic); [done|].
  destruct (tenant_from_hs_up topic) as [t|].
  { pose proof (handle_client_hello_epochs b t payload e) as Hc.
    destruct (handle_client_hello ca b t payload e) as [b' r].
    destruct Hc as [[He ->]|(hello & v & resp & Hk & He & Hr)]; [done|].
    destruct r as [h'|]; simpl; [|done]. intros [= <-]. destruct (Hr h' eq_refl) as [-> Ha].
    exists hello. split; [by apply check_client_hello_inv in Hk as [? _]|done]. }
  destruct (tenant_from_ctrl_up topic); [done|]. destruct (tenant_from_result_up topic); [done|].
  destruct (tenant_from_stream_up topic); [done|].
  destruct (tenant_from_inventory_up topic); [|done]. destruct has_sink; [|done].
  by destruct (decode_inventory b s payload) as [b' [snap|]].
Qed.

(** The epochs under which a host's sessions were established, in order. *)
Definition established_epochs (h : HostId) (l : list (HostId * ClientHello)) : list Z :=
  (fun p => bval (ch_epoch p.2)) <$> filter (fun p => p.1 = h) l.

Lemma step_above `{!EpochsLaws E} has_sink b ev h m :
  high_water (epochs b) h = Some m ->
  exists m', high_water (epochs (bridge_step ca has_sink b ev)) h = Some m' /\ m <= m'.
Proof.
  intros Hm. destruct (bridge_step_epochs has_sink b ev) as [->|(f & h' & e & ->)].
  - exists m. split; [done|lia].
  - by apply admit_monotone.
Qed.

Lemma established_sorted `{!EpochsLaws E} has_sink b evs h :
  StronglySorted Z.lt (established_epochs h (established ca has_sink b evs)) /\
  Forall (above (high_water (epochs b) h)) (established_epochs h (established ca has_sink b evs)).
Proof.
  revert b. induction evs as [|ev evs IH]; intros b; simpl; [split; constructor|].
  assert (StronglySorted Z.lt (established_epochs h (established ca has_sink (bridge_step ca has_sink b ev) evs)) /\
    Forall (above (high_water (epochs b) h))
      (established_epochs h (established ca has_sink (bridge_step ca has_sink b ev) evs))) as Hrest.
  { destruct (IH (bridge_step ca has_sink b ev)) as [Hs Ha]. split; [done|].
    eapply Forall_impl; [exact Ha|]. intros x Hx. destruct (high_water (epochs b) h) as [m|] eqn:Em; [|done].
    destruct (step_above has_sink b ev h m Em) as (m' & Hm' & Hle). rewrite Hm' in Hx. simpl in *. lia. }
  destruct ev; try done.
  destruct (snd (on_message ca has_sink b topic payload e)) as [h'|] eqn:Ee; [|done].
  apply on_message_established in Ee as (hello & Hd & Ha). rewrite Hd.
  change (fst (on_message ca has_sink b topic payload e)) with (bridge_step ca has_sink b (EvMessage topic payload e)) in Ha.
  apply admit_true in Ha as [Hab Hhw].
  unfold established_epochs. rewrite filter_cons. cbn [fst]. case_decide as Hh; [|exact Hrest]. subst h'.
  destruct (IH (bridge_step ca has_sink b (EvMessage topic payload e))) as [Hs Hf]. rewrite Hhw in Hf.
  split; constructor; [done|done|done|by apply Hrest].
Qed.

End BridgeLemmas.

(** ** End-to-end lemmas *)


Section Lemmas.
Context `{Crypto} `{Prost} `{UuidLib} `{X509} {E R : Type} `{Epochs E} `{Revocations R}.
Implicit Type b : Bridge E R.

Lemma respond_handshake_Ok ca seed sid epoch ceph sig pk cert resp :
  respond_handshake ca seed sid epoch ceph sig pk cert = Ok resp ->
  respond seed sid epoch ceph sig pk cert (ca_key_pem ca) = Ok resp.
Proof. unfold respond_handshake. by destruct (respond _ _ _ _ _ _ _ _); simpl; [intros [= ->]|]. Qed.

Lemma try_send_other {A} (m : gmap nat (Chan A)) id x j : j <> id -> fst (try_send m id x) !! j = m !! j.
Proof.
  intros Hj. unfold try_send. destruct (m !! id); [|done]. destruct (ch_rx_open _); [|done]. simpl.
  case_decide; [done|]. simpl. by rewrite lookup_insert_ne.
Qed.

Lemma open_uplink_Some s env s' pt :
  open_uplink s env = (s', Some pt) ->
  open_envelope (cs_keys s) AgentToCoord env = Ok pt /\ stale (cs_recv_high s) (env_seq env) = false.
Proof.
  unfold open_uplink. destruct (open_envelope _ _ _) as [p|]; [|done].
  destruct (stale _ _); [done|]. by intros [= _ <-].
Qed.

Lemma open_on_session_results b h env : results (fst (open_on_session b h env)) = results b /\
  pending (fst (open_on_session b h env)) = pending b.
Proof. unfold open_on_session. destruct (by_host _ !! _); [|done]. by destruct (open_uplink _ _). Qed.

(** What changes the operators' result streams when a result frame arrives. *)
Lemma handle_result_inv b t payload :
  results (handle_result b t payload) = results b \/
  exists u env s pt r job,
    uuid_parse t = Some u /\ decode_msg payload = Ok env /\
    by_host (sessions b) !! mkHostId u = Some s /\
    open_envelope (cs_keys s) AgentToCoord env = Ok pt /\ stale (cs_recv_high s) (env_seq env) = false /\
    decode_msg pt = Ok r /\ pending b !! (mkHostId u, jr_job_id r) = Some job /\
    results (handle_result b t payload) = fst (try_send (results b) (pj_events job) (mkHostId u, r)).
Proof.
  unfold handle_result. destruct (uuid_parse t) as [u|]; [|by left].
  destruct (decode_msg payload) as [env|]; [|by left].
  pose proof (open_on_session_results b (mkHostId u) env) as [Hr Hp].
  destruct (open_on_session b (mkHostId u) env) as [b' [pt|]] eqn:Eo; simpl in Hr, Hp; [|by left].
  unfold open_on_session in Eo. destruct (by_host (sessions b) !! mkHostId u) as [s|] eqn:Es; [|done].
  destruct (open_uplink s env) as [s' pt'] eqn:Eu. injection Eo as Hb' ->.
  apply open_uplink_Some in Eu as [Hopen Hst].
  destruct (decode_msg pt) as [r|] eqn:Ed; [|by left]. rewrite Hp.
  destruct (pending b !! (mkHostId u, jr_job_id r)) as [job|] eqn:Ej; [|by left].
  right. exists u, env, s, pt, r, job. repeat (split; [done|]). rewrite Hr.
  destruct (try_send (results b) (pj_events job) (mkHostId u, r)) as [m []] eqn:Et;
    [destruct (jr_body r) as [[]|]|..]; done.
Qed.

Lemma fail_jobs_other msg l m id :
  id ∉ (fun p : (HostId * string) * PendingJob => pj_events p.2) <$> l -> fail_jobs msg l m !! id = m !! id.
Proof.
  unfold fail_jobs. revert m. induction l as [|p l IH]; intros m Hn; [done|]. simpl in *.
  apply not_elem_of_cons in Hn as [Hne Hn]. rewrite IH by done. by apply try_send_other.
Qed.

End Lemmas.

(** The two ends of a completed handshake hold the same keys. *)
Lemma finish_agrees `{CryptoLaws} seed sid epoch cert pem ini hello sseed pk ca_pem resp :
  Initiator_start seed sid epoch cert pem = Ok (ini, hello) ->
  respond sseed sid epoch (hc_client_eph hello) (hc_sig hello) pk cert ca_pem = Ok resp ->
  length (sr_server_eph resp) = 32%nat /\
  Initiator_finish ini (sr_server_eph resp) (sr_sig resp) (ecdsa_public ca_pem) = Ok (sr_keys resp).
Proof.
  intros (s & -> & -> & He & Hs)%start_inv (_ & t & -> & Ht & Hsg & Hd)%respond_inv. rewrite He in *.
  unfold Initiator_finish. simpl. rewrite Ht. split; [apply x25519_public_length|].
  rewrite (verify_sign _ _ _ Hsg), derive_comm, Hd. done.
Qed.

(** An admitted hello, with everything it made the bridge do. *)
Lemma handle_client_hello_Some `{Crypto, Prost, UuidLib, X509} {E R} `{Epochs E, Revocations R}
    ca (b b' : Bridge E R) t payload e h :
  ev_link2 e = true ->
  handle_client_hello ca b t payload e = (b', Some h) ->
  exists hello v resp, decode_msg payload = Ok hello /\ h = vh_host_id v /\
    respond (ev_seed e) (bytes_of (ch_sid hello)) (ch_epoch hello) (ch_client_eph hello) (ch_sig hello)
      (vh_public_key_sec1 v) (ch_cert_der hello) (ca_key_pem ca) = Ok resp /\
    by_host (sessions b') !! h = Some (mkSession (ch_sid hello) (sr_keys resp) (wrapping_add (wrap 0) 1) None) /\
    published b' = published b ++
      [(hs_down (host_str h), encode_msg (mkServerHello (ch_sid hello) (sr_server_eph resp) (sr_sig resp)));
       (ctrl_down (host_str h), encode_msg (seal_envelope (sr_keys resp) CoordToAgent (host_str h) (ch_sid hello)
          (wrap 0) KindControl CTRL_SESSION_READY))].
Proof.
  intros Hl2. unfold handle_client_hello.
  destruct (check_client_hello ca b t payload e) as [[[hello v] resp]|] eqn:Ec; [|done].
  destruct (epoch_admit _ _ _ _) as [ep [[]|]]; [|done..].
  destruct (SessionStore_insert _ _ _ _) as [st []]; [|done].
  destruct (ev_link1 e); [|done]. simpl. rewrite Hl2. intros [= <- <-]. simpl.
  apply check_client_hello_inv in Ec as (Hd & _ & _ & _ & _ & _ & _ & Hr).
  exists hello, v, resp. split; [done|]. split; [done|].
  split; [by apply respond_handshake_Ok in Hr|]. rewrite lookup_insert_eq. split; [done|].
  by rewrite <- app_assoc.
Qed.


(** ** Properties *)

(** C4. Only an authenticated hello creates or replaces a session.  Whatever arrives,
    the session of a host is untouched but for its counters moving forward (so a replay
    guard never rewinds), unless the event is a ClientHello on that host's own tenant
    whose certificate this CA verified as that host, which is not revoked, whose
    signature over the session id, epoch and ephemeral key verifies under the
    certificate's key, and whose epoch was just admitted. *)
Theorem sessions_only_by_authentication `{Crypto, Prost, UuidLib, X509} {E R} `{Epochs E, Revocations R}
    ca has_sink (b : Bridge E R) ev h :
  let b' := bridge_step ca has_sink b ev in
  sess_evolves (by_host (sessions b) !! h) (by_host (sessions b') !! h) \/
  exists topic payload e hello v resp q,
    ev = EvMessage topic payload e /\ tenant_from_hs_up topic = Some (tenant (host_str h)) /\
    decode_msg payload = Ok hello /\
    verify_host_cert ca (ch_cert_der hello) (ev_wall e) = Ok v /\ vh_host_id v = h /\
    is_revoked (revocations b) (ev_revocations e) h = Ok false /\
    verify_sig (vh_public_key_sec1 v)
      (client_transcript (bytes_of (ch_sid hello)) (ch_epoch hello) (ch_client_eph hello)) (ch_sig hello) = Ok tt /\
    snd (epoch_admit (epochs b) (ev_epochs e) h (ch_epoch hello)) = Ok true /\
    respond (ev_seed e) (bytes_of (ch_sid hello)) (ch_epoch hello) (ch_client_eph hello) (ch_sig hello)
      (vh_public_key_sec1 v) (ch_cert_der hello) (ca_key_pem ca) = Ok resp /\
    by_host (sessions b') !! h = Some (mkSession (ch_sid hello) (sr_keys resp) q None).
Proof.
  intros b'. destruct (bridge_step_sessions ca has_sink b ev)
    as [He|(topic & payload & e & t & hello & v & resp & -> & Ht & [Hc Ha] & q & _ & Hs)]; [left; apply He|].
  fold b' in Hs. destruct (decide (vh_host_id v = h)) as [<-|Hne].
  - right. apply check_client_hello_inv in Hc as (Hd & _ & _ & Hv & Hten & _ & Hr & Hresp).
    apply respond_handshake_Ok in Hresp. pose proof (respond_inv _ _ _ _ _ _ _ _ _ Hresp) as [Hsig _].
    exists topic, payload, e, hello, v, resp, q. rewrite Ht, Hten, Hs, lookup_insert_eq. done.
  - left. rewrite Hs, lookup_insert_ne by done. apply sess_evolves_refl.
Qed.

(** No hello establishes twice: over any run of the bridge on a lawful epoch store,
    the sessions a host establishes carry strictly increasing epochs, all above the
    stored mark; a captured ClientHello never works again, also after a restart. *)
Theorem hellos_never_replayed `{Crypto, Prost, UuidLib, X509} {E R} `{EpochsLaws E, Revocations R}
    ca has_sink (b : Bridge E R) evs h :
  StronglySorted Z.lt (established_epochs h (established ca has_sink b evs)) /\
  Forall (above (high_water (epochs b) h)) (established_epochs h (established ca has_sink b evs)).
Proof. exact (established_sorted ca has_sink b evs h). Qed.

(** Resources stay bounded: in every state the bridge can reach, under any traffic
    and any operator behaviour, sessions, tracked hosts, pending jobs, inventory upserts
    in flight and every operator channel are within their caps. *)
Theorem bridge_resources_bounded `{Crypto, Prost, UuidLib, X509} {E R} `{Epochs E, Revocations R}
    ca has_sink (ep : E) (rv : R) evs :
  bounded (run_bridge ca has_sink (bridge_init ep rv) evs).
Proof.
  apply run_bridge_bounded, bridge_init_bounded.
Qed.

(** A result reaches an operator only from the host it was dispatched to: if a
    frame changes any operator's result stream, it opened under the session keys of the
    host owning the topic, was not a replay, and names a job pending on that very host,
    whose operator receives it and no other. *)
Theorem results_reach_their_operator `{Crypto, Prost, UuidLib, X509} {E R} `{Epochs E, Revocations R}
    (b : Bridge E R) t payload id :
  results (handle_result b t payload) !! id <> results b !! id ->
  exists u env s pt r job,
    uuid_parse t = Some u /\ decode_msg payload = Ok env /\
    by_host (sessions b) !! mkHostId u = Some s /\
    open_envelope (cs_keys s) AgentToCoord env = Ok pt /\ stale (cs_recv_high s) (env_seq env) = false /\
    decode_msg pt = Ok r /\ pending b !! (mkHostId u, jr_job_id r) = Some job /\ pj_events job = id /\
    results (handle_result b t payload) = fst (try_send (results b) id (mkHostId u, r)).
Proof.
  intros Hne. destruct (handle_result_inv b t payload)
    as [Heq|(u & env & s & pt & r & job & ? & ? & ? & ? & ? & ? & ? & Hres)]; [by rewrite Heq in Hne|].
  exists u, env, s, pt, r, job. destruct (decide (pj_events job = id)) as [<-|Hid]; [done|].
  destruct Hne. rewrite Hres. by apply try_send_other.
Qed.

(** A dispatch is delivered or its failure reported.  Either one frame is published
    to the host's dispatch topic, which opens under the host's session keys to exactly
    the dispatch, and the job is pending with a deadline; or nothing becomes pending
    and a terminal error is sent on the operator's stream. *)
Theorem dispatch_delivered_or_reported `{CryptoLaws, ProstLaws, UuidLib, X509} {E R} `{Epochs E, Revocations R}
    (b : Bridge E R) host dispatch events e :
  let b' := handle_dispatch b host dispatch events e in
  (exists s env, by_host (sessions b) !! host = Some s /\
     published b' = published b ++ [(dispatch_down (host_str host), encode_msg env)] /\
     env_seq env = cs_send_seq s /\ env_sid env = cs_sid s /\
     (open_envelope (cs_keys s) CoordToAgent env = Ok (encode_msg dispatch) /\
      decode_msg (encode_msg dispatch) = Ok dispatch) /\
     pending b' = <[(host, d_job_id dispatch) := mkPending events (ev_instant e + PENDING_TTL)]> (pending b)) \/
  (exists msg, pending b' = pending b /\ published b' = published b /\
     results b' = fst (try_send (results b) events (host, error_result (d_job_id dispatch) msg))).
Proof.
  intros b'. unfold b', handle_dispatch, report. clear b'.
  destruct (bool_decide _); [right; by eexists|]. case_decide; [right; by eexists|].
  destruct (by_host _ !! host) as [s|]; [|right; by eexists]. simpl.
  destruct (ev_link1 e); simpl; [|right; by eexists].
  left. eexists s, _. repeat (split; [done|]). split; [|done].
  split; [apply open_seal_envelope|apply decode_encode].
Qed.

(** A reconnect ends the old session's work: a message that establishes a session
    for a host leaves no pending job and no shell of that host, and does not touch any
    job or shell of another host. *)
Theorem reconnect_ends_old_work `{Crypto, Prost, UuidLib, X509} {E R} `{Epochs E, Revocations R}
    ca has_sink (b : Bridge E R) topic payload e b' h :
  on_message ca has_sink b topic payload e = (b', Some h) ->
  (forall job, pending b' !! (h, job) = None) /\ shells b' !! h = None /\
  (forall h' job, h' <> h -> pending b' !! (h', job) = pending b !! (h', job)) /\
  (forall h', h' <> h -> shells b' !! h' = shells b !! h').
Proof.
  unfold on_message.
  destruct (tenant_from_heartbeat topic); [done|].
  destruct (tenant_from_hs_up topic) as [t|].
  - assert (forall b1 r, handle_client_hello ca b t payload e = (b1, r) ->
      pending b1 = pending b /\ shells b1 = shells b) as Hk.
    { intros b1 r. unfold handle_client_hello. destruct (check_client_hello _ _ _ _ _) as [[[hl v] rs]|]; [|by intros [= <- _]].
      destruct (epoch_admit _ _ _ _) as [ep [[]|]]; [|by intros [= <- _]..].
      destruct (SessionStore_insert _ _ _ _) as [st []]; [|by intros [= <- _]].
      destruct (ev_link1 e); simpl; [destruct (ev_link2 e)|]; by intros [= <- _]. }
    destruct (handle_client_hello ca b t payload e) as [b1 [h1|]] eqn:Eh; [|done]. intros [= <- <-].
    destruct (Hk _ _ eq_refl) as [Hp Hs]. simpl. rewrite Hp, Hs. split; [|split; [|split]].
    + intros job. apply map_lookup_filter_None. right. intros x _. simpl. auto.
    + apply lookup_delete_eq.
    + intros h' job Hne. destruct (pending b !! (h', job)) as [x|] eqn:Ex.
      * by apply map_lookup_filter_Some.
      * apply map_lookup_filter_None. by left.
    + intros h' Hne. by apply lookup_delete_ne.
  - destruct (tenant_from_ctrl_up topic); [done|]. destruct (tenant_from_result_up topic); [done|].
    destruct (tenant_from_stream_up topic); [done|].
    destruct (tenant_from_inventory_up topic); [|done]. destruct has_sink; [|done].
    by destruct (decode_inventory b s payload) as [b1 [snap|]].
Qed.

(** The coordinator has no reason to refuse a hello of [h] with this session id and epoch: the
    id is not that of its live session, the host is not revoked, the epoch is new, there is
    room, and the broker link works. *)
Record would_admit `{Epochs E, Revocations R} (b : Bridge E R) (e : Env) (h : HostId) (sid : string) (epoch : u64) : Prop := {
  wa_sid : forall s, by_host (sessions b) !! h = Some s -> cs_sid s <> sid;
  wa_revoked : is_revoked (revocations b) (ev_revocations e) h = Ok false;
  wa_epoch : snd (epoch_admit (epochs b) (ev_epochs e) h epoch) = Ok true;
  wa_room : is_Some (by_host (sessions b) !! h) \/ (size (by_host (sessions b)) < ss_cap (sessions b))%nat;
  wa_link1 : ev_link1 e = true;
  wa_link2 : ev_link2 e = true
}.
(** Its random source and its key work, and the exchange with the agent's ephemeral is
    contributory. *)
Definition can_answer `{Crypto} (ca : EmbeddedCa) (e : Env) (client_eph : bytes) : Prop :=
  exists t, ev_seed e = Some t /\ was_contributory (x25519_dh t client_eph) = true /\ forall m, is_Some (ecdsa_sign (ca_key_pem ca) m).

(** An honest hello passes every check. *)
Lemma honest_hello_admitted `{CryptoLaws, ProstLaws, UuidLaws, X509} {E R} `{Epochs E, Revocations R}
    ca (b : Bridge E R) id epoch fresh seed hs payload e h :
  start_handshake id epoch fresh seed = Ok (hs, payload) ->
  verify_host_cert ca (ai_cert_der id) (ev_wall e) = Ok (mkVerified h (ecdsa_public (ai_signing_key_pem id))) ->
  would_admit b e h (hk_sid hs) epoch -> can_answer ca e (hs_public (ini_eph (hk_initiator hs))) ->
  exists b', handle_client_hello ca b (tenant (host_str h)) payload e = (b', Some h).
Proof.
  intros Hst Hv [Hsid Hrev Hep Hroom Hl1 Hl2] (t & Hseed & Hcon & Hsign). unfold start_handshake in Hst.
  destruct (Initiator_start _ _ _ _ _) as [[ini hc]|] eqn:Ei; [|done]. simpl in Hst. injection Hst as <- <-.
  destruct (start_inv _ _ _ _ _ _ _ Ei) as (s & -> & -> & Hce & Hsg). simpl in *.
  set (sid := uuid_to_string fresh) in *. set (hello := mkClientHello sid (hc_client_eph hc) (ai_cert_der id) (hc_sig hc) epoch).
  assert (exists resp, respond_handshake ca (ev_seed e) (bytes_of sid) epoch (hc_client_eph hc) (hc_sig hc)
            (ecdsa_public (ai_signing_key_pem id)) (ai_cert_der id) = Ok resp) as [resp Hresp].
  { unfold respond_handshake, respond. rewrite Hce, (verify_sign _ _ _ Hsg), Hseed. cbn [Handshake_new ok_or hs_public].
    destruct (Hsign (server_transcript (bytes_of sid) (x25519_public s) (x25519_public t))) as [g Hg]. unfold sign. rewrite Hg. cbn [ok_or].
    destruct (derive_contributory t (x25519_public s) (session_binding (bytes_of sid) (x25519_public s) (x25519_public t) (ai_cert_der id)) Hcon) as [ks ->].
    eexists. reflexivity. }
  assert (check_client_hello ca b (tenant (host_str h)) (encode_msg hello) e = Some (hello, mkVerified h (ecdsa_public (ai_signing_key_pem id)), resp)) as Hc.
  { unfold check_client_hello. rewrite decode_encode. cbn [ok]. unfold array32. rewrite decide_True by (simpl; rewrite Hce; apply x25519_public_length).
    assert (is_empty sid || (128 <? Z.of_nat (String.length sid)) = false) as Hlen.
    { unfold sid. rewrite uuid_to_string_length. pose proof (uuid_to_string_length fresh). by destruct (uuid_to_string fresh). }
    cbn [ch_sid ch_cert_der hello]. rewrite Hlen, Hv. cbn [ok vh_host_id]. rewrite bool_decide_eq_true_2 by done. cbn [negb].
    assert (match SessionStore_get (sessions b) h with Some s => bool_decide (cs_sid s = sid) | None => false end = false) as ->.
    { unfold SessionStore_get. destruct (by_host (sessions b) !! h) as [a|] eqn:Ea; [|done]. apply bool_decide_eq_false_2. by apply Hsid. }
    rewrite Hrev. cbn [ch_epoch ch_client_eph ch_sig hello vh_public_key_sec1]. by rewrite Hresp. }
  unfold handle_client_hello. rewrite Hc. cbn [vh_host_id ch_epoch ch_sid hello].
  destruct (epoch_admit (epochs b) (ev_epochs e) h epoch) as [ep r]. simpl in Hep. subst r.
  unfold SessionStore_insert. cbn [sessions set_epochs].
  assert (bool_decide (by_host (sessions b) !! h = None) && bool_decide (ss_cap (sessions b) <= size (by_host (sessions b)))%nat = false) as ->.
  { apply andb_false_iff. destruct Hroom as [[a Ha]|Hr]; [left; apply bool_decide_eq_false_2; by rewrite Ha|right; apply bool_decide_eq_false_2; lia]. }
  rewrite Hl1. simpl. rewrite Hl2. simpl. eauto.
Qed.

(** C8. An honest hello yields a live end-to-end session.  When the agent's certificate
    verifies as host [h] and the coordinator has no reason to refuse (its session id and epoch
    are new, the host is not revoked, there is room, both random sources, the key and the
    broker link work), the hello the agent builds makes the coordinator establish a session;
    the agent accepts the published ServerHello against the pinned CA, both ends hold the same
    keys and id, the session-ready beacon opens at the agent, and the acknowledgement the agent
    then seals opens at the coordinator. *)
Theorem session_established_end_to_end `{CryptoLaws, ProstLaws, UuidLaws, X509} {E R} `{Epochs E, Revocations R}
    ca (b : Bridge E R) id epoch fresh seed hs payload e h :
  start_handshake id epoch fresh seed = Ok (hs, payload) ->
  ai_ca_pubkey_sec1 id = ecdsa_public (ca_key_pem ca) ->
  verify_host_cert ca (ai_cert_der id) (ev_wall e) = Ok (mkVerified h (ecdsa_public (ai_signing_key_pem id))) ->
  would_admit b e h (hk_sid hs) epoch -> can_answer ca e (hs_public (ini_eph (hk_initiator hs))) ->
  exists b' sh beacon est est' ack s env,
    handle_client_hello ca b (tenant (host_str h)) payload e = (b', Some h) /\
    published b' = published b ++ [(hs_down (host_str h), sh); (ctrl_down (host_str h), beacon)] /\
    finish_handshake hs id sh = Ok est /\ confirm_session est id beacon = (est', Ok ack) /\
    by_host (sessions b') !! h = Some s /\ cs_keys s = est_keys est' /\ cs_sid s = est_sid est' /\
    decode_msg ack = Ok env /\ snd (open_uplink s env) = Some CTRL_SESSION_ACK.
Proof.
  intros Hst Hca Hv Hwa Hans. destruct (honest_hello_admitted ca b id epoch fresh seed hs payload e h Hst Hv Hwa Hans) as [b' Hh].
  pose proof Hh as (hello & v & resp & Hd & -> & Hr & Hs & Hp)%handle_client_hello_Some; [|apply Hwa]. exists b'.
  unfold start_handshake in Hst.
  destruct (Initiator_start _ _ _ _ _) as [[ini hc]|] eqn:Ei; [|done]. simpl in Hst. injection Hst as <- <-.
  rewrite decode_encode in Hd. injection Hd as <-. simpl in *.
  destruct (finish_agrees _ _ _ _ _ _ _ _ _ _ _ Ei Hr) as [Hlen Hf].
  set (keys := sr_keys resp) in *. set (sid := uuid_to_string fresh) in *.
  exists (encode_msg (mkServerHello sid (sr_server_eph resp) (sr_sig resp))),
    (encode_msg (seal_envelope keys CoordToAgent (host_str (vh_host_id v)) sid (wrap 0) KindControl CTRL_SESSION_READY)),
    (mkEstablished keys sid (wrap 0) None), (mkEstablished keys sid (wrapping_add (wrap 0) 1) (Some (wrap 0))),
    (encode_msg (seal_envelope keys AgentToCoord (ai_host_id id) sid (wrap 0) KindControl CTRL_SESSION_ACK)),
    (mkSession sid keys (wrapping_add (wrap 0) 1) None),
    (seal_envelope keys AgentToCoord (ai_host_id id) sid (wrap 0) KindControl CTRL_SESSION_ACK).
  split; [done|]. split; [done|]. split; [|split].
  - unfold finish_handshake. rewrite decode_encode. cbn [map_err sh_sid hk_sid].
    rewrite bool_decide_eq_true_2 by done. cbn [negb sh_server_eph sh_sig hk_initiator].
    unfold array32. rewrite decide_True by done. cbn [ok_or]. by rewrite Hca, Hf.
  - unfold confirm_session. rewrite decode_encode. cbn [env_sid seal_envelope est_sid].
    rewrite bool_decide_eq_true_2 by done. unfold open_downlink. cbn [negb est_keys].
    rewrite (open_seal_envelope keys). cbn [est_recv_high accept_recv stale env_seq seal_envelope].
    by rewrite bool_decide_eq_true_2.
  - repeat (split; [done|]). split; [apply decode_encode|].
    unfold open_uplink. simpl. by rewrite open_seal_envelope.
Qed.

(** A session whose ServerHello could not be published still replaces the host's old
    session, but the message is not reported as establishing: the old session's jobs
    and shells stay. *)
Lemma failed_server_hello_keeps_old_work `{Crypto, Prost, UuidLib, X509} {E R} `{Epochs E, Revocations R}
    ca has_sink (b : Bridge E R) topic t payload e hello v resp st :
  tenant_from_heartbeat topic = None -> tenant_from_hs_up topic = Some t ->
  check_client_hello ca b t payload e = Some (hello, v, resp) ->
  snd (epoch_admit (epochs b) (ev_epochs e) (vh_host_id v) (ch_epoch hello)) = Ok true ->
  SessionStore_insert (sessions b) (vh_host_id v) (ch_sid hello) (sr_keys resp) = (st, true) ->
  ev_link1 e = false ->
  let '(b', r) := on_message ca has_sink b topic payload e in
  r = None /\ sessions b' = st /\ pending b' = pending b /\ shells b' = shells b.
Proof.
  intros Hhb Hhs Hc Ha Hi Hl. unfold on_message, handle_client_hello. rewrite Hhb, Hhs, Hc.
  destruct (epoch_admit _ _ _ _) as [ep r]. simpl in Ha. subst r. cbn [sessions set_epochs]. rewrite Hi. simpl. by rewrite Hl.
Qed.

(** ** Witnesses *)

Definition demo_session : Session := mkSession "sid" (mkKeys (bytes_of "kc") (bytes_of "ka")) (wrap 1) None.
Definition demo_result : JobResult := mkResult "job" (Some (BChunk (mkChunk (stream_i32 Stdout) (bytes_of "hi")))).
Definition demo_frame : bytes :=
  encode_msg (seal_envelope (cs_keys demo_session) AgentToCoord "h" "sid" (wrap 0) KindControl (encode_msg demo_result)).
Definition demo_bridge : Bridge EpochRegistry RevocationRegistry :=
  mkBridge (mkStore {[demo_host := demo_session]} MAX_SESSIONS) ∅ {[(demo_host, "job") := mkPending 0 100]} ∅
    {[0%nat := mkChan [] 4 true]} ∅ [] (mkEpochRegistry ∅) (mkRevocationRegistry ∅) [].
Definition demo_env : Env := mkEnv 2000 50 (Some (bytes_of "seed-b")) NoFault NoFault true true.

Lemma results_reach_their_operator_witness :
  let t := uuid_simple (host_uuid demo_host) in
  results (handle_result demo_bridge t demo_frame) !! 0%nat <> results demo_bridge !! 0%nat /\
  exists job, pending demo_bridge !! (demo_host, "job") = Some job /\ pj_events job = 0%nat.
Proof.
  intros t.
  assert (results (handle_result demo_bridge t demo_frame) !! 0%nat <> results demo_bridge !! 0%nat) as Hne.
  { vm_compute. intros Hc. discriminate Hc. }
  split; [exact Hne|].
  destruct (results_reach_their_operator demo_bridge t demo_frame 0 Hne)
    as (u & env & s & pt & r & job & _ & _ & _ & _ & _ & _ & _ & Hj & _).
  exists (mkPending 0 100). split; reflexivity.
Defined.

Lemma dispatch_delivered_or_reported_witness :
  let d := mkDispatch "job2" "exec" "root" (bytes_of "p") in
  let b' := handle_dispatch demo_bridge demo_host d 0 demo_env in
  (exists env, published b' = [(dispatch_down (host_str demo_host), encode_msg env)] /\
     open_envelope (cs_keys demo_session) CoordToAgent env = Ok (encode_msg d)) \/ published b' = [].
Proof.
  intros d b'.
  destruct (dispatch_delivered_or_reported demo_bridge demo_host d 0 demo_env)
    as [(s & env & Hs & Hp & _ & _ & [Ho _] & _)|(msg & _ & Hp & _)].
  - left. exists env. split; [exact Hp|].
    assert (Some demo_session = Some s) as Heq by (rewrite <- Hs; vm_compute; reflexivity).
    injection Heq as <-. exact Ho.
  - right. exact Hp.
Defined.

Definition demo_id : AgentIdentity := mkIdentity (host_str demo_host) "host-key" demo_cert (bytes_of "ca-key").
Definition demo_hello : bytes :=
  match start_handshake demo_id (wrap 5) (wrap 99) (Some (bytes_of "seed-a")) with Ok (_, m) => m | Err _ => [] end.
Definition demo_evs : list Event :=
  [EvMessage (hs_up (host_str demo_host)) demo_hello demo_env;
   EvMessage (hs_up (host_str demo_host)) demo_hello demo_env].

Lemma hellos_never_replayed_witness :
  established_epochs demo_host (established demo_ca false demo_bridge demo_evs) = [5] /\
  StronglySorted Z.lt (established_epochs demo_host (established demo_ca false demo_bridge demo_evs)).
Proof.
  split; [vm_compute; reflexivity|].
  apply (hellos_never_replayed demo_ca false demo_bridge demo_evs demo_host).
Defined.

Lemma reconnect_ends_old_work_witness :
  exists b', on_message demo_ca false demo_bridge (hs_up (host_str demo_host)) demo_hello demo_env = (b', Some demo_host) /\
    pending demo_bridge !! (demo_host, "job") <> None /\ pending b' !! (demo_host, "job") = None.
Proof.
  exists (fst (on_message demo_ca false demo_bridge (hs_up (host_str demo_host)) demo_hello demo_env)).
  assert (snd (on_message demo_ca false demo_bridge (hs_up (host_str demo_host)) demo_hello demo_env) = Some demo_host)
    as Hs by (vm_compute; reflexivity).
  assert (on_message demo_ca false demo_bridge (hs_up (host_str demo_host)) demo_hello demo_env =
    (fst (on_message demo_ca false demo_bridge (hs_up (host_str demo_host)) demo_hello demo_env), Some demo_host))
    as He by (rewrite <- Hs; apply surjective_pairing).
  split; [exact He|]. split; [vm_compute; intros Hc; discriminate Hc|].
  apply (reconnect_ends_old_work demo_ca false demo_bridge _ _ _ _ _ He).
Defined.

Lemma session_established_end_to_end_witness :
  exists hs (b' : Bridge EpochRegistry RevocationRegistry), start_handshake demo_id (wrap 5) (wrap 99) (Some (bytes_of "seed-a")) = Ok (hs, demo_hello) /\
    handle_client_hello demo_ca demo_bridge (tenant (host_str demo_host)) demo_hello demo_env = (b', Some demo_host) /\
    exists est est' sh beacon ack, published b' = [(hs_down (host_str demo_host), sh); (ctrl_down (host_str demo_host), beacon)] /\
      finish_handshake hs demo_id sh = Ok est /\ confirm_session est demo_id beacon = (est', Ok ack).
Proof.
  destruct (start_handshake demo_id (wrap 5) (wrap 99) (Some (bytes_of "seed-a"))) as [[hs m]|] eqn:Es;
    [|vm_compute in Es; discriminate Es].
  assert (demo_hello = m) as Hm by (unfold demo_hello; rewrite Es; reflexivity). rewrite Hm.
  destruct (session_established_end_to_end demo_ca demo_bridge demo_id (wrap 5) (wrap 99) (Some (bytes_of "seed-a")) hs m demo_env demo_host Es)
    as (b' & sh & beacon & est & est' & ack & s & env & Hh & Hp & Hf & Hc & _).
  - reflexivity.
  - vm_compute. reflexivity.
  - vm_compute in Es. injection Es as <- _. split; [|vm_compute; reflexivity..| |reflexivity|reflexivity].
    + intros s Hs. vm_compute in Hs. injection Hs as <-. vm_compute. intros Hc. discriminate Hc.
    + left. vm_compute. eauto.
  - vm_compute in Es. injection Es as <- _. exists (bytes_of "seed-b"). split; [vm_compute; reflexivity|].
    split; [vm_compute; reflexivity|]. intros x. eexists. reflexivity.
  - exists hs, b'. split; [reflexivity|]. split; [exact Hh|]. exists est, est', sh, beacon, ack. split; [exact Hp|]. split; [exact Hf|exact Hc].
Defined.
