(* ===== verification/Forward.v ===== *)
(** * The bridge's intake (osa-coordinator/src/broker.rs, [forward_events] and the loop's ends)

    The thread that moves what the embedded broker delivers into the bridge's bounded
    queue, sharing it with the bridge task: one system of two concurrent parties.  The
    theorem relates it to the bridge alone, so that what holds of the bridge for every
    sequence of events holds behind the queue. *)
From S2P Require Import Prelude Proto Concrete Topics Seal Handshake Registries Session Ca Broker.

Definition BRIDGE_QUEUE : nat := 1024.

(** What the link's [recv] returns: a forwarded publish (its topic decoded), another
    notification or none, or an error. *)
Inductive Received := RForward (topic : string) (payload : bytes) | ROther | RError.

(** The two parties: the thread with its counter, the channel between them, the bridge.
    [nt_in] and [nt_lost] record what the broker handed over while the thread ran and how
    many of those were shed; [nt_done] the events the bridge has processed. *)
Record Intake (E R : Type) := mkIntake {
  nt_queue : list (string * bytes);
  nt_thread : bool;          (** the thread still holds the sender *)
  nt_task : bool;            (** the bridge task still holds the receiver *)
  nt_shed : u64;
  nt_bridge : Bridge E R;
  nt_in : list (string * bytes); nt_lost : nat; nt_done : list Event
}.
Arguments mkIntake {E R} nt_queue nt_thread nt_task nt_shed nt_bridge nt_in nt_lost nt_done.
Arguments nt_queue {E R} _. Arguments nt_thread {E R} _. Arguments nt_task {E R} _. Arguments nt_shed {E R} _.
Arguments nt_bridge {E R} _. Arguments nt_in {E R} _. Arguments nt_lost {E R} _. Arguments nt_done {E R} _.

(** Who moves: the thread, the bridge receiving, the bridge on another arm of its
    [select!] (or an operator on a channel). *)
Inductive Move := MThread (r : Received) | MReceive (e : Env) | MBridge (ev : Event).

Section Intake.
Context `{Crypto} `{Prost} `{UuidLib} `{X509} {E R : Type} `{Epochs E} `{Revocations R}.
Variable ca : EmbeddedCa.
Variable sink : bool.
Implicit Type n : Intake E R.

(** One turn of [forward_events].  [try_send]: closed once the task is gone, full at the
    capacity. *)
Definition forward_events n (r : Received) : Intake E R :=
  if negb (nt_thread n) then n
  else match r with
  | RForward topic payload =>
      let m := (topic, payload) in
      if negb (nt_task n)
      then mkIntake (nt_queue n) false (nt_task n) (nt_shed n) (nt_bridge n) (nt_in n ++ [m]) (S (nt_lost n)) (nt_done n)
      else if decide (BRIDGE_QUEUE <= length (nt_queue n))%nat
      then mkIntake (nt_queue n) true true (wrapping_add (nt_shed n) 1) (nt_bridge n) (nt_in n ++ [m]) (S (nt_lost n)) (nt_done n)
      else mkIntake (nt_queue n ++ [m]) true true (nt_shed n) (nt_bridge n) (nt_in n ++ [m]) (nt_lost n) (nt_done n)
  | ROther => n
  | RError => mkIntake (nt_queue n) false (nt_task n) (nt_shed n) (nt_bridge n) (nt_in n) (nt_lost n) (nt_done n)
  end.

Definition advance n queue (ev : Event) : Intake E R :=
  mkIntake queue (nt_thread n) (nt_task n) (nt_shed n) (bridge_step ca sink (nt_bridge n) ev) (nt_in n) (nt_lost n) (nt_done n ++ [ev]).

(** The bridge's receive: [None], so the end of the loop, only when the queue is empty
    and the thread is gone; pending while it may still send. *)
Definition receive n (e : Env) : Intake E R :=
  if negb (nt_task n) then n
  else match nt_queue n with
  | (topic, payload) :: queue => advance n queue (EvMessage topic payload e)
  | [] => if nt_thread n then n
          else mkIntake [] false false (nt_shed n) (nt_bridge n) (nt_in n) (nt_lost n) (nt_done n)
  end.

Definition is_message (ev : Event) : bool := match ev with EvMessage _ _ _ => true | _ => false end.

Definition move n (m : Move) : Intake E R :=
  match m with
  | MThread r => forward_events n r
  | MReceive e => receive n e
  | MBridge ev => if nt_task n && negb (is_message ev) then advance n (nt_queue n) ev else n
  end.

Definition run_intake n (ms : list Move) : Intake E R := foldl move n ms.
Definition intake_init (ep : E) (rv : R) : Intake E R :=
  mkIntake [] true true (wrap 0) (bridge_init ep rv) [] 0 [].

(** ** Lemmas *)

Definition message_of (ev : Event) : option (string * bytes) :=
  match ev with EvMessage topic payload _ => Some (topic, payload) | _ => None end.

Record intake_inv (b0 : Bridge E R) n : Prop := {
  ni_bridge : nt_bridge n = run_bridge ca sink b0 (nt_done n);
  ni_bound : (length (nt_queue n) <= BRIDGE_QUEUE)%nat;
  ni_order : sublist (omap message_of (nt_done n) ++ nt_queue n) (nt_in n);
  ni_count : (length (nt_in n) = length (omap message_of (nt_done n) ++ nt_queue n) + nt_lost n)%nat;
  ni_task : nt_task n = true \/ (nt_queue n = [] /\ nt_thread n = false)
}.

Lemma sublist_all {A} (l k : list A) : sublist l k -> length l = length k -> l = k.
Proof.
  induction 1 as [|x l k Hs IH|x l k Hs IH]; simpl; intros Hl; [done|f_equal; auto|].
  apply sublist_length in Hs. lia.
Qed.

Lemma run_bridge_snoc b evs ev : run_bridge ca sink b (evs ++ [ev]) = bridge_step ca sink (run_bridge ca sink b evs) ev.
Proof. unfold run_bridge. by rewrite foldl_app. Qed.

Lemma forward_inv b0 n r : intake_inv b0 n -> intake_inv b0 (forward_events n r).
Proof.
  intros [Hb Hq Ho Hc Ht]. unfold forward_events. destruct (nt_thread n) eqn:Eth; [|by constructor; simpl; rewrite ?Eth in *].
  destruct Ht as [Ht|[_ ?]]; [|congruence]. rewrite Ht.
  destruct r as [topic payload| |]; simpl; [|split; auto..].
  destruct (decide _) as [Hf|Hf]; split; simpl; auto.
  - by apply sublist_inserts_r.
  - rewrite length_app. simpl. lia.
  - rewrite length_app. simpl. lia.
  - rewrite app_assoc. by apply sublist_app.
  - rewrite app_assoc, !(length_app _ [_]), Hc. simpl. lia.
Qed.

Lemma receive_inv b0 n e : intake_inv b0 n -> intake_inv b0 (receive n e).
Proof.
  intros [Hb Hq Ho Hc Ht]. unfold receive. destruct (nt_task n) eqn:Et; [|by constructor; simpl; rewrite ?Et in *].
  simpl. destruct (nt_queue n) as [|[topic payload] queue] eqn:Eq.
  - destruct (nt_thread n); [constructor; rewrite ?Eq, ?Et; auto|]. split; simpl; auto.
  - split; simpl; [by rewrite run_bridge_snoc, <- Hb|simpl in Hq; lia| | |by left].
    + rewrite omap_app, <- app_assoc. exact Ho.
    + rewrite omap_app, <- app_assoc. exact Hc.
Qed.

Lemma move_inv b0 n m : intake_inv b0 n -> intake_inv b0 (move n m).
Proof.
  intros Hn. destruct m as [r|e|ev]; [by apply forward_inv|by apply receive_inv|]. simpl.
  destruct (nt_task n && negb (is_message ev)) eqn:Eg; [|done]. apply andb_true_iff in Eg as [Et Em].
  destruct Hn as [Hb Hq Ho Hc Ht]. assert (message_of ev = None) as Hm by by destruct ev.
  split; simpl; [by rewrite run_bridge_snoc, <- Hb|done| | |by left].
  - rewrite omap_app. simpl. by rewrite Hm, app_nil_r.
  - rewrite omap_app. simpl. by rewrite Hm, app_nil_r.
Qed.

Lemma run_intake_inv b0 n ms : intake_inv b0 n -> intake_inv b0 (run_intake n ms).
Proof. revert n. induction ms as [|m ms IH]; intros n Hn; [done|]. apply IH. by apply move_inv. Qed.

(** A move loses a message only by finding the queue full. *)
Lemma shed_when_full n m : nt_task n = true \/ (nt_queue n = [] /\ nt_thread n = false) ->
  nt_lost (move n m) = nt_lost n \/ (nt_lost (move n m) = S (nt_lost n) /\ (BRIDGE_QUEUE <= length (nt_queue n))%nat).
Proof.
  intros Ht. destruct m as [r|e|ev]; simpl.
  - unfold forward_events. destruct (nt_thread n) eqn:Eth; [|by left]. destruct Ht as [Ht|[_ ?]]; [|congruence]. rewrite Ht. simpl.
    destruct r; [|by left..]. destruct (decide _); [by right|by left].
  - left. unfold receive. by destruct (nt_task n), (nt_queue n) as [|[]], (nt_thread n).
  - left. by destruct (nt_task n && negb (is_message ev)).
Qed.

End Intake.

(** ** Properties *)

(** C29. The queue between the broker and the bridge is bounded and transparent.  For every
    interleaving of the receive thread, the bridge and the operators: the queue holds at
    most 1024 messages; the bridge is in exactly the state it reaches alone on the events
    it processed; the messages among them are, with those still queued, in order a
    sub-sequence of what the broker handed over, each at most once, and all of it but the
    shed ones; the next move sheds a message only if the queue then holds 1024, and otherwise a
    message handed over is queued last; and the bridge stops only after the thread ended and the queue ran dry. *)
Theorem intake_is_transparent `{Crypto, Prost, UuidLib, X509} {E R} `{Epochs E, Revocations R} ca sink ep rv (ms : list Move) :
  let n := run_intake (E := E) (R := R) ca sink (intake_init ep rv) ms in
  let seen := omap message_of (nt_done n) ++ nt_queue n in
  (length (nt_queue n) <= 1024)%nat /\
  nt_bridge n = run_bridge ca sink (bridge_init ep rv) (nt_done n) /\
  sublist seen (nt_in n) /\ (length (nt_in n) = length seen + nt_lost n)%nat /\
  (nt_lost n = 0%nat -> seen = nt_in n) /\
  (forall m, let n' := move ca sink n m in nt_lost n' = nt_lost n \/ (nt_lost n' = S (nt_lost n) /\ length (nt_queue n) = 1024%nat)) /\
  (forall topic payload, nt_thread n = true -> (length (nt_queue n) < 1024)%nat ->
     nt_queue (move ca sink n (MThread (RForward topic payload))) = nt_queue n ++ [(topic, payload)]) /\
  (nt_task n = false -> nt_queue n = [] /\ nt_thread n = false).
Proof.
  intros n seen. assert (intake_inv ca sink (bridge_init ep rv) n) as [Hb Hq Ho Hc Ht].
  { apply run_intake_inv. split; simpl; auto. apply Nat.le_0_l. }
  split; [done|]. split; [done|]. split; [done|]. split; [done|]. split; [|split; [|split]].
  - intros Hl. apply sublist_all; [done|]. unfold seen. lia.
  - intros m n'. destruct (shed_when_full ca sink n m Ht) as [?|[? ?]]; [by left|right; unfold BRIDGE_QUEUE in *; split; [done|lia]].
  - intros topic payload Hth Hlt. simpl. unfold forward_events. rewrite Hth. destruct Ht as [-> |[_ ?]]; [|congruence]. simpl.
    destruct (decide (BRIDGE_QUEUE <= length (nt_queue n))%nat); [unfold BRIDGE_QUEUE in *; lia|done].
  - intros Hf. destruct Ht as [Ht|?]; [congruence|done].
Qed.
