(* ===== verification/Service.v ===== *)
(** * The gRPC services (osa-coordinator/src/service.rs)

    The operator-facing and agent-facing handlers: authorization and audit, selector
    resolution, the exec fan-out, interactive shells, token minting, revocation,
    enrollment, renewal and audit export.  Requests run concurrently: an exec fan-out
    and a shell are tasks that move one await at a time, on the shared audit log and
    the command channel of the bridge. *)
From S2P Require Import Prelude Proto Concrete Text Seal Policy AuditLog Registries Ca Broker.

Definition MAX_FANOUT : nat := 1024.

(** A gRPC status: its code and message. *)
Inductive Status :=
| StInvalidArgument (m : string)
| StPermissionDenied (m : string)
| StNotFound (m : string)
| StInternal (m : string)
| StUnavailable (m : string)
| StResourceExhausted (m : string)
| StUnauthenticated (m : string).
#[global] Instance Status_eq_dec : EqDecision Status.
Proof. solve_decision. Defined.

(** ** The ports the service is built on *)

(** [PolicyEngine]. *)
Class PolicyPort (P : Type) := policy_authorize : P -> string -> ActionDescriptor -> result unit PortError.
#[global] Instance rbac_port `{UuidLib} : PolicyPort RbacPolicyEngine := authorize.

(** [AuditLog], with what a log promises: an acknowledged append is on record, a failed
    one may or may not be, and nothing else changes. *)
Class AuditPort (L : Type) := {
  audit_append : L -> Fault -> AuditRecord -> L * result unit PortError;
  audit_export : L -> Fault -> result (list AuditEntry) PortError
}.
Class AuditLaws (L : Type) `{Crypto} `{AuditPort L} := {
  log_records : L -> list AuditRecord;
  log_ok : L -> Prop;                       (** the adapter's representation invariant *)
  append_keeps : forall l f r, log_ok l -> log_ok (fst (audit_append l f r));
  append_ok : forall l f r l', audit_append l f r = (l', Ok tt) -> log_records l' = log_records l ++ [r];
  append_err : forall l f r l' e, audit_append l f r = (l', Err e) ->
    log_records l' = log_records l \/ log_records l' = log_records l ++ [r];
  export_exact : forall l f es, log_ok l -> Z.of_nat (length (log_records l)) <= 2 ^ 63 -> audit_export l f = Ok es ->
    es = foldl Memory_append [] (log_records l)
}.

(** [JoinTokens]: the environment of a mint and of a redemption. *)
Record MintEnv := mkMintEnv { me_clock1 : Z; me_clock2 : Z; me_rng : option bytes; me_faults : Fault * Fault * Fault; me_dup : string }.
Record RedeemEnv := mkRedeemEnv { rd_clock : Z; rd_faults : Fault * Fault }.
Class JoinTokens (T : Type) := {
  token_mint : T -> MintEnv -> Z -> T * result (string * i64) MintError;
  token_redeem : T -> RedeemEnv -> string -> T * result unit RedeemError
}.
#[global] Instance memory_join_tokens : JoinTokens JoinTokenRegistry := {|
  token_mint t e ttl := JoinTokenRegistry_mint t ttl (me_clock1 e) (me_clock2 e) (me_rng e);
  token_redeem t e token := JoinTokenRegistry_redeem t token (rd_clock e)
|}.
(** The Postgres adapter: its configuration and its table. *)
Record PgTokens := mkPgTokens { pt_max_ttl : Z; pt_cap : nat; pt_table : TokenTable }.
#[global] Instance pg_join_tokens `{Crypto} : JoinTokens PgTokens := {|
  token_mint t e ttl :=
    let '(f1, f2, f3) := me_faults e in
    let '(tb, r) := PgJoinTokens_mint (pt_max_ttl t) (pt_cap t) (pt_table t) ttl (me_clock1 e) (me_rng e) f1 f2 f3 (me_dup e) in
    (mkPgTokens (pt_max_ttl t) (pt_cap t) tb, r);
  token_redeem t e token :=
    let '(tb, r) := PgJoinTokens_redeem (pt_table t) token (rd_clock e) (fst (rd_faults e)) (snd (rd_faults e)) in
    (mkPgTokens (pt_max_ttl t) (pt_cap t) tb, r)
|}.

#[global] Instance memory_audit_port `{Crypto} : AuditPort (list AuditEntry) := {|
  audit_append l _ r := (Memory_append l r, Ok tt);
  audit_export l _ := Memory_export l
|}.

(** The Postgres adapter: its table. *)
Record PgAudit := mkPgAudit { pa_table : list AuditRow }.
#[global] Instance pg_audit_port `{Crypto} : AuditPort PgAudit := {|
  audit_append l f r := let '(t, res) := Pg_append (pa_table l) f r in (mkPgAudit t, res);
  audit_export l f := match f with
                      | NoFault => Pg_export (pa_table l)
                      | NotSent msg | ReplyLost msg => Err (Backend msg)
                      end
|}.

(** ** Pure helpers *)

(** [operator_of]: the subject the interceptor bound to the request, if any. *)
Definition operator_of (bound : option string) : string :=
  match bound with Some s => s | None => ANONYMOUS_SUBJECT end.

(** [hosts.retain(|h| seen.insert(h))]. *)
Fixpoint dedup (seen : gset HostId) (l : list HostId) : list HostId :=
  match l with
  | [] => []
  | h :: l => if bool_decide (h ∈ seen) then dedup seen l else h :: dedup ({[h]} ∪ seen) l
  end.

Definition outcome_error (msg : string) : JobResult :=
  mkResult EmptyString (Some (BOutcome (mkOutcome (Some (TermError msg)) false false))).

Definition to_shell_server_msg (f : StreamFrame) : ShellServerMsg :=
  if sf_eof f then SmClosed true else SmOutput (sf_data f).

Section Helpers.
Context `{UuidLib}.

Definition to_exec_event (host : HostId) (r : JobResult) : ExecEvent :=
  mkExecEvent (uuid_to_string (host_uuid host))
    (match jr_body r with
     | Some (BChunk c) => Some (EvChunk c)
     | Some (BOutcome o) => Some (EvOutcome o)
     | None => None
     end).

(** The comma-separated list of a selector. *)
Fixpoint parse_hosts (toks : list string) : result (list HostId) Status :=
  match toks with
  | [] => Ok []
  | tok :: toks =>
      let tok := trim tok in
      if is_empty tok then parse_hosts toks
      else match uuid_parse tok with
           | None => Err (StInvalidArgument "selector token is not a host_id")
           | Some u => let? l := parse_hosts toks in Ok (mkHostId u :: l)
           end
  end.

(** [resolve]: [online] is the bridge's reply, [None] if it is gone. *)
Definition resolve (selector : string) (online : option (list HostId)) : result (list HostId) Status :=
  let? hosts :=
    if bool_decide (selector = "*") then ok_or online (StUnavailable "dispatch bridge unavailable")
    else parse_hosts (split_on "," selector) in
  let hosts := dedup ∅ hosts in
  if decide (MAX_FANOUT < length hosts)%nat
  then Err (StInvalidArgument ("selector resolves to " +:+ (to_dec (Z.of_nat (length hosts)) +:+ " hosts (max 1024)")))
  else Ok hosts.

(** An exported entry on the wire. *)
Definition wire_entry (e : AuditEntry) : WireAuditEntry :=
  mkWireAudit (ae_seq e) (ts_unix (ae_record e)) (subject (ae_record e)) (kind (ae_record e)) (target (ae_record e))
    (run_as (ae_record e)) (Decision_as_str (decision (ae_record e))) (ae_prev_hash e) (ae_hash e).

End Helpers.

(** ** State *)

(** A fan-out task: the hosts still to do, and the host that was allowed and is about to
    be handed to the bridge. *)
Record ExecTask := mkExecTask {
  et_subject : string; et_kind : string; et_run_as : string; et_params_hash : bytes; et_params : bytes;
  et_hosts : list HostId; et_allowed : option HostId; et_events : nat
}.
(** A shell: authorized and about to be opened, or live. *)
Inductive ShellPhase := Authorized (run_as : string) (rows cols : u32) (output : nat) | Live.
Record ShellTask := mkShellTask { sk_host : HostId; sk_stream_id : string; sk_phase : ShellPhase }.

Record Service (T R L : Type) := mkService {
  sv_tokens : T; sv_revocations : R; sv_audit : L;
  sv_commands : list BridgeCommand;              (** handed to the bridge, in order *)
  sv_execs : gmap nat ExecTask;
  sv_shells : gmap nat ShellTask;
  sv_events : list (nat * HostResult)            (** terminal events the service itself sent *)
}.
Arguments mkService {T R L}.
Arguments sv_tokens {T R L} s.
Arguments sv_revocations {T R L} s.
Arguments sv_audit {T R L} s.
Arguments sv_commands {T R L} s.
Arguments sv_execs {T R L} s.
Arguments sv_shells {T R L} s.
Arguments sv_events {T R L} s.

(** What the environment decides for one step: the clock (nanoseconds, and in the
    seconds the certificate authority works in), the fault of the audit or
    revocation store, whether the bridge takes a command, its reply on online hosts, and
    a fresh UUID. *)
Record SvEnv := mkSvEnv {
  se_now : Z; se_secs : Z; se_audit : Fault; se_revocations : Fault; se_bridge : bool; se_online : list HostId; se_uuid : Uuid
}.


Section Service.
Context `{Crypto} `{UuidLib} `{X509} {P T R L : Type} `{PolicyPort P} `{JoinTokens T} `{Revocations R} `{AuditPort L}.
Variable ca : EmbeddedCa.
Variable policy : P.
Variable default_ttl : Z.
Implicit Type s : Service T R L.

Definition set_audit s x : Service T R L := mkService (sv_tokens s) (sv_revocations s) x (sv_commands s) (sv_execs s) (sv_shells s) (sv_events s).
Definition set_tokens s x : Service T R L := mkService x (sv_revocations s) (sv_audit s) (sv_commands s) (sv_execs s) (sv_shells s) (sv_events s).
Definition set_revocations s x : Service T R L := mkService (sv_tokens s) x (sv_audit s) (sv_commands s) (sv_execs s) (sv_shells s) (sv_events s).
Definition set_execs s x : Service T R L := mkService (sv_tokens s) (sv_revocations s) (sv_audit s) (sv_commands s) x (sv_shells s) (sv_events s).
Definition set_sv_shells s x : Service T R L := mkService (sv_tokens s) (sv_revocations s) (sv_audit s) (sv_commands s) (sv_execs s) x (sv_events s).
Definition send_event s (ch : nat) (ev : HostResult) : Service T R L :=
  mkService (sv_tokens s) (sv_revocations s) (sv_audit s) (sv_commands s) (sv_execs s) (sv_shells s) (sv_events s ++ [(ch, ev)]).
(** [bridge.send]: refused when the bridge is gone. *)
Definition bridge_send s (ok : bool) (cmd : BridgeCommand) : Service T R L * bool :=
  if ok then (mkService (sv_tokens s) (sv_revocations s) (sv_audit s) (sv_commands s ++ [cmd]) (sv_execs s) (sv_shells s) (sv_events s), true)
  else (s, false).

(** ** Authorization *)

Definition authorize_and_audit s (subject : string) (action : ActionDescriptor) (e : SvEnv)
    : Service T R L * result Decision_ Status :=
  let decide_on (d : Decision_) :=
    let r := mkRecord (unix_seconds (se_now e)) subject (ad_kind action) (ad_target action) (ad_run_as action) d in
    match audit_append (sv_audit s) (se_audit e) r with
    | (l, Ok _) => (set_audit s l, Ok d)
    | (l, Err _) => (set_audit s l, Err (StInternal "audit log unavailable"))
    end in
  match policy_authorize policy subject action with
  | Ok _ => decide_on Allow
  | Err Denied => decide_on Deny
  | Err _ => (s, Err (StInternal "authorization failed"))
  end.

Definition authorize_shell_open s (subject : string) (open : ShellOpen) (e : SvEnv)
    : Service T R L * result HostId Status :=
  match uuid_parse (so_host_id open) with
  | None => (s, Err (StInvalidArgument "host_id is not a UUID"))
  | Some u =>
      let action := mkAction "shell" (so_host_id open) (so_run_as open) [] in
      match authorize_and_audit s subject action e with
      | (s, Err st) => (s, Err st)
      | (s, Ok Allow) => (s, Ok (mkHostId u))
      | (s, Ok Deny) => (s, Err (StPermissionDenied "not authorized to open a shell here"))
      end
  end.

(** ** Operator handlers *)

Definition mint_token s (ttl_seconds : u64) (e : MintEnv) : Service T R L * result (string * i64) Status :=
  let ttl := if bval ttl_seconds =? 0 then default_ttl else bval ttl_seconds * 1000000000 in
  match token_mint (sv_tokens s) e ttl with
  | (t, Ok minted) => (set_tokens s t, Ok minted)
  | (t, Err MintFull) => (set_tokens s t, Err (StResourceExhausted "join token capacity reached"))
  | (t, Err _) => (set_tokens s t, Err (StInternal "token mint failed"))
  end.

Definition revoke_host s (host_id : string) (e : SvEnv) : Service T R L * result unit Status :=
  match uuid_parse host_id with
  | None => (s, Err (StInvalidArgument "host_id is not a UUID"))
  | Some u =>
      match revoke (sv_revocations s) (se_revocations e) (mkHostId u) (se_now e) with
      | (r, Ok _) => (set_revocations s r, Ok tt)
      | (r, Err _) => (set_revocations s r, Err (StInternal "revocation store unavailable"))
      end
  end.

Definition dispatch s (bound : option string) (req : DispatchRequest) (e : SvEnv) : Service T R L * result unit Status :=
  match dr_action req with
  | None => (s, Err (StInvalidArgument "missing action"))
  | Some action =>
      if is_empty (ad_kind action) then (s, Err (StInvalidArgument "action kind is empty"))
      else match authorize_and_audit s (operator_of bound) action e with
           | (s, Err st) => (s, Err st)
           | (s, Ok Allow) => (s, Ok tt)
           | (s, Ok Deny) => (s, Err (StPermissionDenied "not authorized for this action"))
           end
  end.

(** [exec]: the request up to the spawned fan-out task [i], whose events go to channel
    [i]. *)
Definition exec s (i : nat) (bound : option string) (req : DispatchRequest) (e : SvEnv) : Service T R L * result unit Status :=
  match dr_action req with
  | None => (s, Err (StInvalidArgument "missing action"))
  | Some action =>
      if is_empty (ad_kind action) then (s, Err (StInvalidArgument "action kind is empty"))
      else
        let ask := bool_decide (ad_target action = "*") in
        let s := if ask then fst (bridge_send s (se_bridge e) CmdOnlineHosts) else s in
        match resolve (ad_target action) (if se_bridge e then Some (se_online e) else None) with
        | Err st => (s, Err st)
        | Ok [] => (s, Err (StNotFound "no hosts matched the selector"))
        | Ok hosts =>
            (set_execs s (<[i := mkExecTask (operator_of bound) (ad_kind action) (ad_run_as action)
                                   (ad_params_hash action) (dr_params req) hosts None i]> (sv_execs s)), Ok tt)
        end
  end.

Definition set_exec s (i : nat) (t : ExecTask) (hosts : list HostId) (allowed : option HostId) : Service T R L :=
  set_execs s (<[i := mkExecTask (et_subject t) (et_kind t) (et_run_as t) (et_params_hash t) (et_params t)
                        hosts allowed (et_events t)]> (sv_execs s)).

(** One step of a fan-out: authorize and audit the next host, or hand the allowed one to
    the bridge; a host that is not dispatched gets a terminal event. *)
Definition exec_step s (i : nat) (e : SvEnv) : Service T R L :=
  match sv_execs s !! i with
  | None => s
  | Some t =>
      match et_allowed t with
      | Some host =>
          let d := mkDispatch (uuid_to_string (se_uuid e)) (et_kind t) (et_run_as t) (et_params t) in
          let '(s, sent) := bridge_send s (se_bridge e) (CmdDispatch host d (et_events t)) in
          let s := if sent then s else send_event s (et_events t) (host, outcome_error "dispatch bridge unavailable") in
          set_exec s i t (et_hosts t) None
      | None =>
          match et_hosts t with
          | [] => set_execs s (delete i (sv_execs s))
          | host :: hosts =>
              let action := mkAction (et_kind t) (uuid_to_string (host_uuid host)) (et_run_as t) (et_params_hash t) in
              match authorize_and_audit s (et_subject t) action e with
              | (s, Ok Allow) => set_exec s i t hosts (Some host)
              | (s, Ok Deny) =>
                  set_exec (send_event s (et_events t) (host, outcome_error "not authorized for this host")) i t hosts None
              | (s, Err _) =>
                  set_exec (send_event s (et_events t) (host, outcome_error "authorization unavailable")) i t hosts None
              end
          end
      end
  end.

(** [shell]: the first message must open; then the task [i] opens the shell. *)
Definition shell s (i : nat) (bound : option string) (first : option ShellClientMsg) (e : SvEnv)
    : Service T R L * result unit Status :=
  match first with
  | Some (CmOpen open) =>
      match authorize_shell_open s (operator_of bound) open e with
      | (s, Err st) => (s, Err st)
      | (s, Ok host) =>
          (set_sv_shells s (<[i := mkShellTask host (uuid_to_string (se_uuid e))
                                    (Authorized (so_run_as open) (so_rows open) (so_cols open) i)]> (sv_shells s)), Ok tt)
      end
  | Some _ => (s, Err (StInvalidArgument "first shell message must be ShellOpen"))
  | None => (s, Err (StInvalidArgument "shell stream closed before ShellOpen"))
  end.

(** One step of a shell task: the opening command, then one client message per step
    ([None]: the client stream ended). *)
Definition shell_step s (i : nat) (msg : option ShellClientMsg) (e : SvEnv) : Service T R L :=
  match sv_shells s !! i with
  | None => s
  | Some t =>
      match sk_phase t with
      | Authorized run_as rows cols output =>
          match bridge_send s (se_bridge e) (CmdOpenShell (sk_host t) (sk_stream_id t) run_as rows cols output) with
          | (s, true) => set_sv_shells s (<[i := mkShellTask (sk_host t) (sk_stream_id t) Live]> (sv_shells s))
          | (s, false) => set_sv_shells s (delete i (sv_shells s))
          end
      | Live =>
          let close s := set_sv_shells (fst (bridge_send s (se_bridge e) (CmdShellClose (sk_host t) (sk_stream_id t))))
                           (delete i (sv_shells s)) in
          match msg with
          | Some (CmInput data) =>
              match bridge_send s (se_bridge e) (CmdShellInput (sk_host t) (sk_stream_id t) data) with
              | (s, true) => s
              | (s, false) => close s
              end
          | Some (CmClose _) => close s
          | Some (CmOpen _) => s
          | None => close s
          end
      end
  end.

Definition export_audit s (e : SvEnv) : result (list WireAuditEntry) Status :=
  match audit_export (sv_audit s) (se_audit e) with
  | Err _ => Err (StInternal "audit log unavailable")
  | Ok es => Ok (wire_entry <$> es)
  end.

(** ** Agent handlers *)

Record EnrollResponse := mkEnrollResponse { er_host_id : string; er_cert : bytes; er_ca_root : bytes }.

Definition enroll s (join_token : string) (csr : bytes) (e : SvEnv) (re : RedeemEnv)
    : Service T R L * result EnrollResponse Status :=
  match validate_csr csr with
  | Err _ => (s, Err (StInvalidArgument "malformed CSR"))
  | Ok _ =>
      match token_redeem (sv_tokens s) re join_token with
      | (t, Err _) => (set_tokens s t, Err (StPermissionDenied "invalid or expired join token"))
      | (t, Ok _) =>
          let s := set_tokens s t in
          let host_id := mkHostId (se_uuid e) in
          match issue ca host_id csr (se_secs e) with
          | Err (Invalid _) => (s, Err (StInvalidArgument "malformed CSR"))
          | Err _ => (s, Err (StInternal "certificate issuance failed"))
          | Ok cert => (s, Ok (mkEnrollResponse (uuid_to_string (se_uuid e)) cert (ca_cert_der ca)))
          end
      end
  end.

(** [renew] up to and including its revocation check, and the issuance after it: the store may
    change in between. *)
Definition renew_check s (current_cert csr : bytes) (now : Z) (e : SvEnv) : result HostId Status :=
  match validate_renewal ca current_cert csr now with
  | Err (Invalid m) => Err (StPermissionDenied m)
  | Err _ => Err (StInternal "certificate renewal failed")
  | Ok host_id =>
      match is_revoked (sv_revocations s) (se_revocations e) host_id with
      | Err _ => Err (StInternal "revocation check unavailable")
      | Ok true => Err (StPermissionDenied "identity revoked")
      | Ok false => Ok host_id
      end
  end.
Definition renew_issue (host_id : HostId) (csr : bytes) (secs : Z) : result bytes Status :=
  map_err (fun _ => StInternal "certificate renewal failed") (issue ca host_id csr secs).

(** [renew], undisturbed: [now_check] and [se_secs] are the clocks of the validation and the
    issuance. *)
Definition renew s (current_cert csr : bytes) (now_check : Z) (e : SvEnv) : result bytes Status :=
  let? host_id := renew_check s current_cert csr now_check e in
  renew_issue host_id csr (se_secs e).

(** ** Requests and tasks, interleaved *)

Inductive SvEvent :=
| SvExec (i : nat) (bound : option string) (req : DispatchRequest) (e : SvEnv)
| SvExecStep (i : nat) (e : SvEnv)
| SvShell (i : nat) (bound : option string) (first : option ShellClientMsg) (e : SvEnv)
| SvShellStep (i : nat) (msg : option ShellClientMsg) (e : SvEnv)
| SvDispatch (bound : option string) (req : DispatchRequest) (e : SvEnv)
| SvMint (ttl : u64) (e : MintEnv)
| SvRevoke (host_id : string) (e : SvEnv)
| SvEnroll (token : string) (csr : bytes) (e : SvEnv) (re : RedeemEnv).

(** Task numbers are fresh: a request whose number is taken is not served. *)
Definition service_step s (ev : SvEvent) : Service T R L :=
  match ev with
  | SvExec i bound req e => match sv_execs s !! i with None => fst (exec s i bound req e) | Some _ => s end
  | SvExecStep i e => exec_step s i e
  | SvShell i bound first e => match sv_shells s !! i with None => fst (shell s i bound first e) | Some _ => s end
  | SvShellStep i msg e => shell_step s i msg e
  | SvDispatch bound req e => fst (dispatch s bound req e)
  | SvMint ttl e => fst (mint_token s ttl e)
  | SvRevoke h e => fst (revoke_host s h e)
  | SvEnroll token csr e re => fst (enroll s token csr e re)
  end.

Definition run_service s (evs : list SvEvent) : Service T R L := foldl service_step s evs.

Definition service_init (t : T) (r : R) (l : L) : Service T R L := mkService t r l [] ∅ ∅ [].

End Service.

(** ** Specification *)

(** What a command needs a grant for: capability, host and target user. *)
Abbreviation Grant := (string * option Uuid * string)%type.

Definition needs (cmd : BridgeCommand) : list Grant :=
  match cmd with
  | CmdDispatch h d _ => [(d_kind d, Some (host_uuid h), d_run_as d)]
  | CmdOpenShell h _ run_as _ _ _ => [("shell", Some (host_uuid h), run_as)]
  | _ => []
  end.

(** What an allow record of the audit log grants. *)
Definition grant_of `{UuidLib} (r : AuditRecord) : option Grant :=
  match decision r with Allow => Some (kind r, uuid_parse (target r), run_as r) | Deny => None end.

(** A record says what the policy decides. *)
Definition record_honest {P} `{PolicyPort P} (policy : P) (r : AuditRecord) : Prop :=
  exists hash, policy_authorize policy (subject r) (mkAction (kind r) (target r) (run_as r) hash) =
    match decision r with Allow => Ok tt | Deny => Err Denied end.

(** Grants audited for tasks that have not used them yet. *)
Definition exec_pending (t : ExecTask) : list Grant :=
  match et_allowed t with Some h => [(et_kind t, Some (host_uuid h), et_run_as t)] | None => [] end.
Definition shell_pending (t : ShellTask) : list Grant :=
  match sk_phase t with Authorized run_as _ _ _ => [("shell", Some (host_uuid (sk_host t)), run_as)] | Live => [] end.
Definition pending_of {A} (f : A -> list Grant) (m : gmap nat A) : list Grant := flat_map f (map_to_list m).*2.

(** The hosts a fan-out's channel has been served for: dispatched to, or answered with a
    terminal event. *)
Definition dispatched_on (i : nat) (cmd : BridgeCommand) : list HostId :=
  match cmd with CmdDispatch h _ ch => if decide (ch = i) then [h] else [] | _ => [] end.
(** A terminal event: it carries an outcome that says how the job ended. *)
Definition ends_job (r : JobResult) : bool :=
  match jr_body r with Some (BOutcome o) => bool_decide (is_Some (jo_terminal o)) | _ => false end.
Definition answered_on (i : nat) (ev : nat * HostResult) : list HostId :=
  if decide (ev.1 = i) then (if ends_job ev.2.2 then [ev.2.1] else []) else [].
Definition served {T R L} (i : nat) (s : Service T R L) : list HostId :=
  flat_map (dispatched_on i) (sv_commands s) ++ flat_map (answered_on i) (sv_events s).
(** ... and those it still owes. *)
Definition owed {T R L} (i : nat) (s : Service T R L) : list HostId :=
  match sv_execs s !! i with Some t => option_list (et_allowed t) ++ et_hosts t | None => [] end.

(** ** Lemmas *)

#[global] Instance memory_audit_laws `{Crypto} : AuditLaws (list AuditEntry).
Proof.
  refine {| log_records l := ae_record <$> l; log_ok l := l = foldl Memory_append [] (ae_record <$> l) |}.
  - intros l f r Hl. simpl. unfold Memory_append at 1 3. rewrite fmap_app, foldl_app. simpl. rewrite <- Hl. done.
  - intros l f r l' [= <-]. unfold Memory_append. by rewrite fmap_app.
  - done.
  - intros l f es Hl _ [= <-]. done.
Defined.

#[global] Instance pg_audit_laws `{CryptoLaws} : AuditLaws PgAudit.
Proof.
  refine {| log_records l := row_record <$> pa_table l; log_ok l := pg_chain (pa_table l) |}.
  - intros [tb] f r Hl. simpl in *. pose proof (pg_append_chain tb f r Hl) as Ha. by destruct (Pg_append tb f r).
  - intros [tb] f r l'. simpl. pose proof (pg_append_cases tb f r) as Ha. destruct (Pg_append tb f r) as [tb' res].
    intros [= <- ->]. destruct Ha as [[_ Hn]|(seq & prev & _ & ->)]; [done|]. cbn [pa_table]. rewrite fmap_app. cbn [fmap list_fmap]. by rewrite row_record_entry.
  - intros [tb] f r l' e. simpl. pose proof (pg_append_cases tb f r) as Ha. destruct (Pg_append tb f r) as [tb' res].
    intros [= <- ->]. cbn [pa_table]. destruct Ha as [[-> _]|(seq & prev & _ & ->)]; [by left|right].
    rewrite fmap_app. cbn [fmap list_fmap]. by rewrite row_record_entry.
  - intros [tb] f es Hl Hn. simpl in *. rewrite length_fmap in Hn. specialize (Hl Hn). rewrite Memory_append_all.
    destruct f; [|done|done]. rewrite Hl, pg_export_chain by (by rewrite length_fmap). intros [= <-]. by rewrite <- Hl.
Defined.

Lemma dedup_elem seen l h : h ∈ dedup seen l <-> h ∈ l /\ h ∉ seen.
Proof.
  revert seen. induction l as [|x l IH]; intros seen; simpl; [set_solver|].
  destruct (bool_decide _) eqn:E; bool_to_prop; [rewrite IH; set_solver|].
  rewrite elem_of_cons, IH. destruct (decide (h = x)); set_solver.
Qed.

Lemma dedup_nodup seen l : NoDup (dedup seen l).
Proof.
  revert seen. induction l as [|x l IH]; intros seen; simpl; [constructor|].
  destruct (bool_decide _); [done|]. constructor; [|done]. rewrite dedup_elem. set_solver.
Qed.

Lemma resolve_ok `{UuidLib} selector online hosts :
  resolve selector online = Ok hosts -> NoDup hosts /\ (length hosts <= MAX_FANOUT)%nat.
Proof.
  unfold resolve. destruct (if bool_decide _ then _ else _) as [l|]; [|done].
  destruct (decide _) as [|Hl]; [done|]. intros [= <-]. split; [apply dedup_nodup|]. lia.
Qed.

Section Pending.
Context {A : Type} (f : A -> list Grant).

Lemma pending_insert (m : gmap nat A) i t :
  pending_of f (<[i := t]> m) ≡ₚ f t ++ pending_of f (delete i m).
Proof.
  unfold pending_of. rewrite <- insert_delete_eq.
  rewrite map_to_list_insert by apply lookup_delete_eq. done.
Qed.

Lemma pending_lookup (m : gmap nat A) i t :
  m !! i = Some t -> pending_of f m ≡ₚ f t ++ pending_of f (delete i m).
Proof. intros Hi. rewrite <- (insert_id m i t Hi) at 1. apply pending_insert. Qed.

Lemma pending_fresh (m : gmap nat A) i t :
  m !! i = None -> pending_of f (<[i := t]> m) ≡ₚ f t ++ pending_of f m.
Proof. intros Hi. rewrite pending_insert. by rewrite delete_id. Qed.

End Pending.

Section ServiceLemmas.
Context `{Crypto} `{UuidLaws} `{X509} {P T R L : Type} `{PolicyPort P} `{JoinTokens T} `{Revocations R} `{!AuditPort L} `{!AuditLaws L}.
Context (ca : EmbeddedCa) (policy : P) (default_ttl : Z).
Implicit Type s : Service T R L.
(** The grants that earlier processes on the same log have used. *)
Context (spent : list Grant).

Definition spending s : list Grant :=
  flat_map needs (sv_commands s) ++
    (pending_of exec_pending (sv_execs s) ++ (pending_of shell_pending (sv_shells s) ++ spent)).
Definition granted s : list Grant := omap grant_of (log_records (sv_audit s)).

Record audited s : Prop := {
  au_spending : spending s ⊆+ granted s;
  au_honest : Forall (record_honest policy) (log_records (sv_audit s))
}.

Lemma authorize_and_audit_spec s subj act e s' r :
  authorize_and_audit policy s subj act e = (s', r) ->
  exists l, s' = set_audit s l /\
  ((log_records l = log_records (sv_audit s) /\ is_ok r = false) \/
   exists d, let rec := mkRecord (unix_seconds (se_now e)) subj (ad_kind act) (ad_target act) (ad_run_as act) d in
     log_records l = log_records (sv_audit s) ++ [rec] /\ record_honest policy rec /\ (r = Ok d \/ is_ok r = false)).
Proof.
  unfold authorize_and_audit.
  assert (forall d, let rec := mkRecord (unix_seconds (se_now e)) subj (ad_kind act) (ad_target act) (ad_run_as act) d in
    record_honest policy rec ->
    match audit_append (sv_audit s) (se_audit e) rec with
    | (l, Ok _) => (set_audit s l, Ok d)
    | (l, Err _) => (set_audit s l, Err (StInternal "audit log unavailable"))
    end = (s', r) ->
    exists l, s' = set_audit s l /\
      ((log_records l = log_records (sv_audit s) /\ is_ok r = false) \/
       exists d, let rec := mkRecord (unix_seconds (se_now e)) subj (ad_kind act) (ad_target act) (ad_run_as act) d in
       log_records l = log_records (sv_audit s) ++ [rec] /\ record_honest policy rec /\ (r = Ok d \/ is_ok r = false)))
    as Happ.
  { intros d rec Hh. destruct (audit_append _ _ rec) as [l [[]|err]] eqn:Ea; intros [= <- <-]; exists l; (split; [done|]).
    - right. exists d. split; [by eapply append_ok|]. auto.
    - apply append_err in Ea as [?|?]; [by left|]. right. exists d. auto. }
  destruct (policy_authorize policy subj act) as [[]|[]] eqn:Ep.
  all: try (intros [= <- <-]; exists (sv_audit s); (split; [by destruct s|]); by left).
  - apply (Happ Allow). exists (ad_params_hash act). simpl. by destruct act.
  - apply (Happ Deny). exists (ad_params_hash act). simpl. by destruct act.
Qed.

Lemma authorize_audited s subj act e s' r :
  audited s -> authorize_and_audit policy s subj act e = (s', r) ->
  audited s' /\ spending s' = spending s /\ sv_execs s' = sv_execs s /\ sv_shells s' = sv_shells s /\
  sv_commands s' = sv_commands s /\ sv_events s' = sv_events s /\
  (r = Ok Allow -> (ad_kind act, uuid_parse (ad_target act), ad_run_as act) :: spending s' ⊆+ granted s').
Proof.
  intros [Hs Hh] Ha. destruct (authorize_and_audit_spec _ _ _ _ _ _ Ha) as (l & -> & [[Hl Hr]|(d & Hl & Hd & Hr)]).
  - split; [split; unfold granted; simpl; by rewrite Hl|]. repeat split; try done. by intros ->.
  - assert (granted (set_audit s l) = granted s ++ option_list (grant_of (mkRecord (unix_seconds (se_now e)) subj
      (ad_kind act) (ad_target act) (ad_run_as act) d))) as Hg.
    { unfold granted. simpl. rewrite Hl, omap_app. done. }
    split; [split|].
    + rewrite Hg. by apply submseteq_inserts_r.
    + simpl. rewrite Hl. apply Forall_app. by repeat constructor.
    + repeat split; try done. intros ->. destruct Hr as [[= <-]|]; [|done]. rewrite Hg. simpl.
      rewrite (Permutation_app_comm _ [_]). by apply submseteq_skip.
Qed.

Lemma needs_app cmds cmd : flat_map needs (cmds ++ [cmd]) = flat_map needs cmds ++ needs cmd.
Proof. rewrite flat_map_app. simpl. by rewrite app_nil_r. Qed.

(** A step that keeps the log keeps the invariant if it spends no more. *)
Lemma audited_spend s s' : audited s -> sv_audit s' = sv_audit s -> spending s' ⊆+ spending s -> audited s'.
Proof.
  intros [Hs Hh] He Hsp. split; [|by rewrite He]. unfold granted. rewrite He. by transitivity (spending s).
Qed.

Lemma set_exec_spending s i t hosts allowed :
  sv_execs s !! i = Some t ->
  let t' := mkExecTask (et_subject t) (et_kind t) (et_run_as t) (et_params_hash t) (et_params t) hosts allowed (et_events t) in
  spending s ++ exec_pending t' ≡ₚ spending (set_exec s i t hosts allowed) ++ exec_pending t.
Proof.
  intros Hi t'. unfold spending, set_exec. simpl.
  rewrite (pending_insert exec_pending), (pending_lookup exec_pending _ _ _ Hi). solve_Permutation.
Qed.

Lemma exec_step_audited s i e : audited s -> audited (exec_step policy s i e).
Proof.
  intros Hs. unfold exec_step. destruct (sv_execs s !! i) as [t|] eqn:Et; [|done].
  destruct (et_allowed t) as [host|] eqn:Eal.
  - set (d := mkDispatch _ _ _ _). apply (audited_spend s); [done|by destruct (se_bridge e)|].
    destruct (se_bridge e); simpl.
    + pose proof (set_exec_spending (fst (bridge_send s true (CmdDispatch host d (et_events t)))) i t (et_hosts t) None Et) as Hp.
      simpl in Hp. unfold exec_pending in Hp. rewrite Eal in Hp. simpl in Hp. rewrite app_nil_r in Hp.
      assert (spending (fst (bridge_send s true (CmdDispatch host d (et_events t)))) ≡ₚ
              spending s ++ [(et_kind t, Some (host_uuid host), et_run_as t)]) as Hq.
      { unfold spending. simpl. rewrite needs_app. simpl. solve_Permutation. }
      rewrite Hq in Hp. apply Permutation_app_inv_r in Hp. by rewrite Hp.
    + pose proof (set_exec_spending (send_event s (et_events t) (host, outcome_error "dispatch bridge unavailable"))
        i t (et_hosts t) None Et) as Hp. simpl in Hp. rewrite app_nil_r in Hp.
      change (spending (send_event s _ _)) with (spending s) in Hp. rewrite Hp. by apply submseteq_inserts_r.
  - destruct (et_hosts t) as [|host hosts] eqn:Eh.
    { apply (audited_spend s); [done|done|]. unfold spending. simpl.
      rewrite (pending_lookup exec_pending _ _ _ Et). unfold exec_pending at 2. by rewrite Eal. }
    destruct (authorize_and_audit _ _ _ _ _) as [s1 r] eqn:Ea.
    destruct (authorize_audited _ _ _ _ _ _ Hs Ea) as (Hs1 & _ & Hx & _ & _ & _ & Hal).
    rewrite <- Hx in Et.
    assert (forall ev, audited (set_exec (send_event s1 (et_events t) ev) i t hosts None)) as Hans.
    { intros ev. apply (audited_spend s1); [done|done|].
      pose proof (set_exec_spending (send_event s1 (et_events t) ev) i t hosts None Et) as Hp.
      unfold exec_pending in Hp. rewrite Eal in Hp. simpl in Hp. rewrite !app_nil_r in Hp.
      by rewrite <- Hp. }
    destruct r as [[]|]; try apply Hans.
    destruct Hs1 as [Hsp Hh]. split; [|done]. specialize (Hal eq_refl).
    pose proof (set_exec_spending s1 i t hosts (Some host) Et) as Hp.
    unfold exec_pending in Hp. rewrite Eal in Hp. simpl in Hp. rewrite app_nil_r in Hp. rewrite <- Hp.
    rewrite (Permutation_app_comm _ [_]). simpl in Hal. by rewrite uuid_parse_to_string in Hal.
Qed.

Lemma exec_audited s i bound req e : sv_execs s !! i = None -> audited s -> audited (fst (exec s i bound req e)).
Proof.
  intros Hi Hs. unfold exec. destruct (dr_action req) as [act|]; [|done]. destruct (is_empty _); [done|].
  set (s1 := if bool_decide _ then _ else s).
  assert (audited s1 /\ sv_execs s1 = sv_execs s) as [Hs1 Hx].
  { unfold s1. destruct (bool_decide _); [|done]. destruct (se_bridge e); [|done]. split; [|done].
    apply (audited_spend s); [done|done|]. unfold spending. simpl. rewrite needs_app. simpl. by rewrite app_nil_r. }
  destruct (resolve _ _) as [[|h hosts]|]; [done| |done].
  apply (audited_spend s1); [done|done|]. unfold spending. simpl. rewrite pending_fresh by (by rewrite Hx). done.
Qed.

Lemma shell_audited s i bound first e :
  sv_shells s !! i = None -> audited s -> audited (fst (shell policy s i bound first e)).
Proof.
  intros Hi Hs. unfold shell. destruct first as [[open| |]|]; try done. unfold authorize_shell_open.
  destruct (uuid_parse (so_host_id open)) as [u|] eqn:Eu; [|done].
  destruct (authorize_and_audit _ _ _ _ _) as [s1 r] eqn:Ea.
  destruct (authorize_audited _ _ _ _ _ _ Hs Ea) as (Hs1 & _ & _ & Hx & _ & _ & Hal).
  destruct r as [[]|]; [|done|done]. destruct Hs1 as [Hsp Hh]. split; [|done]. specialize (Hal eq_refl).
  simpl in Hal. rewrite Eu in Hal. simpl. unfold spending. simpl. rewrite (pending_fresh shell_pending) by (by rewrite Hx).
  etrans; [|exact Hal]. simpl. unfold spending.
  rewrite <- !Permutation_middle. done.
Qed.

Lemma shell_step_audited s i msg e : audited s -> audited (shell_step s i msg e).
Proof.
  intros Hs. unfold shell_step. destruct (sv_shells s !! i) as [t|] eqn:Et; [|done].
  pose proof (pending_lookup shell_pending _ _ _ Et) as Hp.
  assert (forall m, m = delete i (sv_shells s) -> pending_of shell_pending m ⊆+ pending_of shell_pending (sv_shells s)) as Hdel.
  { intros m ->. rewrite Hp. by apply submseteq_inserts_l. }
  destruct (sk_phase t) as [run_as rows cols output|] eqn:Ek.
  - destruct (se_bridge e); simpl; (apply (audited_spend s); [done|done|]); unfold spending; simpl.
    + rewrite needs_app, (pending_insert shell_pending), Hp. unfold shell_pending at 1 3. simpl. rewrite Ek. simpl.
      solve_submseteq.
    + apply submseteq_skips_l, submseteq_skips_l, submseteq_app; [|done]. by apply Hdel.
  - assert (audited (set_sv_shells (fst (bridge_send s (se_bridge e) (CmdShellClose (sk_host t) (sk_stream_id t))))
                      (delete i (sv_shells s)))) as Hclose.
    { apply (audited_spend s); [done|by destruct (se_bridge e)|]. unfold spending.
      destruct (se_bridge e); simpl; rewrite ?needs_app; simpl; rewrite ?app_nil_r;
        apply submseteq_skips_l, submseteq_skips_l, submseteq_app; try done; by apply Hdel. }
    destruct msg as [[open|data|b]|]; try done.
    destruct (se_bridge e); simpl; [|exact Hclose].
    apply (audited_spend s); [done|done|]. unfold spending. simpl. rewrite needs_app. simpl. by rewrite app_nil_r.
Qed.

Lemma service_step_audited s ev : audited s -> audited (service_step ca policy default_ttl s ev).
Proof.
  intros Hs. destruct ev as [i bound req e|i e|i bound first e|i msg e|bound req e|ttl e|h e|token csr e re]; cbn [service_step].
  - destruct (sv_execs s !! i) eqn:E; [done|]. by apply exec_audited.
  - by apply exec_step_audited.
  - destruct (sv_shells s !! i) eqn:E; [done|]. by apply shell_audited.
  - by apply shell_step_audited.
  - unfold dispatch. destruct (dr_action req) as [act|]; [|done]. destruct (is_empty _); [done|].
    destruct (authorize_and_audit _ _ _ _ _) as [s1 r] eqn:Ea.
    destruct (authorize_audited _ _ _ _ _ _ Hs Ea) as [Hs1 _]. by destruct r as [[]|].
  - unfold mint_token. destruct (token_mint _ _ _) as [t [|[]]]; by apply (audited_spend s).
  - unfold revoke_host. destruct (uuid_parse h); [|done]. destruct (revoke _ _ _ _) as [r []]; by apply (audited_spend s).
  - unfold enroll. destruct (validate_csr csr); [|done]. destruct (token_redeem _ _ _) as [t []];
      [|by apply (audited_spend s)]. destruct (issue _ _ _ _) as [|[]]; by apply (audited_spend s).
Qed.

(** A process that starts on a log whose grants cover what was spent before. *)
Lemma service_init_audited t r (l : L) :
  spent ⊆+ omap grant_of (log_records l) -> Forall (record_honest policy) (log_records l) -> audited (service_init t r l).
Proof. intros Hl Hh. split; [|done]. unfold spending, granted, pending_of. simpl. by rewrite !map_to_list_empty. Qed.

Lemma audited_commands s : audited s -> flat_map needs (sv_commands s) ++ spent ⊆+ granted s.
Proof. intros [Hs _]. etrans; [|exact Hs]. unfold spending. apply submseteq_skips_l. by do 2 apply submseteq_inserts_l. Qed.

Lemma run_service_audited s evs : audited s -> audited (run_service ca policy default_ttl s evs).
Proof. revert s. induction evs as [|ev evs IH]; intros s Hs; [done|]. apply IH. by apply service_step_audited. Qed.

(** *** Fan-outs *)

Definition channels_ok s : Prop := map_Forall (fun j t => et_events t = j) (sv_execs s).

(** Awaits a fan-out has left. *)
Definition remaining i s : nat :=
  match sv_execs s !! i with
  | Some t => (2 * length (et_hosts t) + length (option_list (et_allowed t)) + 1)%nat
  | None => 0%nat
  end.
Definition is_step_of (i : nat) (ev : SvEvent) : bool :=
  match ev with SvExecStep j _ => bool_decide (j = i) | _ => false end.
Definition starts (i : nat) (ev : SvEvent) : bool :=
  match ev with SvExec j _ _ _ => bool_decide (j = i) | _ => false end.

(** Nothing of fan-out [i] changes when the commands and events added are not its own. *)
Definition same_fanout i s s' : Prop :=
  sv_execs s' !! i = sv_execs s !! i /\ served i s' ≡ₚ served i s.

Lemma served_app i s s' cmds evs :
  sv_commands s' = sv_commands s ++ cmds -> sv_events s' = sv_events s ++ evs ->
  served i s' ≡ₚ served i s ++ flat_map (dispatched_on i) cmds ++ flat_map (answered_on i) evs.
Proof. intros Hc He. unfold served. rewrite Hc, He, !flat_map_app. solve_Permutation. Qed.

Lemma same_fanout_of i s s' cmds evs :
  sv_execs s' !! i = sv_execs s !! i -> sv_commands s' = sv_commands s ++ cmds -> sv_events s' = sv_events s ++ evs ->
  flat_map (dispatched_on i) cmds = [] -> flat_map (answered_on i) evs = [] -> same_fanout i s s'.
Proof. intros Hx Hc He H1' H2'. split; [done|]. rewrite (served_app i s s' cmds evs Hc He), H1', H2'. by rewrite !app_nil_r. Qed.

Lemma exec_step_other s i j e :
  channels_ok s -> j <> i -> same_fanout i s (exec_step policy s j e) /\ channels_ok (exec_step policy s j e).
Proof.
  intros Hc Hne. unfold exec_step. destruct (sv_execs s !! j) as [t|] eqn:Et; [|done].
  pose proof (Hc _ _ Et) as Hch. simpl in Hch.
  assert (forall s1 hosts al, sv_execs s1 = sv_execs s -> channels_ok (set_exec s1 j t hosts al)) as Hset.
  { intros s1 hosts al Hx. unfold channels_ok, set_exec. simpl. rewrite Hx. by apply map_Forall_insert_2. }
  destruct (et_allowed t) as [host|].
  - destruct (se_bridge e); simpl; (split; [|by apply Hset]).
    + eapply (same_fanout_of i s _ [CmdDispatch host _ (et_events t)] []); simpl; try done;
        [by rewrite lookup_insert_ne|by rewrite app_nil_r|by rewrite decide_False by (rewrite Hch; done)].
    + eapply (same_fanout_of i s _ [] [(et_events t, _)]); simpl; try done;
        [by rewrite lookup_insert_ne|by rewrite app_nil_r|]. unfold answered_on. simpl. by rewrite decide_False by (rewrite Hch; done).
  - destruct (et_hosts t) as [|host hosts].
    { split; [|by apply map_Forall_delete]. apply (same_fanout_of i s _ [] []); simpl; try done;
        [by rewrite lookup_delete_ne|by rewrite app_nil_r..]. }
    destruct (authorize_and_audit _ _ _ _ _) as [s1 r] eqn:Ea.
    destruct (authorize_and_audit_spec _ _ _ _ _ _ Ea) as (l & -> & _).
    assert (forall ev, same_fanout i s (set_exec (send_event (set_audit s l) (et_events t) ev) j t hosts None)) as Hans.
    { intros ev. eapply (same_fanout_of i s _ [] [(et_events t, ev)]); simpl; try done;
        [by rewrite lookup_insert_ne|by rewrite app_nil_r|]. unfold answered_on. simpl. by rewrite decide_False by (rewrite Hch; done). }
    destruct r as [[]|]; (split; [|by apply Hset]); try apply Hans.
    apply (same_fanout_of i s _ [] []); simpl; try done; [by rewrite lookup_insert_ne|by rewrite app_nil_r..].
Qed.

Lemma exec_step_own s i e :
  channels_ok s ->
  let s' := exec_step policy s i e in
  served i s' ++ owed i s' ≡ₚ served i s ++ owed i s /\ channels_ok s' /\ (remaining i s' <= remaining i s - 1)%nat.
Proof.
  intros Hc. unfold exec_step, remaining at 2, owed at 2. destruct (sv_execs s !! i) as [t|] eqn:Et.
  2: { unfold owed, remaining. rewrite Et. done. }
  pose proof (Hc _ _ Et) as Hch. simpl in Hch.
  assert (forall s1 hosts al, sv_execs s1 = sv_execs s -> channels_ok (set_exec s1 i t hosts al)) as Hset.
  { intros s1 hosts al Hx. unfold channels_ok, set_exec. simpl. rewrite Hx. by apply map_Forall_insert_2. }
  assert (forall s1 hosts al, remaining i (set_exec s1 i t hosts al) = (2 * length hosts + length (option_list al) + 1)%nat
    /\ owed i (set_exec s1 i t hosts al) = option_list al ++ hosts) as Hown.
  { intros. unfold remaining, owed, set_exec. simpl. by rewrite lookup_insert_eq. }
  destruct (et_allowed t) as [host|].
  - set (d := mkDispatch _ _ _ _). destruct (se_bridge e); simpl; (split; [|split; [by apply Hset|rewrite (proj1 (Hown _ _ _)); simpl; lia]]);
      rewrite (proj2 (Hown _ _ _)); simpl.
    + rewrite (served_app i s _ [CmdDispatch host d (et_events t)] []); [|reflexivity|simpl; by rewrite app_nil_r].
      simpl. rewrite decide_True by done. solve_Permutation.
    + rewrite (served_app i s _ [] [(et_events t, (host, outcome_error "dispatch bridge unavailable"))]);
        [|simpl; by rewrite app_nil_r|reflexivity].
      simpl. unfold answered_on. simpl. rewrite decide_True by done. solve_Permutation.
  - destruct (et_hosts t) as [|host hosts].
    { split; [|split; [by apply map_Forall_delete|]]; unfold owed, remaining; simpl; rewrite lookup_delete_eq; [|lia].
      done. }
    destruct (authorize_and_audit _ _ _ _ _) as [s1 r] eqn:Ea.
    destruct (authorize_and_audit_spec _ _ _ _ _ _ Ea) as (l & -> & _).
    assert (forall msg, let s' := set_exec (send_event (set_audit s l) (et_events t) (host, outcome_error msg)) i t hosts None in
      served i s' ++ owed i s' ≡ₚ served i s ++ host :: hosts) as Hans.
    { intros msg s'. unfold s'. rewrite (proj2 (Hown _ _ _)), (served_app i s _ [] [(et_events t, (host, outcome_error msg))]);
        [|simpl; by rewrite app_nil_r|reflexivity].
      simpl. unfold answered_on. simpl. rewrite decide_True by done. solve_Permutation. }
    destruct r as [[]|]; (split; [|split; [by apply Hset|rewrite (proj1 (Hown _ _ _)); simpl; lia]]); try apply Hans.
    rewrite (proj2 (Hown _ _ _)). done.
Qed.

(** A step that serves no host of fan-out [i], and sends [cmds] without a dispatch of it. *)
Lemma fanout_kept s s' i :
  channels_ok s' -> same_fanout i s s' ->
  served i s' ++ owed i s' ≡ₚ served i s ++ owed i s /\ channels_ok s' /\ (remaining i s' <= remaining i s - 0)%nat.
Proof. intros Hc [Hx Hsv]. unfold owed, remaining. rewrite Hx, Hsv. split; [done|]. split; [done|]. lia. Qed.

Lemma fanout_framed s s' i cmds :
  channels_ok s -> sv_execs s' = sv_execs s -> sv_commands s' = sv_commands s ++ cmds -> sv_events s' = sv_events s ->
  flat_map (dispatched_on i) cmds = [] ->
  served i s' ++ owed i s' ≡ₚ served i s ++ owed i s /\ channels_ok s' /\ (remaining i s' <= remaining i s - 0)%nat.
Proof.
  intros Hc Hx Hcm He Hd. apply fanout_kept; [unfold channels_ok; by rewrite Hx|].
  apply (same_fanout_of i s s' cmds []); [by rewrite Hx|done|by rewrite app_nil_r|done|done].
Qed.

Lemma service_step_fanout s ev i :
  channels_ok s -> starts i ev = false ->
  let s' := service_step ca policy default_ttl s ev in
  served i s' ++ owed i s' ≡ₚ served i s ++ owed i s /\ channels_ok s' /\
  (remaining i s' <= remaining i s - (if is_step_of i ev then 1 else 0))%nat.
Proof.
  intros Hc Hst. pose proof (fun s' => fanout_kept s s' i) as Hsame. pose proof (fun s' cmds => fanout_framed s s' i cmds Hc) as Hframe.
  assert (forall s', sv_execs s' = sv_execs s -> sv_commands s' = sv_commands s -> sv_events s' = sv_events s ->
    served i s' ++ owed i s' ≡ₚ served i s ++ owed i s /\ channels_ok s' /\ (remaining i s' <= remaining i s - 0)%nat) as Hkeep.
  { intros s' Hx Hcm He. apply (Hframe s' []); [done|by rewrite app_nil_r|done|done]. }
  destruct ev as [j bound req e|j e|j bound first e|j msg e|bound req e|ttl e|h e|token csr e re];
    cbn [service_step is_step_of starts] in *.
  - bool_to_prop. destruct (sv_execs s !! j) eqn:Ej; [by apply Hkeep|]. unfold exec.
    destruct (dr_action req) as [act|]; [|by apply Hkeep]. destruct (is_empty _); [by apply Hkeep|].
    set (s1 := if bool_decide (ad_target act = "*") then _ else s).
    assert (sv_execs s1 = sv_execs s /\ sv_events s1 = sv_events s /\ exists cmds, sv_commands s1 = sv_commands s ++ cmds /\
      flat_map (dispatched_on i) cmds = []) as (Hx & He & cmds & Hcm & Hd).
    { unfold s1. destruct (bool_decide _), (se_bridge e); simpl; repeat split; try done;
        first [exists [CmdOnlineHosts]; done|exists []; by rewrite app_nil_r]. }
    destruct (resolve _ _) as [[|x hosts]|]; [by apply (Hframe s1 cmds)| |by apply (Hframe s1 cmds)].
    apply Hsame; [by unfold channels_ok; simpl; rewrite Hx; apply map_Forall_insert_2|].
    apply (same_fanout_of i s _ cmds []); simpl; [by rewrite lookup_insert_ne, Hx|done|by rewrite app_nil_r|done|done].
  - destruct (bool_decide (j = i)) eqn:Eji; bool_to_prop; [subst j; by apply exec_step_own|].
    destruct (exec_step_other s i j e Hc Eji) as [Hs Hc']. by apply Hsame.
  - destruct (sv_shells s !! j); [by apply Hkeep|]. unfold shell, authorize_shell_open.
    destruct first as [[open| |]|]; try by apply Hkeep. destruct (uuid_parse _); [|by apply Hkeep].
    destruct (authorize_and_audit _ _ _ _ _) as [s1 r] eqn:Ea.
    destruct (authorize_and_audit_spec _ _ _ _ _ _ Ea) as (l & -> & _). destruct r as [[]|]; by apply Hkeep.
  - unfold shell_step. destruct (sv_shells s !! j) as [t|]; [|by apply Hkeep].
    destruct (sk_phase t); [|destruct msg as [[open|data|b]|]]; try by apply Hkeep.
    all: destruct (se_bridge e); simpl; try by apply Hkeep.
    all: by eapply Hframe.
  - unfold dispatch. destruct (dr_action req) as [act|]; [|by apply Hkeep]. destruct (is_empty _); [by apply Hkeep|].
    destruct (authorize_and_audit _ _ _ _ _) as [s1 r] eqn:Ea.
    destruct (authorize_and_audit_spec _ _ _ _ _ _ Ea) as (l & -> & _). destruct r as [[]|]; by apply Hkeep.
  - unfold mint_token. destruct (token_mint _ _ _) as [t [|[]]]; by apply Hkeep.
  - unfold revoke_host. destruct (uuid_parse h); [|by apply Hkeep]. destruct (revoke _ _ _ _) as [r []]; by apply Hkeep.
  - unfold enroll. destruct (validate_csr csr); [|by apply Hkeep].
    destruct (token_redeem _ _ _) as [t []]; [|by apply Hkeep]. destruct (issue _ _ _ _) as [|[]]; by apply Hkeep.
Qed.

Lemma run_service_fanout s evs i :
  channels_ok s -> Forall (fun ev => starts i ev = false) evs ->
  let s' := run_service ca policy default_ttl s evs in
  served i s' ++ owed i s' ≡ₚ served i s ++ owed i s /\
  (remaining i s' <= remaining i s - length (filter (fun ev => is_step_of i ev = true) evs))%nat.
Proof.
  revert s. induction evs as [|ev evs IH]; intros s Hc Hst; simpl; [split; [done|lia]|].
  apply Forall_cons in Hst as [Hev Hst].
  destruct (service_step_fanout s ev i Hc Hev) as (Hp & Hc' & Hr). destruct (IH _ Hc' Hst) as [Hp' Hr'].
  change (run_service ca policy default_ttl s (ev :: evs))
    with (run_service ca policy default_ttl (service_step ca policy default_ttl s ev) evs).
  split; [by rewrite Hp'|]. rewrite filter_cons. destruct (is_step_of i ev); simpl; lia.
Qed.

End ServiceLemmas.

(** A service on in-memory adapters, for the witnesses: "alice" may run anything on the
    demo host as "deploy". *)
Definition demo_policy : RbacPolicyEngine := mkEngine [mkBinding "alice" ["*"] [SelHost (host_uuid demo_host)] ["deploy"]].
Abbreviation DemoService := (Service JoinTokenRegistry RevocationRegistry (list AuditEntry)).
Definition demo_service : DemoService :=
  service_init (JoinTokenRegistry_new (3600 * 1000000000)) (mkRevocationRegistry ∅) ([] : list AuditEntry).
Definition demo_sv_env : SvEnv := mkSvEnv 0 0 NoFault NoFault true [demo_host; mkHostId (wrap 8)] (wrap 99).
Definition demo_exec_request : DispatchRequest := mkDispatchRequest (Some (mkAction "exec" "*" "deploy" [])) [].
Definition demo_steps : list SvEvent := repeat (SvExecStep 0 demo_sv_env) 5.

(** ** Properties *)

(** No host is ever asked to act without an authorization that is on the audit log.
    Over any interleaving of requests and tasks, with any store failures: each dispatch
    and each shell handed to the bridge has its own allow record (same capability, host
    and target user), written before; and every record, allow or deny, is what the
    policy decides for that subject. *)
Theorem every_command_authorized_and_audited `{Crypto} `{UuidLaws} `{X509} {P T R L} `{PolicyPort P} `{JoinTokens T} `{Revocations R}
    `{!AuditPort L} `{!AuditLaws L} ca (policy : P) default_ttl (t : T) (r : R) (l : L) evs :
  log_records l = [] ->
  let s := run_service ca policy default_ttl (service_init t r l) evs in
  flat_map needs (sv_commands s) ⊆+ omap grant_of (log_records (sv_audit s)) /\
  Forall (record_honest policy) (log_records (sv_audit s)).
Proof.
  intros Hl s. assert (audited policy [] s) as Hs by (apply run_service_audited, service_init_audited; by rewrite Hl).
  split; [|apply Hs]. rewrite <- (app_nil_r (flat_map _ _)). by apply (audited_commands policy).
Qed.

Lemma every_command_authorized_and_audited_witness :
  let s := run_service demo_ca demo_policy 0 demo_service (SvExec 0 (Some "alice") demo_exec_request demo_sv_env :: demo_steps) in
  flat_map needs (sv_commands s) = [("exec", Some (host_uuid demo_host), "deploy")] /\
  decision <$> (ae_record <$> sv_audit s) = [Allow; Deny] /\
  flat_map needs (sv_commands s) ⊆+ omap grant_of (log_records (sv_audit s)).
Proof.
  intros s. split; [vm_compute; reflexivity|]. split; [vm_compute; reflexivity|].
  apply (every_command_authorized_and_audited demo_ca demo_policy 0 (JoinTokenRegistry_new (3600 * 1000000000))
           (mkRevocationRegistry ∅) ([] : list AuditEntry)
           (SvExec 0 (Some "alice") demo_exec_request demo_sv_env :: demo_steps)).
  reflexivity.
Defined.

(** C28. An exec reaches every selected host exactly once.  An accepted request has
    between 1 and 1024 distinct hosts; whatever else the service does meanwhile, once
    its task has taken its (at most [2n + 1]) steps it is finished and each of its hosts
    was either dispatched to exactly once or answered with exactly one terminal event, one
    that carries an outcome (denied, authorization unavailable, bridge unavailable). *)
Theorem exec_serves_every_host_once `{Crypto} `{UuidLaws} `{X509} {P T R L} `{PolicyPort P} `{JoinTokens T} `{Revocations R}
    `{!AuditPort L} `{!AuditLaws L} ca (policy : P) default_ttl (s s' : Service T R L) i bound req e evs :
  channels_ok s -> sv_execs s !! i = None -> served i s = [] ->
  exec s i bound req e = (s', Ok tt) ->
  Forall (fun ev => starts i ev = false) evs ->
  exists action hosts, dr_action req = Some action /\ ad_kind action <> EmptyString /\
    resolve (ad_target action) (if se_bridge e then Some (se_online e) else None) = Ok hosts /\
    NoDup hosts /\ (1 <= length hosts <= 1024)%nat /\
    ((2 * length hosts + 1 <= length (filter (fun ev => is_step_of i ev = true) evs))%nat ->
     let s'' := run_service ca policy default_ttl s' evs in
     sv_execs s'' !! i = None /\ served i s'' ≡ₚ hosts).
Proof.
  intros Hc Hi Hsv Hex Hst. unfold exec in Hex. destruct (dr_action req) as [action|]; [|done].
  destruct (is_empty (ad_kind action)) eqn:Ek; [done|]. set (s1 := if bool_decide _ then _ else s) in Hex.
  assert (sv_execs s1 = sv_execs s /\ served i s1 = []) as [Hx Hs1].
  { unfold s1. destruct (bool_decide _), (se_bridge e); simpl; try done. split; [done|]. unfold served in *. simpl.
    apply app_eq_nil in Hsv as [Ha Hb]. by rewrite flat_map_app, Ha, Hb. }
  destruct (resolve _ _) as [hosts|] eqn:Er; [|done]. destruct (resolve_ok _ _ _ Er) as [Hnd Hlen].
  destruct hosts as [|h hosts]; [done|]. injection Hex as <-.
  exists action, (h :: hosts). split; [done|]. split; [by intros Hk; rewrite Hk in Ek|].
  split; [done|]. split; [done|]. split; [unfold MAX_FANOUT in Hlen; simpl in *; lia|].
  set (s2 := set_execs s1 _). intros Hn s''.
  assert (channels_ok s2) as Hc2 by (unfold channels_ok; simpl; rewrite Hx; by apply map_Forall_insert_2).
  destruct (run_service_fanout ca policy default_ttl s2 evs i Hc2 Hst) as [Hp Hr]. fold s'' in Hp, Hr.
  assert (remaining i s2 = (2 * length (h :: hosts) + 1)%nat /\ owed i s2 = h :: hosts) as [Hrem Howed].
  { unfold remaining, owed. simpl. rewrite lookup_insert_eq. simpl. split; [lia|done]. }
  assert (sv_execs s'' !! i = None) as Hdone.
  { unfold remaining at 1 in Hr. destruct (sv_execs s'' !! i); [lia|done]. }
  split; [done|]. rewrite Howed in Hp. change (served i s2) with (served i s1) in Hp. rewrite Hs1 in Hp.
  unfold owed in Hp. rewrite Hdone, app_nil_r in Hp. exact Hp.
Qed.

Lemma exec_serves_every_host_once_witness :
  let s' := fst (exec demo_service 0 (Some "alice") demo_exec_request demo_sv_env) in
  exists hosts, hosts = [demo_host; mkHostId (wrap 8)] /\
    served 0 (run_service demo_ca demo_policy 0 s' demo_steps) ≡ₚ hosts.
Proof.
  intros s'. exists [demo_host; mkHostId (wrap 8)]. split; [reflexivity|].
  destruct (exec_serves_every_host_once demo_ca demo_policy 0 demo_service s' 0 (Some "alice") demo_exec_request
    demo_sv_env demo_steps) as (action & hosts & Ha & _ & Hr & _ & _ & Hrun).
  - by apply map_Forall_empty.
  - reflexivity.
  - reflexivity.
  - vm_compute. reflexivity.
  - repeat constructor.
  - injection Ha as <-. vm_compute in Hr. injection Hr as <-. apply Hrun. vm_compute. lia.
Defined.

(** A successful enrollment. *)
Lemma enroll_ok_inv `{Crypto} `{UuidLaws} `{X509Laws} {T R L} `{JoinTokens T} cp kp ttl ca
    (s : Service T R L) token csr e re s' resp :
  from_material cp kp ttl = Ok ca -> enroll ca s token csr e re = (s', Ok resp) ->
  exists t key, token_redeem (sv_tokens s) re token = (t, Ok tt) /\ s' = set_tokens s t /\
    csr_from_der csr = Ok key /\ er_ca_root resp = ca_cert_der ca /\
    uuid_parse (er_host_id resp) = Some (se_uuid e) /\
    forall now, se_secs e - CLOCK_SKEW <= now <= se_secs e + ttl ->
      verify_host_cert ca (er_cert resp) now =
      match sk_ec key with
      | Some point => Ok (mkVerified (mkHostId (se_uuid e)) point)
      | None => Err (Invalid "host cert public key is not an EC key")
      end.
Proof.
  intros Hca. unfold enroll, validate_csr. destruct (csr_from_der csr) as [key|] eqn:Ek; simpl; [|done].
  destruct (token_redeem _ _ _) as [t [[]|]] eqn:Et; [|done].
  destruct (issue ca _ csr (se_secs e)) as [der|[]] eqn:Ei; try done. intros [= <- <-]. simpl.
  exists t, key. split; [done|]. split; [done|]. split; [done|]. split; [done|].
  split; [apply uuid_parse_to_string|]. intros now Hnow.
  destruct (issue_inv _ _ _ _ _ _ _ _ _ _ Hca Hca Ei)
    as (key' & c & root & Hk & Hd & Hkc & Hroot & Hv & Hh & Ho & Hnb & Hna).
  rewrite Ek in Hk. injection Hk as <-. unfold verify_host_cert. rewrite Hd, Hroot. simpl. rewrite Hv. simpl.
  unfold is_valid. rewrite Hnb, Hna, (proj2 (Z.leb_le _ _)), (proj2 (Z.leb_le _ _)) by lia. simpl. by rewrite Hh, Hkc.
Qed.

(** Enrollment spends exactly the token it was given, and only for a usable CSR.  A
    malformed CSR is refused with nothing changed; every reason for which a token is not
    redeemable gives the same answer; and a response carries the CA root and a
    certificate that verifies, within its window, as the fresh host it names with the
    CSR's key, the token having been redeemed and nothing else changed. *)
Theorem enrollment_is_sound `{Crypto} `{UuidLaws} `{X509Laws} {T R L} `{JoinTokens T} cp kp ttl ca
    (s : Service T R L) token csr e re :
  from_material cp kp ttl = Ok ca ->
  (forall err, csr_from_der csr = Err err -> enroll ca s token csr e re = (s, Err (StInvalidArgument "malformed CSR"))) /\
  (forall key, csr_from_der csr = Ok key -> forall t reason, token_redeem (sv_tokens s) re token = (t, Err reason) ->
     enroll ca s token csr e re = (set_tokens s t, Err (StPermissionDenied "invalid or expired join token"))) /\
  (forall s' resp, enroll ca s token csr e re = (s', Ok resp) ->
     exists t key, token_redeem (sv_tokens s) re token = (t, Ok tt) /\ s' = set_tokens s t /\
       csr_from_der csr = Ok key /\ er_ca_root resp = ca_cert_der ca /\
       uuid_parse (er_host_id resp) = Some (se_uuid e) /\
       forall now, se_secs e - CLOCK_SKEW <= now <= se_secs e + ttl ->
         verify_host_cert ca (er_cert resp) now =
         match sk_ec key with
         | Some point => Ok (mkVerified (mkHostId (se_uuid e)) point)
         | None => Err (Invalid "host cert public key is not an EC key")
         end).
Proof.
  intros Hca. split; [|split].
  - intros err Hk. unfold enroll, validate_csr. by rewrite Hk.
  - intros key Hk t reason Hr. unfold enroll, validate_csr. rewrite Hk. simpl. by rewrite Hr.
  - intros s' resp Hok. by eapply enroll_ok_inv.
Qed.

Lemma enrollment_is_sound_witness :
  let e := mkSvEnv 0 1000 NoFault NoFault true [] (wrap 7) in
  let s1 := fst (mint_token 0 demo_service (wrap 60) (mkMintEnv 0 0 (Some (bytes_of "t")) (NoFault, NoFault, NoFault) "")) in
  exists s' resp, enroll demo_ca s1 (to_hex (bytes_of "t")) demo_csr e (mkRedeemEnv 5 (NoFault, NoFault)) = (s', Ok resp) /\
    verify_host_cert demo_ca (er_cert resp) 2000 = Ok (mkVerified demo_host (bytes_of "host-key")).
Proof.
  intros e s1. assert (from_material (ca_cert_pem demo_ca) "ca-key" 3600 = Ok demo_ca) as Hca by (vm_compute; reflexivity).
  eexists _, _. split; [vm_compute; reflexivity|].
  destruct (enrollment_is_sound (ca_cert_pem demo_ca) "ca-key" 3600 demo_ca s1 (to_hex (bytes_of "t")) demo_csr e
    (mkRedeemEnv 5 (NoFault, NoFault)) Hca) as (_ & _ & Hok).
  edestruct Hok as (t & key & _ & _ & Hk & _ & _ & Hv); [vm_compute; reflexivity|].
  vm_compute in Hk. injection Hk as <-. etransitivity; [apply (Hv 2000); vm_compute; split; intros Hc; discriminate Hc|].
  vm_compute. reflexivity.
Defined.

(** Renewal fails closed.  A certificate is issued only if the current one was
    issued by this CA, is valid, names the host, and the CSR proves its key, and the
    revocation store answered that the host is not revoked; so a revoked host, or any
    host while the store cannot answer, gets none. *)
Theorem renewal_fails_closed `{Crypto} `{UuidLib} `{X509} {T R L} `{RevocationsLaws R} ca
    (s : Service T R L) current csr now e :
  (forall cert, renew ca s current csr now e = Ok cert ->
     exists h, validate_renewal ca current csr now = Ok h /\ h ∉ revoked_set (sv_revocations s) /\
       issue ca h csr (se_secs e) = Ok cert) /\
  (forall h, validate_renewal ca current csr now = Ok h ->
     (h ∈ revoked_set (sv_revocations s) -> se_revocations e = NoFault ->
        renew ca s current csr now e = Err (StPermissionDenied "identity revoked")) /\
     (h ∈ revoked_set (sv_revocations s) -> is_ok (renew ca s current csr now e) = false) /\
     (forall err, is_revoked (sv_revocations s) (se_revocations e) h = Err err ->
        renew ca s current csr now e = Err (StInternal "revocation check unavailable"))).
Proof.
  unfold renew, renew_check, renew_issue. split.
  - intros cert. destruct (validate_renewal _ _ _ _) as [h|[]]; try done.
    destruct (is_revoked _ _ h) as [[]|] eqn:Er; try done. apply is_revoked_exact in Er.
    destruct (issue ca h csr _) eqn:Ei; simpl; [|done]. intros [= <-].
    exists h. symmetry in Er. bool_to_prop. by rewrite Ei.
  - intros h ->. split; [|split].
    + intros Hin ->. rewrite is_revoked_answers, bool_decide_eq_true_2 by done. done.
    + intros Hin. destruct (is_revoked _ _ h) as [[]|] eqn:Er; try done.
      apply is_revoked_exact in Er. by rewrite bool_decide_eq_true_2 in Er.
    + by intros err ->.
Qed.

Lemma renewal_fails_closed_witness :
  let s := fst (revoke_host demo_service (uuid_to_string (host_uuid demo_host)) demo_sv_env) in
  is_ok (renew demo_ca demo_service demo_cert demo_csr 2000 demo_sv_env) = true /\
  renew demo_ca s demo_cert demo_csr 2000 demo_sv_env = Err (StPermissionDenied "identity revoked").
Proof.
  intros s. split; [vm_compute; reflexivity|].
  destruct (renewal_fails_closed demo_ca s demo_cert demo_csr 2000 demo_sv_env) as [_ Hr].
  apply (Hr demo_host); [vm_compute; reflexivity| |reflexivity].
  simpl. apply elem_of_union_l, elem_of_singleton. vm_compute. reflexivity.
Defined.
