(* ===== verification/Cli.v ===== *)
(** * The operator CLI (osa-cli/src/main.rs)

    The parts of the command-line client that decide something: the bearer header, the
    exec request and the report over its event stream with the exit status, the
    client-side audit verification with its anchor parser, and the interactive shell
    session with its terminal. *)
From Stdlib Require Import Strings.Byte.
From S2P Require Import Prelude Proto Concrete Text Seal AuditLog Registries Ca Broker Service.

(** ** Requests *)

(** [authed]: the authorization metadata of a request; header values are visible
    ASCII (plus space and tab). *)
Definition header_ok (s : string) : bool :=
  all_chars (fun c => let n := N_of_ascii c in ((32 <=? n)%N && (n <? 127)%N) || (n =? 9)%N) s.
Definition authed (token : option string) : result (option string) string :=
  match token with
  | None => Ok None
  | Some t => if header_ok ("Bearer " +:+ t) then Ok (Some ("Bearer " +:+ t)) else Err "operator token is not valid ASCII"
  end.

Section Requests.
Context `{Crypto} `{Prost}.

(** The exec request: the parameters are encoded here and bound by their hash. *)
Definition exec_request (host run_as : string) (argv : list string) : result DispatchRequest string :=
  match argv with
  | [] => Err "no command given — use: osa exec <selector> -- <cmd> [args...]"
  | _ =>
      let params := encode_msg (mkExecParams argv) in
      Ok (mkDispatchRequest (Some (mkAction "exec" host run_as (params_hash params))) params)
  end.

End Requests.

(** ** The exec report *)

(** What the loop accumulates: the host last announced, the counters, and the bytes
    written to each of the standard streams. *)
Record Report := mkReport {
  rp_last : option string; rp_hosts : nat; rp_failures : nat; rp_stdout : bytes; rp_stderr : bytes
}.

Definition report_init : Report := mkReport None 0 0 [] [].

Definition status_line (t : option Terminal) : string * bool :=
  match t with
  | Some (ExitCode c) => if bval c =? 0 then ("exit 0", false)
                         else ("exit " +:+ (if bval c <? 0 then "-" +:+ to_dec (- bval c) else to_dec (bval c)), true)
  | Some (Signal g) => ("signal " +:+ (if bval g <? 0 then "-" +:+ to_dec (- bval g) else to_dec (bval g)), true)
  | Some (TermError m) => ("error: " +:+ m, true)
  | None => ("no status", true)
  end.

Definition eprintln (r : Report) (line : string) : Report :=
  mkReport (rp_last r) (rp_hosts r) (rp_failures r) (rp_stdout r) (rp_stderr r ++ bytes_of (line +:+ newline)).

Definition report_event (r : Report) (ev : ExecEvent) : Report :=
  let host := ee_host_id ev in
  match ee_event ev with
  | Some (EvChunk c) =>
      let r := if bool_decide (rp_last r = Some host) then r
               else let r := eprintln r ("==> " +:+ (host +:+ " <==")) in
                    mkReport (Some host) (rp_hosts r) (rp_failures r) (rp_stdout r) (rp_stderr r) in
      if bool_decide (oc_stream c = stream_i32 Stderr)
      then mkReport (rp_last r) (rp_hosts r) (rp_failures r) (rp_stdout r) (rp_stderr r ++ oc_data c)
      else mkReport (rp_last r) (rp_hosts r) (rp_failures r) (rp_stdout r ++ oc_data c) (rp_stderr r)
  | Some (EvOutcome o) =>
      let flags := (if jo_output_truncated o then " [output truncated]" else "") +:+
                   (if jo_timed_out o then " [timed out]" else "") in
      let '(status, failed) := status_line (jo_terminal o) in
      eprintln (mkReport (rp_last r) (S (rp_hosts r)) (if failed then S (rp_failures r) else rp_failures r)
                  (rp_stdout r) (rp_stderr r)) ("[osa] " +:+ (host +:+ (": " +:+ (status +:+ flags))))
  | None => r
  end.

(** The exit status once the stream has ended. *)
Definition exec_exit_code (events : list ExecEvent) : Z :=
  let r := foldl report_event report_init events in
  if bool_decide (rp_failures r = 0%nat) && bool_decide (0 < rp_hosts r)%nat then 0 else 1.

(** ** Audit verification *)

(** [char::to_digit(16)]. *)
Definition hex_digit_val (c : ascii) : option Z :=
  let n := Z.of_N (N_of_ascii c) in
  if (48 <=? n) && (n <=? 57) then Some (n - 48)
  else if (97 <=? n) && (n <=? 102) then Some (n - 87)
  else if (65 <=? n) && (n <=? 70) then Some (n - 55)
  else None.

(** [u8::from_str_radix] of a two-byte string in base 16: an optional leading plus. *)
Definition parse_pair (a b : ascii) : option byte :=
  if bool_decide (a = "+"%char) then let! d := hex_digit_val b in Some (byte_of_Z d)
  else let! h := hex_digit_val a in let! d := hex_digit_val b in Some (byte_of_Z (16 * h + d)).

(** The string does not start inside a character: its first byte is not a UTF-8
    continuation byte. *)
Definition at_char_boundary (s : string) : bool :=
  match s with
  | EmptyString => true
  | String c _ => let n := N_of_ascii c in negb ((128 <=? n)%N && (n <? 192)%N)
  end.

(** The loop of [parse_head]; slicing inside a character panics ([None]). *)
Fixpoint parse_pairs (s : string) : option (result bytes string) :=
  match s with
  | String a (String b s') =>
      if negb (at_char_boundary s') then None
      else match parse_pair a b with
           | None => Some (Err "--expect-head is not valid hex")
           | Some x => match parse_pairs s' with
                       | Some (Ok l) => Some (Ok (x :: l))
                       | r => r
                       end
           end
  | _ => Some (Ok [])
  end.

Definition parse_head (s : string) : option (result bytes string) :=
  let s := trim s in
  if negb (Z.of_nat (String.length s) =? 64) then Some (Err "--expect-head must be 64 hex chars (32 bytes)")
  else parse_pairs s.

Definition to_audit_entry (e : WireAuditEntry) : result AuditEntry string :=
  let? decision := ok_or (Decision_parse (wa_decision e)) "unknown decision" in
  let? prev_hash := ok_or (array32 (wa_prev_hash e)) "malformed prev_hash hash" in
  let? hash := ok_or (array32 (wa_hash e)) "malformed hash hash" in
  Ok (mkEntry (wa_seq e) (mkRecord (wa_ts_unix e) (wa_subject e) (wa_kind e) (wa_target e) (wa_run_as e) decision)
        prev_hash hash).

(** What [osa audit verify] concludes. *)
Inductive AuditVerdict :=
| VerdictEmpty
| VerdictOk (count : nat) (anchored : bool) (head : string)
| VerdictFailed (e : AuditError)
| VerdictError (msg : string)   (** the command fails before verifying *)
| VerdictPanic.

Definition audit_verify `{Crypto} (expect_head : option string) (exported : list WireAuditEntry) : AuditVerdict :=
  let with_anchor (anchor : option bytes) :=
    match collect to_audit_entry exported with
    | Err m => VerdictError m
    | Ok entries =>
        match verify entries anchor with
        | Err e => VerdictFailed e
        | Ok _ => match last entries with
                  | None => VerdictEmpty
                  | Some e => VerdictOk (length entries) (bool_decide (is_Some anchor)) (to_hex (ae_hash e))
                  end
        end
    end in
  match expect_head with
  | None => with_anchor None
  | Some h => match parse_head h with
              | None => VerdictPanic
              | Some (Err m) => VerdictError m
              | Some (Ok a) => with_anchor (Some a)
              end
  end.

(** ** Lemmas *)

Lemma hex_byte_pair b :
  parse_pair (nibble_char (byte_val b / 16)) (nibble_char (byte_val b mod 16)) = Some b /\
  graphic (nibble_char (byte_val b / 16)) = true /\ graphic (nibble_char (byte_val b mod 16)) = true.
Proof. destruct b; vm_compute; done. Qed.

Lemma to_hex_cons x b :
  to_hex (x :: b) = String (nibble_char (byte_val x / 16)) (String (nibble_char (byte_val x mod 16)) (to_hex b)).
Proof. done. Qed.

Lemma to_hex_graphic b : all_chars graphic (to_hex b) = true.
Proof.
  induction b as [|x b IH]; [done|]. cbn [to_hex]. rewrite all_chars_app, IH, andb_true_r.
  destruct (hex_byte_pair x) as (_ & H1 & H2). cbn [hex_byte all_chars]. by rewrite H1, H2.
Qed.

Lemma graphic_boundary s : all_chars graphic s = true -> at_char_boundary s = true.
Proof.
  destruct s as [|c s]; [done|]. simpl. intros [Hc _]%andb_true_iff. unfold graphic in Hc.
  apply andb_true_iff in Hc as [_ Hc]. apply N.leb_le in Hc.
  apply negb_true_iff, andb_false_iff. left. apply N.leb_gt. lia.
Qed.

Lemma parse_pairs_hex b : parse_pairs (to_hex b) = Some (Ok b).
Proof.
  induction b as [|x b IH]; [done|]. destruct (hex_byte_pair x) as (Hp & _ & _).
  rewrite to_hex_cons. cbn [parse_pairs].
  by rewrite (graphic_boundary _ (to_hex_graphic b)), Hp, IH.
Qed.

Lemma length_to_hex b : String.length (to_hex b) = (2 * length b)%nat.
Proof. induction b as [|x b IH]; [done|]. rewrite to_hex_cons. simpl. rewrite IH. lia. Qed.

Lemma parse_head_to_hex h : length h = 32%nat -> parse_head (to_hex h) = Some (Ok h).
Proof.
  intros Hl. unfold parse_head. rewrite trim_graphic by apply to_hex_graphic.
  rewrite length_to_hex, Hl. apply parse_pairs_hex.
Qed.

Lemma Decision_round_trip d : Decision_parse (Decision_as_str d) = Some d.
Proof. by destruct d. Qed.

Section CliLemmas.
Context `{CryptoLaws}.

(** The chain's hashes have their fixed width. *)
Lemma chain_hashes rs i p :
  length p = 32%nat ->
  Forall (fun e => length (ae_prev_hash e) = 32%nat /\ length (ae_hash e) = 32%nat) (chain_from i p rs).
Proof.
  revert i p. induction rs as [|r rs IH]; intros i p Hp; simpl; constructor; simpl.
  - split; [done|apply sha256_length].
  - apply IH. apply sha256_length.
Qed.

Lemma to_audit_entry_wire e :
  length (ae_prev_hash e) = 32%nat -> length (ae_hash e) = 32%nat -> to_audit_entry (wire_entry e) = Ok e.
Proof.
  intros Hp Hh. unfold to_audit_entry, wire_entry. simpl. rewrite Decision_round_trip. simpl.
  rewrite (proj2 (array32_Some (ae_prev_hash e) _) (conj eq_refl Hp)), (proj2 (array32_Some (ae_hash e) _) (conj eq_refl Hh)).
  simpl. by destruct e as [seq [] prev h].
Qed.

Lemma collect_wire es :
  Forall (fun e => length (ae_prev_hash e) = 32%nat /\ length (ae_hash e) = 32%nat) es ->
  collect to_audit_entry (wire_entry <$> es) = Ok es.
Proof.
  induction 1 as [|e es [Hp Hh] _ IH]; [done|]. cbn [fmap list_fmap collect].
  by rewrite to_audit_entry_wire, IH.
Qed.

End CliLemmas.

(** *** Counting the report *)

Definition outcome_of_event (ev : ExecEvent) : option (option Terminal) :=
  match ee_event ev with Some (EvOutcome o) => Some (jo_terminal o) | _ => None end.
Definition succeeded (t : option Terminal) : Prop := exists c, t = Some (ExitCode c) /\ bval c = 0.
#[global] Instance succeeded_dec t : Decision (succeeded t).
Proof.
  refine (match t with Some (ExitCode c) => cast_if (decide (bval c = 0)) | _ => right _ end);
    unfold succeeded; abstract naive_solver.
Defined.

Lemma status_line_failed t : snd (status_line t) = negb (bool_decide (succeeded t)).
Proof.
  destruct (decide (succeeded t)) as [Hs|Hs].
  - rewrite bool_decide_eq_true_2 by done. destruct Hs as (c & -> & Hc). simpl. by rewrite Hc.
  - rewrite bool_decide_eq_false_2 by done. destruct t as [[c|g|m]|]; simpl; try done.
    destruct (bval c =? 0) eqn:E; bool_to_prop; [|done]. destruct Hs. by exists c.
Qed.

Lemma report_counts events r :
  let outs := omap outcome_of_event events in
  let r' := foldl report_event r events in
  rp_hosts r' = (rp_hosts r + length outs)%nat /\
  rp_failures r' = (rp_failures r + length (filter (fun t => ~ succeeded t) outs))%nat.
Proof.
  revert r. induction events as [|ev events IH]; intros r; cbn [omap list_omap foldl]; [simpl; lia|].
  specialize (IH (report_event r ev)). cbv zeta in *. destruct IH as [-> ->].
  set (outs := omap outcome_of_event events). unfold report_event, outcome_of_event.
  destruct (ee_event ev) as [[c|o]|]; [|pose proof (status_line_failed (jo_terminal o)) as Hf|done].
  - destruct (bool_decide (rp_last r = _)), (bool_decide (oc_stream c = _)); simpl; lia.
  - destruct (status_line _) as [st failed]. cbn [snd] in Hf. rewrite filter_cons.
    destruct failed; symmetry in Hf; bool_to_prop; [rewrite decide_True by done|rewrite decide_False by tauto];
      simpl; lia.
Qed.

(** ** Properties *)

(** C40. The audit log survives the wire: whatever the service exports, the CLI decodes
    and verifies; the head it prints is accepted back as the anchor of the same log, and
    an empty log is reported as such rather than as verified. *)
Theorem exported_audit_verifies `{CryptoLaws} {T R L} `{!AuditPort L} `{!AuditLaws L} (s : Service T R L) e wire :
  log_ok (sv_audit s) -> Z.of_nat (length (log_records (sv_audit s))) <= 2 ^ 63 -> export_audit s e = Ok wire ->
  let n := length (log_records (sv_audit s)) in
  length wire = n /\
  match last wire with
  | None => audit_verify None wire = VerdictEmpty
  | Some w => audit_verify None wire = VerdictOk n false (to_hex (wa_hash w)) /\
              audit_verify (Some (to_hex (wa_hash w))) wire = VerdictOk n true (to_hex (wa_hash w))
  end.
Proof.
  intros Hok Hlen. unfold export_audit. destruct (audit_export _ _) as [es|] eqn:Ex; [|done]. intros [= <-].
  set (n := length (log_records (sv_audit s))). apply export_exact in Ex; [|done..]. rewrite Memory_append_all in Ex. unfold chain_of in Ex.
  assert (length es = n) as Hn by (rewrite Ex; apply length_chain_from).
  assert (Forall (fun x => length (ae_prev_hash x) = 32%nat /\ length (ae_hash x) = 32%nat) es) as Hw
    by (rewrite Ex; by apply chain_hashes).
  assert (verify_from 0 GENESIS_PREV es = Ok tt) as Hv by (rewrite Ex; apply verify_from_chain).
  rewrite length_fmap. split; [done|]. unfold audit_verify. rewrite (collect_wire es Hw), fmap_last.
  destruct (last es) as [x|] eqn:El; simpl; unfold verify; rewrite Hv, ?El; [|done].
  rewrite Hn. split; [done|].
  assert (length (ae_hash x) = 32%nat) as Hx.
  { rewrite Forall_forall in Hw. apply (Hw x). by apply last_Some_elem_of. }
  rewrite (parse_head_to_hex _ Hx). by rewrite bool_decide_eq_true_2.
Qed.

Lemma exported_audit_verifies_witness :
  let s := run_service demo_ca demo_policy 0 demo_service (SvExec 0 (Some "alice") demo_exec_request demo_sv_env :: demo_steps) in
  exists wire w, export_audit s demo_sv_env = Ok wire /\ last wire = Some w /\
    audit_verify (Some (to_hex (wa_hash w))) wire = VerdictOk 2 true (to_hex (wa_hash w)).
Proof.
  intros s. exists (wire_entry <$> sv_audit s).
  assert (export_audit s demo_sv_env = Ok (wire_entry <$> sv_audit s)) as Ex by reflexivity.
  assert (log_ok (sv_audit s)) as Hok by (vm_compute; reflexivity).
  assert (length (log_records (sv_audit s)) = 2%nat) as Hl by (vm_compute; reflexivity).
  assert (Z.of_nat (length (log_records (sv_audit s))) <= 2 ^ 63) as Hn by (rewrite Hl; lia).
  pose proof (exported_audit_verifies s demo_sv_env _ Hok Hn Ex) as [_ Hv].
  clearbody s. rewrite Hl in Hv. destruct (last (wire_entry <$> sv_audit s)) as [w|] eqn:El.
  - exists w. split; [exact Ex|]. split; [reflexivity|]. exact (proj2 Hv).
  - exfalso. apply last_None, fmap_nil_inv in El. simpl in Hl. rewrite El in Hl. discriminate Hl.
Defined.

(** The CLI's exit status is exact over what was reported: it is 0 iff at least one
    host reported and every reported outcome is exit code 0; a signal, an error or a
    missing status is a failure. *)
Theorem exec_exit_status_exact events :
  exec_exit_code events = 0 <->
  omap outcome_of_event events <> [] /\ Forall succeeded (omap outcome_of_event events).
Proof.
  unfold exec_exit_code. destruct (report_counts events report_init) as [Hh Hf]. simpl in Hh, Hf.
  rewrite Hh, Hf. set (outs := omap outcome_of_event events).
  assert (length (filter (fun t => ~ succeeded t) outs) = 0%nat <-> Forall succeeded outs) as Hall.
  { clear. induction outs as [|t outs IH]; [done|]. rewrite filter_cons, Forall_cons, <- IH.
    destruct (decide (~ succeeded t)) as [Hs|Hs]; simpl; [intuition lia|]. destruct (decide (succeeded t)); tauto. }
  rewrite <- Hall. destruct outs as [|t outs]; simpl.
  { split; [done|]. by intros [? _]. }
  destruct (bool_decide (length _ = 0%nat)) eqn:E; bool_to_prop; simpl; [done|]. split; [done|]. by intros [_ ?].
Qed.

(** A host whose stream ends without an outcome (the bridge drops a job whose operator
    cannot keep up) is not counted: a fan-out in which another host succeeded exits 0. *)
Lemma unreported_host_exits_zero :
  exec_exit_code
    [mkExecEvent "host-a" (Some (EvChunk (mkChunk (stream_i32 Stdout) (bytes_of "partial"))));
     mkExecEvent "host-b" (Some (EvOutcome (mkOutcome (Some (ExitCode (wrap 0))) false false)))] = 0.
Proof. vm_compute. reflexivity. Qed.

(** [--expect-head] also takes pairs with a leading plus sign, and panics on 64 bytes
    whose pairs cut a multi-byte character. *)
Lemma parse_head_not_only_hex :
  parse_head (String.concat "" (repeat "+a" 32)) = Some (Ok (repeat x0a 32)) /\
  parse_head (String.concat "" ("a" :: seq2 0xC3 0xA9 :: "a" :: repeat "aa" 30)) = None.
Proof. split; vm_compute; reflexivity. Qed.

(** ** The interactive shell *)

Definition DEFAULT_ROWS : u16 := wrap 24.
Definition DEFAULT_COLS : u16 := wrap 80.

(** [terminal_size]: [winsize] is what the ioctl filled in, if it succeeded. *)
Definition terminal_size (winsize : option (u16 * u16)) : option (u16 * u16) :=
  match winsize with
  | Some (rows, cols) => if (0 <? bval rows) && (0 <? bval cols) then Some (rows, cols) else None
  | None => None
  end.

(** The stdin task: [reads] are the results of its reads, an empty one being the end of
    input or an error, and [room] how many sends succeed before the stream is gone. *)
Fixpoint stdin_pump (reads : list bytes) (room : nat) : list ShellClientMsg :=
  let close := match room with O => [] | S _ => [CmClose true] end in
  match reads with
  | [] => close
  | data :: reads =>
      if decide (data = []) then close
      else match room with O => [] | S room => CmInput data :: stdin_pump reads room end
  end.

(** The messages of a session, in order. *)
Definition shell_client_msgs (host run_as : string) (winsize : option (u16 * u16)) (reads : list bytes) (room : nat)
    : list ShellClientMsg :=
  let '(rows, cols) := default (DEFAULT_ROWS, DEFAULT_COLS) (terminal_size winsize) in
  CmOpen (mkShellOpen host run_as (wrap (bval rows)) (wrap (bval cols))) :: stdin_pump reads room.

(** The output loop: what reaches stdout, and how the session ends.  A message without a
    body is skipped. *)
Fixpoint shell_output (msgs : list (result (option ShellServerMsg) string)) : bytes * result unit string :=
  match msgs with
  | [] => ([], Ok tt)
  | Err e :: _ => ([], Err e)
  | Ok (Some (SmOutput data)) :: msgs => let '(out, r) := shell_output msgs in (data ++ out, r)
  | Ok (Some (SmClosed _)) :: _ => ([], Ok tt)
  | Ok None :: msgs => shell_output msgs
  end.

(** Raw mode on a terminal with attributes [T]: what is saved, and the terminal after. *)
Section RawMode.
Context {T : Type} (cfmakeraw : T -> T).
Definition RawMode_enable (tty : option T) (set_ok : bool) : option T * option T :=
  match tty with
  | None => (None, None)
  | Some original => if set_ok then (Some original, Some (cfmakeraw original)) else (None, Some original)
  end.
Definition RawMode_drop (saved : option T) (tty : option T) (set_ok : bool) : option T :=
  match saved with
  | Some original => if set_ok then (fun _ => original) <$> tty else tty
  | None => tty
  end.
End RawMode.

(** The local terminal is restored, if the system lets it be. *)
Lemma raw_mode_restored {T} (cfmakeraw : T -> T) tty set_ok :
  let '(saved, tty') := RawMode_enable cfmakeraw tty set_ok in RawMode_drop saved tty' true = tty.
Proof. by destruct tty, set_ok. Qed.

Lemma stdin_pump_all reads room :
  Forall (fun d => d <> []) reads -> (length reads < room)%nat -> stdin_pump reads room = (CmInput <$> reads) ++ [CmClose true].
Proof.
  intros Hr. revert room. induction Hr as [|d reads Hd Hr IH]; intros [|room] Hl; simpl in *; try lia; [done|].
  rewrite decide_False by done. f_equal. apply IH. lia.
Qed.

Section ShellSession.
Context `{Crypto} `{UuidLaws} `{X509} {P T R L : Type} `{PolicyPort P} `{JoinTokens T} `{Revocations R} `{!AuditPort L} `{!AuditLaws L}.
Context (policy : P).
Implicit Type s : Service T R L.

Lemma live_inputs s i t e datas :
  sv_shells s !! i = Some t -> sk_phase t = Live -> se_bridge e = true ->
  exists s', s' = foldl (fun s m => shell_step s i m e) s ((Some ∘ CmInput) <$> datas) /\
    sv_commands s' = sv_commands s ++ (CmdShellInput (sk_host t) (sk_stream_id t) <$> datas) /\ sv_shells s' = sv_shells s.
Proof.
  intros Ht Hl Hb. revert s Ht. induction datas as [|d datas IH]; intros s Ht; simpl.
  { eexists. split; [done|]. by rewrite app_nil_r. }
  assert (shell_step s i (Some (CmInput d)) e = fst (bridge_send s true (CmdShellInput (sk_host t) (sk_stream_id t) d))) as ->.
  { unfold shell_step. by rewrite Ht, Hl, Hb. }
  destruct (IH (fst (bridge_send s true (CmdShellInput (sk_host t) (sk_stream_id t) d))) Ht) as (s' & Hf & Hc & Hs).
  exists s'. split; [exact Hf|]. rewrite Hc, Hs. simpl. by rewrite <- app_assoc.
Qed.

Lemma authorize_shell_open_frame s subject open e s' h :
  authorize_shell_open policy s subject open e = (s', Ok h) ->
  sv_commands s' = sv_commands s /\ sv_shells s' = sv_shells s /\
  exists u, uuid_parse (so_host_id open) = Some u /\ h = mkHostId u.
Proof.
  unfold authorize_shell_open, authorize_and_audit. intros Ha. repeat case_match; simplify_eq; eauto.
Qed.

End ShellSession.

(** An operator's shell session arrives at the bridge as it was typed.  When the
    service accepts the opening message of the CLI, the stream it sends turns, one task
    step at a time, into exactly: the open command for that host with the local terminal's
    size (the default one when there is none), each chunk of standard input in order, and
    one close; and the task is gone. *)
Theorem shell_session_reaches_bridge `{Crypto} `{UuidLaws} `{X509} {P T R L} `{PolicyPort P} `{JoinTokens T} `{Revocations R}
    `{!AuditPort L} `{!AuditLaws L} (policy : P) (s s1 : Service T R L) i bound host run_as winsize reads room e e' first rest :
  shell_client_msgs host run_as winsize reads room = first :: rest ->
  se_bridge e' = true -> Forall (fun d => d <> []) reads -> (length reads < room)%nat ->
  shell policy s i bound (Some first) e = (s1, Ok tt) ->
  exists u s', uuid_parse host = Some u /\
    s' = foldl (fun s m => shell_step s i m e') s1 (None :: (Some <$> rest)) /\
    let '(rows, cols) := default (DEFAULT_ROWS, DEFAULT_COLS) (terminal_size winsize) in
    let id := uuid_to_string (se_uuid e) in
    sv_commands s' = sv_commands s ++ CmdOpenShell (mkHostId u) id run_as (wrap (bval rows)) (wrap (bval cols)) i ::
      (CmdShellInput (mkHostId u) id <$> reads) ++ [CmdShellClose (mkHostId u) id] /\
    sv_shells s' !! i = None.
Proof.
  intros Hm Hb Hr Hl Hsh. unfold shell_client_msgs in Hm. destruct (default _ _) as [rows cols]. injection Hm as <- <-.
  rewrite stdin_pump_all by done. simpl in Hsh.
  destruct (authorize_shell_open _ _ _ _ _) as [s0 [h|]] eqn:Ea; [|done]. injection Hsh as <-.
  apply authorize_shell_open_frame in Ea as (Hc & Hs & u & Hu & ->). simpl in Hu.
  exists u. eexists. split; [done|]. split; [done|].
  cbn [foldl]. set (s2 := shell_step _ _ None _).
  assert (sv_commands s2 = sv_commands s ++ [CmdOpenShell (mkHostId u) (uuid_to_string (se_uuid e)) run_as (wrap (bval rows)) (wrap (bval cols)) i] /\
          sv_shells s2 !! i = Some (mkShellTask (mkHostId u) (uuid_to_string (se_uuid e)) Live)) as [Hc2 Ht2].
  { subst s2. unfold shell_step. simpl. rewrite lookup_insert_eq. simpl. rewrite Hb. simpl. by rewrite Hc, lookup_insert_eq. }
  clearbody s2. rewrite fmap_app, foldl_app, <- list_fmap_compose.
  destruct (live_inputs s2 i _ e' reads Ht2 eq_refl Hb) as (s3 & <- & Hc3 & Hs3). simpl.
  unfold shell_step. rewrite Hs3, Ht2. simpl. rewrite Hb. simpl.
  rewrite Hc3, Hc2, <- !app_assoc. by rewrite lookup_delete_eq.
Qed.

Lemma shell_session_reaches_bridge_witness :
  let e := mkSvEnv 0 0 NoFault NoFault true [demo_host] (wrap 99) in
  let id := uuid_to_string (wrap 99) in
  exists s1 first rest s',
    shell_client_msgs (uuid_to_string (host_uuid demo_host)) "deploy" None [bytes_of "ls"; bytes_of "exit"] 9 = first :: rest /\
    shell demo_policy demo_service 3 (Some "alice") (Some first) e = (s1, Ok tt) /\
    s' = foldl (fun s m => shell_step s 3 m e) s1 (None :: (Some <$> rest)) /\
    sv_commands s' = [CmdOpenShell demo_host id "deploy" (wrap 24) (wrap 80) 3; CmdShellInput demo_host id (bytes_of "ls");
                      CmdShellInput demo_host id (bytes_of "exit"); CmdShellClose demo_host id].
Proof.
  intros e id.
  assert (exists s1, shell demo_policy demo_service 3 (Some "alice") (head (shell_client_msgs (uuid_to_string (host_uuid demo_host))
    "deploy" None [bytes_of "ls"; bytes_of "exit"] 9)) e = (s1, Ok tt)) as [s1 Hs1] by (eexists; vm_compute; reflexivity).
  destruct (shell_client_msgs (uuid_to_string (host_uuid demo_host)) "deploy" None [bytes_of "ls"; bytes_of "exit"] 9)
    as [|first rest] eqn:Em; [discriminate Em|]. simpl in Hs1.
  edestruct (shell_session_reaches_bridge demo_policy demo_service s1 3 (Some "alice") _ _ _ _ _ e e first rest Em)
    as (u & s' & Hu & Hs & Hc); [reflexivity|repeat constructor; discriminate|simpl; lia|exact Hs1|].
  exists s1, first, rest, s'. split; [reflexivity|]. split; [exact Hs1|]. split; [exact Hs|].
  destruct Hc as [Hc _]. rewrite Hc. vm_compute in Hu. injection Hu as <-. reflexivity.
Defined.
