(* ===== verification/Exec.v ===== *)
(** * The exec engine (osa-agent/src/exec.rs)

    Target-user resolution, the privilege drop in the forked child, the output pump
    with its byte cap, and the streamed run with its timeout and kill.  What the
    operating system decides (user database, system calls, what the child writes, how
    it ends) is an argument. *)
From S2P Require Import Prelude Proto.

Definition KIND : string := "exec".
Definition READ_CHUNK : Z := 16 * 1024.

Inductive PumpEnd := PumpEof | PumpTruncated | PumpSinkClosed.
Inductive Chunk := CStdout (d : bytes) | CStderr (d : bytes).
Definition chunk_data (c : Chunk) : bytes := match c with CStdout d => d | CStderr d => d end.

(** [max_output_bytes] is a [usize]; [None] disables the timeout. *)
Record ExecLimits := mkLimits { max_output_bytes : Z; timeout : option Z }.
Definition unbounded : ExecLimits := mkLimits (2 ^ 64 - 1) None.

Record StreamOutcome := mkStreamOutcome {
  so_exit_code : option i32; so_signal : option i32; so_truncated : bool; so_timed_out : bool
}.
Record ExecOutcome := mkExecOutcome {
  eo_exit_code : option i32; eo_signal : option i32; eo_stdout : bytes; eo_stderr : bytes
}.

Inductive ExecError :=
| EmptyArgv
| UnknownUser (user : string)
| UserLookup (user source : string)
| PrivDropUnsupported
| Spawn (program source : string)
| Wait (source : string).

(** A passwd entry. *)
Record User := mkUser { u_name : string; u_uid : Z; u_gid : Z; u_dir : string; u_shell : string }.

(** [getpwnam]: an entry, no entry, or a lookup error. *)
Definition resolve_user (from_name : string -> result (option User) string) (run_as : string)
    : result (option User) ExecError :=
  if is_empty run_as then Ok None
  else match from_name run_as with
       | Ok (Some u) => Ok (Some u)
       | Ok None => Err (UnknownUser run_as)
       | Err e => Err (UserLookup run_as e)
       end.

(** ** The forked child *)

Record Cred := mkCred { c_uid : Z; c_gid : Z; c_groups : list Z }.

(** The credential system calls, for a process whose capabilities come from uid 0. *)
Definition sys_setgid (g : Z) (c : Cred) : option Cred :=
  if (c_uid c =? 0) || (c_gid c =? g) then Some (mkCred (c_uid c) g (c_groups c)) else None.
Definition sys_setgroups (gs : list Z) (c : Cred) : option Cred :=
  if c_uid c =? 0 then Some (mkCred (c_uid c) (c_gid c) gs) else None.
Definition sys_setuid (u : Z) (c : Cred) : option Cred :=
  if (c_uid c =? 0) || (c_uid c =? u) then Some (mkCred u (c_gid c) (c_groups c)) else None.

(** What a command is started with: its environment and the [pre_exec] hook. *)
Record Command := mkCommand {
  cmd_argv : list string; cmd_env : list (string * string); cmd_pre_exec : Cred -> option Cred
}.

(** [apply_target_user]: [supported] is the platform condition of the two variants. *)
Definition apply_target_user (supported : bool) (cmd : Command) (user : User) : result Command ExecError :=
  if supported then
    Ok (mkCommand (cmd_argv cmd)
      [("PATH", "/usr/local/bin:/usr/bin:/bin"); ("HOME", u_dir user); ("USER", u_name user);
       ("LOGNAME", u_name user); ("SHELL", u_shell user)]
      (fun c => let! c := sys_setgid (u_gid user) c in
                let! c := sys_setgroups [u_gid user] c in
                sys_setuid (u_uid user) c))
  else Err PrivDropUnsupported.

(** The command [stream] builds. *)
Definition build_command (supported : bool) (from_name : string -> result (option User) string)
    (agent_env : list (string * string)) (argv : list string) (run_as : string) : result Command ExecError :=
  match argv with
  | [] => Err EmptyArgv
  | _ =>
      let cmd := mkCommand argv agent_env (fun c => Some c) in
      let? u := resolve_user from_name run_as in
      match u with Some user => apply_target_user supported cmd user | None => Ok cmd end
  end.

(** [fork] and [exec]: the program runs only if the hook succeeded, with the
    credentials it left; [exec] itself may fail. *)
Definition spawn (agent : Cred) (cmd : Command) (exec_ok : result unit string) : result Cred ExecError :=
  let program := match cmd_argv cmd with p :: _ => p | [] => EmptyString end in
  match cmd_pre_exec cmd agent with
  | None => Err (Spawn program "operation not permitted")
  | Some c => match exec_ok with Ok _ => Ok c | Err e => Err (Spawn program e) end
  end.

(** ** The output pump *)

(** A completed read of one of the child's pipes: data, or end of file / error. *)
Inductive PipeRead := ReadOut (d : option bytes) | ReadErr (d : option bytes).

(** The loop over the reads the runtime completes, each with whether the sink still
    takes a chunk; [None] when the reads seen so far have not ended it. *)
Fixpoint pump (cap : Z) (out_done err_done : bool) (total : Z) (reads : list (PipeRead * bool))
    : list Chunk * option PumpEnd :=
  if out_done && err_done then ([], Some PumpEof)
  else match reads with
       | [] => ([], None)
       | (r, sink_ok) :: rs =>
           let emit c :=
             if negb sink_ok then ([], Some PumpSinkClosed)
             else
               let total := total + Z.of_nat (length (chunk_data c)) in
               if cap <? total then ([c], Some PumpTruncated)
               else let '(cs, e) := pump cap out_done err_done total rs in (c :: cs, e) in
           match r with
           | ReadOut None => pump cap true err_done total rs
           | ReadErr None => pump cap out_done true total rs
           | ReadOut (Some d) => if out_done then pump cap out_done err_done total rs else emit (CStdout d)
           | ReadErr (Some d) => if err_done then pump cap out_done err_done total rs else emit (CStderr d)
           end
       end.

(** How the child ended ([wait]): exit code or signal. *)
Record ExitStatus := mkStatus { es_code : option i32; es_signal : option i32 }.

(** What the operating system does during one run: the reads that complete before the
    deadline (when there is none, all of them: after the last both pipes are at their end),
    and the result of [wait] for a child that was, or was not, killed. *)
Record RunEnv := mkRunEnv {
  re_from_name : string -> result (option User) string;
  re_supported : bool;
  re_agent : Cred;
  re_agent_env : list (string * string);
  re_exec : result unit string;
  re_reads : list (PipeRead * bool);
  re_wait : bool -> result ExitStatus string
}.

(** [stream]: the chunks sent to the sink, whether the child was killed, the outcome.
    A pump that has not ended by the deadline is a timeout; without a deadline it goes on
    to the end of both pipes. *)
Definition stream (env : RunEnv) (argv : list string) (run_as : string) (limits : ExecLimits)
    : list Chunk * bool * result StreamOutcome ExecError :=
  match build_command (re_supported env) (re_from_name env) (re_agent_env env) argv run_as with
  | Err e => ([], false, Err e)
  | Ok cmd =>
      match spawn (re_agent env) cmd (re_exec env) with
      | Err e => ([], false, Err e)
      | Ok _ =>
          let '(chunks, e) := pump (max_output_bytes limits) false false 0 (re_reads env) in
          let truncated := match e with Some PumpTruncated => true | _ => false end in
          let sink_closed := match e with Some PumpSinkClosed => true | _ => false end in
          let timed_out := match e, timeout limits with None, Some _ => true | _, _ => false end in
          let kill := truncated || timed_out || sink_closed in
          (chunks, kill,
           match re_wait env kill with
           | Err m => Err (Wait m)
           | Ok st => Ok (mkStreamOutcome (es_code st) (es_signal st) truncated timed_out)
           end)
      end
  end.

(** [run]: buffer the streams of an unbounded run. *)
Definition stdout_of (cs : list Chunk) : bytes := concat ((fun c => match c with CStdout d => d | CStderr _ => [] end) <$> cs).
Definition stderr_of (cs : list Chunk) : bytes := concat ((fun c => match c with CStderr d => d | CStdout _ => [] end) <$> cs).
Definition run (env : RunEnv) (argv : list string) (run_as : string) : result ExecOutcome ExecError :=
  let '(chunks, _, r) := stream env argv run_as unbounded in
  let? o := r in
  Ok (mkExecOutcome (so_exit_code o) (so_signal o) (stdout_of chunks) (stderr_of chunks)).

(** ** Specification *)

Definition total_bytes (cs : list Chunk) : Z := Z.of_nat (length (concat (chunk_data <$> cs))).

(** A read returns at most the buffer's length. *)
Definition read_fits (r : PipeRead * bool) : Prop :=
  match r.1 with
  | ReadOut (Some d) | ReadErr (Some d) => Z.of_nat (length d) <= READ_CHUNK
  | _ => True
  end.

(** ** Lemmas *)

Lemma total_bytes_cons c cs : total_bytes (c :: cs) = Z.of_nat (length (chunk_data c)) + total_bytes cs.
Proof. unfold total_bytes. cbn [fmap list_fmap concat]. rewrite length_app. lia. Qed.

Lemma total_bytes_nonneg cs : 0 <= total_bytes cs.
Proof. unfold total_bytes. lia. Qed.

(** The pump emits at most the cap and one read's worth more, and stops as truncated
    exactly when it passed the cap. *)
Lemma pump_spec cap od ed total reads cs e :
  0 <= total <= cap -> Forall read_fits reads -> pump cap od ed total reads = (cs, e) ->
  total + total_bytes cs <= cap + READ_CHUNK /\
  (e = Some PumpTruncated <-> cap < total + total_bytes cs).
Proof.
  intros Ht Hf. revert od ed total cs e Ht. induction Hf as [|[r ok] rs Hr Hf IH]; intros od ed total cs e Ht Hp.
  - simpl in Hp. unfold READ_CHUNK.
    destruct (od && ed); simplify_eq; unfold total_bytes; simpl; split; try lia; (split; [done|lia]).
  - cbn [pump] in Hp. destruct (od && ed).
    { simplify_eq. unfold total_bytes, READ_CHUNK. simpl. split; [lia|]. split; [done|lia]. }
    assert (forall c, Z.of_nat (length (chunk_data c)) <= READ_CHUNK ->
      (if negb ok then ([], Some PumpSinkClosed)
       else if cap <? total + Z.of_nat (length (chunk_data c)) then ([c], Some PumpTruncated)
       else let '(cs, e) := pump cap od ed (total + Z.of_nat (length (chunk_data c))) rs in (c :: cs, e)) = (cs, e) ->
      total + total_bytes cs <= cap + READ_CHUNK /\ (e = Some PumpTruncated <-> cap < total + total_bytes cs)) as Hemit.
    { intros c Hc He. destruct ok; simpl in He.
      2: { simplify_eq. unfold total_bytes, READ_CHUNK. simpl. split; [lia|]. split; [done|lia]. }
      destruct (cap <? _) eqn:Ec; bool_to_prop.
      - simplify_eq. rewrite total_bytes_cons. unfold total_bytes. simpl. split; [lia|]. split; [lia|done].
      - clear Hp. destruct (pump cap od ed (total + Z.of_nat (length (chunk_data c))) rs) as [cs' e'] eqn:Ep. injection He as <- <-.
        assert (0 <= total + Z.of_nat (length (chunk_data c)) <= cap) as Hle by lia.
        destruct (IH _ _ _ _ _ Hle Ep) as [? Hiff]. rewrite total_bytes_cons. split; [lia|]. rewrite Hiff. lia. }
    destruct r as [[d|]|[d|]]; simpl in Hr.
    + destruct od; [by apply IH in Hp|]. by apply (Hemit (CStdout d)).
    + by apply IH in Hp.
    + destruct ed; [by apply IH in Hp|]. by apply (Hemit (CStderr d)).
    + by apply IH in Hp.
Qed.

(** A read of data from a pipe that had not ended. *)
Definition open_pipe (od ed : bool) (before : list PipeRead) (r : PipeRead) : Prop :=
  match r with
  | ReadOut (Some _) => od = false /\ ReadOut None ∉ before
  | ReadErr (Some _) => ed = false /\ ReadErr None ∉ before
  | _ => False
  end.

(** The consumer was gone when a chunk was due: the pump, not ended by the reads before, read
    data it could not hand over. *)
Definition consumer_gone (cap : Z) (od ed : bool) (total : Z) (reads : list (PipeRead * bool)) : Prop :=
  exists pre r post, reads = pre ++ (r, false) :: post /\ snd (pump cap od ed total pre) = None /\ open_pipe od ed pre.*1 r.

Lemma consumer_gone_cons cap od ed total od' ed' total' r ok rs :
  od && ed = false ->
  (forall l, snd (pump cap od ed total ((r, ok) :: l)) = snd (pump cap od' ed' total' l)) ->
  (forall l x, open_pipe od ed (r :: l) x <-> open_pipe od' ed' l x) ->
  (ok = true \/ ~ open_pipe od ed [] r) ->
  consumer_gone cap od ed total ((r, ok) :: rs) <-> consumer_gone cap od' ed' total' rs.
Proof.
  intros Hne Hp Ho Hok. split.
  - intros (pre & x & post & He & Hn & Hx). destruct pre as [|[r1 ok1] pre].
    + injection He as -> -> ->. destruct Hok as [?|Hok]; [done|]. by destruct Hok.
    + injection He as <- <- ->. exists pre, x, post. split; [done|]. rewrite Hp in Hn. split; [done|]. by apply Ho.
  - intros (pre & x & post & -> & Hn & Hx). exists ((r, ok) :: pre), x, post. rewrite Hp. split; [done|]. split; [done|]. by apply Ho.
Qed.

Lemma pump_closed cap reads : forall od ed total,
  snd (pump cap od ed total reads) = Some PumpSinkClosed <-> consumer_gone cap od ed total reads.
Proof.
  assert (forall od ed total rs, od && ed = true -> ~ consumer_gone cap od ed total rs) as Hdone.
  { intros od ed total rs He (pre & x & post & _ & Hn & _). destruct pre; cbn [pump] in Hn; by rewrite He in Hn. }
  induction reads as [|[r ok] rs IH]; intros od ed total; destruct (od && ed) eqn:Ed.
  - cbn [pump]. rewrite Ed. split; [done|]. intros Hc. by apply Hdone in Hc.
  - cbn [pump]. rewrite Ed. split; [done|]. intros (pre & x & post & He & _). by destruct pre.
  - cbn [pump]. rewrite Ed. split; [done|]. intros Hc. by apply Hdone in Hc.
  - assert (forall c, (forall l : list (PipeRead * bool), pump cap od ed total ((r, ok) :: l) =
        if negb ok then ([], Some PumpSinkClosed)
        else if cap <? total + Z.of_nat (length (chunk_data c)) then ([c], Some PumpTruncated)
        else let '(cs, e) := pump cap od ed (total + Z.of_nat (length (chunk_data c))) l in (c :: cs, e)) ->
      open_pipe od ed [] r -> (forall l x, open_pipe od ed (r :: l) x <-> open_pipe od ed l x) ->
      snd (pump cap od ed total ((r, ok) :: rs)) = Some PumpSinkClosed <-> consumer_gone cap od ed total ((r, ok) :: rs)) as Hemit.
    { intros c Hp Hop Hox. rewrite Hp. destruct ok; simpl.
      - destruct (cap <? _) eqn:Ec.
        + split; [done|]. intros (pre & x & post & He & Hn & _). destruct pre as [|p pre]; [done|]. injection He as <- _.
          by rewrite Hp in Hn.
        + rewrite (consumer_gone_cons cap od ed total od ed (total + Z.of_nat (length (chunk_data c)))); [|done| |done|by left].
          * rewrite <- IH. by destruct (pump cap od ed _ rs).
          * intros l. rewrite Hp. simpl. by destruct (pump cap od ed _ l).
      - split; [|done]. intros _. exists [], r, rs. split; [done|]. split; [cbn [pump]; by rewrite Ed|exact Hop]. }
    assert (forall od' ed', (forall l, pump cap od ed total ((r, ok) :: l) = pump cap od' ed' total l) ->
      ~ open_pipe od ed [] r -> (forall l x, open_pipe od ed (r :: l) x <-> open_pipe od' ed' l x) ->
      snd (pump cap od ed total ((r, ok) :: rs)) = Some PumpSinkClosed <-> consumer_gone cap od ed total ((r, ok) :: rs)) as Hskip.
    { intros od' ed' Hp Hop Hox. rewrite Hp, IH. symmetry. apply consumer_gone_cons; [done| |done|by right]. intros l. by rewrite Hp. }
    destruct r as [[d|]|[d|]].
    + destruct od.
      * apply (Hskip true ed); [intros l; cbn [pump]; by rewrite Ed|simpl; naive_solver|]. intros l [[]|[]]; simpl; set_solver.
      * apply (Hemit (CStdout d)); [intros l; cbn [pump]; by rewrite Ed|simpl; set_solver|]. intros l [[]|[]]; simpl; set_solver.
    + apply (Hskip true ed); [intros l; cbn [pump]; by rewrite Ed|simpl; naive_solver|]. intros l [[]|[]]; simpl; set_solver.
    + destruct ed.
      * apply (Hskip od true); [intros l; cbn [pump]; by rewrite Ed|simpl; naive_solver|]. intros l [[]|[]]; simpl; set_solver.
      * apply (Hemit (CStderr d)); [intros l; cbn [pump]; by rewrite Ed|simpl; set_solver|]. intros l [[]|[]]; simpl; set_solver.
    + apply (Hskip od true); [intros l; cbn [pump]; by rewrite Ed|simpl; naive_solver|]. intros l [[]|[]]; simpl; set_solver.
Qed.

Lemma build_command_user supported from_name env argv run_as cmd :
  build_command supported from_name env argv run_as = Ok cmd -> run_as <> EmptyString ->
  exists u, from_name run_as = Ok (Some u) /\ supported = true /\
    apply_target_user true (mkCommand argv env (fun c => Some c)) u = Ok cmd.
Proof.
  unfold build_command, resolve_user. destruct argv as [|a l]; [done|]. intros Hb Hne.
  destruct run_as as [|c s]; [done|]. simpl in Hb. destruct (from_name _) as [[u|]|]; [|done..]. simpl in Hb.
  exists u. by destruct supported.
Qed.

(** ** Properties *)

(** C33. A command run as another user runs with exactly that user's identity: if the
    child was spawned at all, its uid and gid are the user's, its supplementary groups
    are only the user's primary group, and its environment is the fixed minimal one;
    where groups cannot be dropped, or for an unknown user, nothing is spawned. *)
Theorem run_as_drops_all_privileges supported from_name agent_env agent argv run_as cmd child exec_ok :
  build_command supported from_name agent_env argv run_as = Ok cmd -> run_as <> EmptyString ->
  spawn agent cmd exec_ok = Ok child ->
  exists u, from_name run_as = Ok (Some u) /\ supported = true /\
    child = mkCred (u_uid u) (u_gid u) [u_gid u] /\
    cmd_env cmd = [("PATH", "/usr/local/bin:/usr/bin:/bin"); ("HOME", u_dir u); ("USER", u_name u);
                   ("LOGNAME", u_name u); ("SHELL", u_shell u)].
Proof.
  intros Hb Hne Hs. destruct (build_command_user _ _ _ _ _ _ Hb Hne) as (u & Hu & Hsup & Ha).
  exists u. injection Ha as <-. unfold spawn in Hs. simpl in Hs.
  unfold sys_setgid, sys_setgroups, sys_setuid in Hs.
  destruct (c_uid agent =? 0) eqn:E0; simpl in Hs.
  - rewrite E0 in Hs. simpl in Hs. rewrite E0 in Hs. simpl in Hs. destruct exec_ok; [|done]. by simplify_eq.
  - destruct (c_gid agent =? u_gid u); simpl in Hs; [|done]. by rewrite E0 in Hs.
Qed.

Lemma run_as_drops_all_privileges_witness :
  let u := mkUser "deploy" 1000 1000 "/home/deploy" "/bin/sh" in
  exists cmd, build_command true (fun _ => Ok (Some u)) [("OSA_TOKEN", "x")] ["id"] "deploy" = Ok cmd /\
    spawn (mkCred 0 0 [0; 4; 27]) cmd (Ok tt) = Ok (mkCred 1000 1000 [1000]) /\
    cmd_env cmd = [("PATH", "/usr/local/bin:/usr/bin:/bin"); ("HOME", "/home/deploy"); ("USER", "deploy");
                   ("LOGNAME", "deploy"); ("SHELL", "/bin/sh")].
Proof.
  intros u. eexists. split; [reflexivity|]. split; [reflexivity|].
  destruct (run_as_drops_all_privileges true (fun _ => Ok (Some u)) [("OSA_TOKEN", "x")] (mkCred 0 0 [0; 4; 27])
    ["id"] "deploy" _ (mkCred 1000 1000 [1000]) (Ok tt) eq_refl ltac:(discriminate) eq_refl)
    as (u' & Hu & _ & _ & He). injection Hu as <-. exact He.
Defined.

(** C36. Output is bounded and reported honestly: a streamed run never sends more than
    its cap plus one read buffer; it is flagged truncated exactly when the cap was
    passed, and timed out only when there is a deadline; and the child is killed before it
    is waited for exactly when its output is no longer read: past the cap, past the deadline,
    or when the consumer was gone and a chunk was due. *)
Theorem stream_output_bounded env argv run_as limits chunks kill outcome :
  0 <= max_output_bytes limits -> Forall read_fits (re_reads env) ->
  stream env argv run_as limits = (chunks, kill, Ok outcome) ->
  total_bytes chunks <= max_output_bytes limits + READ_CHUNK /\
  (so_truncated outcome = true <-> max_output_bytes limits < total_bytes chunks) /\
  (so_timed_out outcome = true -> timeout limits <> None) /\
  (kill = true <-> so_truncated outcome = true \/ so_timed_out outcome = true \/ consumer_gone (max_output_bytes limits) false false 0 (re_reads env)).
Proof.
  intros Hcap Hf. unfold stream. destruct (build_command _ _ _ _ _) as [cmd|]; [|done].
  destruct (spawn _ _ _); [|done]. pose proof (pump_closed (max_output_bytes limits) (re_reads env) false false 0) as Hg.
  destruct (pump _ _ _ _ _) as [cs e] eqn:Ep. simpl in Hg.
  apply pump_spec in Ep as [Hb He]; [|lia|done]. destruct (re_wait env _) as [st|] eqn:Ew; [|done].
  intros Hr. simplify_eq. simpl. rewrite <- Hg. split; [lia|]. split; [|split].
  - rewrite Z.add_0_l in He. destruct e as [[]|]; rewrite <- He; split; congruence.
  - by destruct e as [[]|], (timeout limits).
  - destruct e as [[]|]; simpl; [..|destruct (timeout limits)]; simpl; naive_solver.
Qed.

Lemma stream_output_bounded_witness :
  let env := mkRunEnv (fun _ => Ok None) true (mkCred 0 0 []) [] (Ok tt)
    [(ReadOut (Some (bytes_of "hello")), true); (ReadErr (Some (bytes_of "world")), true)]
    (fun _ => Ok (mkStatus None (Some (wrap 9)))) in
  exists chunks outcome, stream env ["yes"] "" (mkLimits 7 None) = (chunks, true, Ok outcome) /\
    so_truncated outcome = true /\ total_bytes chunks <= 7 + READ_CHUNK.
Proof.
  intros env. eexists _, _. split; [reflexivity|]. split; [reflexivity|].
  apply (stream_output_bounded env ["yes"] "" (mkLimits 7 None) _ true
           (mkStreamOutcome None (Some (wrap 9)) true false)); [|repeat constructor|reflexivity].
  - vm_compute. intros Hc. discriminate Hc.
  - vm_compute. intros Hc. discriminate Hc.
  - vm_compute. intros Hc. discriminate Hc.
Defined.
