(* ===== verification/JobRunner.v ===== *)
(** * Dispatched jobs on the agent (osa-agent/src/jobstore.rs, osa-agent/src/dispatch.rs)

    The crash-recoverable job store and [run_job].  A running job is a task between two
    of its await points; tasks interleave, the agent may crash at any moment and restart
    with whatever its disk kept, and the same dispatch may be delivered any number of
    times. *)
From Stdlib Require Import Strings.Byte.
From S2P Require Import Prelude Proto Concrete Seal Disk Allowlist Session Exec.

Definition TAG_STARTED : byte := x00.
Definition TAG_DONE : byte := x01.
Definition RETENTION : Z := 7 * 24 * 3600.
Definition MAX_JOB_OUTPUT : Z := 8 * 1024 * 1024.
Definition JOB_TIMEOUT : Z := 300.
Definition MAX_JOB_ID_LEN : Z := 256.

Inductive JobState := Started | Done (o : JobOutcome).

Definition failed (msg : string) : JobOutcome := mkOutcome (Some (TermError msg)) false false.

Section Runner.
Context `{Crypto} `{Prost}.

(** [{:?}] of a string, and the [Display] of an [io::Error]-carrying exec error. *)
Variable debug_str : string -> string.

(** ** JobStore *)

Definition job_path (job_id : string) : string := sha256_hex (bytes_of job_id).

(** A record of [prune]: removed if its name has a dot or it is older than the cutoff. *)
Definition prune_removes (now : Z) (mtime : string -> option Z) (name : string) : bool :=
  has_char "." name ||
  match mtime name with Some t => t <? now - RETENTION | None => false end.

Definition prune (d : Dir) (now : Z) (mtime : string -> option Z) : Dir :=
  mkDir (filter (fun p => prune_removes now mtime p.1 = false) (cur d)) (durable d).

Definition lookup_job (d : Dir) (job_id : string) (rf : option string) : result (option JobState) IoError :=
  match read_file d (job_path job_id) rf with
  | Err IoNotFound => Ok None
  | Err e => Err e
  | Ok b =>
      match b with
      | tag :: rest =>
          if decide (tag = TAG_DONE) then
            match decode_msg (M := JobOutcome) rest with
            | Ok outcome => match jo_terminal outcome with
                            | Some _ => Ok (Some (Done outcome))
                            | None => Ok (Some Started)
                            end
            | Err _ => Ok (Some Started)
            end
          else Ok (Some Started)
      | [] => Ok (Some Started)
      end
  end.

Definition mark_started (d : Dir) (job_id : string) (wf : WriteFault) : Dir * result unit IoError :=
  write_durably d (job_path job_id) [TAG_STARTED] wf.

Definition record_done (d : Dir) (job_id : string) (outcome : JobOutcome) (wf : WriteFault) : Dir * result unit IoError :=
  write_durably d (job_path job_id) (TAG_DONE :: encode_msg outcome) wf.

(** ** Results *)

(** [JobChannel]: seals results with the session's shared counter. *)
Record JobChannel := mkChannel { jc_keys : SessionKeys; jc_send_seq : u64; jc_host_id : string; jc_sid : string }.

Definition JobChannel_send (ch : JobChannel) (r : JobResult) : JobChannel * bytes :=
  let '(q, b) := seal_uplink (jc_keys ch) (jc_send_seq ch) (jc_host_id ch) (jc_sid ch) (encode_msg r) in
  (mkChannel (jc_keys ch) q (jc_host_id ch) (jc_sid ch), b).

Definition chunk_result (job_id : string) (c : Chunk) : JobResult :=
  mkResult job_id (Some (BChunk (match c with
    | CStdout d => mkChunk (stream_i32 Stdout) d
    | CStderr d => mkChunk (stream_i32 Stderr) d end))).
Definition outcome_result (job_id : string) (o : JobOutcome) : JobResult := mkResult job_id (Some (BOutcome o)).

(** ** run_job *)

Variable backstop : LocalAllowlist.
Variable host_id : string.

Definition denial_text (e : BackstopDenial) : string :=
  match e with
  | DenyVerb k => "verb " +:+ (debug_str k +:+ " is not permitted by the host allowlist")
  | DenyRunAs r => "run_as " +:+ (debug_str r +:+ " is not permitted by the host allowlist")
  end.

Definition exec_error_text (e : ExecError) : string :=
  match e with
  | EmptyArgv => "no command given"
  | UnknownUser u => "run_as user " +:+ (debug_str u +:+ " does not exist")
  | UserLookup u m => "looking up run_as user " +:+ (debug_str u +:+ (" failed: " +:+ m))
  | PrivDropUnsupported => "dropping privileges to a run_as user is only supported on Linux"
  | Spawn p m => "spawning " +:+ (debug_str p +:+ (" failed: " +:+ m))
  | Wait m => "waiting on the child failed: " +:+ m
  end.

(** The backstop, kind and parameter checks: the parameters, or the outcome reported. *)
Definition check_dispatch (d : Dispatch) : result ExecParams JobOutcome :=
  let action := mkAction (d_kind d) host_id (d_run_as d) [] in
  match permits backstop action with
  | Err denial => Err (failed ("denied by host backstop: " +:+ denial_text denial))
  | Ok _ =>
      if negb (bool_decide (d_kind d = KIND)) then Err (failed ("unsupported capability " +:+ debug_str (d_kind d)))
      else match decode_msg (M := ExecParams) (d_params d) with
           | Err e => Err (failed ("malformed exec params: " +:+ e))
           | Ok p => Ok p
           end
  end.

(** The terminal outcome of a finished run. *)
Definition outcome_of (r : result StreamOutcome ExecError) : JobOutcome :=
  match r with
  | Ok so =>
      let terminal := match so_exit_code so, so_signal so with
                      | Some code, _ => ExitCode code
                      | None, Some sg => Signal sg
                      | None, None => TermError "no terminal status"
                      end in
      mkOutcome (Some terminal) (so_truncated so) (so_timed_out so)
  | Err e => failed (exec_error_text e)
  end.

(** A task of [run_job], at the await it has reached. *)
Inductive JobTask :=
| AtLookup (d : Dispatch)                       (** claimed; about to look the job up *)
| AtMark (d : Dispatch) (p : ExecParams)        (** checked; about to persist the start marker *)
| AtExec (d : Dispatch) (p : ExecParams)        (** marked; about to spawn *)
| AtRecord (d : Dispatch) (o : JobOutcome).     (** finished; about to persist the outcome *)

Definition task_dispatch (t : JobTask) : Dispatch :=
  match t with AtLookup d => d | AtMark d _ => d | AtExec d _ => d | AtRecord d _ => d end.

(** The agent process: its job directory, in-flight claims and running tasks; the
    results handed to the session; and, for the record, every dispatch that was spawned
    and every job record that a restart pruned. *)
Record Runner := mkRunner {
  jobs : Dir;
  inflight : gset string;
  running : gmap nat JobTask;
  sent : list JobResult;
  spawned : list Dispatch;
  forgotten : list string
}.

(** What the environment decides for one task step: the read and write faults of the
    store, and what running the command does. *)
Record TaskEnv := mkTaskEnv { te_read : option string; te_write : WriteFault; te_run : RunEnv }.

(** [try_claim], and the drop of a [Claim]: the ids in flight. *)
Definition try_claim (set : gset string) (job_id : string) : option (gset string) :=
  if bool_decide (job_id ∈ set) then None else Some ({[job_id]} ∪ set).
Definition drop_claim (set : gset string) (job_id : string) : gset string := set ∖ {[job_id]}.

(** Delivery of a dispatch to a fresh task [i], up to the claim. *)
Definition job_begin (r : Runner) (i : nat) (d : Dispatch) : Runner :=
  let id := d_job_id d in
  if is_empty id || (MAX_JOB_ID_LEN <? Z.of_nat (String.length id))
  then mkRunner (jobs r) (inflight r) (running r) (sent r ++ [outcome_result id (failed "invalid job_id")])
         (spawned r) (forgotten r)
  else match try_claim (inflight r) id with
       | None => r
       | Some set => mkRunner (jobs r) set (<[i := AtLookup d]> (running r)) (sent r) (spawned r) (forgotten r)
       end.

(** A task that ends: its claim is dropped and its results are out. *)
Definition job_end (r : Runner) (i : nat) (id : string) (results : list JobResult) : Runner :=
  mkRunner (jobs r) (drop_claim (inflight r) id) (delete i (running r)) (sent r ++ results) (spawned r) (forgotten r).

Definition set_task (r : Runner) (i : nat) (t : JobTask) : Runner :=
  mkRunner (jobs r) (inflight r) (<[i := t]> (running r)) (sent r) (spawned r) (forgotten r).
Definition set_jobs (r : Runner) (d : Dir) : Runner :=
  mkRunner d (inflight r) (running r) (sent r) (spawned r) (forgotten r).

(** One step of task [i]. *)
Definition job_step (r : Runner) (i : nat) (e : TaskEnv) : Runner :=
  match running r !! i with
  | None => r
  | Some (AtLookup d) =>
      let id := d_job_id d in
      match lookup_job (jobs r) id (te_read e) with
      | Ok (Some (Done o)) => job_end r i id [outcome_result id o]
      | Ok (Some Started) =>
          job_end r i id [outcome_result id (failed "job was interrupted before completing; not re-executed")]
      | Err _ => job_end r i id [outcome_result id (failed "agent job store unavailable")]
      | Ok None =>
          match check_dispatch d with
          | Err o => job_end r i id [outcome_result id o]
          | Ok p => set_task r i (AtMark d p)
          end
      end
  | Some (AtMark d p) =>
      let id := d_job_id d in
      match mark_started (jobs r) id (te_write e) with
      | (jd, Err _) => job_end (set_jobs r jd) i id [outcome_result id (failed "agent job store unavailable")]
      | (jd, Ok _) => set_task (set_jobs r jd) i (AtExec d p)
      end
  | Some (AtExec d p) =>
      let id := d_job_id d in
      let '(chunks, _, res) := stream (te_run e) (ep_argv p) (d_run_as d) (mkLimits MAX_JOB_OUTPUT (Some JOB_TIMEOUT)) in
      mkRunner (jobs r) (inflight r) (<[i := AtRecord d (outcome_of res)]> (running r))
        (sent r ++ (chunk_result id <$> chunks)) (spawned r ++ [d]) (forgotten r)
  | Some (AtRecord d o) =>
      let id := d_job_id d in
      let '(jd, _) := record_done (jobs r) id o (te_write e) in
      job_end (set_jobs r jd) i id [outcome_result id o]
  end.

(** A crash and restart: the tasks and claims are gone, the directory is what the disk
    kept, pruned as [JobStore::new] does. *)
Definition restart (r : Runner) (kept : Dir) (now : Z) (mtime : string -> option Z) : Runner :=
  mkRunner (prune kept now mtime) ∅ ∅ (sent r) (spawned r)
    (forgotten r ++ ((map_to_list (filter (fun p => prune_removes now mtime p.1 = true) (cur kept))).*1)).

Inductive runner_step : Runner -> Runner -> Prop :=
| st_deliver r i d : running r !! i = None -> runner_step r (job_begin r i d)
| st_task r i e : runner_step r (job_step r i e)
| st_crash r kept now mtime : crash (jobs r) kept -> runner_step r (restart r kept now mtime).

Definition runner_init (d : Dir) : Runner := mkRunner d ∅ ∅ [] [] [].

(** A delivery run to its end with nothing else going on: the lookup, the marker, the
    run and the record are at most four steps. *)
Definition run_job (r : Runner) (i : nat) (d : Dispatch) (e1 e2 e3 e4 : TaskEnv) : Runner :=
  job_step (job_step (job_step (job_step (job_begin r i d) i e1) i e2) i e3) i e4.

(** How often a job was spawned, and how often its record was pruned. *)
Definition times_spawned (r : Runner) (id : string) : nat :=
  length (filter (fun d => d_job_id d = id) (spawned r)).
Definition times_forgotten (r : Runner) (id : string) : nat :=
  length (filter (fun p => p = job_path id) (forgotten r)).

End Runner.

(** ** Lemmas *)

(** Whatever the disk may hold for a path, now or after a crash, it holds a record. *)
Definition recorded (d : Dir) (p : string) : Prop := forall v, possible d p v -> v <> None.

Lemma write_recorded d path b f d' r p :
  write_durably d path b f = (d', r) -> recorded d p -> recorded d' p.
Proof.
  intros Hw Hr v Hv. eapply write_possible in Hv as [[_ ->]|Hv]; [done| |exact Hw]. by apply Hr.
Qed.

Lemma write_ok_recorded d path b f d' :
  write_durably d path b f = (d', Ok tt) -> recorded d' path.
Proof.
  intros Hw v Hv. pose proof (write_ok_inv _ _ _ _ _ Hw) as ->. by rewrite (write_ok _ _ _ _ Hw v Hv).
Qed.

Lemma app_self_nil {A} (l : list A) x : l = l ++ [x] -> False.
Proof. intros He. apply (f_equal length) in He. rewrite length_app in He. simpl in He. lia. Qed.

Section RunnerLemmas.
Context `{Crypto} `{Prost} (debug_str : string -> string) (backstop : LocalAllowlist) (host_id : string).

(** What a dispatch about to run was checked for. *)
Definition checked (d : Dispatch) : Prop := exists p, check_dispatch debug_str backstop host_id d = Ok p.

Definition past_checks (t : JobTask) : Prop :=
  match t with AtMark d _ => checked d | AtExec d _ => checked d | _ => True end.

(** The invariant of the runner, for one job id. *)
Record runner_inv (r : Runner) (id : string) : Prop := {
  inv_claimed : forall i t, running r !! i = Some t -> d_job_id (task_dispatch t) ∈ inflight r;
  inv_unique : forall i j t u, running r !! i = Some t -> running r !! j = Some u ->
    d_job_id (task_dispatch t) = d_job_id (task_dispatch u) -> i = j;
  inv_bound : (times_spawned r id <= 1 + times_forgotten r id)%nat;
  inv_recorded : (times_spawned r id <= times_forgotten r id)%nat \/ recorded (jobs r) (job_path id);
  inv_ready : forall i t, running r !! i = Some t -> d_job_id (task_dispatch t) = id ->
    match t with
    | AtMark _ _ => (times_spawned r id <= times_forgotten r id)%nat
    | AtExec _ _ => (times_spawned r id <= times_forgotten r id)%nat /\ recorded (jobs r) (job_path id)
    | _ => True
    end;
  inv_checked : map_Forall (fun _ t => past_checks t) (running r);
  inv_spawned : Forall checked (spawned r)
}.

Lemma job_begin_inv r i d id :
  running r !! i = None -> runner_inv r id -> runner_inv (job_begin r i d) id.
Proof.
  intros Hi Hr. unfold job_begin, try_claim. destruct (_ || _); [by destruct Hr|].
  destruct (bool_decide _) eqn:Eb; [done|]. bool_to_prop. destruct Hr as [Hc Hu Hb Hrec Hrdy Hch Hsp].
  split; simpl; try done.
  - intros j t. rewrite lookup_insert_Some. intros [[<- <-]|[_ Ht]]; simpl; [set_solver|].
    apply Hc in Ht. set_solver.
  - intros j k t u. rewrite !lookup_insert_Some.
    intros [[<- <-]|[? Ht]] [[<- <-]|[? Hu']]; simpl; try done.
    + intros He. apply Hc in Hu'. rewrite <- He in Hu'. done.
    + intros He. apply Hc in Ht. rewrite He in Ht. done.
    + by eapply Hu.
  - intros j t. rewrite lookup_insert_Some. intros [[<- <-]|[_ Ht]]; simpl; [done|]. exact (Hrdy _ _ Ht).
  - by apply map_Forall_insert_2.
Qed.

Lemma job_end_inv r i t id results :
  running r !! i = Some t -> runner_inv r id ->
  runner_inv (job_end r i (d_job_id (task_dispatch t)) results) id.
Proof.
  intros Hi [Hc Hu Hb Hrec Hrdy Hch Hsp]. split; simpl; unfold drop_claim; try done.
  - intros j u [Hne Hj]%lookup_delete_Some. pose proof (Hc _ _ Hj).
    assert (d_job_id (task_dispatch u) <> d_job_id (task_dispatch t)) by (intros He; by destruct (Hu j i u t Hj Hi He)).
    set_solver.
  - intros j k u w [_ Hj]%lookup_delete_Some [_ Hk]%lookup_delete_Some. by apply Hu.
  - intros j u [_ Hj]%lookup_delete_Some. exact (Hrdy _ _ Hj).
  - by apply map_Forall_delete.
Qed.

(** Moving a task on, with the same dispatch. *)
Lemma set_task_inv r i t u id :
  running r !! i = Some t -> task_dispatch u = task_dispatch t -> past_checks u ->
  (d_job_id (task_dispatch u) = id ->
   match u with
   | AtMark _ _ => (times_spawned r id <= times_forgotten r id)%nat
   | AtExec _ _ => (times_spawned r id <= times_forgotten r id)%nat /\ recorded (jobs r) (job_path id)
   | _ => True
   end) ->
  runner_inv r id -> runner_inv (set_task r i u) id.
Proof.
  intros Hi Hd Hp Hok [Hc Hu Hb Hrec Hrdy Hch Hsp]. split; simpl; try done.
  - intros j w. rewrite lookup_insert_Some. intros [[<- <-]|[_ Hj]]; [rewrite Hd|]; by eapply Hc.
  - intros j k w x. rewrite !lookup_insert_Some.
    intros [[<- <-]|[? Hj]] [[<- <-]|[? Hk]]; rewrite ?Hd; intros He; try done; by eapply Hu.
  - intros j w. rewrite lookup_insert_Some. intros [[<- <-]|[_ Hj]]; [done|]. exact (Hrdy _ _ Hj).
  - by apply map_Forall_insert_2.
Qed.

(** A durable write never loses a record. *)
Lemma set_jobs_inv r path b f d' w id :
  write_durably (jobs r) path b f = (d', w) -> runner_inv r id -> runner_inv (set_jobs r d') id.
Proof.
  intros Hw [Hc Hu Hb Hrec Hrdy Hch Hsp]. split; simpl; try done.
  - destruct Hrec as [?|?]; [by left|right]. by eapply write_recorded.
  - intros i t Ht Hid. specialize (Hrdy _ _ Ht Hid). destruct t; try done.
    destruct Hrdy. split; [done|]. by eapply write_recorded.
Qed.

Lemma lookup_job_None d id rf : lookup_job d id rf = Ok None -> ~ recorded d (job_path id).
Proof.
  unfold lookup_job, read_file. destruct rf; simpl; [done|]. intros Hl Hr.
  destruct (cur d !! job_path id) as [b|] eqn:Ec; simpl in Hl.
  - destruct b as [|t rest]; [done|]. destruct (decide _); [|done].
    destruct (decode_msg rest) as [o|]; [|done]. by destruct (jo_terminal o).
  - apply (Hr None); [|done]. left. by rewrite Ec.
Qed.

Lemma job_step_inv r i e id : runner_inv r id -> runner_inv (job_step debug_str backstop host_id r i e) id.
Proof.
  intros Hr. unfold job_step. destruct (running r !! i) as [[d|d p|d p|d o]|] eqn:Ei; [| | | |done].
  - destruct (lookup_job _ _ _) as [[[|o]|]|] eqn:El; try (by apply (job_end_inv r i (AtLookup d))).
    destruct (check_dispatch _ _ _ d) as [p|] eqn:Ec; [|by apply (job_end_inv r i (AtLookup d))].
    apply (set_task_inv r i (AtLookup d)); [done|done|by exists p| |done].
    simpl. intros <-. apply lookup_job_None in El. by destruct (inv_recorded _ _ Hr).
  - destruct (mark_started _ _ _) as [jd [[]|]] eqn:Em; pose proof (set_jobs_inv _ _ _ _ _ _ id Em Hr) as Hr'.
    + apply (set_task_inv (set_jobs r jd) i (AtMark d p)); [done|done| | |done].
      * by apply (inv_checked _ _ Hr i (AtMark d p)).
      * simpl. intros <-. split; [by apply (inv_ready _ _ Hr i (AtMark d p))|].
        by eapply write_ok_recorded.
    + by apply (job_end_inv (set_jobs r jd) i (AtMark d p)).
  - destruct (stream _ _ _ _) as [[chunks k] res]. destruct Hr as [Hc Hu Hb Hrec Hrdy Hch Hsp].
    pose proof (Hrdy _ _ Ei) as Hx. simpl in Hx.
    assert (times_spawned (mkRunner (jobs r) (inflight r) (<[i:=AtRecord d (outcome_of debug_str res)]> (running r))
      (sent r ++ (chunk_result (d_job_id d) <$> chunks)) (spawned r ++ [d]) (forgotten r)) id =
      (times_spawned r id + if decide (d_job_id d = id) then 1 else 0)%nat) as Hcnt.
    { unfold times_spawned. simpl. rewrite filter_app, length_app, filter_cons, filter_nil. by case_decide. }
    split; rewrite ?Hcnt; simpl; try done.
    + intros j w. rewrite lookup_insert_Some. intros [[<- <-]|[_ Hj]]; [|by eapply Hc]. by apply (Hc _ _ Ei).
    + intros j m w x. rewrite !lookup_insert_Some.
      intros [[<- <-]|[? Hj]] [[<- <-]|[? Hk]]; simpl; intros He; try done.
      * by apply (Hu i m (AtExec d p) x).
      * by apply (Hu j i w (AtExec d p)).
      * by eapply Hu.
    + unfold times_forgotten in *. simpl in *. case_decide; [destruct (Hx ltac:(done))|]; lia.
    + unfold times_forgotten in *. simpl in *. case_decide; [right; by apply Hx|]. destruct Hrec; [left; lia|by right].
    + intros j w. rewrite lookup_insert_Some. intros [[<- <-]|[Hne Hj]] Hid; [done|].
      specialize (Hrdy _ _ Hj Hid). rewrite decide_False.
      { unfold times_forgotten in *. simpl in *. destruct w; try done; [lia|]. split; [lia|]. by destruct Hrdy. }
      intros He. apply Hne. apply (Hu i j (AtExec d p) w); [done|done|]. simpl. congruence.
    + by apply map_Forall_insert_2.
    + apply Forall_app. split; [done|]. constructor; [|done]. by apply (Hch i (AtExec d p)).
  - destruct (record_done _ _ _ _) as [jd w] eqn:Em. pose proof (set_jobs_inv _ _ _ _ _ _ id Em Hr) as Hr'.
    by apply (job_end_inv (set_jobs r jd) i (AtRecord d o)).
Qed.

Lemma restart_inv r kept now mtime id :
  crash (jobs r) kept -> runner_inv r id -> runner_inv (restart r kept now mtime) id.
Proof.
  intros Hcr [Hc Hu Hb Hrec Hrdy Hch Hsp].
  set (gone := (map_to_list (filter (fun p => prune_removes now mtime p.1 = true) (cur kept))).*1).
  assert (times_forgotten (restart r kept now mtime) id =
    (times_forgotten r id + length (filter (fun p => p = job_path id) gone))%nat) as Hf.
  { unfold times_forgotten. simpl. by rewrite filter_app, length_app. }
  assert (times_spawned (restart r kept now mtime) id = times_spawned r id) as Hs by done.
  split; rewrite ?Hf, ?Hs; simpl; try done; [lia|].
  destruct Hrec as [?|Hrec]; [left; lia|].
  assert (recorded kept (job_path id)) as Hk.
  { intros v Hv. apply Hrec. by eapply crash_possible. }
  destruct (cur kept !! job_path id) as [b|] eqn:Ec; [|by destruct (Hk None); [left|]].
  destruct (prune_removes now mtime (job_path id)) eqn:Ep.
  - left. assert (job_path id ∈ filter (fun p => p = job_path id) gone) as Hin.
    { apply list_elem_of_filter. split; [done|]. apply list_elem_of_fmap. exists (job_path id, b).
      split; [done|]. apply elem_of_map_to_list. by apply map_lookup_filter_Some. }
    destruct (filter _ gone); [by apply not_elem_of_nil in Hin|]. simpl. lia.
  - right. intros v [-> | ->]; simpl.
    + intros Hn. apply map_lookup_filter_None in Hn as [?|Hn]; [congruence|]. by apply (Hn b).
    + destruct Hcr as [Hd _]. rewrite Hd, Ec. done.
Qed.

Lemma runner_reachable_inv d r id :
  rtc (runner_step debug_str backstop host_id) (runner_init d) r -> runner_inv r id.
Proof.
  revert r. apply (rtc_ind_r (fun r => runner_inv r id)).
  - split; simpl; try done; [unfold times_spawned; simpl; lia|left; unfold times_spawned; simpl; lia].
  - intros r r' _ Hs Hr. destruct Hs; [by apply job_begin_inv|by apply job_step_inv|by apply restart_inv].
Qed.

Lemma job_step_gone r i e : running r !! i = None -> job_step debug_str backstop host_id r i e = r.
Proof. intros Hi. unfold job_step. by rewrite Hi. Qed.

Lemma job_end_gone r i id results : running (job_end r i id results) !! i = None.
Proof. apply lookup_delete_eq. Qed.

(** [y] is [r] with task [i] claimed under [id]: ending the task restores [r]. *)
Definition claimed_from (r y : Runner) (i : nat) (id : string) : Prop :=
  (exists t, running y = <[i := t]> (running r)) /\ inflight y = {[id]} ∪ inflight r.

Lemma job_end_restores r y i id results :
  running r !! i = None -> id ∉ inflight r -> claimed_from r y i id ->
  running (job_end y i id results) = running r /\ inflight (job_end y i id results) = inflight r.
Proof.
  intros Hi Hn [[t Ht] Hf]. simpl. unfold drop_claim. rewrite Ht, Hf. split; [by rewrite delete_insert_id|set_solver].
Qed.

Lemma outcome_of_terminal res : is_Some (jo_terminal (outcome_of debug_str res)).
Proof. destruct res as [so|]; simpl; eauto. Qed.

Lemma lookup_recorded `{!ProstLaws} d id o d' :
  is_Some (jo_terminal o) -> record_done d id o WOk = (d', Ok tt) -> lookup_job d' id None = Ok (Some (Done o)).
Proof.
  intros [t Ht] [= <-]. unfold lookup_job, read_file. simpl. rewrite lookup_insert_eq. simpl.
  rewrite decode_encode. by rewrite Ht.
Qed.

End RunnerLemmas.

(** ** Properties *)

(** C6. At most once: however often a dispatch is delivered, however tasks interleave,
    whatever store operations fail and whenever the agent crashes and restarts, a job is
    spawned at most once, plus once more only if a restart pruned its expired record;
    and whatever was spawned was permitted by the host's allowlist and was an exec. *)
Theorem jobs_run_at_most_once `{Crypto, Prost} debug_str backstop host_id d r id :
  rtc (runner_step debug_str backstop host_id) (runner_init d) r ->
  (times_spawned r id <= 1 + times_forgotten r id)%nat /\
  Forall (fun x => permits backstop (mkAction (d_kind x) host_id (d_run_as x) []) = Ok tt /\ d_kind x = KIND) (spawned r).
Proof.
  intros Hr. pose proof (runner_reachable_inv debug_str backstop host_id d r id Hr) as Hi.
  split; [apply (inv_bound _ _ _ _ _ Hi)|].
  eapply Forall_impl; [exact (inv_spawned _ _ _ _ _ Hi)|]. intros x [p Hp]. unfold check_dispatch in Hp.
  destruct (permits _ _) as [[]|]; [|done]. destruct (bool_decide _) eqn:Ek; [|done]. by bool_to_prop.
Qed.

Definition demo_dispatch : Dispatch := mkDispatch "job-1" "exec" "" (encode_msg (mkExecParams ["id"])).
Definition demo_allow : LocalAllowlist := mkAllowlist ["exec"] ["*"].
Definition demo_run : RunEnv :=
  mkRunEnv (fun _ => Ok None) true (mkCred 0 0 []) [] (Ok tt)
    [(ReadOut (Some (bytes_of "uid")), true); (ReadOut None, true); (ReadErr None, true)]
    (fun _ => Ok (mkStatus (Some (wrap 0)) None)).
Definition demo_task_env : TaskEnv := mkTaskEnv None WOk demo_run.

(** A delivery that runs, a crash before the outcome is recorded, and a redelivery. *)
Lemma jobs_run_at_most_once_witness :
  let step := job_step id demo_allow "h" in
  let r1 := step (step (step (job_begin (runner_init dir_empty) 0 demo_dispatch) 0%nat demo_task_env) 0%nat demo_task_env) 0%nat demo_task_env in
  let r2 := restart r1 (jobs r1) 0 (fun _ => None) in
  let r3 := step (job_begin r2 0 demo_dispatch) 0%nat demo_task_env in
  times_spawned r1 "job-1" = 1%nat /\ last (sent r3) =
    Some (outcome_result "job-1" (failed "job was interrupted before completing; not re-executed")) /\
  (times_spawned r3 "job-1" <= 1 + times_forgotten r3 "job-1")%nat.
Proof.
  intros step r1 r2 r3. split; [vm_compute; reflexivity|]. split; [vm_compute; reflexivity|].
  apply (jobs_run_at_most_once id demo_allow "h" dir_empty r3 "job-1").
  eapply rtc_l; [apply (st_deliver id demo_allow "h" (runner_init dir_empty) 0 demo_dispatch eq_refl)|].
  eapply rtc_l; [apply (st_task id demo_allow "h" _ 0 demo_task_env)|].
  eapply rtc_l; [apply (st_task id demo_allow "h" _ 0 demo_task_env)|].
  eapply rtc_l; [apply (st_task id demo_allow "h" _ 0 demo_task_env)|].
  eapply rtc_l; [apply (st_crash id demo_allow "h" r1 (jobs r1) 0 (fun _ => None))|].
  { split; [vm_compute; reflexivity|]. intros p. left. reflexivity. }
  eapply rtc_l; [apply (st_deliver id demo_allow "h" r2 0 demo_dispatch eq_refl)|].
  eapply rtc_l; [apply (st_task id demo_allow "h" _ 0 demo_task_env)|]. apply rtc_refl.
Defined.

(** C32. Every delivery of a job that is not already running ends: four steps of its task
    later, whatever the store and the command do, the task is gone, exactly one terminal
    outcome was reported, after the chunks of its output, and no claim is left behind; and
    when the run was recorded, a later lookup finds that same outcome. *)
Theorem job_reports_one_outcome `{Crypto, ProstLaws} debug_str backstop host_id r i d e1 e2 e3 e4 :
  let id := d_job_id d in
  let r' := run_job debug_str backstop host_id r i d e1 e2 e3 e4 in
  running r !! i = None -> id ∉ inflight r ->
  (exists chunks o,
    sent r' = sent r ++ (chunk_result id <$> chunks) ++ [outcome_result id o] /\
    (spawned r' = spawned r ++ [d] -> te_write e4 = WOk -> lookup_job (jobs r') id None = Ok (Some (Done o)))) /\
  running r' = running r /\ inflight r' = inflight r.
Proof.
  intros id r' Hi Hn. unfold r', run_job.
  set (step := job_step debug_str backstop host_id).
  assert (forall y o, claimed_from r y i id -> sent y = sent r -> spawned y = spawned r ->
    let x := job_end y i id [outcome_result id o] in
    (exists chunks o, sent x = sent r ++ (chunk_result id <$> chunks) ++ [outcome_result id o] /\
      (spawned x = spawned r ++ [d] -> te_write e4 = WOk -> lookup_job (jobs x) id None = Ok (Some (Done o)))) /\
    running x = running r /\ inflight x = inflight r) as Hend.
  { intros y o Hy Hs Hsp x. split; [|by apply job_end_restores]. exists [], o. simpl. rewrite Hs, Hsp.
    split; [done|]. intros He. destruct (app_self_nil _ _ He). }
  unfold job_begin, try_claim. fold id. destruct (_ || _).
  { unfold step. set (y := mkRunner _ _ _ _ _ _).
    assert (running y !! i = None) as Hy by done. rewrite !(job_step_gone _ _ _ y) by done. simpl. split; [|done]. exists [], (failed "invalid job_id").
    split; [done|]. intros He. destruct (app_self_nil _ _ He). }
  rewrite bool_decide_eq_false_2 by done.
  set (r0 := mkRunner (jobs r) ({[id]} ∪ inflight r) (<[i := AtLookup d]> (running r)) (sent r) (spawned r) (forgotten r)).
  assert (claimed_from r r0 i id) as Hc0 by (split; [by eexists|done]).
  assert (forall y results, step (step (step (job_end y i id results) i e2) i e3) i e4 = job_end y i id results) as Hgone.
  { intros y results. unfold step. by rewrite !(job_step_gone _ _ _ (job_end y i id results)) by apply job_end_gone. }
  remember (step r0 i e1) as x1 eqn:E1. unfold step, job_step in E1. cbn [running r0] in E1.
  rewrite lookup_insert_eq in E1. fold id in E1.
  destruct (lookup_job _ _ _) as [[[|o]|]|]; try (rewrite E1, Hgone; by apply Hend).
  destruct (check_dispatch _ _ _ d) as [p|o]; [|rewrite E1, Hgone; by apply Hend].
  assert (forall t, claimed_from r (set_task r0 i t) i id) as Hc1.
  { intros t. split; [|done]. exists t. simpl. apply insert_insert_eq. }
  remember (step x1 i e2) as x2 eqn:E2. rewrite E1 in E2. unfold step, job_step in E2. cbn [running set_task] in E2.
  rewrite lookup_insert_eq in E2. fold id in E2.
  destruct (mark_started _ _ _) as [jd [[]|]] eqn:Em.
  2: { rewrite E2. unfold step. rewrite !(job_step_gone _ _ _ (job_end _ i id _)) by apply job_end_gone.
       apply Hend; [apply (Hc1 (AtMark d p))|done..]. }
  remember (step x2 i e3) as x3 eqn:E3. rewrite E2 in E3. unfold step, job_step in E3.
  cbn [running set_task set_jobs] in E3. rewrite lookup_insert_eq in E3. fold id in E3.
  destruct (stream _ _ _ _) as [[chunks k] res].
  rewrite E3. unfold step, job_step. cbn [running]. rewrite lookup_insert_eq. fold id.
  destruct (record_done _ _ _ _) as [jd' w] eqn:Ed. split.
  - exists chunks, (outcome_of debug_str res). simpl. split; [by rewrite app_assoc|]. intros _ Hw. rewrite Hw in Ed.
    assert (w = Ok tt) as -> by (by injection Ed). eapply lookup_recorded; [apply outcome_of_terminal|exact Ed].
  - apply job_end_restores; try done. split; [|done]. eexists. simpl. rewrite !insert_insert_eq. done.
Qed.

Lemma job_reports_one_outcome_witness :
  let r' := run_job id demo_allow "h" (runner_init dir_empty) 0 demo_dispatch demo_task_env demo_task_env demo_task_env demo_task_env in
  length (sent r') = 2%nat /\
  exists chunks o, sent r' = [] ++ (chunk_result "job-1" <$> chunks) ++ [outcome_result "job-1" o].
Proof.
  intros r'. split; [vm_compute; reflexivity|].
  destruct (job_reports_one_outcome id demo_allow "h" (runner_init dir_empty) 0 demo_dispatch
    demo_task_env demo_task_env demo_task_env demo_task_env eq_refl (not_elem_of_empty _))
    as [(chunks & o & Hs & _) _].
  exists chunks, o. exact Hs.
Defined.
