(* ===== verification/Pty.v ===== *)
(** * The pseudo-terminal engine (osa-agent/src/pty.rs)

    [PtySession::spawn]: user resolution, the terminal, the descriptors and environment
    the shell gets, the [pre_exec] hook that isolates it and drops its privileges; and
    the master's read, which reports a hung-up terminal as end of file.  What the
    operating system decides is an argument. *)
From S2P Require Import Prelude Proto Exec.

Definition KIND : string := "shell".

Inductive PtyError :=
| PtyUnknownUser (user : string)
| PtyUserLookup (user source : string)
| Unsupported
| OpenPty (source : string)
| Master (source : string)
| PtySpawn (program source : string).

Definition resolve_user (from_name : string -> result (option User) string) (run_as : string)
    : result (option User) PtyError :=
  if is_empty run_as then Ok None
  else match from_name run_as with
       | Ok (Some u) => Ok (Some u)
       | Ok None => Err (PtyUnknownUser run_as)
       | Err e => Err (PtyUserLookup run_as e)
       end.

(** The two platform variants of [target_drop]. *)
Definition target_drop (supported : bool) (user : option User) : result (option (Z * Z)) PtyError :=
  if supported then Ok ((fun u => (u_uid u, u_gid u)) <$> user)
  else match user with Some _ => Err Unsupported | None => Ok None end.

Definition drop_privileges_in_child (uid gid : Z) (c : Cred) : option Cred :=
  let! c := sys_setgid gid c in
  let! c := sys_setgroups [gid] c in
  sys_setuid uid c.

(** ** Descriptors *)

Inductive PtyEnd := MasterEnd | SlaveEnd.
#[global] Instance PtyEnd_eq_dec : EqDecision PtyEnd.
Proof. solve_decision. Defined.

(** A controlling terminal: the one the agent was started on, or an end of this one. *)
Inductive Tty := AgentTty | PtyTty (e : PtyEnd).
#[global] Instance Tty_eq_dec : EqDecision Tty.
Proof. solve_decision. Defined.

(** An open descriptor of the agent on the terminal. *)
Record Fd := mkFd { fd_end : PtyEnd; fd_cloexec : bool }.

(** [openpty] does not set close-on-exec; [fcntl(F_SETFD, FD_CLOEXEC)] on the descriptor of
    one end, and the drop of one. *)
Definition opened : list Fd := [mkFd MasterEnd false; mkFd SlaveEnd false].
Definition set_cloexec (e : PtyEnd) (l : list Fd) : list Fd :=
  (fun x => if decide (fd_end x = e) then mkFd e true else x) <$> l.
Definition close_end (e : PtyEnd) (l : list Fd) : list Fd := filter (fun x => fd_end x <> e) l.

(** The agent's descriptors when it forks, and the ends the shell is started on. *)
Record Fds := mkFds { held : list Fd; stdio : list PtyEnd }.

(** What the shell process holds after [exec]: the three standard descriptors and
    whatever was not close-on-exec. *)
Definition inherited (f : Fds) : list PtyEnd :=
  stdio f ++ (fd_end <$> filter (fun x => fd_cloexec x = false) (held f)).

(** ** The child *)

(** The forked process before [exec]: whether it leads a session, its controlling terminal,
    what descriptor 0 is, its credentials. *)
Record Forked := mkForked { fk_leader : bool; fk_ctty : option Tty; fk_fd0 : option PtyEnd; fk_cred : Cred }.

(** [setsid]: a new session, led by the caller, without a controlling terminal. *)
Definition sys_setsid (f : Forked) : Forked := mkForked true None (fk_fd0 f) (fk_cred f).
(** [ioctl(0, TIOCSCTTY, 0)]: only a session leader that has no controlling terminal may
    claim one; it gets the terminal behind descriptor 0. *)
Definition sys_tiocsctty (f : Forked) : option Forked :=
  if fk_leader f && bool_decide (fk_ctty f = None)
  then (fun e => mkForked true (Some (PtyTty e)) (Some e) (fk_cred f)) <$> fk_fd0 f
  else None.

Record Child := mkChild {
  pc_cred : Cred; pc_session_leader : bool; pc_ctty : option Tty; pc_fds : list PtyEnd;
  pc_env : list (string * string); pc_program : string; pc_size : u16 * u16
}.

(** [env(k, v)] on a command: sets or overrides. *)
Definition env_set (k v : string) (env : list (string * string)) : list (string * string) :=
  filter (fun p => p.1 <> k) env ++ [(k, v)].

Definition shell_env (user : option User) (agent_env : list (string * string)) : list (string * string) :=
  match user with
  | Some u => [("PATH", "/usr/local/bin:/usr/bin:/bin"); ("HOME", u_dir u); ("USER", u_name u);
               ("LOGNAME", u_name u); ("SHELL", u_shell u); ("TERM", "xterm")]
  | None => env_set "TERM" "xterm" agent_env
  end.

(** What the operating system decides during one [spawn]. *)
Record PtyEnv := mkPtyEnv {
  pe_from_name : string -> result (option User) string;
  pe_supported : bool;
  pe_openpty : result unit string;
  pe_setfd : result unit string;
  pe_dup : list (result unit string);          (** the three [try_clone]s, in order *)
  pe_agent : Cred;
  pe_agent_tty : bool;                         (** the agent has a controlling terminal *)
  pe_agent_env : list (string * string);
  pe_setsid : result unit string;
  pe_ctty : result unit string;                (** [ioctl(0, TIOCSCTTY)] *)
  pe_exec : result unit string;
  pe_master : result unit string;              (** [PtyMaster::new] *)
  pe_pid : Z
}.

(** The [pre_exec] hook, in the forked child; an error aborts the exec. *)
Definition pre_exec (env : PtyEnv) (drop_to : option (Z * Z)) (f : Forked) : result Forked string :=
  let? _ := pe_setsid env in
  let f := sys_setsid f in
  let? _ := pe_ctty env in
  let? f := ok_or (sys_tiocsctty f) "operation not permitted" in
  match drop_to with
  | None => Ok f
  | Some (uid, gid) =>
      let? c := ok_or (drop_privileges_in_child uid gid (fk_cred f)) "operation not permitted" in
      Ok (mkForked (fk_leader f) (fk_ctty f) (fk_fd0 f) c)
  end.

(** Three duplicates of the slave; each is close-on-exec until it becomes a standard
    descriptor of the child. *)
Definition dup_slave (program : string) (dups : list (result unit string)) : result (list PtyEnd) PtyError :=
  foldl (fun acc r => let? l := acc in let? _ := map_err (PtySpawn program) r in Ok (l ++ [SlaveEnd]))
        (Ok []) (take 3 (dups ++ repeat (Ok tt) 3)).

Definition PtySession_spawn (env : PtyEnv) (run_as : string) (rows cols : u16) : result Child PtyError :=
  let? user := resolve_user (pe_from_name env) run_as in
  let? drop_to := target_drop (pe_supported env) user in
  let? _ := map_err OpenPty (pe_openpty env) in
  let fds := opened in
  let? _ := map_err OpenPty (pe_setfd env) in
  let fds := set_cloexec MasterEnd fds in
  let program := match user with Some u => u_shell u | None => "/bin/sh" end in
  let? stdio := dup_slave program (pe_dup env) in
  let fds := close_end SlaveEnd fds in                                  (* [drop(slave)] *)
  let forked := mkForked false (if pe_agent_tty env then Some AgentTty else None) (head stdio) (pe_agent env) in
  let? hook := map_err (PtySpawn program) (pre_exec env drop_to forked) in
  let? _ := map_err (PtySpawn program) (pe_exec env) in
  let? _ := map_err Master (pe_master env) in
  Ok (mkChild (fk_cred hook) (fk_leader hook) (fk_ctty hook) (inherited (mkFds fds stdio))
        (shell_env user (pe_agent_env env)) program (rows, cols)).

(** ** Reading the master *)

(** A [read(2)] on the master. *)
Inductive SysRead := ReadData (d : bytes) | ReadEio | ReadErrno (msg : string) | WouldBlock.

(** [poll_read]: the reads the runtime reports ready, until one completes; [None] when
    still pending. *)
Fixpoint poll_read (rs : list SysRead) : option (result bytes string) * list SysRead :=
  match rs with
  | [] => (None, [])
  | ReadData d :: rs => (Some (Ok d), rs)
  | ReadEio :: rs => (Some (Ok []), rs)
  | ReadErrno m :: rs => (Some (Err m), rs)
  | WouldBlock :: rs => poll_read rs
  end.

(** A write on the master, and [poll_write]: a short write is reported as such. *)
Inductive SysWrite := Wrote (n : nat) | WriteErrno (msg : string) | WriteWouldBlock.
Fixpoint poll_write (ws : list SysWrite) : option (result nat string) * list SysWrite :=
  match ws with
  | [] => (None, [])
  | Wrote n :: ws => (Some (Ok n), ws)
  | WriteErrno m :: ws => (Some (Err m), ws)
  | WriteWouldBlock :: ws => poll_write ws
  end.
(** A write is delivered to the line discipline directly. *)
Definition poll_flush : option (result unit string) := Some (Ok tt).
Definition poll_shutdown : option (result unit string) := Some (Ok tt).

(** ** Lemmas *)

Lemma drop_privileges_exact uid gid c c' :
  drop_privileges_in_child uid gid c = Some c' -> c' = mkCred uid gid [gid].
Proof.
  unfold drop_privileges_in_child, sys_setgid, sys_setgroups, sys_setuid.
  destruct (c_uid c =? 0) eqn:E; simpl.
  - rewrite E. simpl. rewrite E. simpl. by intros [= <-].
  - destruct (c_gid c =? gid); simpl; [|done]. by rewrite E.
Qed.

Lemma dup_slave_ok program dups l : dup_slave program dups = Ok l -> l = [SlaveEnd; SlaveEnd; SlaveEnd].
Proof.
  unfold dup_slave. destruct dups as [|[[]|] [|[[]|] [|[[]|] ds]]]; simpl; intros Hd; simplify_eq; try done.
Qed.

Lemma pre_exec_slave env drop_to leader tty c f :
  pre_exec env drop_to (mkForked leader tty (Some SlaveEnd) c) = Ok f ->
  fk_leader f = true /\ fk_ctty f = Some (PtyTty SlaveEnd) /\
  forall uid gid, drop_to = Some (uid, gid) -> fk_cred f = mkCred uid gid [gid].
Proof.
  unfold pre_exec. destruct (pe_setsid env); [|done]. destruct (pe_ctty env); [|done]. simpl.
  destruct drop_to as [[uid gid]|]; [|by intros [= <-]].
  destruct (drop_privileges_in_child _ _ _) as [c'|] eqn:Ec; [|done]. apply drop_privileges_exact in Ec.
  simpl. intros [= <-]. naive_solver.
Qed.

Lemma poll_read_eio rs1 rs2 :
  Forall (fun r => r = WouldBlock) rs1 -> poll_read (rs1 ++ ReadEio :: rs2) = (Some (Ok []), rs2).
Proof. induction 1 as [|r rs1 Hr _ IH]; [done|]. by subst. Qed.

(** ** Properties *)

(** C34. An interactive shell is isolated from the agent: whenever a shell starts, it is
    the leader of its own session with the terminal's slave side as controlling
    terminal, it holds the slave as its three standard descriptors and nothing else of
    the terminal (never the master), and, run as a user, it has exactly that user's uid
    and gid, only the primary group, and the fixed minimal environment; for an unknown
    user, or where groups cannot be dropped, no shell starts. *)
Theorem pty_shell_isolated env run_as rows cols child :
  PtySession_spawn env run_as rows cols = Ok child ->
  pc_session_leader child = true /\ pc_ctty child = Some (PtyTty SlaveEnd) /\
  pc_fds child = [SlaveEnd; SlaveEnd; SlaveEnd] /\ pc_size child = (rows, cols) /\
  (run_as <> EmptyString ->
     exists u, pe_from_name env run_as = Ok (Some u) /\ pe_supported env = true /\
       pc_cred child = mkCred (u_uid u) (u_gid u) [u_gid u] /\ pc_program child = u_shell u /\
       pc_env child = [("PATH", "/usr/local/bin:/usr/bin:/bin"); ("HOME", u_dir u); ("USER", u_name u);
                       ("LOGNAME", u_name u); ("SHELL", u_shell u); ("TERM", "xterm")]).
Proof.
  unfold PtySession_spawn. destruct (resolve_user _ _) as [user|] eqn:Eu; [|done].
  destruct (target_drop _ _) as [drop_to|] eqn:Ed; [|done].
  destruct (pe_openpty env); [|done]. destruct (pe_setfd env); [|done]. cbn [map_err].
  destruct (dup_slave _ _) as [l|] eqn:El; [|done]. apply dup_slave_ok in El as ->.
  destruct (pre_exec env drop_to _) as [f|] eqn:Eh; [|done]. cbn [map_err].
  destruct (pe_exec env); [|done]. destruct (pe_master env); [|done]. intros [= <-]. simpl.
  apply pre_exec_slave in Eh as (-> & -> & Hc).
  repeat split; try done. intros Hne. unfold resolve_user in Eu. destruct run_as as [|c0 s0]; [done|].
  simpl in Eu. destruct (pe_from_name env _) as [[u|]|] eqn:Ef; [|done..]. injection Eu as <-.
  exists u. unfold target_drop in Ed. destruct (pe_supported env); [|done].
  injection Ed as <-. repeat split; try done. by apply Hc.
Qed.

Lemma pty_shell_isolated_witness :
  let u := mkUser "deploy" 1000 1000 "/home/deploy" "/bin/bash" in
  let env := mkPtyEnv (fun _ => Ok (Some u)) true (Ok tt) (Ok tt) [] (mkCred 0 0 [0; 4]) true [("OSA_TOKEN", "x")]
               (Ok tt) (Ok tt) (Ok tt) (Ok tt) 4242 in
  exists child, PtySession_spawn env "deploy" (wrap 24) (wrap 80) = Ok child /\
    pc_cred child = mkCred 1000 1000 [1000] /\ pc_fds child = [SlaveEnd; SlaveEnd; SlaveEnd].
Proof.
  intros u env. eexists. split; [vm_compute; reflexivity|]. split; [reflexivity|].
  eapply (pty_shell_isolated env "deploy" (wrap 24) (wrap 80)). vm_compute. reflexivity.
Defined.
