(* ===== verification/ShellStream.v ===== *)
(** * The agent's shell stream (osa-agent/src/shell_stream.rs)

    A live interactive shell: its per-stream subkey, the downlink replay guard and
    keystroke queue, and the two pumps between the terminal and the sealed stream.  The
    other end is the coordinator's [ShellRoute] (file Broker), whose handler passes the output
    on to the operator's bounded stream. *)
From S2P Require Import Prelude Proto Concrete Seal Registries Session Broker Exec Pty.

Definition READ_CHUNK : Z := 8 * 1024.
Definition DOWNLINK_QUEUE : nat := 256.

(** [sh_queue] is the bounded channel to the write pump, [sh_rx_open] whether the pump
    still receives. *)
Record ShellStream := mkShell {
  sh_pty : Child; sh_keys : SessionKeys; sh_recv_high : option u64; sh_queue : list bytes; sh_rx_open : bool
}.

Section Shell.
Context `{Crypto} `{Prost}.

Definition ShellStream_open (session_keys : SessionKeys) (stream_id run_as : string) (rows cols : u16) (env : PtyEnv)
    : result ShellStream PtyError :=
  let stream_keys := derive_stream session_keys (bytes_of stream_id) in
  let? pty := PtySession_spawn env run_as rows cols in
  Ok (mkShell pty stream_keys None [] true).

Definition Shell_open_downlink (self : ShellStream) (env : Envelope) : ShellStream * option bytes :=
  match open_envelope (sh_keys self) CoordToAgent env with
  | Err _ => (self, None)
  | Ok plaintext =>
      if stale (sh_recv_high self) (env_seq env) then (self, None)
      else (mkShell (sh_pty self) (sh_keys self) (Some (env_seq env)) (sh_queue self) (sh_rx_open self), Some plaintext)
  end.

(** [downlink_tx.try_send]: dropped when the queue is full or the pump is gone. *)
Definition enqueue (self : ShellStream) (data : bytes) : ShellStream :=
  if negb (sh_rx_open self) then self
  else if decide (DOWNLINK_QUEUE <= length (sh_queue self))%nat then self
  else mkShell (sh_pty self) (sh_keys self) (sh_recv_high self) (sh_queue self ++ [data]) true.

(** [false]: the stream is to be torn down. *)
Definition route_downlink (self : ShellStream) (env : Envelope) : ShellStream * bool :=
  match Shell_open_downlink self env with
  | (self, None) => (self, true)
  | (self, Some plaintext) =>
      match decode_msg (M := StreamFrame) plaintext with
      | Err _ => (self, true)
      | Ok frame => if sf_eof frame then (self, false) else (enqueue self (sf_data frame), true)
      end
  end.

(** How a [write_all] to the terminal ends: everything written, or an error after the first
    [n] bytes. *)
Inductive WriteAll := Written | WriteFailed (n : nat).

(** One turn of [downlink_pump]: the next keystrokes and what of them is written; a failed
    write ends the pump, which drops the receiver and what is queued. *)
Definition downlink_pump (self : ShellStream) (w : WriteAll) : ShellStream * option bytes :=
  match sh_queue self with
  | [] => (self, None)
  | d :: q =>
      match w with
      | Written => (mkShell (sh_pty self) (sh_keys self) (sh_recv_high self) q (sh_rx_open self), Some d)
      | WriteFailed n => (mkShell (sh_pty self) (sh_keys self) (sh_recv_high self) [] false, Some (take n d))
      end
  end.

Definition seal_frame (keys : SessionKeys) (host_id sid : string) (seq : u64) (data : bytes) (eof : bool) : bytes :=
  encode_msg (seal_envelope keys AgentToCoord host_id sid seq KindStream (encode_msg (mkFrame data eof))).

(** [uplink_pump] over the reads of the master, each with whether the publisher takes
    the frame sealed for it: the frames handed over, and whether the pump has ended. *)
Fixpoint uplink_pump (keys : SessionKeys) (host_id sid : string) (seq : u64)
    (reads : list (result bytes string * bool)) : list bytes * bool :=
  match reads with
  | [] => ([], false)
  | (r, send_ok) :: rs =>
      match r with
      | Err _ | Ok [] => (if send_ok then [seal_frame keys host_id sid seq [] true] else [], true)
      | Ok d =>
          if send_ok then
            let '(out, ended) := uplink_pump keys host_id sid (wrapping_add seq 1) rs in
            (seal_frame keys host_id sid seq d false :: out, ended)
          else ([], true)
      end
  end.

(** ** Histories of the two ends *)

Inductive ShellEvent := EvFrame (env : Envelope) | EvPump (w : WriteAll).

(** What is written to the terminal, and the stream unless it was torn down. *)
Fixpoint run_shell (s : ShellStream) (evs : list ShellEvent) : list bytes * option ShellStream :=
  match evs with
  | [] => ([], Some s)
  | EvFrame env :: evs =>
      match route_downlink s env with (s, true) => run_shell s evs | (_, false) => ([], None) end
  | EvPump w :: evs =>
      let '(s, d) := downlink_pump s w in
      let '(out, last) := run_shell s evs in
      (match d with Some d => d :: out | None => out end, last)
  end.

(** The keystroke queue has room whenever a frame arrives. *)
Fixpoint keeps_pace (s : ShellStream) (evs : list ShellEvent) : Prop :=
  match evs with
  | [] => True
  | EvFrame env :: evs => (length (sh_queue s) < DOWNLINK_QUEUE)%nat /\ keeps_pace (fst (route_downlink s env)) evs
  | EvPump w :: evs => keeps_pace (fst (downlink_pump s w)) evs
  end.

(** The operator's inputs, sealed one after the other. *)
Fixpoint seal_inputs (r : ShellRoute) (host : string) (fs : list StreamFrame) : list bytes :=
  match fs with
  | [] => []
  | f :: fs => let '(r, b) := Route_seal_downlink r host f in b :: seal_inputs r host fs
  end.

End Shell.

Definition frames_in (evs : list ShellEvent) : list Envelope := omap (fun ev => match ev with EvFrame e => Some e | EvPump _ => None end) evs.
Definition all_written (evs : list ShellEvent) : Prop := Forall (fun ev => match ev with EvPump (WriteFailed _) => False | _ => True end) evs.

(** ** The operator's end *)

(** Frames arrive at the bridge on the host's stream topic; the operator reads its stream, or
    goes away. *)
Inductive OutEvent := OutFrame (payload : bytes) (e : Env) | OutRead | OutGone.
Definition payloads_of (evs : list OutEvent) : list bytes := omap (fun ev => match ev with OutFrame p _ => Some p | _ => None end) evs.
Definition stays (evs : list OutEvent) : Prop := Forall (fun ev => match ev with OutGone => False | _ => True end) evs.

Section Operator.
Context `{Crypto} `{Prost} `{UuidLib} {E R : Type} (t : string) (ch : nat).
Implicit Types (x : Bridge E R * list StreamFrame).

(** The frames waiting on the operator's stream. *)
Definition waiting (b : Bridge E R) : list StreamFrame := match outputs b !! ch with Some c => ch_queue c | None => [] end.

(** The bridge, and what the operator has read. *)
Definition output_step x (ev : OutEvent) : Bridge E R * list StreamFrame :=
  let '(b, got) := x in
  match ev with
  | OutFrame payload e => (handle_stream_up b t payload e, got)
  | OutRead => (set_outputs b (read_chan (outputs b) ch), got ++ take 1 (waiting b))
  | OutGone => (set_outputs b (drop_chan (outputs b) ch), got)
  end.
Definition run_output x (evs : list OutEvent) : Bridge E R * list StreamFrame := foldl output_step x evs.

(** The operator's stream has room whenever a frame arrives. *)
Fixpoint reads_along x (evs : list OutEvent) : Prop :=
  match evs with
  | [] => True
  | ev :: evs =>
      (match ev with OutFrame _ _ => forall c, outputs (fst x) !! ch = Some c -> (length (ch_queue c) < ch_cap c)%nat | _ => True end) /\
      reads_along (output_step x ev) evs
  end.

End Operator.

(** A terminal that produced the chunks [ds] and was then closed. *)
Definition reads_of (ds : list bytes) : list (result bytes string * bool) :=
  ((fun d => (Ok d, true)) <$> ds) ++ [(Ok [], true)].

(** What the operator should see of it. *)
Definition frames_of (ds : list bytes) : list StreamFrame := ((fun d => mkFrame d false) <$> ds) ++ [eof_frame].

(** ** Lemmas *)

Lemma wrap_succ (n : Z) : 0 <= n < 2 ^ 64 -> wrapping_add (wrap n : u64) 1 = wrap (n + 1).
Proof. intros. unfold wrapping_add. by rewrite wrap_small by lia. Qed.

Section ShellLemmas.
Context `{CryptoLaws} `{ProstLaws}.

Lemma uplink_pump_frames keys host sid ds seq :
  Forall (fun d => d <> []) ds -> 0 <= seq -> seq + Z.of_nat (S (length ds)) <= 2 ^ 64 ->
  uplink_pump keys host sid (wrap seq) (reads_of ds) =
  (encode_msg <$> envelopes_from keys AgentToCoord KindStream host sid seq (encode_msg <$> frames_of ds), true).
Proof.
  intros Hd. revert seq. induction Hd as [|d ds Hne Hd IH]; intros seq Hs Hl; [done|]. cbn [length] in Hl.
  unfold reads_of in *. cbn [fmap list_fmap app uplink_pump]. destruct d as [|b d]; [done|].
  rewrite wrap_succ, IH by lia. done.
Qed.

Lemma seal_inputs_eq r host fs seq :
  rt_send_seq r = wrap seq -> 0 <= seq -> seq + Z.of_nat (length fs) <= 2 ^ 64 ->
  seal_inputs r host fs =
  encode_msg <$> envelopes_from (rt_stream_keys r) CoordToAgent KindStream host (rt_sid r) seq (encode_msg <$> fs).
Proof.
  revert r seq. induction fs as [|f fs IH]; intros r seq Hq Hs Hl; [done|].
  cbn [length] in Hl. cbn [seal_inputs Route_seal_downlink fmap list_fmap envelopes_from]. rewrite Hq. f_equal.
  erewrite (IH _ (seq + 1)); simpl; [done| |lia|lia]. by rewrite wrap_succ by lia.
Qed.

Lemma sublist_omap {A B} (f : A -> option B) (l k : list A) : sublist l k -> sublist (omap f l) (omap f k).
Proof.
  induction 1 as [|x l k _ IH|x l k _ IH]; [constructor| |]; cbn [omap list_omap]; destruct (f x);
    try exact IH; by constructor.
Qed.

Lemma sublist_pick {A} (l : list A) n i x : (n <= i)%nat -> l !! i = Some x -> sublist (x :: drop (S i) l) (drop n l).
Proof.
  intros Hn Hx. rewrite <- (drop_S _ _ _ Hx). replace i with (n + (i - n))%nat at 1 by lia. rewrite <- drop_drop. apply sublist_drop.
Qed.

(** [ws] is a sub-sequence of [l], the last of them perhaps cut short. *)
Definition torn (complete : Prop) (ws l : list bytes) : Prop :=
  exists whole, sublist whole l /\ mjoin ws `prefix_of` mjoin whole /\ (complete -> ws = whole).
Lemma torn_mono (c : Prop) ws l l' : torn c ws l -> sublist l l' -> torn c ws l'.
Proof. intros (w & Hs & Hw) Hl. exists w. split; [by etrans|done]. Qed.
Lemma torn_cons (c c' : Prop) d ws l : torn c ws l -> (c' -> c) -> torn c' (d :: ws) (d :: l).
Proof.
  intros (w & Hs & Hp & Hw) Hc. exists (d :: w). split; [by constructor|]. split; [by apply prefix_app|]. intros Hc'. f_equal. by apply Hw, Hc.
Qed.

Lemma run_shell_closed s evs : sh_queue s = [] -> sh_rx_open s = false -> fst (run_shell s evs) = [].
Proof.
  revert s. induction evs as [|[e|w] evs IH]; intros s Hq Hr; [done| |]; cbn [run_shell].
  - unfold route_downlink, Shell_open_downlink. destruct (open_envelope _ _ _) as [p|]; [|by apply IH].
    destruct (stale _ _); [by apply IH|]. destruct (decode_msg p) as [f|]; [|by apply IH]. destruct (sf_eof f); [done|].
    unfold enqueue. simpl. rewrite Hr. by apply IH.
  - unfold downlink_pump. rewrite Hq. specialize (IH s Hq Hr). by destruct (run_shell s evs).
Qed.

(** What a shell writes was queued, or comes, in order, from the frames it has not seen. *)
Lemma run_shell_sublist host sid (fs : list StreamFrame) evs s :
  Z.of_nat (length fs) <= 2 ^ 64 ->
  Forall (fun ev => match ev with
    | EvFrame e => authentic (sh_keys s) CoordToAgent
                     (envelopes_from (sh_keys s) CoordToAgent KindStream host sid 0 (encode_msg <$> fs)) e
    | EvPump _ => True end) evs ->
  torn (all_written evs) (fst (run_shell s evs)) (sh_queue s ++ (sf_data <$> drop (next_seq (sh_recv_high s)) fs)).
Proof.
  intros Hl. revert s. induction evs as [|ev evs IH]; intros s Ha; [exists []; split; [apply sublist_nil_l|done]|].
  apply Forall_cons in Ha as [Hev Ha].
  assert (all_written (ev :: evs) -> all_written evs) as Hok by (intros [_ Hw]%Forall_cons; done).
  assert (forall ws l, torn (all_written evs) ws l -> torn (all_written (ev :: evs)) ws l) as Hup.
  { intros ws l (w & Hs & Hp & Hw). exists w. split; [done|]. split; [done|]. by intros ?%Hok%Hw. }
  destruct ev as [e|w]; cbn [run_shell].
  2: { unfold downlink_pump. destruct (sh_queue s) as [|d q] eqn:Eq.
       { specialize (IH s Ha). rewrite Eq in IH. destruct (run_shell s evs). by apply Hup. }
       destruct w as [|n].
       - specialize (IH (mkShell (sh_pty s) (sh_keys s) (sh_recv_high s) q (sh_rx_open s)) Ha).
         destruct (run_shell _ evs). simpl in *. by eapply torn_cons.
       - pose proof (run_shell_closed (mkShell (sh_pty s) (sh_keys s) (sh_recv_high s) [] false) evs eq_refl eq_refl) as Hn.
         destruct (run_shell _ evs). simpl in *. subst. exists [d]. simpl. rewrite !app_nil_r.
         split; [constructor; apply sublist_nil_l|]. split; [apply prefix_take|]. by intros [[] _]%Forall_cons. }
  unfold route_downlink, Shell_open_downlink.
  destruct Hev as [(i & p & Hi & ->)%envelopes_from_elem|[err Herr]]; [|rewrite Herr; by apply Hup, IH].
  rewrite open_seal_envelope. rewrite list_lookup_fmap in Hi. destruct (fs !! i) as [f|] eqn:Ef; [|done].
  simpl in Hi. injection Hi as <-. pose proof (lookup_lt_Some _ _ _ Ef) as Hlt.
  cbn [env_seq seal_envelope]. destruct (stale _ _) eqn:Es; [by apply Hup, IH|].
  apply stale_next in Es. rewrite Z.add_0_l, wrap_small, Nat2Z.id in Es by lia.
  rewrite decode_encode. destruct (sf_eof f); [exists []; split; [apply sublist_nil_l|done]|].
  assert (forall q ro, torn (all_written evs) (fst (run_shell (mkShell (sh_pty s) (sh_keys s) (Some (wrap (0 + Z.of_nat i))) q ro) evs))
            (q ++ (sf_data <$> drop (S i) fs))) as Hrec.
  { intros q ro. specialize (IH (mkShell (sh_pty s) (sh_keys s) (Some (wrap (0 + Z.of_nat i))) q ro) Ha).
    simpl in IH. by rewrite Z.add_0_l, wrap_small, Nat2Z.id in IH by lia. }
  pose proof (fmap_sublist sf_data _ _ (sublist_pick fs _ i f Es Ef)) as Hstep. cbn [fmap list_fmap] in Hstep.
  assert (sublist (sh_queue s ++ (sf_data <$> drop (S i) fs)) (sh_queue s ++ (sf_data <$> drop (next_seq (sh_recv_high s)) fs))) as Hskip.
  { apply sublist_app; [done|]. etrans; [|exact Hstep]. by apply sublist_cons. }
  apply Hup. unfold enqueue. simpl. destruct (sh_rx_open s); simpl; [|by eapply torn_mono].
  destruct (decide _); [by eapply torn_mono|]. eapply torn_mono; [apply Hrec|]. rewrite <- app_assoc. by apply sublist_app.
Qed.

(** Frames delivered in order to a queue with room are written or queued, all of them. *)
Lemma run_shell_complete host sid evs (ds : list bytes) seq s :
  sh_rx_open s = true -> 0 <= seq -> seq + Z.of_nat (length ds) <= 2 ^ 64 ->
  (next_seq (sh_recv_high s) <= Z.to_nat seq)%nat ->
  frames_in evs = envelopes_from (sh_keys s) CoordToAgent KindStream host sid seq (encode_msg <$> ((fun d => mkFrame d false) <$> ds)) ->
  all_written evs -> keeps_pace s evs ->
  exists s', snd (run_shell s evs) = Some s' /\ fst (run_shell s evs) ++ sh_queue s' = sh_queue s ++ ds.
Proof.
  revert s seq ds. induction evs as [|ev evs IH]; intros s seq ds Hr Hs Hl Hn Hf Hw Hk.
  { destruct ds as [|d ds]; [|done]. exists s. by rewrite app_nil_r. }
  apply Forall_cons in Hw as [Hwev Hw]. destruct ev as [e|w]; cbn [run_shell keeps_pace] in *.
  - destruct Hk as [Hroom Hk]. destruct ds as [|d ds]; [done|]. cbn [length] in Hl.
    cbn [frames_in omap list_omap fmap list_fmap envelopes_from] in Hf. injection Hf as -> Hf. revert Hk. unfold route_downlink, Shell_open_downlink.
    rewrite open_seal_envelope. cbn [env_seq seal_envelope].
    assert (stale (sh_recv_high s) (wrap seq) = false) as -> by (apply stale_next; by rewrite wrap_small by lia).
    rewrite decode_encode. unfold enqueue. simpl. rewrite Hr. cbn [negb]. destruct (decide _); [lia|]. intros Hk.
    destruct (IH (mkShell (sh_pty s) (sh_keys s) (Some (wrap seq)) (sh_queue s ++ [d]) true) (seq + 1) ds) as (s' & Hs' & Hq); try done; try lia.
    { simpl. rewrite wrap_small by lia. lia. }
    exists s'. split; [done|]. simpl in Hq. by rewrite Hq, <- app_assoc.
  - destruct w as [|n]; [|done]. revert Hk. unfold downlink_pump. destruct (sh_queue s) as [|d q] eqn:Eq; simpl; intros Hk.
    + destruct (IH s seq ds) as (s' & Hs' & Hq); try done. exists s'. destruct (run_shell s evs). simpl in *. by rewrite Hq, Eq.
    + destruct (IH (mkShell (sh_pty s) (sh_keys s) (sh_recv_high s) q (sh_rx_open s)) seq ds) as (s' & Hs' & Hq); try done.
      exists s'. destruct (run_shell _ evs). simpl in *. split; [done|]. by rewrite Hq.
Qed.

End ShellLemmas.

Section OutputLemmas.
Context `{CryptoLaws} `{ProstLaws} `{UuidLib} {E R : Type} (t : string) (u : Uuid) (ch : nat) (keys : SessionKeys) (host sid : string).
Hypothesis Hu : uuid_parse t = Some u.
Implicit Types (b : Bridge E R) (x : Bridge E R * list StreamFrame).

(** The shell's route, if it is still there, is the operator's. *)
Definition routed b : Prop := forall r, shells b !! mkHostId u = Some r -> rt_stream_keys r = keys /\ rt_output r = ch.
(** What the route can still take of the frames [fs]. *)
Definition to_come (fs : list StreamFrame) b : list StreamFrame :=
  match shells b !! mkHostId u with Some r => drop (next_seq (rt_recv_high r)) fs | None => [] end.
Definition account (fs : list StreamFrame) x : list StreamFrame := snd x ++ waiting ch (fst x) ++ to_come fs (fst x).
Definition genuine_payload (fs : list StreamFrame) (payload : bytes) : Prop :=
  match decode_msg (M := Envelope) payload with
  | Ok e => authentic keys AgentToCoord (envelopes_from keys AgentToCoord KindStream host sid 0 (encode_msg <$> fs)) e
  | Err _ => True
  end.

Lemma routed_insert b r : rt_stream_keys r = keys /\ rt_output r = ch -> routed (set_shells b (<[mkHostId u := r]> (shells b))).
Proof. intros Hr r'. simpl. rewrite lookup_insert_eq. by intros [= <-]. Qed.

Lemma try_send_waiting (m : gmap nat (Chan StreamFrame)) f m' sent :
  try_send m ch f = (m', sent) ->
  (match m' !! ch with Some c => ch_queue c | None => [] end) =
  (match m !! ch with Some c => ch_queue c | None => [] end) ++ (if sent is Sent then [f] else []).
Proof.
  unfold try_send. destruct (m !! ch) as [c|] eqn:Ec; [|intros [= <- <-]; by rewrite Ec].
  destruct (negb _); [intros [= <- <-]; by rewrite Ec, app_nil_r|]. destruct (decide _); [intros [= <- <-]; by rewrite Ec, app_nil_r|].
  intros [= <- <-]. by rewrite lookup_insert_eq.
Qed.

(** The route dropped, with whatever was published. *)
Lemma closed_route b r e : let b' := remove_shell (close_shell_route b r (mkHostId u) (ev_link1 e)) (mkHostId u) in
  shells b' !! mkHostId u = None /\ outputs b' = outputs b.
Proof.
  unfold close_shell_route. simpl. split; [apply lookup_delete_eq|]. unfold publish. by destruct (ev_link1 e).
Qed.

(** A frame at the bridge: the route opens it, and tries the operator's stream. *)
Lemma stream_up_step fs b payload e :
  Z.of_nat (length fs) <= 2 ^ 64 -> routed b -> genuine_payload fs payload ->
  let b' := handle_stream_up b t payload e in
  routed b' /\ sublist (waiting ch b' ++ to_come fs b') (waiting ch b ++ to_come fs b).
Proof.
  intros Hl Hr Hg. unfold handle_stream_up. rewrite Hu. destruct (shells b !! mkHostId u) as [r|] eqn:Er; [|done].
  unfold genuine_payload in Hg. destruct (decode_msg payload) as [env|]; [|done]. destruct (Hr r Er) as [Hk Ho].
  assert (routed (set_shells b (<[mkHostId u := r]> (shells b))) /\
    sublist (waiting ch (set_shells b (<[mkHostId u := r]> (shells b))) ++ to_come fs (set_shells b (<[mkHostId u := r]> (shells b)))) (waiting ch b ++ to_come fs b)) as Hsame.
  { split; [by apply routed_insert|]. unfold to_come. simpl. by rewrite lookup_insert_eq, Er. }
  unfold Route_open_uplink. rewrite Hk. destruct Hg as [(i & p & Hi & ->)%envelopes_from_elem|[err ->]]; [|exact Hsame].
  rewrite open_seal_envelope. rewrite list_lookup_fmap in Hi. destruct (fs !! i) as [f|] eqn:Ef; [|done].
  simpl in Hi. injection Hi as <-. pose proof (lookup_lt_Some _ _ _ Ef) as Hlt.
  cbn [env_seq seal_envelope]. destruct (stale _ _) eqn:Es; [exact Hsame|]. clear Hsame.
  apply stale_next in Es. rewrite Z.add_0_l, wrap_small, Nat2Z.id in Es by lia.
  rewrite decode_encode. cbn [ok rt_output]. rewrite Ho.
  pose proof (sublist_pick fs _ i f Es Ef) as Hpick.
  assert (to_come fs b = drop (next_seq (rt_recv_high r)) fs) as -> by (unfold to_come; by rewrite Er).
  set (r' := mkRoute _ _ _ _ _ _). set (b1 := set_shells b _).
  destruct (try_send (outputs b1) ch f) as [m sent] eqn:Et. pose proof (try_send_waiting _ _ _ _ Et) as Hw.
  assert (forall b', outputs b' = m -> waiting ch b' = waiting ch b ++ (if sent is Sent then [f] else [])) as Hwait.
  { intros b' Hb'. unfold waiting. by rewrite Hb', Hw. }
  assert (routed (set_outputs b1 m)) as Hr1.
  { intros r0 Hr0. simpl in Hr0. rewrite lookup_insert_eq in Hr0. assert (r0 = r') as -> by congruence. done. }
  assert (to_come fs (set_outputs b1 m) = drop (S i) fs) as Hc1.
  { unfold to_come. simpl. rewrite lookup_insert_eq. simpl. by rewrite Z.add_0_l, wrap_small, Nat2Z.id by lia. }
  destruct (closed_route (set_outputs b1 m) r' e) as [Hc2 Ho2].
  assert (forall b', shells b' !! mkHostId u = None -> routed b' /\ to_come fs b' = []) as Hgone.
  { intros b' Hb'. split; [intros r0 Hr0; congruence|]. unfold to_come. by rewrite Hb'. }
  destruct sent.
  - destruct (sf_eof f).
    + destruct (Hgone _ Hc2) as [Hr2 Hn]. split; [exact Hr2|]. rewrite Hn, (Hwait _ Ho2), app_nil_r. apply sublist_app; [done|].
      etrans; [|exact Hpick]. constructor. apply sublist_nil_l.
    + split; [exact Hr1|]. rewrite Hc1, (Hwait (set_outputs b1 m) eq_refl), <- app_assoc. by apply sublist_app.
  - split; [exact Hr1|]. rewrite Hc1, (Hwait (set_outputs b1 m) eq_refl), app_nil_r. apply sublist_app; [done|]. etrans; [|exact Hpick]. by apply sublist_cons.
  - destruct (Hgone _ Hc2) as [Hr2 Hn]. split; [exact Hr2|]. rewrite Hn, (Hwait _ Ho2), !app_nil_r. apply sublist_inserts_r. done.
Qed.

(** Reading or dropping the stream moves no frame. *)
Lemma read_waiting b : take 1 (waiting ch b) ++ waiting ch (set_outputs b (read_chan (outputs b) ch)) = waiting ch b.
Proof.
  unfold waiting, read_chan. simpl. rewrite lookup_alter_eq. destruct (outputs b !! ch) as [c|]; [|done]. simpl. by destruct (ch_queue c).
Qed.
Lemma drop_waiting b : waiting ch (set_outputs b (drop_chan (outputs b) ch)) = waiting ch b.
Proof. unfold waiting, drop_chan. simpl. rewrite lookup_alter_eq. by destruct (outputs b !! ch). Qed.

Lemma output_sublist fs evs x :
  Z.of_nat (length fs) <= 2 ^ 64 -> routed (fst x) -> Forall (genuine_payload fs) (payloads_of evs) ->
  sublist (account fs (run_output t ch x evs)) (account fs x).
Proof.
  intros Hl. revert x. induction evs as [|ev evs IH]; intros [b got] Hr Hg; [done|].
  change (run_output t ch (b, got) (ev :: evs)) with (run_output t ch (output_step t ch (b, got) ev) evs).
  destruct ev as [payload e| |]; cbn [output_step].
  - cbn [payloads_of omap list_omap] in Hg. apply Forall_cons in Hg as [Hp Hg]. destruct (stream_up_step fs b payload e Hl Hr Hp) as [Hr' Hs].
    etrans; [by apply IH|]. unfold account. simpl. by apply sublist_app.
  - etrans; [by apply IH|]. unfold account. cbn [fst snd]. rewrite <- app_assoc, (app_assoc (take 1 _)), read_waiting. done.
  - etrans; [by apply IH|]. unfold account. cbn [fst snd]. by rewrite drop_waiting.
Qed.

(** A fresh frame to a stream with room is sent; the terminal one closes the route. *)
Lemma stream_up_sent b e r c seq f :
  shells b !! mkHostId u = Some r -> rt_stream_keys r = keys -> rt_output r = ch ->
  outputs b !! ch = Some c -> ch_rx_open c = true -> (length (ch_queue c) < ch_cap c)%nat ->
  stale (rt_recv_high r) seq = false ->
  let b' := handle_stream_up b t (encode_msg (seal_envelope keys AgentToCoord host sid seq KindStream (encode_msg f))) e in
  outputs b' !! ch = Some (mkChan (ch_queue c ++ [f]) (ch_cap c) true) /\
  (if sf_eof f then shells b' !! mkHostId u = None
   else exists r', shells b' !! mkHostId u = Some r' /\ rt_stream_keys r' = keys /\ rt_output r' = ch /\ rt_recv_high r' = Some seq).
Proof.
  intros Hsh Hk Ho Hc Hopen Hroom Hst. unfold handle_stream_up. rewrite Hu, Hsh, decode_encode.
  unfold Route_open_uplink. rewrite Hk, open_seal_envelope. cbn [env_seq seal_envelope]. rewrite Hst, decode_encode. cbn [ok rt_output].
  rewrite Ho. unfold try_send. cbn [outputs set_shells]. rewrite Hc, Hopen. cbn [negb]. destruct (decide _); [lia|].
  destruct (sf_eof f).
  - match goal with |- context [close_shell_route ?b1 ?r1 _ _] => destruct (closed_route b1 r1 e) as [Hn Hout] end.
    split; [|exact Hn]. rewrite Hout. simpl. by rewrite lookup_insert_eq.
  - split; [simpl; by rewrite lookup_insert_eq|]. eexists. split; [simpl; by rewrite lookup_insert_eq|]. done.
Qed.

Lemma waiting_at b c : outputs b !! ch = Some c -> waiting ch b = ch_queue c.
Proof. unfold waiting. by intros ->. Qed.

(** Reading on when nothing more comes. *)
Lemma output_quiet evs b got :
  payloads_of evs = [] -> stays evs -> shells b !! mkHostId u = None ->
  let x' := run_output t ch (b, got) evs in snd x' ++ waiting ch (fst x') = got ++ waiting ch b /\ shells (fst x') !! mkHostId u = None.
Proof.
  revert b got. induction evs as [|ev evs IH]; intros b got Hp Hs Hn; [done|]. apply Forall_cons in Hs as [Hev Hs].
  destruct ev as [p e| |]; [done| |done].
  destruct (IH (set_outputs b (read_chan (outputs b) ch)) (got ++ take 1 (waiting ch b)) Hp Hs Hn) as [Hq Hn'].
  split; [|exact Hn']. etrans; [exact Hq|]. by rewrite <- app_assoc, read_waiting.
Qed.

(** Everything delivered in order to a stream with room arrives, and the route is closed. *)
Lemma output_complete evs (ds : list bytes) seq b got c r :
  shells b !! mkHostId u = Some r -> rt_stream_keys r = keys -> rt_output r = ch ->
  outputs b !! ch = Some c -> ch_rx_open c = true ->
  0 <= seq -> seq + Z.of_nat (S (length ds)) <= 2 ^ 64 -> (next_seq (rt_recv_high r) <= Z.to_nat seq)%nat ->
  payloads_of evs = encode_msg <$> envelopes_from keys AgentToCoord KindStream host sid seq (encode_msg <$> frames_of ds) ->
  stays evs -> reads_along t ch (b, got) evs ->
  let x' := run_output t ch (b, got) evs in
  snd x' ++ waiting ch (fst x') = got ++ ch_queue c ++ frames_of ds /\ shells (fst x') !! mkHostId u = None.
Proof.
  revert ds seq b got c r. induction evs as [|ev evs IH]; intros ds seq b got c r Hsh Hk Ho Hc Hopen Hs Hl Hn Hp Hst Hroom.
  { by destruct ds. }
  apply Forall_cons in Hst as [Hev Hst]. destruct Hroom as [Hroom Hrest]. destruct ev as [payload e| |]; [| |done].
  - cbn [payloads_of omap list_omap] in Hp.
    assert (stale (rt_recv_high r) (wrap seq) = false) as Hfresh by (apply stale_next; by rewrite wrap_small by lia).
    destruct ds as [|d ds]; cbn [frames_of fmap list_fmap app envelopes_from] in Hp; injection Hp as -> Hp;
      [destruct (stream_up_sent b e r c (wrap seq) eof_frame Hsh Hk Ho Hc Hopen (Hroom c Hc) Hfresh) as [Hc' Hn']
      |destruct (stream_up_sent b e r c (wrap seq) (mkFrame d false) Hsh Hk Ho Hc Hopen (Hroom c Hc) Hfresh) as [Hc' (r' & Hsh' & Hk' & Ho' & Hh')]].
    + destruct (output_quiet evs _ got Hp Hst Hn') as [Hq Hn'']. split; [|exact Hn'']. etrans; [exact Hq|]. by rewrite (waiting_at _ _ Hc').
    + cbn [length] in Hl. edestruct (IH ds (seq + 1) _ got _ r' Hsh' Hk' Ho' Hc') as [Hq Hn']; try done; try lia.
      { rewrite Hh'. simpl. rewrite wrap_small by lia. lia. }
      split; [|exact Hn']. etrans; [exact Hq|]. simpl. by rewrite <- app_assoc.
  - edestruct (IH ds seq (set_outputs b (read_chan (outputs b) ch)) (got ++ take 1 (waiting ch b))
      (mkChan (tail (ch_queue c)) (ch_cap c) (ch_rx_open c)) r) as [Hq Hn']; try done.
    { simpl. unfold read_chan. by rewrite lookup_alter_eq, Hc. }
    split; [|exact Hn']. etrans; [exact Hq|]. rewrite (waiting_at _ _ Hc). simpl. by destruct (ch_queue c); rewrite <- app_assoc.
Qed.

End OutputLemmas.

(** ** Properties *)

(** C30. What an operator types reaches the shell in order and at most once.  For a shell
    the agent opened under the subkey both ends derive from the session and the stream
    id: whatever the broker does with the sealed keystrokes (drop, duplicate, reorder,
    replay, inject), and however they are interleaved with the write pump, what is written to
    the terminal is, in order, a sub-sequence of the inputs typed, the last one cut short if
    the write of it failed.  Delivered untouched, with the keystroke queue never full when one
    arrives and no write failing, every input is written or still queued, in order.  The
    inputs are encrypted with pairwise distinct nonces. *)
Theorem shell_input_end_to_end `{CryptoLaws, ProstLaws} session_keys stream_id run_as rows cols penv shell host sid output (typed : list bytes) evs :
  let keys := derive_stream session_keys (bytes_of stream_id) in
  let route := mkRoute stream_id keys sid (wrap 0) None output in
  let frames := (fun d => mkFrame d false) <$> typed in
  let sent := envelopes_from keys CoordToAgent KindStream host sid 0 (encode_msg <$> frames) in
  ShellStream_open session_keys stream_id run_as rows cols penv = Ok shell ->
  Z.of_nat (length typed) <= 2 ^ 64 ->
  seal_inputs route host frames = encode_msg <$> sent /\
  (exists ns, NoDup ns /\ frames_under (c2a keys) ns (encode_msg <$> frames) (seal_inputs route host frames)) /\
  (Forall (authentic keys CoordToAgent sent) (frames_in evs) ->
   exists whole, sublist whole typed /\ mjoin (fst (run_shell shell evs)) `prefix_of` mjoin whole /\
     (all_written evs -> fst (run_shell shell evs) = whole)) /\
  (frames_in evs = sent -> all_written evs -> keeps_pace shell evs ->
   exists shell', snd (run_shell shell evs) = Some shell' /\ fst (run_shell shell evs) ++ sh_queue shell' = typed).
Proof.
  intros keys route frames sent Ho Hl. unfold ShellStream_open in Ho.
  destruct (PtySession_spawn _ _ _ _) as [pty|]; [|done]. injection Ho as <-.
  assert (length frames = length typed) as Hlen by apply length_fmap.
  assert (seal_inputs route host frames = encode_msg <$> sent) as Hsent by (apply (seal_inputs_eq route host frames 0); simpl; [done|lia|lia]).
  split; [exact Hsent|]. split; [|split].
  - rewrite Hsent. eexists. split; [|apply (envelopes_under keys CoordToAgent)]. apply envelopes_nonces_nodup. by rewrite length_fmap, Hlen.
  - intros Ha. pose proof (run_shell_sublist host sid frames evs (mkShell pty keys None [] true)) as Hs.
    assert (sf_data <$> frames = typed) as Hdata by (unfold frames; rewrite <- list_fmap_compose; apply list_fmap_id).
    simpl in Hs. rewrite drop_0, Hdata in Hs. apply Hs; [by rewrite Hlen|].
    apply Forall_forall. intros [e|w] Hev; [|done]. eapply Forall_forall; [exact Ha|]. apply list_elem_of_omap. by exists (EvFrame e).
  - intros Hf Hw Hk. by apply (run_shell_complete host sid evs typed 0).
Qed.

Lemma shell_input_end_to_end_witness :
  let sk := mkKeys (bytes_of "kc") (bytes_of "ka") in
  let keys := derive_stream sk (bytes_of "s1") in
  let penv := mkPtyEnv (fun _ => Ok None) true (Ok tt) (Ok tt) [] (mkCred 0 0 []) false [] (Ok tt) (Ok tt) (Ok tt) (Ok tt) 7 in
  let typed := [bytes_of "l"; bytes_of "s"] in
  let sent := envelopes_from keys CoordToAgent KindStream "h" "sid" 0
                (encode_msg <$> ((fun d => mkFrame d false) <$> typed)) in
  let evs := (EvFrame <$> sent) ++ [EvPump Written; EvPump Written] in
  exists shell shell', ShellStream_open sk "s1" "" (wrap 24) (wrap 80) penv = Ok shell /\
    snd (run_shell shell evs) = Some shell' /\ fst (run_shell shell evs) ++ sh_queue shell' = typed.
Proof.
  intros sk keys penv typed sent evs.
  destruct (ShellStream_open sk "s1" "" (wrap 24) (wrap 80) penv) as [shell|] eqn:Eo; [|vm_compute in Eo; discriminate Eo].
  exists shell. destruct (shell_input_end_to_end sk "s1" "" (wrap 24) (wrap 80) penv shell "h" "sid" 0%nat typed evs) as (_ & _ & _ & Hall);
    [exact Eo|vm_compute; intros Hc; discriminate Hc|].
  destruct Hall as (shell' & Hs & Ha); [reflexivity|repeat constructor| |by exists shell'].
  vm_compute in Eo. injection Eo as <-. vm_compute. repeat split; lia.
Defined.

(** C31. What the shell prints reaches the operator in order, at most once, followed by its
    end.  The frames the uplink pump seals for a terminal that produced the chunks and closed
    are the chunks and one final end-of-file, encrypted with pairwise distinct nonces.
    Whatever the broker does with them, and whenever the operator reads or goes away, what the
    operator has read and what waits on its stream is a sub-sequence of them: so at most one
    end-of-file, and nothing after it.  (The bridge drops a frame, which may be the
    end-of-file, when the operator's stream is full.)  Delivered untouched to an operator that
    stays and whose stream always has room, they all arrive, with exactly one end-of-file, and
    the route is closed. *)
Theorem shell_output_end_to_end `{CryptoLaws, ProstLaws} `{UuidLib} {E R} keys t u ch host sid (chunks : list bytes) (b : Bridge E R) r c evs :
  let sent := envelopes_from keys AgentToCoord KindStream host sid 0 (encode_msg <$> frames_of chunks) in
  let x' := run_output t ch (b, []) evs in
  Forall (fun d => d <> []) chunks -> Z.of_nat (S (length chunks)) <= 2 ^ 64 ->
  uuid_parse t = Some u -> shells b !! mkHostId u = Some r -> rt_stream_keys r = keys -> rt_output r = ch -> rt_recv_high r = None ->
  outputs b !! ch = Some c -> ch_queue c = [] -> ch_rx_open c = true ->
  uplink_pump keys host sid (wrap 0) (reads_of chunks) = (encode_msg <$> sent, true) /\
  (exists ns, NoDup ns /\ frames_under (a2c keys) ns (encode_msg <$> frames_of chunks) (encode_msg <$> sent)) /\
  (Forall (fun p => match decode_msg (M := Envelope) p with Ok e => authentic keys AgentToCoord sent e | Err _ => True end) (payloads_of evs) ->
   sublist (snd x' ++ waiting ch (fst x')) (frames_of chunks)) /\
  (payloads_of evs = encode_msg <$> sent -> stays evs -> reads_along t ch (b, []) evs ->
   snd x' ++ waiting ch (fst x') = frames_of chunks /\ shells (fst x') !! mkHostId u = None).
Proof.
  intros sent x' Hd Hl Hu Hsh Hk Ho Hh Hc Hq Hopen.
  assert (length (frames_of chunks) = S (length chunks)) as Hlen by (unfold frames_of; rewrite length_app, length_fmap; simpl; lia).
  split; [|split; [|split]].
  - apply uplink_pump_frames; [done|lia|lia].
  - eexists. split; [|apply (envelopes_under keys AgentToCoord)]. apply envelopes_nonces_nodup. by rewrite length_fmap, Hlen.
  - intros Ha. pose proof (output_sublist t u ch keys host sid Hu (frames_of chunks) evs (b, [])) as Hs.
    assert (account u ch (frames_of chunks) (b, []) = frames_of chunks) as Hacc.
    { unfold account, to_come. cbn [fst snd]. by rewrite Hsh, Hh, (waiting_at ch b c Hc), Hq. }
    rewrite Hacc in Hs.
    etrans; [|apply Hs; [by rewrite Hlen| |exact Ha]]; [unfold account; rewrite app_assoc; by apply sublist_inserts_r|].
    intros r0 Hr0. simpl in Hr0. assert (r0 = r) as -> by congruence. done.
  - intros Hp Hst Hroom. destruct (output_complete t u ch keys host sid Hu evs chunks 0 b [] c r) as [Ha Hn]; try done.
    { rewrite Hh. simpl. lia. }
    split; [|exact Hn]. etrans; [exact Ha|]. by rewrite Hq.
Qed.

(** A host with an open shell whose operator has a stream of two frames. *)
Definition demo_shell_keys : SessionKeys := mkKeys (bytes_of "kc") (bytes_of "ka").
Definition demo_shell_bridge : Bridge unit unit :=
  mkBridge SessionStore_new ∅ ∅ {[ demo_host := mkRoute "s1" demo_shell_keys "sid" (wrap 0) None 0 ]} ∅
    {[ 0%nat := mkChan [] 2 true ]} [] tt tt [].

Lemma shell_output_end_to_end_witness :
  let chunks := [bytes_of "hello"; bytes_of "world"] in
  let sent := envelopes_from demo_shell_keys AgentToCoord KindStream "h" "sid" 0 (encode_msg <$> frames_of chunks) in
  let x' := run_output (uuid_simple (host_uuid demo_host)) 0 (demo_shell_bridge, [])
              (flat_map (fun env => [OutFrame (encode_msg env) demo_env; OutRead]) sent) in
  snd x' ++ waiting 0 (fst x') = frames_of chunks /\ shells (fst x') !! demo_host = None.
Proof.
  intros chunks sent x'.
  apply (shell_output_end_to_end demo_shell_keys (uuid_simple (host_uuid demo_host)) (host_uuid demo_host) 0 "h" "sid" chunks
    demo_shell_bridge (mkRoute "s1" demo_shell_keys "sid" (wrap 0) None 0) (mkChan [] 2 true)
    (flat_map (fun env => [OutFrame (encode_msg env) demo_env; OutRead]) sent)); try (vm_compute; reflexivity).
  - repeat constructor; vm_compute; intros Hc; discriminate Hc.
  - vm_compute. intros Hc; discriminate Hc.
  - repeat constructor.
  - vm_compute. repeat split; intros c [= <-]; simpl; lia.
Defined.
