(* ===== verification/ControlChannel.v ===== *)
(** * The agent's control channel (osa-agent/src/control_channel.rs)

    The event loop of the agent: connect, open an authenticated session, route every
    message of the (untrusted) broker, run dispatched jobs within a concurrency cap,
    open interactive shells under the host backstop, and back off between connections.
    One event of the loop is one step on the state [Conn]. *)
From S2P Require Import Prelude Proto Concrete Topics Text Seal Handshake Disk Allowlist Session Broker Exec JobRunner Pty ShellStream.

Definition DEFAULT_ROWS : u16 := wrap 24.
Definition DEFAULT_COLS : u16 := wrap 80.
Definition MAX_STREAM_ID_LEN : Z := 256.
Definition MAX_SHELLS_PER_SESSION : nat := 4096.
Definition MAX_CONCURRENT_JOBS : nat := 16.
(** Milliseconds; [STABLE_RESET] in seconds. *)
Definition BACKOFF_BASE : Z := 500.
Definition BACKOFF_MAX : Z := 30000.
Definition STABLE_RESET : Z := 30.

(** ** Start-up *)

Record TlsIdentity := mkTls { tls_ca_pem : bytes; tls_cert_pem : bytes; tls_key_pem : bytes }.

Definition load_identity (d : Dir) (fail : string -> option string) : result TlsIdentity string :=
  let read name := map_err (fun _ => name) (read_file d name (fail name)) in
  let? ca := read "ca.crt" in
  let? cert := read "host.crt" in
  let? key := read "host.key" in
  Ok (mkTls ca cert key).

Definition read_host_id (d : Dir) (fail : option string) : result string IoError :=
  let? b := read_file d "host_id" fail in Ok (trim (utf8 b)).

(** ** Reconnecting *)

(** [u64::checked_shl]: [None] for a shift of the whole width or more. *)
Definition checked_shl (x : u64) (n : Z) : option u64 :=
  if n <? 64 then Some (wrap (Z.shiftl (bval x) n)) else None.
Definition saturating_mul (x y : u64) : u64 := wrap (Z.min (bval x * bval y) (2 ^ 64 - 1)).

(** [hash] is [DefaultHasher] over the pair [(seed, attempt)]; the delay is in
    milliseconds. *)
Definition backoff (hash : u64 -> u32 -> u64) (attempt : u32) (seed : u64) : Z :=
  let factor := match checked_shl (wrap 1) (Z.min (bval attempt) 20) with Some f => f | None => wrap (2 ^ 64 - 1) end in
  let capped := Z.max (Z.min (bval (saturating_mul (wrap BACKOFF_BASE) factor)) BACKOFF_MAX) BACKOFF_BASE in
  let frac := bval (hash seed attempt) mod 1000 in
  capped / 2 + (capped / 2) * frac / 1000.

(** The end of a connection that was up for [up_for] (if it was acknowledged at all):
    the new attempt counter and the delay slept. *)
Definition after_disconnect (hash : u64 -> u32 -> u64) (seed : u64) (attempt : u32) (up_for : option Z) : u32 * Z :=
  let attempt := match up_for with
                 | Some t => if STABLE_RESET <=? t then wrap 0 else attempt
                 | None => attempt
                 end in
  (saturating_add attempt 1, backoff hash attempt seed).

(** The delays of a run of connections. *)
Fixpoint reconnects (hash : u64 -> u32 -> u64) (seed : u64) (attempt : u32) (ups : list (option Z)) : list Z :=
  match ups with
  | [] => []
  | up :: ups => let '(attempt, wait) := after_disconnect hash seed attempt up in
                 wait :: reconnects hash seed attempt ups
  end.

(** ** Sessions *)

Record SessionTopics := mkTopics {
  st_hs_up : string; st_hs_down : string; st_ctrl_up : string; st_ctrl_down : string;
  st_dispatch_down : string; st_result_up : string; st_stream_up : string; st_stream_down : string
}.

Definition for_host (host_id : string) : SessionTopics :=
  mkTopics (hs_up host_id) (hs_down host_id) (ctrl_up host_id) (ctrl_down host_id)
    (dispatch_down host_id) (result_up host_id) (stream_up host_id) (stream_down host_id).

Definition clamp_dim (v : u32) (default : u16) : u16 :=
  if bval v =? 0 then default else wrap (Z.min (bval v) (2 ^ 16 - 1)).

(** The agent process during one connection.  [runner] (the jobs and their store) and
    [state_dir] outlive connections; [acted] and [opened] record, for this connection,
    the dispatches routed to a capability and those a shell was opened for. *)
Record Conn := mkConn {
  connected : bool;
  handshaking : option Handshaking;
  session : option Established;
  active_stream : option ShellStream;
  used_stream_ids : gset string;
  runner : Runner;
  state_dir : Dir;
  outbox : list (string * bytes);       (** what the MQTT client accepted, in order *)
  subscriptions : list string;
  acted : list Dispatch;
  opened : list Dispatch
}.

Section Updates.
Implicit Type c : Conn.
Definition set_connected c x := mkConn x (handshaking c) (session c) (active_stream c) (used_stream_ids c) (runner c) (state_dir c) (outbox c) (subscriptions c) (acted c) (opened c).
Definition set_handshaking c x := mkConn (connected c) x (session c) (active_stream c) (used_stream_ids c) (runner c) (state_dir c) (outbox c) (subscriptions c) (acted c) (opened c).
Definition set_session c x := mkConn (connected c) (handshaking c) x (active_stream c) (used_stream_ids c) (runner c) (state_dir c) (outbox c) (subscriptions c) (acted c) (opened c).
Definition set_active_stream c x := mkConn (connected c) (handshaking c) (session c) x (used_stream_ids c) (runner c) (state_dir c) (outbox c) (subscriptions c) (acted c) (opened c).
Definition set_runner c x := mkConn (connected c) (handshaking c) (session c) (active_stream c) (used_stream_ids c) x (state_dir c) (outbox c) (subscriptions c) (acted c) (opened c).
Definition set_state_dir c x := mkConn (connected c) (handshaking c) (session c) (active_stream c) (used_stream_ids c) (runner c) x (outbox c) (subscriptions c) (acted c) (opened c).
Definition set_acted c x := mkConn (connected c) (handshaking c) (session c) (active_stream c) (used_stream_ids c) (runner c) (state_dir c) (outbox c) (subscriptions c) x (opened c).
(** [try_publish] and [try_subscribe]: refused when the request queue is full. *)
Definition try_publish c (ok : bool) (topic : string) (payload : bytes) : Conn * bool :=
  if ok then (mkConn (connected c) (handshaking c) (session c) (active_stream c) (used_stream_ids c) (runner c)
                (state_dir c) (outbox c ++ [(topic, payload)]) (subscriptions c) (acted c) (opened c), true)
  else (c, false).
Definition try_subscribe c (ok : bool) (topic : string) : Conn * bool :=
  if ok then (mkConn (connected c) (handshaking c) (session c) (active_stream c) (used_stream_ids c) (runner c)
                (state_dir c) (outbox c) (subscriptions c ++ [topic]) (acted c) (opened c), true)
  else (c, false).
(** A shell opened for [d]: its id is reserved and it replaces any prior shell. *)
Definition install_shell c (d : Dispatch) (s : ShellStream) : Conn :=
  mkConn (connected c) (handshaking c) (session c) (Some s) ({[d_job_id d]} ∪ used_stream_ids c) (runner c)
    (state_dir c) (outbox c) (subscriptions c) (acted c) (opened c ++ [d]).
End Updates.

(** What the environment decides during one event: whether the client takes the
    [n]-th request, the terminal, the epoch file's faults, the fresh session id and the
    ephemeral seed. *)
Record AgentEnv := mkAgentEnv {
  ae_client : nat -> bool; ae_pty : PtyEnv; ae_epoch_read : option string; ae_epoch_write : WriteFault;
  ae_sid : Uuid; ae_seed : option bytes
}.

Section Agent.
Context `{Crypto} `{Prost} `{UuidLib}.
Variable debug_str : string -> string.
(** The host id read once when the channel starts; the identity is loaded per connection. *)
Variable host_id : string.
Variable id : AgentIdentity.
Variable backstop : LocalAllowlist.
Implicit Type c : Conn.

Definition topics : SessionTopics := for_host host_id.

(** [publish_heartbeat]: the payload is empty; a refused request is skipped. *)
Definition publish_heartbeat c (ok : bool) : Conn := fst (try_publish c ok (heartbeat host_id) []).

(** [begin_handshake]: requests [k .. k + 4] of the event; subscribes first. *)
Definition begin_handshake c (epoch : u64) (e : AgentEnv) (k : nat) : Conn * option Handshaking :=
  match try_subscribe c (ae_client e k) (st_hs_down topics) with
  | (c, false) => (c, None)
  | (c, true) =>
  match try_subscribe c (ae_client e (k + 1)) (st_ctrl_down topics) with
  | (c, false) => (c, None)
  | (c, true) =>
  match try_subscribe c (ae_client e (k + 2)) (st_dispatch_down topics) with
  | (c, false) => (c, None)
  | (c, true) =>
  match try_subscribe c (ae_client e (k + 3)) (st_stream_down topics) with
  | (c, false) => (c, None)
  | (c, true) =>
      match start_handshake id epoch (ae_sid e) (ae_seed e) with
      | Err _ => (c, None)
      | Ok (hs, hello) =>
          match try_publish c (ae_client e (k + 4)) (st_hs_up topics) hello with
          | (c, false) => (c, None)
          | (c, true) => (c, Some hs)
          end
      end
  end end end end.

(** The [ConnAck] arm of the loop. *)
Definition on_connack c (e : AgentEnv) : Conn :=
  let c := set_connected c true in
  let c := publish_heartbeat c (ae_client e 0) in
  match next_epoch (state_dir c) (ae_epoch_read e) (ae_epoch_write e) with
  | (d, Err _) => set_state_dir c d
  | (d, Ok epoch) =>
      let '(c, hs) := begin_handshake (set_state_dir c d) epoch e 1 in
      set_handshaking c hs
  end.

Definition open_dispatch (est : Established) (payload : bytes) : Established * option Dispatch :=
  match decode_msg (M := Envelope) payload with
  | Err _ => (est, None)
  | Ok env =>
      match open_downlink est env with
      | (est, None) => (est, None)
      | (est, Some plaintext) => (est, ok (decode_msg (M := Dispatch) plaintext))
      end
  end.

(** [handle_job]: the permit of a job is held while its task runs; at the cap the
    dispatch is shed. *)
Definition handle_job c (d : Dispatch) : Conn :=
  if decide (MAX_CONCURRENT_JOBS <= size (running (runner c)))%nat then c
  else set_runner c (job_begin (runner c) (fresh (dom (running (runner c)))) d).

Definition handle_shell_open c (est : Established) (d : Dispatch) (penv : PtyEnv) : Conn :=
  let job_id := d_job_id d in
  if is_empty job_id || (MAX_STREAM_ID_LEN <? Z.of_nat (String.length job_id)) then c
  else if bool_decide (job_id ∈ used_stream_ids c) then c
  else if decide (MAX_SHELLS_PER_SESSION <= size (used_stream_ids c))%nat then c
  else match permits backstop (mkAction (d_kind d) EmptyString (d_run_as d) []) with
       | Err _ => c
       | Ok _ =>
           let params := match decode_msg (M := ShellParams) (d_params d) with
                         | Ok p => p | Err _ => mkShellParams (wrap 0) (wrap 0) end in
           match ShellStream_open (est_keys est) job_id (d_run_as d)
                   (clamp_dim (sp_rows params) DEFAULT_ROWS) (clamp_dim (sp_cols params) DEFAULT_COLS) penv with
           | Err _ => c
           | Ok s => install_shell c d s
           end
       end.

Definition on_publish c (topic : string) (payload : bytes) (e : AgentEnv) : Conn :=
  if bool_decide (topic = st_hs_down topics) then
    match handshaking c with
    | None => c
    | Some hs =>
        let c := set_handshaking c None in
        match finish_handshake hs id payload with
        | Ok est => set_session c (Some est)
        | Err _ => c
        end
    end
  else if bool_decide (topic = st_ctrl_down topics) then
    match session c with
    | None => c
    | Some est =>
        let '(est, r) := confirm_session est id payload in
        let c := set_session c (Some est) in
        match r with
        | Ok ack => fst (try_publish c (ae_client e 0) (st_ctrl_up topics) ack)
        | Err _ => c
        end
    end
  else if bool_decide (topic = st_dispatch_down topics) then
    match session c with
    | None => c
    | Some est =>
        let '(est, d) := open_dispatch est payload in
        let c := set_session c (Some est) in
        match d with
        | None => c
        | Some d =>
            let c := set_acted c (acted c ++ [d]) in
            if bool_decide (d_kind d = Pty.KIND) then handle_shell_open c est d (ae_pty e) else handle_job c d
        end
    end
  else if bool_decide (topic = st_stream_down topics) then
    match active_stream c with
    | None => c
    | Some s =>
        match decode_msg (M := Envelope) payload with
        | Err _ => c
        | Ok env =>
            let '(s, keep) := route_downlink s env in
            set_active_stream c (if keep then Some s else None)
        end
    end
  else c.

(** ** The loop *)

Inductive AgentEvent :=
| AConnAck (e : AgentEnv)
| APublish (topic : string) (payload : bytes) (e : AgentEnv)
| AHeartbeat (client_ok : bool)
| AJob (i : nat) (e : TaskEnv)               (** a job task moves on *)
| AKeystrokes (w : WriteAll)            (** the shell's write pump moves on *)
| ADisconnect.                               (** the connection ends; the next one is set up *)

Definition agent_step c (ev : AgentEvent) : Conn :=
  match ev with
  | AConnAck e => on_connack c e
  | APublish topic payload e => on_publish c topic payload e
  | AHeartbeat ok => if connected c then publish_heartbeat c ok else c
  | AJob i e => set_runner c (job_step debug_str backstop (ai_host_id id) (runner c) i e)
  | AKeystrokes w => set_active_stream c ((fun s => fst (downlink_pump s w)) <$> active_stream c)
  | ADisconnect => mkConn false None None None ∅ (runner c) (state_dir c) (outbox c) [] [] []
  end.

Definition run_agent c (evs : list AgentEvent) : Conn := foldl agent_step c evs.

Definition agent_init (jobs_dir state : Dir) : Conn :=
  mkConn false None None None ∅ (runner_init jobs_dir) state [] [] [] [].

End Agent.

(** ** Lemmas *)

Lemma half_jitter c f : 0 < c -> c mod 2 = 0 -> 0 <= f < 1000 -> c / 2 <= c / 2 + (c / 2) * f / 1000 < c.
Proof.
  intros Hc He Hf. pose proof (Z.div_mod c 2 ltac:(lia)) as Hd. rewrite He in Hd.
  assert (0 <= (c / 2) * f / 1000) by (apply Z.div_pos; nia).
  assert ((c / 2) * f / 1000 < c / 2) by (apply Z.div_lt_upper_bound; nia). lia.
Qed.

(** The capped exponential: [500 * 2^k] up to 30 s. *)
Definition capped_ms (attempt : Z) : Z := Z.min (500 * 2 ^ Z.min attempt 20) 30000.

Lemma pow2_bounds k : 0 <= k <= 20 -> 1 <= 2 ^ k <= 2 ^ 20.
Proof. intros. pose proof (Z.pow_pos_nonneg 2 k). split; [lia|apply Z.pow_le_mono_r; lia]. Qed.

Lemma capped_ms_ok attempt : 0 <= attempt -> 500 <= capped_ms attempt <= 30000 /\ capped_ms attempt mod 2 = 0.
Proof.
  intros Ha. unfold capped_ms. pose proof (pow2_bounds (Z.min attempt 20) ltac:(lia)). split; [lia|].
  destruct (Z.min_spec (500 * 2 ^ Z.min attempt 20) 30000) as [[_ ->]|[_ ->]]; [|done].
  replace (500 * 2 ^ Z.min attempt 20) with (250 * 2 ^ Z.min attempt 20 * 2) by lia. apply Z_mod_mult.
Qed.

Lemma backoff_capped hash attempt seed :
  backoff hash attempt seed =
  let c := capped_ms (bval attempt) in c / 2 + (c / 2) * (bval (hash seed attempt) mod 1000) / 1000.
Proof.
  unfold backoff. set (n := Z.min (bval attempt) 20).
  pose proof (bint_range attempt). pose proof (pow2_bounds n ltac:(lia)) as Hp.
  unfold checked_shl. replace (n <? 64) with true by (symmetry; apply Z.ltb_lt; lia).
  assert (bval (wrap (Z.shiftl (bval (wrap 1 : u64)) n) : u64) = 2 ^ n) as Hs.
  { rewrite (wrap_small (lo := 0) (hi := 2 ^ 64) 1) by lia. rewrite Z.shiftl_1_l. apply wrap_small. lia. }
  unfold saturating_mul. rewrite Hs, (wrap_small BACKOFF_BASE) by (unfold BACKOFF_BASE; lia).
  unfold BACKOFF_BASE, BACKOFF_MAX. rewrite wrap_small by lia.
  replace (Z.max _ 500) with (capped_ms (bval attempt)); [done|].
  unfold capped_ms. fold n. lia.
Qed.

Lemma backoff_range hash attempt seed :
  let c := capped_ms (bval attempt) in c / 2 <= backoff hash attempt seed < c.
Proof.
  intros c. rewrite backoff_capped. pose proof (bint_range attempt).
  destruct (capped_ms_ok (bval attempt)) as [? ?]; [lia|].
  apply half_jitter; [unfold c; lia|done|apply Z.mod_pos_bound; lia].
Qed.

Lemma backoff_bounds hash attempt seed : 250 <= backoff hash attempt seed < 30000.
Proof.
  pose proof (backoff_range hash attempt seed) as Hr. simpl in Hr. pose proof (bint_range attempt).
  destruct (capped_ms_ok (bval attempt)) as [? _]; [lia|].
  assert (250 <= capped_ms (bval attempt) / 2) by (apply Z.div_le_lower_bound; lia). lia.
Qed.

Lemma clamp_dim_range v (default : u16) : 1 <= bval default -> 1 <= bval (clamp_dim v default) <= 65535.
Proof.
  intros Hd. unfold clamp_dim. pose proof (bint_range v). pose proof (bint_range default).
  destruct (bval v =? 0) eqn:E; bool_to_prop; [lia|]. rewrite wrap_small by lia. lia.
Qed.

Section RunnerSize.
Context `{Crypto} `{Prost}.

Lemma job_begin_size r i d : (size (running (job_begin r i d)) <= S (size (running r)))%nat.
Proof.
  unfold job_begin, try_claim. destruct (_ || _); simpl; [lia|]. destruct (bool_decide _); simpl; [lia|].
  rewrite map_size_insert. destruct (running r !! i); simpl; lia.
Qed.

Lemma job_step_size dbg bs h r i e : (size (running (job_step dbg bs h r i e)) <= size (running r))%nat.
Proof.
  assert (forall r id res, (size (running (job_end r i id res)) <= size (running r))%nat) as Hend.
  { intros r' id res. simpl. rewrite map_size_delete. destruct (running r' !! i); simpl; lia. }
  assert (forall t m, m !! i <> None -> (size (<[i := t]> m : gmap nat JobTask) <= size m)%nat) as Hins.
  { intros t m Hm. rewrite map_size_insert. by destruct (m !! i). }
  unfold job_step. destruct (running r !! i) as [[d|d p|d p|d o]|] eqn:E; [..|done].
  - destruct (lookup_job _ _ _) as [[[]|]|]; try apply Hend. destruct (check_dispatch _ _ _ _); [|apply Hend].
    simpl. apply Hins. by rewrite E.
  - destruct (mark_started _ _ _) as [jd [[]|]]; [|apply (Hend (set_jobs r jd))]. simpl. apply Hins. by rewrite E.
  - destruct (stream _ _ _ _) as [[cs k] res]. simpl. apply Hins. by rewrite E.
  - destruct (record_done _ _ _ _) as [jd w]. apply (Hend (set_jobs r jd)).
Qed.

End RunnerSize.

Section AgentLemmas.
Context `{Crypto} `{Prost} `{UuidLib}.
Context (debug_str : string -> string) (host_id : string) (id : AgentIdentity) (backstop : LocalAllowlist).
Implicit Type c : Conn.

(** A handshake this agent started, under its own identity. *)
Definition initiated (hs : Handshaking) : Prop := exists epoch sid seed hello, start_handshake id epoch sid seed = Ok (hs, hello).

(** Keys agreed with the holder of the pinned CA key: derived from the ephemeral of a
    handshake this agent started and a server ephemeral, over a transcript that names both and
    carries a signature which verifies under the pinned key. *)
Definition coordinator_keys (keys : SessionKeys) : Prop :=
  exists hs server_eph sig,
    let ini := hk_initiator hs in
    let client_eph := hs_public (ini_eph ini) in
    initiated hs /\
    ecdsa_verify (ai_ca_pubkey_sec1 id) (server_transcript (ini_sid ini) client_eph server_eph) sig = true /\
    derive (ini_eph ini) server_eph (session_binding (ini_sid ini) client_eph server_eph (ini_cert_der ini)) = Ok keys.

(** A dispatch that was sealed by the coordinator's end of such a session. *)
Definition authentic_dispatch (d : Dispatch) : Prop :=
  exists keys env plaintext, coordinator_keys keys /\
    open_envelope keys CoordToAgent env = Ok plaintext /\ decode_msg plaintext = Ok d.

(** A dispatch a shell may be opened for. *)
Definition shell_ok (d : Dispatch) : Prop :=
  d_kind d = Pty.KIND /\ permits backstop (mkAction (d_kind d) EmptyString (d_run_as d) []) = Ok tt /\
  (1 <= String.length (d_job_id d) <= 256)%nat.

(** What the invariant reads of the state. *)
Definition view c := (session c, active_stream c, used_stream_ids c, running (runner c), acted c, opened c).

Record agent_inv c : Prop := {
  ai_handshaking : forall hs, handshaking c = Some hs -> initiated hs;
  ai_session : forall est, session c = Some est -> coordinator_keys (est_keys est);
  ai_acted : Forall authentic_dispatch (acted c);
  ai_opened : Forall shell_ok (opened c);
  ai_ids : NoDup (d_job_id <$> opened c);
  ai_used : forall x, x ∈ used_stream_ids c <-> x ∈ (d_job_id <$> opened c);
  ai_shells : (size (used_stream_ids c) <= MAX_SHELLS_PER_SESSION)%nat;
  ai_jobs : (size (running (runner c)) <= MAX_CONCURRENT_JOBS)%nat;
  ai_queue : forall s, active_stream c = Some s -> (length (sh_queue s) <= DOWNLINK_QUEUE)%nat
}.

Lemma agent_inv_view c c' :
  view c = view c' -> (forall hs, handshaking c' = Some hs -> handshaking c = Some hs \/ initiated hs) -> agent_inv c -> agent_inv c'.
Proof.
  unfold view. intros [= E1 E2 E3 E4 E5 E6] Hh [Ih].
  split; rewrite <- ?E1, <- ?E2, <- ?E3, <- ?E4, <- ?E5, <- ?E6; try assumption.
  intros hs Hhs. destruct (Hh hs Hhs) as [Hc|Hi]; [by apply Ih|done].
Qed.

Lemma try_publish_view c ok topic payload : view (fst (try_publish c ok topic payload)) = view c.
Proof. by destruct ok. Qed.

Lemma begin_handshake_view c epoch e k : view (fst (begin_handshake host_id id c epoch e k)) = view c.
Proof.
  unfold begin_handshake, try_subscribe, try_publish.
  destruct (ae_client e k), (ae_client e (k + 1)), (ae_client e (k + 2)), (ae_client e (k + 3)); try done.
  destruct (start_handshake _ _ _ _) as [[hs hello]|]; [|done]. by destruct (ae_client e (k + 4)).
Qed.

Lemma on_connack_view c e : view (on_connack host_id id c e) = view c.
Proof.
  unfold on_connack. set (c1 := publish_heartbeat host_id (set_connected c true) _).
  assert (view c1 = view c) as Hv by (etrans; [apply try_publish_view|done]).
  destruct (next_epoch _ _ _) as [d [epoch|]]; [|by rewrite <- Hv].
  pose proof (begin_handshake_view (set_state_dir c1 d) epoch e 1) as Hb.
  destruct (begin_handshake _ _ _ _ _ _) as [c2 hs]. simpl in Hb. rewrite <- Hv. exact Hb.
Qed.

Lemma try_publish_handshaking c ok topic payload : handshaking (fst (try_publish c ok topic payload)) = handshaking c.
Proof. by destruct ok. Qed.

Lemma begin_handshake_started c epoch e k hs : snd (begin_handshake host_id id c epoch e k) = Some hs -> initiated hs.
Proof.
  unfold begin_handshake, try_subscribe, try_publish.
  destruct (ae_client e k), (ae_client e (k + 1)), (ae_client e (k + 2)), (ae_client e (k + 3)); try done.
  destruct (start_handshake _ _ _ _) as [[hs' hello]|] eqn:E; [|done]. destruct (ae_client e (k + 4)); [|done].
  intros [= <-]. by eexists _, _, _, _.
Qed.

Lemma on_connack_handshaking c e hs : handshaking (on_connack host_id id c e) = Some hs -> handshaking c = Some hs \/ initiated hs.
Proof.
  unfold on_connack. destruct (next_epoch _ _ _) as [d [epoch|]].
  - pose proof (begin_handshake_started (set_state_dir (publish_heartbeat host_id (set_connected c true) (ae_client e 0)) d) epoch e 1) as Hb.
    destruct (begin_handshake _ _ _ _ _ _) as [c2 o]. simpl in *. auto.
  - unfold publish_heartbeat. simpl. rewrite try_publish_handshaking. by left.
Qed.

Lemma finish_handshake_keys hs payload est :
  initiated hs -> finish_handshake hs id payload = Ok est -> coordinator_keys (est_keys est).
Proof.
  intros Hi. unfold finish_handshake. destruct (map_err _ _) as [sh|]; [|done]. destruct (negb _); [done|].
  destruct (ok_or _ _) as [eph|]; [|done].
  destruct (Initiator_finish _ _ _ _) as [keys|] eqn:E; [|done]. simpl. intros [= <-]. simpl.
  apply Initiator_finish_inv in E as [Hv Hd]. by exists hs, eph, (sh_sig sh).
Qed.

Lemma open_downlink_keys est env est' p : open_downlink est env = (est', p) -> est_keys est' = est_keys est.
Proof.
  unfold open_downlink. destruct (open_envelope _ _ _); [|by intros [= <- <-]].
  destruct (accept_recv _ _). by intros [= <- <-].
Qed.

Lemma confirm_session_keys est payload est' r :
  confirm_session est id payload = (est', r) -> est_keys est' = est_keys est.
Proof.
  unfold confirm_session. destruct (decode_msg _) as [env|]; [|by intros [= <- <-]].
  destruct (negb _); [by intros [= <- <-]|].
  destruct (open_downlink est env) as [est1 [p|]] eqn:E; apply open_downlink_keys in E; [|by intros [= <- <-]].
  destruct (negb _); [by intros [= <- <-]|]. destruct (seal_uplink _ _ _ _ _). by intros [= <- <-].
Qed.

Lemma open_dispatch_spec est payload est' d :
  open_dispatch est payload = (est', d) ->
  est_keys est' = est_keys est /\
  (forall x, d = Some x -> exists env p, open_envelope (est_keys est) CoordToAgent env = Ok p /\ decode_msg p = Ok x).
Proof.
  unfold open_dispatch. destruct (decode_msg payload) as [env|]; [|by intros [= <- <-]].
  destruct (open_downlink est env) as [est1 [p|]] eqn:E; pose proof (open_downlink_keys _ _ _ _ E) as Hk.
  2: by intros [= <- <-].
  intros [= <- <-]. split; [done|]. intros x Hx. exists env, p.
  destruct (decode_msg p) as [y|] eqn:Ey; simpl in Hx; simplify_eq. split; [|done].
  unfold open_downlink in E. destruct (open_envelope _ _ _) as [q|]; [|done].
  destruct (accept_recv _ _) as [h []]; by simplify_eq.
Qed.

Lemma enqueue_bounded s d : (length (sh_queue s) <= DOWNLINK_QUEUE)%nat -> (length (sh_queue (enqueue s d)) <= DOWNLINK_QUEUE)%nat.
Proof.
  unfold enqueue. destruct (sh_rx_open s); simpl; [|done]. destruct (decide _) as [Hd|Hd]; [done|].
  cbn [sh_queue]. rewrite length_app. cbn [length]. lia.
Qed.

Lemma route_downlink_bounded s env s' k :
  route_downlink s env = (s', k) -> (length (sh_queue s) <= DOWNLINK_QUEUE)%nat -> (length (sh_queue s') <= DOWNLINK_QUEUE)%nat.
Proof.
  unfold route_downlink, Shell_open_downlink. destruct (open_envelope _ _ _) as [p|]; [|by intros [= <- <-]].
  destruct (stale _ _); [by intros [= <- <-]|]. destruct (decode_msg p) as [f|]; [|by intros [= <- <-]].
  destruct (sf_eof f); intros [= <- <-] Hq; [done|]. by apply enqueue_bounded.
Qed.

Lemma handle_job_inv c d : agent_inv c -> agent_inv (handle_job c d).
Proof.
  intros [I0 I1 I2 I3 I4 I5 I6 I7 I8]. unfold handle_job. destruct (decide _) as [Hd|Hd]; [done|].
  split; simpl; try done.
  pose proof (job_begin_size (runner c) (fresh (dom (running (runner c)))) d). lia.
Qed.

Lemma handle_shell_open_inv c est d penv :
  d_kind d = Pty.KIND -> agent_inv c -> agent_inv (handle_shell_open backstop c est d penv).
Proof.
  intros Hk Hc. unfold handle_shell_open. destruct (_ || _) eqn:El; [done|].
  destruct (bool_decide _) eqn:Eu; [done|]. destruct (decide _) as [Hd|Hd]; [done|].
  destruct (permits _ _) as [[]|] eqn:Ep; [|done]. unfold ShellStream_open.
  destruct (PtySession_spawn _ _ _ _) as [pty|]; [|done]. cbn match. destruct Hc as [I0 I1 I2 I3 I4 I5 I6 I7 I8].
  bool_to_prop.
  split; simpl; try done.
  - apply Forall_app; split; [done|]. constructor; [|constructor]. split; [done|]. split; [done|].
    destruct (d_job_id d); [done|]. unfold MAX_STREAM_ID_LEN in *. simpl in *. lia.
  - rewrite fmap_app. apply NoDup_app. split; [done|]. split; [|apply NoDup_singleton].
    intros x Hx. rewrite <- I5 in Hx. simpl. set_solver.
  - intros x. rewrite fmap_app. specialize (I5 x). set_solver.
  - rewrite size_union by set_solver. rewrite size_singleton. lia.
  - intros s [= <-]. simpl. lia.
Qed.

Lemma on_publish_inv c topic payload e : agent_inv c -> agent_inv (on_publish host_id id backstop c topic payload e).
Proof.
  intros Hc. unfold on_publish. destruct (bool_decide (topic = _)).
  { destruct (handshaking c) as [hs|] eqn:Eh; [|done].
    destruct (finish_handshake hs id payload) as [est|] eqn:E; [|apply (agent_inv_view c); by auto].
    destruct Hc as [Ih]. split; simpl; try done. intros est' [= <-]. eapply finish_handshake_keys; [by apply Ih|done]. }
  destruct (bool_decide (topic = _)).
  { destruct (session c) as [est|] eqn:Es; [|done]. destruct (confirm_session est id payload) as [est' r] eqn:E.
    assert (agent_inv (set_session c (Some est'))) as Hs.
    { destruct Hc as [? Hses]. split; simpl; try done. intros est1 [= <-].
      rewrite (confirm_session_keys _ _ _ _ E). by apply Hses. }
    destruct r; [|done]. eapply agent_inv_view; [symmetry; apply try_publish_view| |exact Hs].
    rewrite try_publish_handshaking. auto. }
  destruct (bool_decide (topic = _)).
  { destruct (session c) as [est|] eqn:Es; [|done]. destruct (open_dispatch est payload) as [est' d] eqn:E.
    destruct (open_dispatch_spec _ _ _ _ E) as [Hk Hd].
    assert (coordinator_keys (est_keys est)) as Hck by (by apply (ai_session c Hc)).
    destruct d as [d|].
    - assert (agent_inv (set_acted (set_session c (Some est')) (acted (set_session c (Some est')) ++ [d]))) as Hs.
      { destruct Hc. split; simpl; try done; [intros est1 [= <-]; by rewrite Hk|].
        apply Forall_app; split; [done|]. constructor; [|constructor].
        destruct (Hd d eq_refl) as (env & p & ? & ?). by exists (est_keys est), env, p. }
      destruct (bool_decide _) eqn:Ek; [|by apply handle_job_inv]. bool_to_prop.
      by apply handle_shell_open_inv.
    - destruct Hc. split; simpl; try done. intros est1 [= <-]. by rewrite Hk. }
  destruct (bool_decide (topic = _)); [|done].
  destruct (active_stream c) as [s|] eqn:Es; [|done]. destruct (decode_msg payload) as [env|]; [|done].
  destruct (route_downlink s env) as [s' k] eqn:Er. destruct Hc as [I0 I1 I2 I3 I4 I5 I6 I7 I8].
  split; simpl; try done. intros s1 Hs1. destruct k; simplify_eq.
  eapply route_downlink_bounded; [exact Er|]. by apply I8.
Qed.

Lemma agent_inv_reset conn r d out subs :
  (size (running r) <= MAX_CONCURRENT_JOBS)%nat -> agent_inv (mkConn conn None None None ∅ r d out subs [] []).
Proof.
  intros Hr. split; cbn [session acted opened used_stream_ids active_stream runner]; try done.
  - apply NoDup_nil_2.
  - set_solver.
  - rewrite size_empty. lia.
Qed.

Lemma agent_step_inv c ev : agent_inv c -> agent_inv (agent_step debug_str host_id id backstop c ev).
Proof.
  intros Hc. destruct ev as [e|topic payload e|ok|i e|w|]; simpl.
  - eapply agent_inv_view; [symmetry; apply on_connack_view|apply on_connack_handshaking|done].
  - by apply on_publish_inv.
  - destruct (connected c); [|done]. eapply agent_inv_view; [symmetry; apply try_publish_view| |exact Hc].
    unfold publish_heartbeat. rewrite try_publish_handshaking. auto.
  - destruct Hc. split; simpl; try done. etrans; [apply job_step_size|done].
  - destruct Hc as [I0 I1 I2 I3 I4 I5 I6 I7 I8]. split; simpl; try done.
    destruct (active_stream c) as [s|]; [|done]. intros s' [= <-]. specialize (I8 s eq_refl).
    unfold downlink_pump. destruct (sh_queue s) eqn:Eq; simpl; [by rewrite Eq|].
    destruct w; simpl in *; lia.
  - apply agent_inv_reset, ai_jobs, Hc.
Qed.

Lemma run_agent_inv c evs : agent_inv c -> agent_inv (run_agent debug_str host_id id backstop c evs).
Proof. revert c. induction evs as [|ev evs IH]; intros c Hc; [done|]. apply IH. by apply agent_step_inv. Qed.

Lemma agent_init_inv jobs_dir state : agent_inv (agent_init jobs_dir state).
Proof. apply agent_inv_reset. simpl. rewrite map_size_empty. lia. Qed.

End AgentLemmas.

(** *** One session's dispatches *)

Section SessionRun.
Context `{CryptoLaws} `{ProstLaws} `{UuidLib}.
Context (debug_str : string -> string) (host_id : string) (id : AgentIdentity) (backstop : LocalAllowlist).
Context (keys : SessionKeys) (host sid : string) (ps : list bytes) (Hlen : Z.of_nat (length ps) <= 2 ^ 64).
Implicit Type c : Conn.

(** What the coordinator sealed on the session, and the dispatches among it. *)
Definition sealed_down : list Envelope := envelopes_from keys CoordToAgent KindControl host sid 0 ps.
Definition as_dispatch (p : bytes) : option Dispatch := ok (decode_msg (M := Dispatch) p).

(** Events of an established session: every message is one the coordinator sealed, or
    does not open under the session's key. *)
Definition within_session (ev : AgentEvent) : Prop :=
  match ev with
  | APublish _ payload _ =>
      match decode_msg (M := Envelope) payload with
      | Ok env => authentic keys CoordToAgent sealed_down env
      | Err _ => True
      end
  | AConnAck _ | ADisconnect => False
  | _ => True
  end.

(** [moves high high' l]: the guard moved on, past the payloads that yield [l]. *)
Definition moves (high high' : option u64) (l : list Dispatch) : Prop :=
  sublist (l ++ omap as_dispatch (drop (next_seq high') ps)) (omap as_dispatch (drop (next_seq high) ps)).

Lemma moves_refl high : moves high high [].
Proof. unfold moves. done. Qed.

Lemma moves_accept high i p l :
  ps !! i = Some p -> (next_seq high <= i)%nat -> sublist l (option_list (as_dispatch p)) ->
  moves high (Some (wrap (Z.of_nat i))) l.
Proof.
  intros Hi Hn Hl. unfold moves. pose proof (lookup_lt_Some _ _ _ Hi).
  simpl. rewrite wrap_small, Nat2Z.id by lia.
  transitivity (omap as_dispatch (drop i ps)).
  - rewrite (drop_S _ _ _ Hi). cbn [omap list_omap]. destruct (as_dispatch p); simpl in *.
    + change (d :: omap as_dispatch (drop (S i) ps)) with ([d] ++ omap as_dispatch (drop (S i) ps)).
      by apply sublist_app.
    + apply sublist_nil_r in Hl as ->. done.
  - apply sublist_omap. replace i with (next_seq high + (i - next_seq high))%nat by lia.
    rewrite <- drop_drop. apply sublist_drop.
Qed.

Lemma open_downlink_moves est env est' r :
  est_keys est = keys -> authentic keys CoordToAgent sealed_down env -> open_downlink est env = (est', r) ->
  (est_recv_high est' = est_recv_high est /\ r = None) \/
  (exists i p, ps !! i = Some p /\ (next_seq (est_recv_high est) <= i)%nat /\
     est_recv_high est' = Some (wrap (Z.of_nat i)) /\ r = Some p).
Proof.
  intros Hk Ha. unfold open_downlink. rewrite Hk.
  destruct Ha as [(i & p & Hi & ->)%envelopes_from_elem|[err ->]]; [|intros [= <- <-]; by left].
  rewrite open_seal_envelope. cbn [env_seq seal_envelope]. unfold accept_recv.
  destruct (stale _ _) eqn:Es; intros [= <- <-]; [by left|]. right. exists i, p. split; [done|].
  apply stale_next in Es. pose proof (lookup_lt_Some _ _ _ Hi).
  rewrite Z.add_0_l, wrap_small, Nat2Z.id in Es by lia. by rewrite Z.add_0_l.
Qed.

Lemma handle_acted c est d penv :
  let c' := if bool_decide (d_kind d = Pty.KIND) then handle_shell_open backstop c est d penv else handle_job c d in
  session c' = session c /\ handshaking c' = handshaking c /\ acted c' = acted c.
Proof.
  simpl. destruct (bool_decide (d_kind d = _)).
  - unfold handle_shell_open. destruct (_ || _); [done|]. destruct (bool_decide _); [done|].
    destruct (decide _); [done|]. destruct (permits _ _); [|done]. by destruct (ShellStream_open _ _ _ _ _ _).
  - unfold handle_job. by destruct (decide _).
Qed.

Lemma on_publish_moves c topic payload e est :
  session c = Some est -> handshaking c = None -> est_keys est = keys ->
  within_session (APublish topic payload e) ->
  let c' := on_publish host_id id backstop c topic payload e in
  exists est' l, session c' = Some est' /\ handshaking c' = None /\ est_keys est' = keys /\
    acted c' = acted c ++ l /\ moves (est_recv_high est) (est_recv_high est') l.
Proof.
  intros Hs Hh Hk Hw. unfold on_publish. simpl in Hw.
  assert (exists est' l, session c = Some est' /\ handshaking c = None /\ est_keys est' = keys /\
    acted c = acted c ++ l /\ moves (est_recv_high est) (est_recv_high est') l) as Hsame.
  { exists est, []. rewrite app_nil_r. repeat split; try done. apply moves_refl. }
  destruct (bool_decide (topic = _)); [rewrite Hh; exact Hsame|].
  destruct (bool_decide (topic = _)).
  { rewrite Hs. destruct (confirm_session est id payload) as [est' r] eqn:Ec.
    assert (est_keys est' = keys /\ moves (est_recv_high est) (est_recv_high est') []) as [Hk' Hm].
    { split; [rewrite <- Hk; by eapply confirm_session_keys|]. unfold confirm_session in Ec.
      destruct (decode_msg payload) as [env|]; [|simplify_eq; apply moves_refl].
      destruct (negb _); [simplify_eq; apply moves_refl|].
      destruct (open_downlink est env) as [est1 q] eqn:Eo.
      assert (est_recv_high est' = est_recv_high est1) as ->.
      { destruct q as [q|]; [|by simplify_eq]. destruct (negb _); [by simplify_eq|].
        destruct (seal_uplink _ _ _ _ _). by simplify_eq. }
      apply open_downlink_moves in Eo as [[-> _]|(i & p & Hi & Hn & -> & _)]; try done; [apply moves_refl|].
      eapply moves_accept; [done..|apply sublist_nil_l]. }
    exists est', []. rewrite app_nil_r. destruct r as [ack|]; [destruct (ae_client e 0)|]; simpl; by rewrite ?Hh. }
  destruct (bool_decide (topic = _)).
  { rewrite Hs. destruct (open_dispatch est payload) as [est' d] eqn:Ed.
    assert (est_keys est' = keys /\ moves (est_recv_high est) (est_recv_high est') (option_list d)) as [Hk' Hm].
    { pose proof (open_dispatch_spec _ _ _ _ Ed) as [Hk1 _]. split; [by rewrite Hk1|]. unfold open_dispatch in Ed.
      destruct (decode_msg payload) as [env|]; [|simplify_eq; apply moves_refl].
      destruct (open_downlink est env) as [est1 q] eqn:Eo.
      pose proof (open_downlink_moves _ _ _ _ Hk Hw Eo) as [[He ->]|(i & p & Hi & Hn & He & ->)]; simplify_eq;
        rewrite He; [apply moves_refl|]. by eapply moves_accept. }
    exists est', (option_list d). destruct d as [d|]; [|simpl; by rewrite app_nil_r].
    destruct (handle_acted (set_acted (set_session c (Some est')) (acted c ++ [d])) est' d (ae_pty e))
      as (Ha1 & Ha2 & Ha3). simpl in Ha1, Ha2, Ha3 |- *. by rewrite Ha1, Ha2, Ha3. }
  destruct (bool_decide (topic = _)); [|exact Hsame].
  destruct (active_stream c) as [s|]; [|exact Hsame]. destruct (decode_msg payload) as [env|]; [|exact Hsame].
  destruct (route_downlink s env). exact Hsame.
Qed.

Lemma run_agent_moves evs c est :
  session c = Some est -> handshaking c = None -> est_keys est = keys -> Forall within_session evs ->
  sublist (acted (run_agent debug_str host_id id backstop c evs))
          (acted c ++ omap as_dispatch (drop (next_seq (est_recv_high est)) ps)).
Proof.
  revert c est. induction evs as [|ev evs IH]; intros c est Hs Hh Hk Hw; [by apply sublist_inserts_r|].
  apply Forall_cons in Hw as [Hev Hw]. change (run_agent debug_str host_id id backstop c (ev :: evs))
    with (run_agent debug_str host_id id backstop (agent_step debug_str host_id id backstop c ev) evs).
  destruct ev as [e|topic payload e|o|i e|w|]; try done; cbn [agent_step].
  - destruct (on_publish_moves c topic payload e est Hs Hh Hk Hev) as (est' & l & Hs' & Hh' & Hk' & Ha & Hm).
    etrans; [apply (IH _ _ Hs' Hh' Hk' Hw)|]. rewrite Ha, <- app_assoc. by apply sublist_app.
  - destruct (connected c); [|by apply IH]. destruct o; [|by apply IH]. by apply (IH (fst (try_publish c true _ _))).
  - by apply (IH (set_runner _ _)).
  - by apply (IH (set_active_stream _ _)).
Qed.

End SessionRun.

(** ** Properties *)

(** C10. The agent acts at most once, and in order, on what the coordinator dispatched.
    During an established session, whatever the broker delivers (the coordinator's
    frames dropped, duplicated, reordered, sent on another of the session's topics, or
    frames that do not open), and however jobs and shells progress meanwhile, the
    dispatches the agent routes to a capability are, in order, a sub-sequence of the
    dispatches the coordinator sealed. *)
Theorem agent_acts_in_order_at_most_once `{CryptoLaws, ProstLaws, UuidLib} debug_str host_id id backstop keys host sid (ps : list bytes) evs c q :
  Z.of_nat (length ps) <= 2 ^ 64 ->
  session c = Some (mkEstablished keys sid q None) -> handshaking c = None -> acted c = [] ->
  Forall (within_session keys host sid ps) evs ->
  sublist (acted (run_agent debug_str host_id id backstop c evs)) (omap as_dispatch ps).
Proof.
  intros Hl Hs Hh Ha Hw. pose proof (run_agent_moves debug_str host_id id backstop keys host sid ps Hl evs c _ Hs Hh eq_refl Hw) as Hr.
  by rewrite Ha in Hr.
Qed.

(** An established agent, for the witnesses. *)
Definition demo_agent_id : AgentIdentity := mkIdentity "h" "pem" [] [].
Definition demo_pty : PtyEnv :=
  mkPtyEnv (fun _ => Ok None) true (Ok tt) (Ok tt) [] (mkCred 0 0 []) false [] (Ok tt) (Ok tt) (Ok tt) (Ok tt) 7.
Definition demo_agent_env : AgentEnv := mkAgentEnv (fun _ => true) demo_pty None WOk (wrap 5) (Some (bytes_of "seed")).
Definition demo_keys : SessionKeys := mkKeys (bytes_of "kc") (bytes_of "ka").
Definition demo_conn : Conn :=
  set_session (agent_init dir_empty dir_empty) (Some (mkEstablished demo_keys "s" (wrap 0) None)).
Definition demo_shell : Dispatch := mkDispatch "sh-1" "shell" "" (encode_msg (mkShellParams (wrap 0) (wrap 0))).
Definition demo_job : Dispatch := mkDispatch "job-1" "exec" "" (encode_msg (mkExecParams ["id"])).

Lemma agent_acts_in_order_at_most_once_witness :
  let ps : list bytes := [encode_msg demo_shell; encode_msg demo_job] in
  let frames := encode_msg <$> sealed_down demo_keys "h" "s" ps in
  let evs := (fun p => APublish (dispatch_down "h") p demo_agent_env) <$> (frames ++ frames) in
  let run := run_agent (fun s => s) "h" demo_agent_id (mkAllowlist ["*"] ["*"]) demo_conn evs in
  acted run = [demo_shell; demo_job] /\ size (used_stream_ids run) = 1%nat /\
  sublist (acted run) (omap as_dispatch ps).
Proof.
  intros ps frames evs run. split; [vm_compute; reflexivity|]. split; [vm_compute; reflexivity|].
  apply (agent_acts_in_order_at_most_once (fun s => s) "h" demo_agent_id (mkAllowlist ["*"] ["*"]) demo_keys "h" "s" ps evs
           demo_conn (wrap 0)); try reflexivity.
  - vm_compute. intros Hc. discriminate Hc.
  - unfold evs. apply Forall_fmap, Forall_forall. intros p Hp. unfold frames in Hp.
    rewrite elem_of_app in Hp. assert (p ∈ encode_msg <$> sealed_down demo_keys "h" "s" ps) as Hp' by tauto.
    apply list_elem_of_fmap in Hp' as (e & -> & He). unfold compose, within_session. rewrite decode_encode. by left.
Defined.

(** C5. A compromised coordinator or broker cannot push the agent past its limits.  From
    start-up, over any events (any messages, any reconnects): only dispatches that open under
    keys of a handshake the agent started itself are acted on, and the server's half of that
    handshake carries a signature which verifies under the pinned CA key over both ephemerals;
    every shell was of kind "shell", permitted by the host's own allowlist, with an id of 1 to
    256 bytes; within a connection (a new one derives new keys) no stream id is used twice and
    at most 4096 shells are opened; at most 16 jobs run at once and at most 256 keystroke
    frames are queued. *)
Theorem agent_stays_within_its_limits `{Crypto, Prost, UuidLib} debug_str host_id id backstop jobs_dir state evs :
  let c := run_agent debug_str host_id id backstop (agent_init jobs_dir state) evs in
  (forall d, d ∈ acted c -> authentic_dispatch id d) /\
  (forall est, session c = Some est -> coordinator_keys id (est_keys est)) /\
  (forall d, d ∈ opened c -> shell_ok backstop d) /\
  NoDup (d_job_id <$> opened c) /\ (length (opened c) <= 4096)%nat /\
  (size (running (runner c)) <= 16)%nat /\
  (forall s, active_stream c = Some s -> (length (sh_queue s) <= 256)%nat).
Proof.
  intros c. assert (agent_inv id backstop c) as Hc by exact (run_agent_inv debug_str host_id id backstop _ evs (agent_init_inv debug_str id backstop jobs_dir state)). destruct Hc.
  split; [by apply Forall_forall|]. split; [done|]. split; [by apply Forall_forall|]. split; [done|].
  split; [|done].
  rewrite <- (length_fmap d_job_id (opened c)), <- (size_list_to_set (C := gset string) _ ai_ids0).
  etrans; [|exact ai_shells0]. apply subseteq_size. intros x. by rewrite elem_of_list_to_set, ai_used0.
Qed.

(** Reconnects never storm and never stall: every delay is at least 250 ms and below
    30 s whatever the jitter; it lies in the upper half of the capped exponential of the
    attempt, which doubles from 500 ms; and a connection that was stable for 30 s resets
    it below 500 ms. *)
Theorem reconnect_delays_bounded hash seed :
  (forall attempt, capped_ms (bval attempt) / 2 <= backoff hash attempt seed < capped_ms (bval attempt)) /\
  (forall attempt ups, Forall (fun w => 250 <= w < 30000) (reconnects hash seed attempt ups)) /\
  (forall attempt t, STABLE_RESET <= t -> 250 <= snd (after_disconnect hash seed attempt (Some t)) < 500).
Proof.
  split; [|split].
  - intros attempt. apply backoff_range.
  - intros attempt ups. revert attempt. induction ups as [|up ups IH]; intros attempt; [constructor|].
    cbn [reconnects]. unfold after_disconnect. constructor; [apply backoff_bounds|apply IH].
  - intros attempt t Ht. unfold after_disconnect. rewrite (proj2 (Z.leb_le _ _) Ht).
    exact (backoff_range hash (wrap 0) seed).
Qed.

(** Terminal sizes handed to the PTY are always in [1..=65535]. *)
Lemma shell_size_positive p :
  1 <= bval (clamp_dim (sp_rows p) DEFAULT_ROWS) <= 65535 /\ 1 <= bval (clamp_dim (sp_cols p) DEFAULT_COLS) <= 65535.
Proof. split; apply clamp_dim_range; vm_compute; discriminate. Qed.
