(* ===== verification/Ip.v ===== *)
(** * IP address text (std::net::IpAddr), as the NetBox sink and the agent's inventory
    use it

    The standard library's address parser: decimal octets without leading zeros, hex
    groups of at most four digits, one [::], an embedded IPv4 tail. *)
From S2P Require Import Prelude Text.

(** An address by its value: 32 or 128 bits, the first octet the most significant. *)
Inductive IpAddr := V4 (n : Z) | V6 (n : Z).
#[global] Instance IpAddr_eq_dec : EqDecision IpAddr.
Proof. solve_decision. Defined.

(** A reader consumes a prefix of its input. *)
Abbreviation reader A := (string -> option (A * string)).

Definition read_given_char (c : ascii) : reader unit := fun s =>
  match s with String a s' => if decide (a = c) then Some (tt, s') else None | EmptyString => None end.

(** [char::to_digit]. *)
Definition digit36 (c : ascii) : Z :=
  let n := Z.of_N (N_of_ascii c) in
  if (48 <=? n) && (n <=? 57) then n - 48
  else if (97 <=? n) && (n <=? 122) then n - 87
  else if (65 <=? n) && (n <=? 90) then n - 55
  else 36.
Definition to_digit (radix : Z) (c : ascii) : option Z :=
  if digit36 c <? radix then Some (digit36 c) else None.

(** [read_number]: digits while there are any, at most [max_digits], below [bound]. *)
Fixpoint read_digits (radix bound : Z) (max_digits : nat) (count : nat) (acc : Z) (s : string) : option (Z * nat * string) :=
  match s with
  | EmptyString => Some (acc, count, s)
  | String c s' =>
      match to_digit radix c with
      | None => Some (acc, count, s)
      | Some d =>
          let acc := acc * radix + d in
          if bound <=? acc then None
          else if decide (max_digits < S count)%nat then None
          else read_digits radix bound max_digits (S count) acc s'
      end
  end.
Definition read_number (radix bound : Z) (max_digits : nat) (allow_zero_prefix : bool) : reader Z := fun s =>
  let leading_zero := match s with String c _ => bool_decide (c = "0"%char) | EmptyString => false end in
  match read_digits radix bound max_digits 0 0 s with
  | None => None
  | Some (n, count, r) =>
      if decide (count = 0%nat) then None
      else if negb allow_zero_prefix && leading_zero && bool_decide (1 < count)%nat then None
      else Some (n, r)
  end.

(** [read_separator]: the separator first, unless at index 0. *)
Definition read_separator {A} (sep : ascii) (index : nat) (inner : reader A) : reader A := fun s =>
  match index with
  | O => inner s
  | S _ => let! r := read_given_char sep s in inner r.2
  end.

Definition read_octet (index : nat) : reader Z := read_separator "." index (read_number 10 256 3 false).
Definition read_ipv4_addr : reader Z := fun s =>
  let! a := read_octet 0 s in
  let! b := read_octet 1 a.2 in
  let! c := read_octet 2 b.2 in
  let! d := read_octet 3 c.2 in
  Some (((a.1 * 256 + b.1) * 256 + c.1) * 256 + d.1, d.2).

(** [read_groups]: the groups read, whether the last two were an embedded IPv4 address,
    and the rest. *)
Fixpoint read_groups (limit index : nat) (s : string) : list Z * bool * string :=
  match limit with
  | O => ([], false, s)
  | S more =>
      match (if decide (0 < more)%nat then read_separator ":" index read_ipv4_addr s else None) with
      | Some (v, r) => ([v / 65536; v mod 65536], true, r)
      | None =>
          match read_separator ":" index (read_number 16 65536 4 true) s with
          | Some (g, r) => let '(gs, v4, r) := read_groups more (S index) r in (g :: gs, v4, r)
          | None => ([], false, s)
          end
      end
  end.

(** The value of eight groups. *)
Definition of_groups (gs : list Z) : Z := foldl (fun acc g => acc * 65536 + g) 0 gs.

Definition read_ipv6_addr : reader Z := fun s =>
  let '(head, head_ipv4, r) := read_groups 8 0 s in
  if decide (length head = 8%nat) then Some (of_groups head, r)
  else if (head_ipv4 : bool) then None
  else
    let! a := read_given_char ":" r in
    let! b := read_given_char ":" a.2 in
    let '(tail, _, r) := read_groups (8 - S (length head)) 0 b.2 in
    Some (of_groups (head ++ replicate (8 - length head - length tail) 0 ++ tail), r).

(** [str::parse::<IpAddr>]: the whole string. *)
Definition parse_ip (s : string) : option IpAddr :=
  match read_ipv4_addr s with
  | Some (n, EmptyString) => Some (V4 n)
  | Some (_, _) => None
  | None => match read_ipv6_addr s with
            | Some (n, EmptyString) => Some (V6 n)
            | _ => None
            end
  end.

(** [is_loopback]: 127.0.0.0/8, or ::1. *)
Definition is_loopback (a : IpAddr) : bool :=
  match a with V4 n => n / 2 ^ 24 =? 127 | V6 n => n =? 1 end.

(** The derived order: IPv4 before IPv6, then by octets, so by value. *)
Definition ip_le (a b : IpAddr) : Prop :=
  match a, b with
  | V4 m, V4 n | V6 m, V6 n => m <= n
  | V4 _, V6 _ => True
  | V6 _, V4 _ => False
  end.
#[global] Instance ip_le_dec a b : Decision (ip_le a b).
Proof. destruct a, b; simpl; apply _. Defined.

(** ** Lemmas *)

#[global] Instance ip_le_total : Total ip_le.
Proof. intros [m|m] [n|n]; simpl; auto; lia. Qed.
#[global] Instance ip_le_trans : Transitive ip_le.
Proof. intros [m|m] [n|n] [k|k]; simpl; auto; try done; lia. Qed.
#[global] Instance ip_le_antisym : AntiSymm (=) ip_le.
Proof. intros [m|m] [n|n]; simpl; try done; intros; f_equal; lia. Qed.

(** The characters an address is made of. *)
Definition ip_char (c : ascii) : bool :=
  bool_decide (is_Some (to_digit 16 c)) || bool_decide (c = "."%char) || bool_decide (c = ":"%char).

Definition takes (s r : string) : Prop := exists p, s = p +:+ r /\ all_chars ip_char p = true.
Definition reads {A} (f : reader A) : Prop := forall s a r, f s = Some (a, r) -> takes s r.

Lemma takes_refl s : takes s s.
Proof. by exists EmptyString. Qed.
Lemma takes_trans s r t : takes s r -> takes r t -> takes s t.
Proof.
  intros (p & -> & Hp) (q & -> & Hq). exists (p +:+ q). by rewrite append_assoc, all_chars_app, Hp, Hq.
Qed.
Lemma takes_cons c s : ip_char c = true -> takes (String c s) s.
Proof. intros Hc. exists (String c EmptyString). simpl. by rewrite Hc. Qed.

Lemma read_given_char_reads c : ip_char c = true -> reads (read_given_char c).
Proof. intros Hc [|a s] x r; simpl; [done|]. case_decide; [|done]. intros [= <- <-]. subst. by apply takes_cons. Qed.

Lemma to_digit_16 radix c d : (radix <= 16) -> to_digit radix c = Some d -> ip_char c = true.
Proof.
  intros Hr. unfold ip_char, to_digit. destruct (digit36 c <? radix) eqn:E; [|done]. intros _.
  bool_to_prop. rewrite (proj2 (Z.ltb_lt (digit36 c) 16)) by lia. by rewrite bool_decide_eq_true_2.
Qed.

Lemma read_digits_takes radix bound mx count acc s n k r :
  radix <= 16 -> read_digits radix bound mx count acc s = Some (n, k, r) -> takes s r.
Proof.
  intros Hr. revert count acc. induction s as [|c s IH]; intros count acc; simpl.
  { intros [= <- <- <-]. apply takes_refl. }
  destruct (to_digit radix c) as [d|] eqn:Ed; [|intros [= <- <- <-]; apply takes_refl].
  destruct (_ <=? _); [done|]. case_decide; [done|]. intros Hd%IH.
  eapply takes_trans; [|exact Hd]. apply takes_cons. by eapply to_digit_16.
Qed.

Lemma read_number_reads radix bound mx z : radix <= 16 -> reads (read_number radix bound mx z).
Proof.
  intros Hr s a r. unfold read_number. destruct (read_digits _ _ _ _ _ s) as [[[n k] t]|] eqn:E; [|done].
  case_decide; [done|]. destruct (_ && _); [done|]. intros [= <- <-]. by eapply read_digits_takes.
Qed.

Lemma read_separator_reads {A} c i (f : reader A) : ip_char c = true -> reads f -> reads (read_separator c i f).
Proof.
  intros Hc Hf s a r. destruct i; simpl; [apply Hf|].
  destruct (read_given_char c s) as [[[] t]|] eqn:E; [|done]. simpl. intros Ht%Hf.
  eapply takes_trans; [|exact Ht]. by eapply read_given_char_reads.
Qed.

Lemma read_ipv4_reads : reads read_ipv4_addr.
Proof.
  assert (forall i, reads (read_octet i)) as Ho by (intros i; apply read_separator_reads; [done|by apply read_number_reads]).
  intros s v r. unfold read_ipv4_addr.
  destruct (read_octet 0 s) as [[a r1]|] eqn:E1; [|done]. cbn [snd].
  destruct (read_octet 1 r1) as [[b r2]|] eqn:E2; [|done]. cbn [snd].
  destruct (read_octet 2 r2) as [[c r3]|] eqn:E3; [|done]. cbn [snd].
  destruct (read_octet 3 r3) as [[d r4]|] eqn:E4; [|done]. cbn [snd]. intros [= _ <-].
  apply Ho in E1, E2, E3, E4. eauto using takes_trans.
Qed.

Lemma read_groups_takes limit index s n b r : read_groups limit index s = (n, b, r) -> takes s r.
Proof.
  revert index s n. induction limit as [|more IH]; intros index s n; simpl.
  { intros [= <- <- <-]. apply takes_refl. }
  destruct (if decide (0 < more)%nat then read_separator ":" index read_ipv4_addr s else None) as [[v t]|] eqn:E.
  { intros [= <- <- <-]. destruct (decide _); [|done].
    eapply read_separator_reads; [|exact read_ipv4_reads|exact E]. done. }
  destruct (read_separator ":" index (read_number 16 65536 4 true) s) as [[g t]|] eqn:Eg;
    [|intros [= <- <- <-]; apply takes_refl].
  destruct (read_groups more (S index) t) as [[gs v4] u] eqn:Er. intros [= <- <- <-].
  eapply takes_trans; [|by eapply IH].
  eapply read_separator_reads; [|apply (read_number_reads 16 65536 4 true)|exact Eg]; done.
Qed.

Lemma read_ipv6_reads : reads read_ipv6_addr.
Proof.
  intros s v r. unfold read_ipv6_addr. destruct (read_groups 8 0 s) as [[n v4] r1] eqn:E1.
  apply read_groups_takes in E1. case_decide; [by intros [= _ <-]|]. destruct v4; [done|].
  destruct (read_given_char ":" r1) as [[[] r2]|] eqn:E2; [|done]. cbn [snd].
  destruct (read_given_char ":" r2) as [[[] r3]|] eqn:E3; [|done]. cbn [snd].
  destruct (read_groups _ 0 r3) as [[n' v4'] r4] eqn:E4. apply read_groups_takes in E4. intros [= _ <-].
  apply read_given_char_reads in E2; [|done]. apply read_given_char_reads in E3; [|done].
  eauto using takes_trans.
Qed.

(** A parsed address holds only digits, dots and colons. *)
Lemma parse_ip_chars s a : parse_ip s = Some a -> all_chars ip_char s = true.
Proof.
  assert (forall r, r = EmptyString -> takes s r -> all_chars ip_char s = true) as Hall.
  { intros r -> (p & -> & Hp). by rewrite all_chars_app, Hp. }
  unfold parse_ip. destruct (read_ipv4_addr s) as [[v r]|] eqn:E4.
  { apply read_ipv4_reads in E4. destruct r; [|done]. intros _. by eapply Hall. }
  destruct (read_ipv6_addr s) as [[v r]|] eqn:E6; [|done].
  apply read_ipv6_reads in E6. destruct r; [|done]. intros _. by eapply Hall.
Qed.

Lemma ip_no_char c s a : ip_char c = false -> parse_ip s = Some a -> has_char c s = false.
Proof.
  intros Hc Hp%parse_ip_chars. induction s as [|x s IH]; [done|]. simpl in *. bool_to_prop.
  rewrite bool_decide_eq_false_2 by congruence. auto.
Qed.

(** The parser on the forms the program meets. *)
Lemma parse_ip_examples :
  parse_ip "192.0.2.5" = Some (V4 0xC0000205) /\ parse_ip "192.0.02.5" = None /\ parse_ip "256.0.0.1" = None /\
  parse_ip "2001:db8::1" = Some (V6 0x20010db8000000000000000000000001) /\ parse_ip "::" = Some (V6 0) /\
  parse_ip "::ffff:192.0.2.5" = Some (V6 0xffffc0000205) /\ parse_ip "::1" = Some (V6 1) /\
  parse_ip "1:2:3:4:5:6:7:8" = Some (V6 0x00010002000300040005000600070008) /\
  parse_ip "1:2:3:4:5:6:7" = None /\ parse_ip "12345::" = None /\
  parse_ip "fe80::1%eth0" = None /\ parse_ip "" = None.
Proof. vm_compute. repeat split. Qed.
