(* ===== verification/IpText.v ===== *)
(** * The text of an IP address (std::net, [Display] of [IpAddr])

    How the agent prints the addresses it collected: dotted octets, or hex groups with the
    first longest run of zero groups written [::] and IPv4-mapped addresses with a dotted
    tail.  The parser of file Ip reads every printed address back. *)
From Stdlib Require Import Strings.Byte.
From S2P Require Import Prelude Text Ip.

(** ** Numbers and groups *)

(** [{:x}] of a [u16]: at most four digits. *)
Definition hex_char (d : Z) : ascii := ascii_of_N (Z.to_N (if d <? 10 then 48 + d else 87 + d)).
Fixpoint hex_go (fuel : nat) (n : Z) : string :=
  match fuel with
  | O => EmptyString
  | S f => if n <? 16 then String (hex_char n) EmptyString
           else hex_go f (n / 16) +:+ String (hex_char (n mod 16)) EmptyString
  end.
Definition u16_hex (n : Z) : string := hex_go 4 n.

(** [segments]: the eight groups of 16 bits, the most significant first. *)
Fixpoint segments (k : nat) (n : Z) : list Z :=
  match k with O => [] | S k => segments k (n / 65536) ++ [n mod 65536] end.

(** ** Display *)

Definition ipv4_to_string (n : Z) : string :=
  to_dec (n / 2 ^ 24) +:+ "." +:+ to_dec (n / 2 ^ 16 mod 256) +:+ "." +:+ to_dec (n / 2 ^ 8 mod 256) +:+ "." +:+ to_dec (n mod 256).

(** The spans the scan keeps: the run it is in, and the longest so far. *)
Record Span := mkSpan { sp_start : nat; sp_len : nat }.
Fixpoint zero_spans (i : nat) (gs : list Z) (longest current : Span) : Span :=
  match gs with
  | [] => longest
  | g :: gs =>
      if g =? 0 then
        let current := mkSpan (if decide (sp_len current = 0%nat) then i else sp_start current) (S (sp_len current)) in
        zero_spans (S i) gs (if decide (sp_len longest < sp_len current)%nat then current else longest) current
      else zero_spans (S i) gs longest (mkSpan 0 0)
  end.

(** [fmt_subslice]: the groups in hex, separated by colons. *)
Fixpoint more_groups (gs : list Z) : string :=
  match gs with [] => EmptyString | g :: gs => String ":" (u16_hex g +:+ more_groups gs) end.
Definition fmt_subslice (gs : list Z) : string :=
  match gs with [] => EmptyString | g :: gs => u16_hex g +:+ more_groups gs end.

Definition ipv6_to_string (n : Z) : string :=
  if n / 2 ^ 32 =? 65535 then "::ffff:" +:+ ipv4_to_string (n mod 2 ^ 32)
  else
    let gs := segments 8 n in
    let zeroes := zero_spans 0 gs (mkSpan 0 0) (mkSpan 0 0) in
    if decide (1 < sp_len zeroes)%nat
    then fmt_subslice (take (sp_start zeroes) gs) +:+ "::" +:+ fmt_subslice (drop (sp_start zeroes + sp_len zeroes) gs)
    else fmt_subslice gs.

Definition ip_to_string (a : IpAddr) : string :=
  match a with V4 n => ipv4_to_string n | V6 n => ipv6_to_string n end.

(** The values an address has. *)
Definition ip_valid (a : IpAddr) : Prop :=
  match a with V4 n => 0 <= n < 2 ^ 32 | V6 n => 0 <= n < 2 ^ 128 end.

(** ** Lemmas: reading numbers back *)

(** A character that ends a number. *)
Definition ends (radix : Z) (r : string) : Prop := match r with EmptyString => True | String c _ => to_digit radix c = None end.

Lemma read_digits_app radix bound mx count acc s n k r :
  read_digits radix bound mx count acc s = Some (n, k, EmptyString) -> ends radix r ->
  read_digits radix bound mx count acc (s +:+ r) = Some (n, k, r).
Proof.
  intros Hs Hr. revert count acc Hs. induction s as [|c s IH]; intros count acc; cbn [read_digits].
  - intros [= -> ->]. rewrite append_nil_l. destruct r as [|c r]; [done|]. simpl in Hr |- *. by rewrite Hr.
  - rewrite append_cons. cbn [read_digits]. destruct (to_digit radix c); [|discriminate].
    destruct (bound <=? _); [done|]. destruct (decide _); [done|]. apply IH.
Qed.

Lemma read_number_app radix bound mx z s n r :
  read_number radix bound mx z s = Some (n, EmptyString) -> ends radix r -> s <> EmptyString ->
  read_number radix bound mx z (s +:+ r) = Some (n, r).
Proof.
  unfold read_number. destruct (read_digits radix bound mx 0 0 s) as [[[m k] t]|] eqn:E; [|done].
  intros Hn Hr Hs. destruct s as [|c s]; [done|]. case_decide; [done|].
  destruct (_ && _) eqn:Ez; [done|]. injection Hn as -> ->. rewrite (read_digits_app _ _ _ _ _ _ _ _ _ E Hr).
  rewrite append_cons, decide_False by done. by rewrite Ez.
Qed.

(** The numbers an address holds, each printed and read back. *)
Definition below (bound : nat) : list Z := Z.of_nat <$> seq 0 bound.
Lemma elem_of_below bound n : 0 <= n < Z.of_nat bound -> n ∈ below bound.
Proof. intros Hn. apply list_elem_of_fmap. exists (Z.to_nat n). rewrite elem_of_seq. lia. Qed.

Definition octet_ok (n : Z) : bool :=
  bool_decide (read_number 10 256 3 false (to_dec n) = Some (n, EmptyString)) && negb (is_empty (to_dec n)).
Lemma octets_ok : forallb octet_ok (below 256) = true.
Proof. vm_compute. reflexivity. Qed.

Lemma read_octet_text n r : 0 <= n < 256 -> ends 10 r -> read_number 10 256 3 false (to_dec n +:+ r) = Some (n, r).
Proof.
  intros Hn Hr. pose proof octets_ok as Ho. rewrite forallb_forall in Ho.
  specialize (Ho n (proj1 (list_elem_of_In _ _) (elem_of_below 256 n ltac:(lia)))).
  apply andb_true_iff in Ho as [Ho%bool_decide_eq_true Hne]. apply read_number_app; [done|done|]. intros E. by rewrite E in Hne.
Qed.

Lemma hex_digit_ok : forallb (fun d => bool_decide (to_digit 16 (hex_char d) = Some d) && negb (bool_decide (hex_char d = "."%char))) (below 16) = true.
Proof. vm_compute. reflexivity. Qed.
Lemma hex_char_digit d : 0 <= d < 16 -> to_digit 16 (hex_char d) = Some d /\ hex_char d <> "."%char.
Proof.
  intros Hd. pose proof hex_digit_ok as Ho. rewrite forallb_forall in Ho.
  specialize (Ho d (proj1 (list_elem_of_In _ _) (elem_of_below 16 d ltac:(lia)))).
  apply andb_true_iff in Ho as [Ho%bool_decide_eq_true Hne%negb_true_iff%bool_decide_eq_false]. done.
Qed.

(** The digits of [n] are read as [n], after what was read before them. *)
Lemma read_hex_go f n : 0 <= n < 16 ^ Z.of_nat f -> (0 < f)%nat ->
  has_char "." (hex_go f n) = false /\
  exists k, (1 <= k <= f)%nat /\ forall bound mx count acc r, 0 <= acc -> acc * 16 ^ Z.of_nat k + n < bound -> (count + k <= mx)%nat ->
    read_digits 16 bound mx count acc (hex_go f n +:+ r) = read_digits 16 bound mx (count + k) (acc * 16 ^ Z.of_nat k + n) r.
Proof.
  revert n. induction f as [|f IH]; intros n Hn Hf; [lia|]. cbn [hex_go]. destruct (Z.ltb_spec n 16) as [Hs|Hs].
  - destruct (hex_char_digit n) as [Hd Hp]; [lia|]. split; [simpl; by rewrite bool_decide_eq_false_2|].
    exists 1%nat. split; [lia|]. intros bound mx count acc r Ha Hb Hc. rewrite append_cons, append_nil_l. cbn [read_digits]. rewrite Hd.
    rewrite Z.pow_1_r in Hb |- *. rewrite (proj2 (Z.leb_gt _ _)), decide_False by lia. by replace (count + 1)%nat with (S count) by lia.
  - rewrite Nat2Z.inj_succ, Z.pow_succ_r in Hn by lia. destruct f as [|f]; [simpl in Hn; lia|].
    pose proof (Z.div_mod n 16 ltac:(lia)) as Hdm. pose proof (Z.mod_pos_bound n 16 ltac:(lia)) as Hm.
    destruct (IH (n / 16)) as [Hdot (k & Hk & Hread)]; [split; [apply Z.div_pos; lia|apply Z.div_lt_upper_bound; lia]|lia|].
    destruct (hex_char_digit (n mod 16)) as [Hd Hp]; [lia|]. split.
    { rewrite has_char_app, Hdot. simpl. by rewrite bool_decide_eq_false_2. }
    exists (S k). split; [lia|]. intros bound mx count acc r Ha Hb Hc. rewrite Nat2Z.inj_succ, Z.pow_succ_r in Hb |- * by lia.
    pose proof (Z.pow_pos_nonneg 16 (Z.of_nat k) ltac:(lia) ltac:(lia)). rewrite append_assoc, Hread by nia.
    rewrite append_cons, append_nil_l. cbn [read_digits]. rewrite Hd, (proj2 (Z.leb_gt _ _)), decide_False by nia.
    replace (S (count + k)) with (count + S k)%nat by lia. f_equal. nia.
Qed.

Lemma read_group_text n r : 0 <= n < 65536 -> ends 16 r -> read_number 16 65536 4 true (u16_hex n +:+ r) = Some (n, r).
Proof.
  intros Hn Hr. destruct (read_hex_go 4 n) as [_ (k & Hk & Hread)]; [done|lia|]. unfold read_number, u16_hex.
  rewrite Hread by lia. replace (0 * 16 ^ Z.of_nat k + n) with n by lia. simpl Nat.add.
  assert (read_digits 16 65536 4 k n r = Some (n, k, r)) as ->. { destruct r; [done|]. simpl in Hr |- *. by rewrite Hr. }
  by rewrite decide_False by lia.
Qed.
Lemma u16_hex_no_dot n : 0 <= n < 65536 -> has_char "." (u16_hex n) = false.
Proof. intros Hn. apply read_hex_go; [done|lia]. Qed.

(** ** Lemmas: IPv4 *)

Lemma append_nil_r s : s +:+ EmptyString = s.
Proof. induction s as [|c s IH]; [done|]. by rewrite append_cons, IH. Qed.
Lemma append_char c s : String c EmptyString +:+ s = String c s.
Proof. by rewrite append_cons, append_nil_l. Qed.

Lemma read_ipv4_text n r : 0 <= n < 2 ^ 32 -> ends 10 r -> read_ipv4_addr (ipv4_to_string n +:+ r) = Some (n, r).
Proof.
  intros Hn Hr. unfold ipv4_to_string, read_ipv4_addr, read_octet, read_separator.
  change (2 ^ 32) with 4294967296 in Hn. change (2 ^ 24) with 16777216. change (2 ^ 16) with 65536. change (2 ^ 8) with 256.
  rewrite !append_assoc, !append_char. assert (forall s, ends 10 (String "." s)) as Hdot by done.
  assert (forall s, read_given_char "." (String "." s) = Some (tt, s)) as Hsep by done.
  rewrite read_octet_text by (done || (split; [apply Z.div_pos; lia|apply Z.div_lt_upper_bound; lia])). cbn [snd fst]. rewrite Hsep. cbn [snd].
  rewrite read_octet_text by (done || (apply Z.mod_pos_bound; lia)). cbn [snd fst]. rewrite Hsep. cbn [snd].
  rewrite read_octet_text by (done || (apply Z.mod_pos_bound; lia)). cbn [snd fst]. rewrite Hsep. cbn [snd].
  rewrite read_octet_text by (done || (apply Z.mod_pos_bound; lia)). cbn [snd fst]. do 2 f_equal.
  pose proof (Z.div_mod n 256 ltac:(lia)). pose proof (Z.div_mod (n / 256) 256 ltac:(lia)). pose proof (Z.div_mod (n / 65536) 256 ltac:(lia)).
  replace 65536 with (256 * 256) in * by lia. replace 16777216 with (256 * 256 * 256) in * by lia. rewrite <- !Z.div_div in * by lia. lia.
Qed.

(** Without a dot there is no IPv4 address to read. *)
Lemma read_ipv4_no_dot s : has_char "." s = false -> read_ipv4_addr s = None.
Proof.
  intros Hs. unfold read_ipv4_addr, read_octet, read_separator. destruct (read_number 10 256 3 false s) as [[a r]|] eqn:E; [|done]. cbn [snd].
  destruct (read_number_reads 10 256 3 false ltac:(lia) s a r E) as (p & -> & _). rewrite has_char_app in Hs. apply orb_false_iff in Hs as [_ Hs].
  destruct r as [|c r]; [done|]. simpl in Hs. apply orb_false_iff in Hs as [Hc%bool_decide_eq_false _]. cbn [read_given_char]. by rewrite decide_False.
Qed.

(** ** Lemmas: IPv6 groups *)

Definition is_group (g : Z) : Prop := 0 <= g < 65536.

(** What may follow groups: nothing, or the gap. *)
Definition gap_or_end (r : string) : Prop := r = EmptyString \/ exists r', r = "::" +:+ r'.

Lemma more_groups_ends gs r : gap_or_end r -> ends 16 (more_groups gs +:+ r).
Proof. intros [->|[r' ->]]; by destruct gs. Qed.
Lemma more_groups_no_dot gs : Forall is_group gs -> has_char "." (more_groups gs) = false.
Proof.
  induction 1 as [|g gs Hg _ IH]; [done|]. cbn [more_groups has_char]. rewrite has_char_app, (u16_hex_no_dot g Hg), IH. done.
Qed.

Lemma read_colon s : read_given_char ":" (String ":" s) = Some (tt, s).
Proof. done. Qed.

(** At the gap, or at the end, no further group is read. *)
Lemma read_groups_stop limit i r : gap_or_end r -> has_char "." r = false -> read_groups limit i r = ([], false, r).
Proof.
  intros Hr Hd. destruct limit as [|more]; [done|]. cbn [read_groups].
  assert (read_separator ":" i read_ipv4_addr r = None) as Hv.
  { destruct i; cbn [read_separator]; [by apply read_ipv4_no_dot|]. destruct r as [|c r]; [done|]. cbn [read_given_char].
    case_decide; [|done]. cbn [snd]. apply read_ipv4_no_dot. simpl in Hd. by apply orb_false_iff in Hd as [_ ?]. }
  rewrite Hv. assert (read_separator ":" i (read_number 16 65536 4 true) r = None) as ->.
  { destruct Hr as [->|[r' ->]]; destruct i; done. }
  by destruct (decide _).
Qed.

Lemma read_more_groups gs limit i r :
  Forall is_group gs -> (length gs <= limit)%nat -> gap_or_end r -> has_char "." r = false ->
  read_groups limit (S i) (more_groups gs +:+ r) = (gs, false, r).
Proof.
  intros Hgs. revert limit i. induction Hgs as [|g gs Hg Hgs IH]; intros limit i Hl Hr Hd; [by apply read_groups_stop|].
  simpl in Hl. destruct limit as [|more]; [lia|]. cbn [read_groups more_groups read_separator]. rewrite append_cons, append_assoc.
  rewrite read_colon. cbn [snd]. rewrite read_ipv4_no_dot by (rewrite !has_char_app, (u16_hex_no_dot g Hg), more_groups_no_dot, Hd; done).
  rewrite (read_group_text g _ Hg) by (by apply more_groups_ends). rewrite IH by (done || lia). by destruct (decide _).
Qed.

Lemma read_subslice gs limit r :
  Forall is_group gs -> (length gs <= limit)%nat -> gap_or_end r -> has_char "." r = false ->
  read_groups limit 0 (fmt_subslice gs +:+ r) = (gs, false, r).
Proof.
  intros Hgs Hl Hr Hd. destruct Hgs as [|g gs Hg Hgs]; [by apply read_groups_stop|]. simpl in Hl. destruct limit as [|more]; [lia|].
  cbn [read_groups fmt_subslice read_separator]. rewrite append_assoc.
  rewrite read_ipv4_no_dot by (rewrite !has_char_app, (u16_hex_no_dot g Hg), more_groups_no_dot, Hd; done).
  rewrite (read_group_text g _ Hg) by (by apply more_groups_ends). rewrite read_more_groups by (done || lia). by destruct (decide _).
Qed.

Lemma fmt_subslice_no_dot gs : Forall is_group gs -> has_char "." (fmt_subslice gs) = false.
Proof. intros [|g gs' Hg Hgs]; [done|]. cbn [fmt_subslice]. by rewrite has_char_app, (u16_hex_no_dot g Hg), more_groups_no_dot. Qed.

(** ** Lemmas: the value of groups, and the zero run *)

Lemma segments_spec k n : 0 <= n < 65536 ^ Z.of_nat k -> of_groups (segments k n) = n /\ length (segments k n) = k /\ Forall is_group (segments k n).
Proof.
  revert n. induction k as [|k IH]; intros n Hn; cbn [segments]; [change (65536 ^ Z.of_nat 0) with 1 in Hn; split; [unfold of_groups; cbn [foldl]; lia|done]|].
  rewrite Nat2Z.inj_succ, Z.pow_succ_r in Hn by lia.
  destruct (IH (n / 65536)) as (Ho & Hl & Hg); [split; [apply Z.div_pos; lia|apply Z.div_lt_upper_bound; lia]|].
  unfold of_groups in *. rewrite foldl_app, Ho, length_app, Hl. cbn [foldl length].
  split; [rewrite (Z.div_mod n 65536) at 3 by lia; lia|]. split; [lia|].
  apply Forall_app. split; [done|]. constructor; [apply Z.mod_pos_bound; lia|done].
Qed.

(** A span of zero groups of [gs]. *)
Definition zero_span (gs : list Z) (sp : Span) : Prop := exists rest, drop (sp_start sp) gs = replicate (sp_len sp) 0 ++ rest.

Lemma zero_span_empty gs : zero_span gs (mkSpan 0 0).
Proof. by exists gs. Qed.

(** The current run ends where the scan stands. *)
Lemma zero_spans_spec gs : forall all i longest current,
  drop i all = gs -> zero_span all longest ->
  (sp_len current = 0%nat \/ (sp_start current + sp_len current = i)%nat /\ drop (sp_start current) all = replicate (sp_len current) 0 ++ drop i all) ->
  zero_span all (zero_spans i gs longest current).
Proof.
  induction gs as [|g gs IH]; intros all i longest current Hd Hl Hc; cbn [zero_spans]; [done|].
  assert (drop (S i) all = gs) as Hd' by (rewrite <- Nat.add_1_r, <- drop_drop, Hd; done).
  destruct (Z.eqb_spec g 0) as [->|Hg]; [|apply IH; [done|done|by left]].
  set (start := if decide (sp_len current = 0%nat) then i else sp_start current).
  assert ((start + S (sp_len current) = S i)%nat /\ drop start all = replicate (S (sp_len current)) 0 ++ drop (S i) all) as [Hs Hrun].
  { unfold start. rewrite Hd'. case_decide as E.
    - rewrite E. split; [lia|]. by rewrite Hd.
    - destruct Hc as [|[He Hrun]]; [done|]. split; [lia|]. rewrite Hrun, Hd, replicate_S_end, <- app_assoc. done. }
  apply IH; [done| |right; simpl; split; [lia|done]].
  case_decide; [|done]. exists (drop (S i) all). exact Hrun.
Qed.

(** ** Properties *)

Lemma parse_ipv6_text s n : read_ipv4_addr s = None -> read_ipv6_addr s = Some (n, EmptyString) -> parse_ip s = Some (V6 n).
Proof. intros Hv4 Hv6. unfold parse_ip. by rewrite Hv4, Hv6. Qed.

Lemma parse_mapped n : n / 2 ^ 32 = 65535 -> parse_ip ("::ffff:" +:+ ipv4_to_string (n mod 2 ^ 32)) = Some (V6 n).
Proof.
  intros Hn. pose proof (Z.mod_pos_bound n (2 ^ 32) ltac:(lia)) as Hm. set (v := n mod 2 ^ 32) in *.
  apply parse_ipv6_text; [done|]. pose proof (read_ipv4_text v EmptyString Hm I) as Hv. rewrite append_nil_r in Hv.
  change ("::ffff:" +:+ ipv4_to_string v) with (String ":" (String ":" (u16_hex 65535 +:+ String ":" (ipv4_to_string v)))).
  unfold read_ipv6_addr. change (read_groups 8 0 _) with ([] : list Z, false, String ":" (String ":" (u16_hex 65535 +:+ String ":" (ipv4_to_string v)))).
  cbn [length]. rewrite decide_False by done. rewrite read_colon. cbn [snd]. rewrite read_colon. cbn [snd Nat.sub].
  assert (read_groups 7 0 (u16_hex 65535 +:+ String ":" (ipv4_to_string v)) = ([65535; v / 65536; v mod 65536], true, EmptyString)) as ->.
  { change (read_groups 7 0 ?s) with
      (match read_number 16 65536 4 true s with Some (g, r) => let '(gs, v4, r) := read_groups 6 1 r in (g :: gs, v4, r) | None => ([], false, s) end).
    rewrite read_group_text by done. cbn [read_groups]. rewrite decide_True by lia. cbn [read_separator]. rewrite read_colon. cbn [snd]. by rewrite Hv. }
  do 2 f_equal. cbn [length Nat.sub replicate app]. unfold of_groups. cbn [foldl].
  pose proof (Z.div_mod v 65536 ltac:(lia)). pose proof (Z.div_mod n (2 ^ 32) ltac:(lia)). unfold v in *. rewrite Hn in *. lia.
Qed.

Lemma parse_groups n : n / 2 ^ 32 <> 65535 -> 0 <= n < 2 ^ 128 -> parse_ip (ipv6_to_string n) = Some (V6 n).
Proof.
  intros Hn Hv. unfold ipv6_to_string. rewrite (proj2 (Z.eqb_neq _ _) Hn). destruct (segments_spec 8 n Hv) as (Ho & Hl & Hg).
  set (gs := segments 8 n) in *. destruct (zero_spans_spec gs gs 0 (mkSpan 0 0) (mkSpan 0 0)) as [rest Hz]; [done|apply zero_span_empty|by left|].
  set (sp := zero_spans 0 gs _ _) in *. destruct (decide (1 < sp_len sp)%nat) as [Hlen|Hlen].
  - assert (gs = take (sp_start sp) gs ++ replicate (sp_len sp) 0 ++ drop (sp_start sp + sp_len sp) gs) as Hgs.
    { rewrite <- (take_drop (sp_start sp) gs) at 1. f_equal. rewrite Hz at 1. f_equal.
      rewrite <- drop_drop, Hz, drop_app_length'; [done|by rewrite length_replicate]. }
    set (head := take (sp_start sp) gs) in *. set (tail := drop (sp_start sp + sp_len sp) gs) in *.
    assert (Forall is_group head /\ Forall is_group tail) as [Hh Ht] by (split; [by apply Forall_take|by apply Forall_drop]).
    assert (length head + sp_len sp + length tail = 8)%nat as Hsum by (rewrite <- Hl, Hgs at 1; rewrite !length_app, length_replicate; lia).
    assert (gap_or_end ("::" +:+ fmt_subslice tail)) as Hgap by (right; eauto).
    assert (has_char "." ("::" +:+ fmt_subslice tail) = false) as Hdot by (rewrite has_char_app, fmt_subslice_no_dot; done).
    apply parse_ipv6_text; [apply read_ipv4_no_dot; by rewrite has_char_app, fmt_subslice_no_dot, Hdot|].
    unfold read_ipv6_addr. rewrite read_subslice by (done || lia). rewrite decide_False by lia.
    change ("::" +:+ fmt_subslice tail) with (String ":" (String ":" (fmt_subslice tail))). rewrite read_colon. cbn [snd]. rewrite read_colon. cbn [snd].
    rewrite <- (append_nil_r (fmt_subslice tail)), read_subslice by (done || lia || by left).
    do 2 f_equal. rewrite <- Ho, Hgs. do 2 f_equal. f_equal. f_equal. lia.
  - apply parse_ipv6_text; [by apply read_ipv4_no_dot, fmt_subslice_no_dot|]. unfold read_ipv6_addr.
    rewrite <- (append_nil_r (fmt_subslice gs)), read_subslice by (done || lia || by left). by rewrite decide_True, Ho.
Qed.

(** Every address an inventory prints is read back as the same address. *)
Theorem parse_ip_to_string a : ip_valid a -> parse_ip (ip_to_string a) = Some a.
Proof.
  destruct a as [n|n]; simpl; intros Hn.
  - unfold parse_ip. by rewrite <- (append_nil_r (ipv4_to_string n)), read_ipv4_text.
  - destruct (decide (n / 2 ^ 32 = 65535)) as [E|E]; [|by apply parse_groups].
    unfold ipv6_to_string. rewrite (proj2 (Z.eqb_eq _ _) E). by apply parse_mapped.
Qed.

Lemma ip_text_examples :
  ip_to_string (V4 0xC0000205) = "192.0.2.5" /\ ip_to_string (V6 0) = "::" /\ ip_to_string (V6 1) = "::1" /\
  ip_to_string (V6 0x20010db8000000000000000000000001) = "2001:db8::1" /\ ip_to_string (V6 0xffffc0000205) = "::ffff:192.0.2.5" /\
  ip_to_string (V6 0x20010db8000000010001000100010001) = "2001:db8:0:1:1:1:1:1" /\
  ip_to_string (V6 0x20010000000000010000000000000001) = "2001:0:0:1::1" /\
  ip_to_string (V6 0x20010db8000000000001000000000001) = "2001:db8::1:0:0:1".
Proof. vm_compute. repeat split. Qed.
