(* ===== verification/Netbox.v ===== *)
(** * The NetBox inventory sink (osa-coordinator/src/netbox.rs)

    Matching a host's snapshot to a device by serial, the reconciliation of interfaces
    and addresses, retries of transient failures, and the content-hash dedup.  NetBox
    itself is an interface ([NetboxDevices]); every call is recorded with its result,
    and may fail before or after it took effect. *)
From Stdlib Require Import Strings.Byte.
From S2P Require Import Prelude Proto Concrete Text Ip Seal Registries.

(** NetBox's row ids ([i64]).  The sink only compares them, so their width plays no part. *)
Abbreviation NbId := Z.

Definition CF_HOST_ID : string := "osa_host_id".
Definition MAX_TRANSIENT_RETRIES : nat := 3.

Definition is_transient (e : PortError) : bool :=
  match e with Backend _ | Transport _ => true | _ => false end.

Record DeviceRef := mkDeviceRef { dev_id : NbId; dev_host_id : option string }.
Inductive SerialMatch := MatchNone | MatchOne (d : DeviceRef) | MatchMany (count : nat).
Record NbIp := mkNbIp { ip_id : NbId; ip_address : string }.
Record NbInterface := mkNbInterface { if_id : NbId; if_name : string; if_ips : list NbIp }.

Inductive UpsertOutcome :=
| Updated | Unchanged | Unmatched | SkippedNoSerial | AmbiguousMatch (count : nat) | HostCollision.
#[global] Instance UpsertOutcome_eq_dec : EqDecision UpsertOutcome.
Proof. solve_decision. Defined.

(** The operations of NetBox the sink uses, as effects on its state. *)
Class NetboxDevices (N : Type) := {
  nb_match_by_serial : string -> N -> SerialMatch;
  nb_read_interfaces : NbId -> N -> list NbInterface;
  nb_create_interface : NbId -> string -> N -> N * NbId;
  nb_delete_interface : NbId -> N -> N;
  nb_create_ip : NbId -> string -> N -> N * NbId;
  nb_move_ip : NbId -> NbId -> N -> N;
  nb_delete_ip : NbId -> N -> N;
  nb_finalize_device : NbId -> option NbId -> option NbId -> string -> N -> N
}.

(** ** Calls *)

(** How a call ends: it succeeds, fails without effect, or takes effect with the reply
    lost. *)
Inductive NbFault := NbOk | NbNotSent (e : PortError) | NbReplyLost (e : PortError).

(** A recorded call, with what the sink saw. *)
Inductive NbCall :=
| CMatch (serial : string) (r : result SerialMatch PortError)
| CRead (device : NbId) (r : result (list NbInterface) PortError)
| CCreateInterface (device : NbId) (name : string) (r : result NbId PortError)
| CDeleteInterface (id : NbId) (r : result unit PortError)
| CCreateIp (iface : NbId) (address : string) (r : result NbId PortError)
| CMoveIp (id iface : NbId) (r : result unit PortError)
| CDeleteIp (id : NbId) (r : result unit PortError)
| CFinalize (device : NbId) (p4 p6 : option NbId) (host_id : string) (r : result unit PortError).

(** The requests of the port, by the type of their reply: what each does to NetBox, and how
    it is recorded. *)
Inductive Req : Type -> Type :=
| RMatch (serial : string) : Req SerialMatch
| RRead (device : NbId) : Req (list NbInterface)
| RCreateInterface (device : NbId) (name : string) : Req NbId
| RDeleteInterface (id : NbId) : Req unit
| RCreateIp (iface : NbId) (address : string) : Req NbId
| RMoveIp (id iface : NbId) : Req unit
| RDeleteIp (id : NbId) : Req unit
| RFinalize (device : NbId) (p4 p6 : option NbId) (host_id : string) : Req unit.

Definition perform {N} `{NetboxDevices N} {X} (q : Req X) : N -> N * X :=
  match q with
  | RMatch serial => fun n => (n, nb_match_by_serial serial n)
  | RRead d => fun n => (n, nb_read_interfaces d n)
  | RCreateInterface d name => nb_create_interface d name
  | RDeleteInterface id => fun n => (nb_delete_interface id n, tt)
  | RCreateIp iface address => nb_create_ip iface address
  | RMoveIp id iface => fun n => (nb_move_ip id iface n, tt)
  | RDeleteIp id => fun n => (nb_delete_ip id n, tt)
  | RFinalize d p4 p6 host_id => fun n => (nb_finalize_device d p4 p6 host_id n, tt)
  end.
Definition record_call {X} (q : Req X) : result X PortError -> NbCall :=
  match q with
  | RMatch serial => CMatch serial
  | RRead d => CRead d
  | RCreateInterface d name => CCreateInterface d name
  | RDeleteInterface id => CDeleteInterface id
  | RCreateIp iface address => CCreateIp iface address
  | RMoveIp id iface => CMoveIp id iface
  | RDeleteIp id => CDeleteIp id
  | RFinalize d p4 p6 host_id => CFinalize d p4 p6 host_id
  end.

(** Code that calls NetBox and returns early on an error ([?]). *)
Class NbMonad (M : Type -> Type) := {
  nb_ret : forall {A : Type}, A -> M A;
  nb_bind : forall {A B : Type}, M A -> (A -> M B) -> M B;
  nb_call : forall {X : Type}, Req X -> M X
}.
Notation "'let*' x ':=' m 'in' k" := (nb_bind m (fun x => k))
  (at level 10, x pattern, m at level 200, k at level 200) : osa_scope.

Fixpoint for_each {M} `{NbMonad M} {A} (l : list A) (f : A -> M unit) : M unit :=
  match l with [] => nb_ret tt | x :: l => let* _ := f x in for_each l f end.

(** NetBox, the faults still to come, and the calls made. *)
Record World (N : Type) := mkWorld { w_nb : N; w_faults : list NbFault; w_calls : list NbCall }.
Arguments mkWorld {N}.
Arguments w_nb {N} w.
Arguments w_faults {N} w.
Arguments w_calls {N} w.

Section Monad.
Context {N : Type}.
Definition NB (A : Type) : Type := World N -> World N * result A PortError.
Definition nret {A} (a : A) : NB A := fun w => (w, Ok a).
Definition nbind {A B} (m : NB A) (k : A -> NB B) : NB B := fun w =>
  match m w with (w, Ok a) => k a w | (w, Err e) => (w, Err e) end.

(** One call: [record] turns its result into the recorded call. *)
Definition answer {A} (f : NbFault) (effect : N -> N * A) (n : N) : N * result A PortError :=
  match f with
  | NbOk => let '(n, a) := effect n in (n, Ok a)
  | NbNotSent e => (n, Err e)
  | NbReplyLost e => (fst (effect n), Err e)
  end.
Definition call {A} (effect : N -> N * A) (record : result A PortError -> NbCall) : NB A := fun w =>
  let '(f, fs) := match w_faults w with f :: fs => (f, fs) | [] => (NbOk, []) end in
  let '(nb, r) := answer f effect (w_nb w) in
  (mkWorld nb fs (w_calls w ++ [record r]), r).
End Monad.
Arguments NB N A : clear implicits.

#[global] Instance NB_monad {N} `{NetboxDevices N} : NbMonad (NB N) := {|
  nb_ret A := nret;
  nb_bind A B := nbind;
  nb_call X q := call (perform q) (record_call q)
|}.

(** ** Addresses *)

Definition to_cidr (ip : string) : option string :=
  match parse_ip ip with
  | Some (V4 _) => Some (ip +:+ "/32")
  | Some (V6 _) => Some (ip +:+ "/128")
  | None => None
  end.

(** [cidr.split('/').next()] is always some piece. *)
Definition is_ipv4_cidr (cidr : string) : bool :=
  match split_on "/" cidr with
  | a :: _ => match parse_ip a with Some (V4 _) => true | _ => false end
  | [] => false
  end.

(** ** The sink *)

Section Sink.
Context `{Crypto} `{UuidLib} {M : Type -> Type} `{NbMonad M}.

Definition match_by_serial (serial : string) : M SerialMatch := nb_call (RMatch serial).
Definition read_interfaces (d : NbId) : M (list NbInterface) := nb_call (RRead d).
Definition create_interface (d : NbId) (name : string) : M NbId := nb_call (RCreateInterface d name).
Definition delete_interface (id : NbId) : M unit := nb_call (RDeleteInterface id).
Definition create_ip (iface : NbId) (address : string) : M NbId := nb_call (RCreateIp iface address).
Definition move_ip (id iface : NbId) : M unit := nb_call (RMoveIp id iface).
Definition delete_ip (id : NbId) : M unit := nb_call (RDeleteIp id).
Definition finalize_device (d : NbId) (p4 p6 : option NbId) (host_id : string) : M unit := nb_call (RFinalize d p4 p6 host_id).

(** What phases 1 and 2 accumulate. *)
Record Acc := mkAcc { acc_p4 : option NbId; acc_p6 : option NbId; acc_kept : gset NbId }.

Definition get_or_insert (o : option NbId) (x : NbId) : option NbId := match o with Some y => Some y | None => Some x end.

Definition keep_ip (acc : Acc) (id : NbId) (cidr : string) : Acc :=
  if is_ipv4_cidr cidr
  then mkAcc (get_or_insert (acc_p4 acc) id) (acc_p6 acc) ({[id]} ∪ acc_kept acc)
  else mkAcc (acc_p4 acc) (get_or_insert (acc_p6 acc) id) ({[id]} ∪ acc_kept acc).

(** The addresses of one observed interface. *)
Fixpoint sync_ips (existing : gmap string (NbId * NbId)) (iface : NbId) (cidrs : list string) (acc : Acc) : M Acc :=
  match cidrs with
  | [] => nb_ret acc
  | cidr :: cidrs =>
      let* id :=
        match existing !! cidr with
        | Some (id, cur_iface) =>
            if bool_decide (cur_iface = iface) then nb_ret id else (let* _ := move_ip id iface in nb_ret id)
        | None => create_ip iface cidr
        end in
      sync_ips existing iface cidrs (keep_ip acc id cidr)
  end.

Fixpoint sync_interfaces (device : NbId) (by_name : gmap string NbId) (existing : gmap string (NbId * NbId))
    (ifaces : list InventoryInterface) (acc : Acc) : M Acc :=
  match ifaces with
  | [] => nb_ret acc
  | i :: ifaces =>
      let* iface := match by_name !! ii_name i with Some id => nb_ret id | None => create_interface device (ii_name i) end in
      let* acc := sync_ips existing iface (omap to_cidr (ii_ip_addresses i)) acc in
      sync_interfaces device by_name existing ifaces acc
  end.

(** [collect] into a map keeps the last of equal names; [or_insert] the first of equal
    addresses. *)
Definition current_by_name (current : list NbInterface) : gmap string NbId :=
  list_to_map (rev ((fun i => (if_name i, if_id i)) <$> current)).
Definition existing_ips (current : list NbInterface) : gmap string (NbId * NbId) :=
  list_to_map (flat_map (fun i => (fun p => (ip_address p, (ip_id p, if_id i))) <$> if_ips i) current).

Definition reconcile (device : NbId) (host_id : HostId) (observed : Inventory) : M unit :=
  let* current := read_interfaces device in
  let desired : gset string := list_to_set (ii_name <$> inv_interfaces observed) in
  let* acc := sync_interfaces device (current_by_name current) (existing_ips current)
                (inv_interfaces observed) (mkAcc None None ∅) in
  let* _ := finalize_device device (acc_p4 acc) (acc_p6 acc) (uuid_to_string (host_uuid host_id)) in
  let* _ := for_each current (fun cur =>
              for_each (if_ips cur) (fun ip =>
                if bool_decide (ip_id ip ∈ acc_kept acc) then nb_ret tt else delete_ip (ip_id ip))) in
  for_each current (fun cur =>
    if bool_decide (if_name cur ∈ desired) then nb_ret tt else delete_interface (if_id cur)).

(** The device is claimed by another host. *)
Definition claimed_by_other (d : DeviceRef) (host_id : HostId) : bool :=
  match dev_host_id d with
  | Some claimed => negb (is_empty claimed) && negb (bool_decide (claimed = uuid_to_string (host_uuid host_id)))
  | None => false
  end.

Definition match_and_reconcile (serial : string) (host_id : HostId) (observed : Inventory) : M UpsertOutcome :=
  let* m := match_by_serial serial in
  match m with
  | MatchNone => nb_ret Unmatched
  | MatchOne device =>
      if claimed_by_other device host_id then nb_ret HostCollision
      else (let* _ := reconcile (dev_id device) host_id observed in nb_ret Updated)
  | MatchMany count => nb_ret (AmbiguousMatch count)
  end.

End Sink.

Section Upsert.
Context `{Crypto} `{UuidLib} {N : Type} `{NetboxDevices N}.

(** The retry loop, with [retries] left. *)
Fixpoint retry (retries : nat) (m : NB N UpsertOutcome) : NB N UpsertOutcome := fun w =>
  match m w with
  | (w, Ok o) => (w, Ok o)
  | (w, Err e) =>
      match retries with
      | S n => if is_transient e then retry n m w else (w, Err e)
      | O => (w, Err e)
      end
  end.

(** The 16 bytes of a UUID. *)
Definition uuid_bytes (u : Uuid) : bytes := be_bytes 16 (bval u).

Definition content_bytes (serial : string) (host_id : HostId) (observed : Inventory) : bytes :=
  bytes_of serial ++ x02 :: uuid_bytes (host_uuid host_id) ++
  flat_map (fun i => xff :: bytes_of (ii_name i) ++
              flat_map (fun ip => x00 :: bytes_of ip) (ii_ip_addresses i)) (inv_interfaces observed).
Definition content_hash (serial : string) (host_id : HostId) (observed : Inventory) : string :=
  sha256_hex (content_bytes serial host_id observed).

(** The serial an upsert matches on. *)
Definition usable_serial (observed : Inventory) : option string :=
  match inv_dmi_serial observed with
  | Some s => let s := trim s in if is_empty s then None else Some s
  | None => None
  end.

(** The dedup table: the content last written per host. *)
Definition already_synced (synced : gmap HostId string) (host_id : HostId) (hash : string) : bool :=
  bool_decide (synced !! host_id = Some hash).
Definition mark_synced (synced : gmap HostId string) (host_id : HostId) (hash : string) : gmap HostId string :=
  <[host_id := hash]> synced.

(** [upsert] on the sink's dedup table; the per-host lock makes it atomic per host. *)
Definition upsert (synced : gmap HostId string) (host_id : HostId) (observed : Inventory) (w : World N)
    : gmap HostId string * World N * result UpsertOutcome PortError :=
  match usable_serial observed with
  | None => (synced, w, Ok SkippedNoSerial)
  | Some serial =>
      let hash := content_hash serial host_id observed in
      if already_synced synced host_id hash then (synced, w, Ok Unchanged)
      else
        let '(w, r) := retry MAX_TRANSIENT_RETRIES (match_and_reconcile serial host_id observed) w in
        match r with
        | Ok Updated => (mark_synced synced host_id hash, w, Ok Updated)
        | r => (synced, w, r)
        end
  end.

End Upsert.

(** ** What an upsert may do *)

Definition is_write (c : NbCall) : bool := match c with CMatch _ _ | CRead _ _ => false | _ => true end.

Definition ip_ids (current : list NbInterface) : list NbId := flat_map (fun i => ip_id <$> if_ips i) current.

(** Calls before the finalize: they create interfaces on the device, create addresses on
    interfaces of the device, and move addresses of the device between them.  [mine]: the
    interfaces read from the device and those created on it so far. *)
Definition additive (device : NbId) (current : list NbInterface) (mine : list NbId) (c : NbCall) : Prop :=
  match c with
  | CCreateInterface d _ _ => d = device
  | CCreateIp iface _ _ => iface ∈ mine
  | CMoveIp id iface _ => id ∈ ip_ids current /\ iface ∈ mine
  | _ => False
  end.
Definition grow (mine : list NbId) (c : NbCall) : list NbId :=
  match c with CCreateInterface _ _ (Ok id) => id :: mine | _ => mine end.
Fixpoint additions (device : NbId) (current : list NbInterface) (mine : list NbId) (tr : list NbCall) : Prop :=
  match tr with
  | [] => True
  | c :: tr => additive device current mine c /\ additions device current (grow mine c) tr
  end.

(** Calls after it: they delete what the device had, never a primary address. *)
Definition removal (current : list NbInterface) (p4 p6 : option NbId) (c : NbCall) : Prop :=
  match c with
  | CDeleteIp id _ => id ∈ ip_ids current /\ p4 <> Some id /\ p6 <> Some id
  | CDeleteInterface id _ => id ∈ (if_id <$> current)
  | _ => False
  end.

(** The calls of one reconciliation, complete or cut short by a failure. *)
Definition reconcile_calls (device : NbId) (host : string) (complete : bool) (tr : list NbCall) : Prop :=
  exists rr tr', tr = CRead device rr :: tr' /\
    match rr with
    | Err _ => tr' = [] /\ complete = false
    | Ok current =>
        exists pre, additions device current (if_id <$> current) pre /\
          ((tr' = pre /\ complete = false) \/
           exists p4 p6 fr dels, tr' = pre ++ CFinalize device p4 p6 host fr :: dels /\
             Forall (removal current p4 p6) dels /\
             match fr with Ok _ => True | Err _ => dels = [] /\ complete = false end)
    end.

(** The device names no host, or this one. *)
Definition free_or_ours `{UuidLib} (d : DeviceRef) (h : HostId) : Prop :=
  dev_host_id d = None \/ dev_host_id d = Some EmptyString \/ dev_host_id d = Some (uuid_to_string (host_uuid h)).

(** One attempt: the match, and a reconciliation only of a single device that names no host
    or this one. *)
Definition attempt_calls `{UuidLib} (serial : string) (h : HostId) (complete : bool) (tr : list NbCall) : Prop :=
  exists m rest, tr = CMatch serial m :: rest /\
    ((rest = [] /\ complete = false) \/
     exists d, m = Ok (MatchOne d) /\ free_or_ours d h /\
       reconcile_calls (dev_id d) (uuid_to_string (host_uuid h)) complete rest).

(** ** Lemmas: traces *)

(** [emits m Q]: however NetBox answers, [m] makes calls that satisfy [Q] with its result. *)
Class NbLogic (M : Type -> Type) `{NbMonad M} := {
  emits : forall {A : Type}, M A -> (list NbCall -> result A PortError -> Prop) -> Prop;
  emits_ret : forall {A} (a : A) Q, Q [] (Ok a) -> emits (nb_ret a) Q;
  emits_call : forall {X} (q : Req X) Q, (forall r, Q [record_call q r] r) -> emits (nb_call q) Q;
  emits_bind : forall {A B} (m : M A) (k : A -> M B) (Q : list NbCall -> result B PortError -> Prop),
    emits m (fun tr r => match r with Ok a => emits (k a) (fun tr2 r2 => Q (tr ++ tr2) r2) | Err e => Q tr (Err e) end) ->
    emits (nb_bind m k) Q;
  emits_mono : forall {A} (m : M A) (Q Q' : list NbCall -> result A PortError -> Prop),
    emits m Q -> (forall tr r, Q tr r -> Q' tr r) -> emits m Q'
}.

Section Traces.
Context {M : Type -> Type} `{NbLogic M}.

(** Calls that all satisfy [P]. *)
Definition only {A} (P : NbCall -> Prop) (tr : list NbCall) (_ : result A PortError) : Prop := Forall P tr.

Lemma only_bind {A B} (m : M A) (k : A -> M B) P :
  emits m (only P) -> (forall a, emits (k a) (only P)) -> emits (nb_bind m k) (only P).
Proof.
  intros Hm Hk. apply emits_bind. eapply emits_mono; [exact Hm|]. intros tr [a|e] Ht; [|done].
  eapply emits_mono; [apply Hk|]. intros tr2 r2 Ht2. by apply Forall_app.
Qed.

Lemma only_call {X} (q : Req X) (P : NbCall -> Prop) : (forall r, P (record_call q r)) -> emits (nb_call q) (only P).
Proof. intros HP. apply emits_call. intros r. by repeat constructor. Qed.

Lemma only_ret {A} (a : A) P : emits (nb_ret a) (only P).
Proof. apply emits_ret. constructor. Qed.

Lemma only_for_each {A} (l : list A) (f : A -> M unit) P :
  (forall x, x ∈ l -> emits (f x) (only P)) -> emits (for_each l f) (only P).
Proof.
  induction l as [|x l IH]; intros Hf; simpl; [apply only_ret|].
  apply only_bind; [apply Hf; by left|]. intros _. apply IH. intros y Hy. apply Hf. by right.
Qed.

End Traces.

(** Run on a NetBox: from any world. *)
#[global] Program Instance NB_logic {N} `{NetboxDevices N} : NbLogic (NB N) := {|
  emits A m Q := forall w, exists tr, w_calls (fst (m w)) = w_calls w ++ tr /\ Q tr (snd (m w))
|}.
Next Obligation. intros N ? A a Q HQ w. exists []. by rewrite app_nil_r. Qed.
Next Obligation.
  intros N ? X q Q HQ w. simpl. unfold call. destruct (match w_faults w with [] => _ | _ => _ end) as [f fs].
  destruct (answer _ _ _) as [nb r]. exists [record_call q r]. by split.
Qed.
Next Obligation.
  intros N ? A B m k Q Hm w. destruct (Hm w) as (tr & Hc & Hq). simpl. unfold nbind. destruct (m w) as [w1 [a|e]]; simpl in *; [|by exists tr].
  destruct (Hq w1) as (tr2 & Hc2 & Hq2). exists (tr ++ tr2). rewrite Hc2, Hc, app_assoc. done.
Qed.
Next Obligation. intros N ? A m Q Q' Hm HQ w. destruct (Hm w) as (tr & ? & ?). exists tr. auto. Qed.

Lemma list_to_map_snd {A} (l : list (string * A)) k v :
  (list_to_map l : gmap string A) !! k = Some v -> (k, v) ∈ l.
Proof. apply elem_of_list_to_map_2. Qed.

Lemma existing_ips_id current cidr id iface : existing_ips current !! cidr = Some (id, iface) -> id ∈ ip_ids current.
Proof.
  intros Hl%list_to_map_snd. unfold ip_ids.
  apply list_elem_of_In, in_flat_map in Hl as (i & Hi & Hp). apply list_elem_of_In in Hp.
  apply list_elem_of_fmap in Hp as (p & [= _ -> _] & Hp).
  apply list_elem_of_In, in_flat_map. exists i. split; [done|]. apply list_elem_of_In, list_elem_of_fmap. eauto.
Qed.

Lemma current_by_name_id current name id : current_by_name current !! name = Some id -> id ∈ if_id <$> current.
Proof.
  intros Hl%list_to_map_snd. rewrite list_elem_of_In, <- in_rev, <- list_elem_of_In in Hl.
  apply list_elem_of_fmap in Hl as (i & [= _ ->] & Hi). apply list_elem_of_fmap. eauto.
Qed.

Lemma additions_mono device current mine mine' tr : mine ⊆ mine' -> additions device current mine tr -> additions device current mine' tr.
Proof.
  revert mine mine'. induction tr as [|c tr IH]; intros mine mine' Hm; [done|]. intros [Hc Ht]. split.
  - destruct c; simpl in *; try done; [by apply Hm|]. destruct Hc. split; [done|by apply Hm].
  - eapply IH; [|exact Ht]. destruct c as [| |d n []| | | | |]; simpl; try done. set_solver.
Qed.

Lemma additions_app device current mine tr1 tr2 :
  additions device current mine tr1 -> additions device current mine tr2 -> additions device current mine (tr1 ++ tr2).
Proof.
  revert mine. induction tr1 as [|c tr1 IH]; intros mine; [done|]. intros [Hc H1'] H2'. split; [done|]. apply IH; [done|].
  eapply additions_mono; [|exact H2']. destruct c as [| |d n []| | | | |]; simpl; set_solver.
Qed.

Lemma claimed_by_other_free `{UuidLib} d h : claimed_by_other d h = false -> free_or_ours d h.
Proof.
  unfold claimed_by_other, free_or_ours. destruct (dev_host_id d) as [c|]; [|auto]. intros [He|He]%andb_false_iff; apply negb_false_iff in He.
  - right; left. by destruct c.
  - right; right. by bool_to_prop; subst.
Qed.

(** The primaries chosen are among the addresses kept. *)
Definition acc_ok (acc : Acc) : Prop :=
  (forall x, acc_p4 acc = Some x -> x ∈ acc_kept acc) /\ (forall x, acc_p6 acc = Some x -> x ∈ acc_kept acc).

Lemma keep_ip_ok acc id cidr : acc_ok acc -> acc_ok (keep_ip acc id cidr).
Proof.
  intros [H4 H6]. unfold keep_ip, acc_ok, get_or_insert.
  destruct (is_ipv4_cidr cidr); simpl; split; intros x; destruct (acc_p4 acc), (acc_p6 acc); set_solver.
Qed.

Section SinkLemmas.
Context `{Crypto} `{UuidLib} {M : Type -> Type} `{NbLogic M}.

Lemma additions_call {X} (q : Req X) device current mine :
  (forall r, additive device current mine (record_call q r)) ->
  emits (M := M) (nb_call q) (fun tr _ => additions device current mine tr).
Proof. intros HP. apply emits_call. intros r. split; [apply HP|done]. Qed.

Lemma sync_ips_emits device current mine iface cidrs acc :
  acc_ok acc -> iface ∈ mine ->
  emits (sync_ips (M := M) (existing_ips current) iface cidrs acc)
    (fun tr r => additions device current mine tr /\ match r with Ok a => acc_ok a | Err _ => True end).
Proof.
  intros Ha Hi. revert acc Ha. induction cidrs as [|cidr cidrs IH]; intros acc Ha; simpl; [by apply emits_ret|].
  apply emits_bind. eapply (emits_mono _ (fun tr _ => additions device current mine tr)).
  - destruct (existing_ips current !! cidr) as [[id cur]|] eqn:E; [|by apply additions_call].
    destruct (bool_decide _); [by apply emits_ret|]. apply emits_bind. eapply emits_mono.
    + apply (additions_call (RMoveIp id iface) device current mine). intros r. split; [by eapply existing_ips_id|done].
    + intros tr [[]|e] Ht; [|done]. apply emits_ret. by rewrite app_nil_r.
  - intros tr [id|e] Ht; [|done]. eapply emits_mono; [apply (IH (keep_ip acc id cidr)); by apply keep_ip_ok|].
    intros tr2 r2 [Ht2 Hr]. split; [by apply additions_app|done].
Qed.

Lemma sync_interfaces_emits device current mine by_name ifaces acc :
  acc_ok acc -> (forall name id, by_name !! name = Some id -> id ∈ mine) ->
  emits (sync_interfaces (M := M) device by_name (existing_ips current) ifaces acc)
    (fun tr r => additions device current mine tr /\ match r with Ok a => acc_ok a | Err _ => True end).
Proof.
  revert mine acc. induction ifaces as [|i ifaces IH]; intros mine acc Ha Hb; simpl; [by apply emits_ret|].
  assert (forall mine' iface, mine ⊆ mine' -> iface ∈ mine' ->
    emits (let* acc := sync_ips (M := M) (existing_ips current) iface (omap to_cidr (ii_ip_addresses i)) acc in
           sync_interfaces device by_name (existing_ips current) ifaces acc)
      (fun tr r => additions device current mine' tr /\ match r with Ok a => acc_ok a | Err _ => True end)) as Hrest.
  { intros mine' iface Hm Hi. apply emits_bind. eapply emits_mono; [by apply (sync_ips_emits device current mine')|].
    intros tr2 [a|e] [Ht2 Hr]; [|done]. eapply emits_mono; [apply (IH mine'); [done|]|].
    - intros name id Hn. apply Hm. by eapply Hb.
    - intros tr3 r3 [Ht3 Hr3]. split; [by apply additions_app|done]. }
  apply emits_bind. destruct (by_name !! ii_name i) as [iface|] eqn:Eb.
  - apply emits_ret. eapply emits_mono; [apply (Hrest mine); [done|by eapply Hb]|]. done.
  - apply emits_call. intros [iface|e]; [|done]. eapply emits_mono; [apply (Hrest (iface :: mine)); set_solver|].
    intros tr2 r2 [Ht2 Hr2]. done.
Qed.

Lemma reconcile_emits device host observed :
  emits (reconcile (M := M) device host observed)
    (fun tr r => reconcile_calls device (uuid_to_string (host_uuid host)) (is_ok r) tr).
Proof.
  unfold reconcile. apply emits_bind, emits_call. intros [current|e]; [|by exists (Err e), []].
  apply emits_bind. eapply emits_mono; [apply (sync_interfaces_emits device current (if_id <$> current))|].
  { by split. }
  { apply current_by_name_id. }
  intros pre [acc|e] [Hpre Hacc]; [|exists (Ok current), pre; split; [done|]; exists pre; auto].
  apply emits_bind, emits_call. intros fr.
  assert (forall complete dels, Forall (removal current (acc_p4 acc) (acc_p6 acc)) dels ->
    match fr with Ok _ => True | Err _ => dels = [] /\ complete = false end ->
    reconcile_calls device (uuid_to_string (host_uuid host)) complete
      ([CRead device (Ok current)] ++ pre ++ [CFinalize device (acc_p4 acc) (acc_p6 acc) (uuid_to_string (host_uuid host)) fr] ++ dels))
    as Hdone.
  { intros complete dels Hd Hf. exists (Ok current), (pre ++ CFinalize device (acc_p4 acc) (acc_p6 acc) (uuid_to_string (host_uuid host)) fr :: dels).
    split; [done|]. exists pre. split; [done|]. right. by eexists _, _, _, _. }
  destruct fr as [[]|e]; [|by apply (Hdone false [])].
  eapply (emits_mono _ (only (removal current (acc_p4 acc) (acc_p6 acc)))).
  2: { intros dels r Hd. apply (Hdone (is_ok r) dels Hd). done. }
  apply only_bind.
  - apply only_for_each. intros cur Hcur. apply only_for_each. intros ip Hip.
    destruct (bool_decide _) eqn:Ek; [apply only_ret|]. bool_to_prop. apply only_call. intros r. simpl.
    split; [|split; intros Hp; apply Hacc in Hp; done].
    apply list_elem_of_In, in_flat_map. exists cur. split; [by apply list_elem_of_In|].
    apply list_elem_of_In, list_elem_of_fmap. eauto.
  - intros _. apply only_for_each. intros cur Hcur. destruct (bool_decide _); [apply only_ret|].
    apply only_call. intros r. simpl. apply list_elem_of_fmap. eauto.
Qed.

Lemma match_and_reconcile_emits serial host observed :
  emits (match_and_reconcile (M := M) serial host observed)
    (fun tr r => attempt_calls serial host (bool_decide (r = Ok Updated)) tr).
Proof.
  unfold match_and_reconcile. apply emits_bind, emits_call.
  intros [m|e]; [|exists (Err e), []; split; [done|]; left; split; [done|]; by rewrite bool_decide_eq_false_2].
  assert (forall o, o <> Updated -> attempt_calls serial host (bool_decide (Ok (E := PortError) o = Ok Updated)) [CMatch serial (Ok m)]) as Hno.
  { intros o Ho. exists (Ok m), []. split; [done|]. left. split; [done|]. apply bool_decide_eq_false_2. congruence. }
  destruct m as [|d|n]; try (by apply emits_ret, Hno).
  destruct (claimed_by_other d host) eqn:Ec; [by apply emits_ret, Hno|]. apply claimed_by_other_free in Ec.
  apply emits_bind. eapply emits_mono; [apply reconcile_emits|]. intros tr [[]|e] Hr.
  - apply emits_ret. exists (Ok (MatchOne d)), tr. rewrite app_nil_r. split; [done|]. right. exists d.
    split; [done|]. split; [done|]. by rewrite bool_decide_eq_true_2.
  - exists (Ok (MatchOne d)), tr. split; [done|]. right. exists d. split; [done|]. split; [done|].
    by rewrite bool_decide_eq_false_2.
Qed.

Lemma match_never_unchanged serial host observed :
  emits (match_and_reconcile (M := M) serial host observed) (fun _ r => r <> Ok Unchanged).
Proof.
  unfold match_and_reconcile. apply emits_bind, emits_call. intros [[|d|n]|e]; try done; try by apply emits_ret.
  destruct (claimed_by_other d host); [by apply emits_ret|]. apply emits_bind. eapply emits_mono; [apply reconcile_emits|].
  intros tr [[]|e] _; [by apply emits_ret|done].
Qed.

End SinkLemmas.

Section UpsertLemmas.
Context `{Crypto} `{UuidLib} {N : Type} `{NetboxDevices N}.

(** The retry loop makes at most one attempt more than it has retries. *)
Lemma retry_emits (Q : bool -> list NbCall -> Prop) n (m : NB N UpsertOutcome) :
  emits m (fun tr r => Q (bool_decide (r = Ok Updated)) tr) ->
  emits (retry n m) (fun tr r => exists attempts final, tr = concat attempts ++ final /\ (length attempts <= n)%nat /\
    Forall (Q false) attempts /\ Q (bool_decide (r = Ok Updated)) final).
Proof.
  intros Hm. induction n as [|n IH]; intros w; cbn [retry]; destruct (Hm w) as (tr & Hc & Hq).
  - destruct (m w) as [w1 [o|e]]; simpl in *; exists tr; (split; [done|]); exists [], tr; auto.
  - destruct (m w) as [w1 [o|e]]; simpl in Hc, Hq; [exists tr; split; [done|]; exists [], tr; repeat split; auto; simpl; lia|].
    destruct (is_transient e); [|exists tr; split; [done|]; exists [], tr; repeat split; auto; simpl; lia].
    destruct (IH w1) as (tr2 & Hc2 & attempts & final & -> & Hl & Ha & Hf).
    exists (tr ++ concat attempts ++ final). split; [by rewrite Hc2, Hc, <- app_assoc|].
    exists (tr :: attempts), final. simpl. rewrite <- app_assoc. split; [done|]. split; [lia|]. split; [|done].
    by constructor.
Qed.

(** Whatever holds of the calls of every attempt holds of an upsert's calls. *)
Lemma upsert_only (P : NbCall -> Prop) synced host observed (w : World N) :
  (forall serial complete tr, attempt_calls serial host complete tr -> Forall P tr) ->
  let '(_, w', _) := upsert synced host observed w in exists calls, w_calls w' = w_calls w ++ calls /\ Forall P calls.
Proof.
  intros HP. unfold upsert, already_synced, mark_synced. destruct (usable_serial observed) as [serial|]; [|exists []; by rewrite app_nil_r].
  destruct (bool_decide _); [exists []; by rewrite app_nil_r|].
  destruct (retry_emits (attempt_calls serial host) MAX_TRANSIENT_RETRIES _
    (match_and_reconcile_emits serial host observed) w) as (tr & Hc & attempts & final & -> & _ & Ha & Hf).
  destruct (retry _ _ w) as [w' r]. simpl in Hc, Hf.
  assert (Forall P (concat attempts ++ final)) as Hall.
  { apply Forall_app. split; [|by eapply HP]. clear -Ha HP. induction Ha; simpl; [constructor|]. apply Forall_app. eauto. }
  destruct r as [[]|e]; eauto.
Qed.

End UpsertLemmas.

(** ** The content hash *)

(** [r] is empty or starts with [sep]. *)
Definition at_sep {A} (sep : A) (r : list A) : Prop := r = [] \/ exists r', r = sep :: r'.

Lemma split_at_sep {A} (sep : A) l1 l2 r1 r2 :
  sep ∉ l1 -> sep ∉ l2 -> at_sep sep r1 -> at_sep sep r2 -> l1 ++ r1 = l2 ++ r2 -> l1 = l2 /\ r1 = r2.
Proof.
  revert l2. induction l1 as [|x l1 IH]; intros [|y l2] H1 H2 Hr1 Hr2 He; simpl in *; try done.
  - destruct Hr1 as [->|[r ->]]; [done|]. injection He as <- _. set_solver.
  - destruct Hr2 as [->|[r ->]]; [done|]. injection He as <- _. set_solver.
  - injection He as <- He. destruct (IH l2) as [-> ->]; set_solver.
Qed.

(** Records that start with a separator their bodies do not contain. *)
Lemma records_inj {A B} (sep : B) (f : A -> list B) (P : A -> Prop) (la lb : list A) :
  (forall x, P x -> sep ∉ f x) -> Forall P la -> Forall P lb ->
  flat_map (fun x => sep :: f x) la = flat_map (fun x => sep :: f x) lb -> f <$> la = f <$> lb.
Proof.
  intros HP. assert (forall l, at_sep sep (flat_map (fun x => sep :: f x) l)) as Hat by (intros []; [by left|right; eauto]).
  revert lb. induction la as [|x la IH]; intros [|y lb] Ha Hb He; simpl in *; try done.
  apply Forall_cons in Ha as [Hx Ha], Hb as [Hy Hb]. injection He as He.
  apply (split_at_sep sep) in He as [Hf He]; auto. f_equal; auto.
Qed.

(** What a snapshot is hashed by. *)
Definition content_key (o : Inventory) : list (string * list string) :=
  (fun i => (ii_name i, ii_ip_addresses i)) <$> inv_interfaces o.

(** Interface names and addresses as the agent reports them: UTF-8 without NUL bytes. *)
Definition clean (s : string) : Prop := x00 ∉ bytes_of s /\ xff ∉ bytes_of s.
Definition clean_iface (i : InventoryInterface) : Prop := clean (ii_name i) /\ Forall clean (ii_ip_addresses i).

Definition iface_bytes (i : InventoryInterface) : bytes :=
  bytes_of (ii_name i) ++ flat_map (fun ip => x00 :: bytes_of ip) (ii_ip_addresses i).

Lemma iface_bytes_no_ff i : clean_iface i -> xff ∉ iface_bytes i.
Proof.
  intros [[_ Hn] Hi]. unfold iface_bytes. rewrite elem_of_app. intros [?|Hf]; [done|].
  apply list_elem_of_In, in_flat_map in Hf as (ip & Hip & [?|Hx]); [done|].
  rewrite Forall_forall in Hi. destruct (Hi ip) as [_ Hff]; [by apply list_elem_of_In|]. apply Hff. by apply list_elem_of_In.
Qed.

Lemma iface_bytes_inj i j : clean_iface i -> clean_iface j -> iface_bytes i = iface_bytes j ->
  ii_name i = ii_name j /\ ii_ip_addresses i = ii_ip_addresses j.
Proof.
  intros [[Hn _] Hi] [[Hm _] Hj] He. unfold iface_bytes in He.
  apply (split_at_sep x00) in He as [He1 He2]; auto.
  - split; [by apply bytes_of_inj|].
    apply (records_inj x00 bytes_of clean) in He2; [|by intros ? []|done..].
    by apply list_fmap_eq_inj in He2; [|intros ? ?; apply bytes_of_inj].
  - destruct (ii_ip_addresses i); [by left|right; eauto].
  - destruct (ii_ip_addresses j); [by left|right; eauto].
Qed.

(** A snapshot as an agent reports it: its serial has no STX byte, its texts are clean. *)
Definition clean_inventory (o : Inventory) : Prop :=
  (forall serial, usable_serial o = Some serial -> x02 ∉ bytes_of serial) /\ Forall clean_iface (inv_interfaces o).

Lemma split_at_first {A} (x : A) l1 l2 r1 r2 : x ∉ l1 -> x ∉ l2 -> l1 ++ x :: r1 = l2 ++ x :: r2 -> l1 = l2 /\ r1 = r2.
Proof.
  intros H1 H2 He. apply (split_at_sep x) in He as [-> [= ->]]; [done|done|done|right; eauto..].
Qed.

Lemma content_bytes_inj s1 s2 h o1 o2 :
  usable_serial o1 = Some s1 -> usable_serial o2 = Some s2 -> clean_inventory o1 -> clean_inventory o2 ->
  content_bytes s1 h o1 = content_bytes s2 h o2 -> s1 = s2 /\ content_key o1 = content_key o2.
Proof.
  intros Hs1 Hs2 [Hc1 Hi1] [Hc2 Hi2] He. unfold content_bytes in He.
  apply split_at_first in He as [He1%bytes_of_inj He]; [|auto|auto]. split; [done|].
  apply app_inv_head in He. change (flat_map (fun i => xff :: iface_bytes i) (inv_interfaces o1) =
    flat_map (fun i => xff :: iface_bytes i) (inv_interfaces o2)) in He.
  apply (records_inj xff iface_bytes clean_iface) in He; [|exact iface_bytes_no_ff|done..]. unfold content_key.
  revert Hi1 Hi2 He. generalize (inv_interfaces o1) (inv_interfaces o2).
  induction l as [|i l IH]; intros [|j l2] Hl1 Hl2 He; simpl in *; try done.
  apply Forall_cons in Hl1 as [? ?], Hl2 as [? ?]. injection He as He1' He2.
  apply iface_bytes_inj in He1' as [-> ->]; [|done..]. f_equal. auto.
Qed.

Section Dedup.
Context `{Crypto} `{UuidLib} {N : Type} `{NetboxDevices N}.

(** A sequence of upserts on one sink, and the log of those that updated, latest first. *)
Fixpoint upserts (evs : list (HostId * Inventory)) (synced : gmap HostId string) (w : World N)
    (log : list (HostId * Inventory)) : gmap HostId string * World N * list (HostId * Inventory) :=
  match evs with
  | [] => (synced, w, log)
  | (h, o) :: evs =>
      let '(synced, w, r) := upsert synced h o w in
      upserts evs synced w (if bool_decide (r = Ok Updated) then (h, o) :: log else log)
  end.

(** The host's last update. *)
Definition last_update (log : list (HostId * Inventory)) (h : HostId) : option Inventory :=
  snd <$> List.find (fun e => bool_decide (fst e = h)) log.

(** The dedup table holds the hash of each host's last update. *)
Definition dedup_ok (synced : gmap HostId string) (log : list (HostId * Inventory)) : Prop :=
  forall h, synced !! h = (let! o := last_update log h in let! serial := usable_serial o in Some (content_hash serial h o)).

Lemma upsert_dedup_ok synced h o (w : World N) log :
  dedup_ok synced log ->
  let '(synced', _, r) := upsert synced h o w in
  dedup_ok synced' (if bool_decide (r = Ok Updated) then (h, o) :: log else log).
Proof.
  intros Hok. unfold upsert, already_synced, mark_synced. destruct (usable_serial o) as [serial|] eqn:Es; [|done].
  case_bool_decide; [done|]. destruct (retry _ _ w) as [w' [[]|e]]; try done.
  rewrite bool_decide_eq_true_2 by done. intros h'. unfold last_update. simpl.
  destruct (decide (h' = h)) as [->|Hne].
  - rewrite lookup_insert_eq, bool_decide_eq_true_2 by done. simpl. by rewrite Es.
  - rewrite lookup_insert_ne, bool_decide_eq_false_2 by done. apply Hok.
Qed.

Lemma upserts_dedup_ok evs : forall synced (w : World N) log, dedup_ok synced log ->
  let '(synced', _, log') := upserts evs synced w log in dedup_ok synced' log'.
Proof.
  induction evs as [|[h o] evs IH]; intros synced w log Hok; simpl; [done|].
  pose proof (upsert_dedup_ok synced h o w log Hok) as Hs. destruct (upsert synced h o w) as [[s1 w1] r]. by apply IH.
Qed.

Lemma retry_not_unchanged n (m : NB N UpsertOutcome) w :
  (forall w, snd (m w) <> Ok Unchanged) -> snd (retry n m w) <> Ok Unchanged.
Proof.
  intros Hm. revert w. induction n as [|n IH]; intros w; cbn [retry]; specialize (Hm w); destruct (m w) as [w1 [o|e]]; try done.
  destruct (is_transient e); [apply IH|done].
Qed.

Lemma match_not_unchanged serial h o (w : World N) : snd (match_and_reconcile (M := NB N) serial h o w) <> Ok Unchanged.
Proof. pose proof (match_never_unchanged (M := NB N) serial h o) as Hm. by destruct (Hm w) as (tr & _ & ?). Qed.

Lemma upserts_log evs : forall synced (w : World N) log,
  let '(_, _, log') := upserts evs synced w log in forall e, e ∈ log' -> e ∈ log \/ e ∈ evs.
Proof.
  induction evs as [|[h o] evs IH]; intros synced w log; simpl; [by auto|].
  destruct (upsert synced h o w) as [[s1 w1] r]. specialize (IH s1 w1 (if bool_decide (r = Ok Updated) then (h, o) :: log else log)).
  destruct (upserts evs s1 w1 _) as [[s2 w2] log']. intros e He. destruct (IH e He) as [Hin|]; [|set_solver].
  destruct (bool_decide _); set_solver.
Qed.

Lemma last_update_elem log h o : last_update log h = Some o -> (h, o) ∈ log.
Proof.
  unfold last_update. destruct (List.find _ log) as [[h' o']|] eqn:Ef; [|done]. intros [= <-].
  apply find_some in Ef as [Hin Hb]. apply bool_decide_eq_true in Hb. simpl in Hb. subst. by apply list_elem_of_In.
Qed.

Lemma content_bytes_key serial h o1 o2 : content_key o1 = content_key o2 -> content_bytes serial h o1 = content_bytes serial h o2.
Proof.
  unfold content_key, content_bytes. intros Hk. do 3 f_equal.
  revert Hk. generalize (inv_interfaces o1) (inv_interfaces o2).
  induction l as [|i l IH]; intros [|j l2] Hk; simpl in *; try done. injection Hk as -> -> Hk. by rewrite (IH l2).
Qed.

(** An upsert answers [Unchanged] exactly on a dedup hit. *)
Lemma upsert_unchanged synced h o serial (w : World N) :
  usable_serial o = Some serial ->
  snd (upsert synced h o w) = Ok Unchanged <-> synced !! h = Some (content_hash serial h o).
Proof.
  intros Hs. unfold upsert, already_synced, mark_synced. rewrite Hs. case_bool_decide as Ed; [done|]. split; [|done]. intros Hr. exfalso. revert Hr.
  pose proof (retry_not_unchanged MAX_TRANSIENT_RETRIES _ w (match_not_unchanged serial h o)) as Hn.
  destruct (retry _ _ w) as [w' [[]|e]]; done.
Qed.
End Dedup.

(** The content-hash dedup is exact.  After any sequence of upserts, with whatever
    failures, a snapshot with a serial is answered [Unchanged] if the host's last
    successful one had the same serial, interfaces and addresses, in order; and only then,
    unless SHA-256 maps two byte strings to one digest. *)
Theorem dedup_is_exact `{Crypto} `{UuidLib} {N} `{NetboxDevices N} evs h o serial (w : World N) :
  usable_serial o = Some serial -> clean_inventory o -> Forall (fun e => clean_inventory (snd e)) evs ->
  let '(synced, w', log) := upserts evs ∅ w [] in
  let r := snd (upsert synced h o w') in
  (forall o', last_update log h = Some o' -> usable_serial o' = Some serial -> content_key o' = content_key o ->
     r = Ok Unchanged) /\
  (r = Ok Unchanged ->
     (exists o', last_update log h = Some o' /\ usable_serial o' = Some serial /\ content_key o' = content_key o) \/
     exists b1 b2, b1 <> b2 /\ sha256_hex b1 = sha256_hex b2).
Proof.
  intros Hs Hc Hevs. pose proof (upserts_dedup_ok evs ∅ w [] (fun h => lookup_empty h)) as Hok.
  pose proof (upserts_log evs ∅ w []) as Hlog. destruct (upserts evs ∅ w []) as [[synced w'] log].
  cbn zeta. pose proof (upsert_unchanged synced h o serial w' Hs) as Hu. rewrite Hok in Hu. split.
  - intros o' Hl Hs' Hk. apply Hu. rewrite Hl, Hs'. unfold content_hash. by rewrite (content_bytes_key _ _ _ _ Hk).
  - rewrite Hu. destruct (last_update log h) as [o'|] eqn:El; [|done]. destruct (usable_serial o') as [s'|] eqn:Es; [|done].
    intros [= He]. assert (clean_inventory o') as Hc'.
    { apply last_update_elem, Hlog in El as [?%not_elem_of_nil|Hin]; [done|]. rewrite Forall_forall in Hevs. by apply (Hevs (h, o')). }
    destruct (decide (content_bytes s' h o' = content_bytes serial h o)) as [Hb|Hb]; [|right; eauto].
    apply content_bytes_inj in Hb as [-> Hk]; eauto 6.
Qed.

(** ** What an upsert does to NetBox *)

(** C38. An upsert writes only the one device that carries the host's serial, and only if its
    host field is unset, empty or this host's id.  A host without a usable serial, and an
    unchanged snapshot, cause no call at all; otherwise at most four attempts are made, each
    of which first matches, then reads, creates interfaces on that device, creates addresses
    only on interfaces of it (read or just created) and moves its own addresses only to those,
    stamps the host on the device, and only then deletes what the device had, never an address
    made primary.  The dedup table changes exactly when the outcome is an update, so a failed
    or refused upsert is tried again. *)
Theorem upsert_is_safe `{Crypto} `{UuidLib} {N} `{NetboxDevices N} synced host observed (w : World N) :
  let '(synced', w', r) := upsert synced host observed w in
  (usable_serial observed = None -> w' = w /\ r = Ok SkippedNoSerial) /\
  (forall serial, usable_serial observed = Some serial ->
     synced !! host = Some (content_hash serial host observed) -> w' = w /\ r = Ok Unchanged) /\
  (exists attempts, w_calls w' = w_calls w ++ concat attempts /\ (length attempts <= 4)%nat /\
     (forall serial, usable_serial observed = Some serial ->
        forall a, a ∈ attempts -> exists complete, attempt_calls serial host complete a)) /\
  (r <> Ok Updated -> synced' = synced) /\
  (r = Ok Updated -> exists serial before final, usable_serial observed = Some serial /\
     synced' = <[host := content_hash serial host observed]> synced /\
     w_calls w' = before ++ final /\ attempt_calls serial host true final).
Proof.
  unfold upsert, already_synced, mark_synced. destruct (usable_serial observed) as [serial|] eqn:Es.
  2: { repeat split; try done. exists []. rewrite app_nil_r. repeat split; simpl; try lia. done. }
  case_bool_decide as Ed.
  { repeat split; try done. exists []. rewrite app_nil_r. repeat split; simpl; [lia|]. set_solver. }
  destruct (retry_emits (attempt_calls serial host) MAX_TRANSIENT_RETRIES _
    (match_and_reconcile_emits serial host observed) w) as (tr & Hc & attempts & final & -> & Hl & Ha & Hf).
  destruct (retry _ _ w) as [w' r]. simpl in Hc, Hf.
  assert (exists attempts, w_calls w' = w_calls w ++ concat attempts /\ (length attempts <= 4)%nat /\
    forall a, a ∈ attempts -> exists complete, attempt_calls serial host complete a) as Hat.
  { exists (attempts ++ [final]). rewrite concat_app, length_app, Hc. simpl. rewrite app_nil_r.
    split; [done|]. split; [unfold MAX_TRANSIENT_RETRIES in Hl; lia|]. intros a [Hin|Hin]%elem_of_app.
    - exists false. by eapply Forall_forall in Ha.
    - apply list_elem_of_singleton in Hin as ->. eauto. }
  destruct Hat as (l & Hl1 & Hl2 & Hl3).
  assert (forall (m : gmap HostId string), (r = Ok Updated -> m = <[host := content_hash serial host observed]> synced) ->
    r = Ok Updated -> exists s before final, Some serial = Some s /\
      m = <[host := content_hash s host observed]> synced /\ w_calls w' = before ++ final /\ attempt_calls s host true final) as Hup.
  { intros m Hm Hr. exists serial, (w_calls w ++ concat attempts), final. rewrite Hc, app_assoc.
    rewrite bool_decide_eq_true_2 in Hf by done. auto. }
  destruct r as [[]|e]; repeat split; try congruence; try (by apply Hup);
    exists l; (split; [done|]); (split; [done|]); by intros s [= <-].
Qed.
