(* ===== verification/NetboxSync.v ===== *)
(** * Convergence of the NetBox reconciliation

    What [reconcile] (osa-coordinator/src/netbox.rs) leaves in NetBox when no call
    fails, proved against an interface of laws for NetBox's interface and address
    tables ([NetboxLaws]), with a reference NetBox that satisfies them. *)
From S2P Require Import Prelude Proto Concrete Text Ip Seal Registries Netbox.

(** NetBox's tables: interfaces by id with their device and name, addresses by id with
    their interface and CIDR.  The laws are those the seam's documentation gives. *)
Class NetboxLaws (N : Type) `{NetboxDevices N} := {
  nb_ifaces : N -> gmap NbId (NbId * string);
  nb_ips : N -> gmap NbId (NbId * string);
  nb_read_ifaces : forall d n id name,
    nb_ifaces n !! id = Some (d, name) <-> exists i, i ∈ nb_read_interfaces d n /\ if_id i = id /\ if_name i = name;
  nb_read_ips : forall d n i p, i ∈ nb_read_interfaces d n ->
    (p ∈ if_ips i <-> nb_ips n !! ip_id p = Some (if_id i, ip_address p));
  nb_create_interface_spec : forall d name n n' id, nb_create_interface d name n = (n', id) ->
    nb_ifaces n !! id = None /\ nb_ifaces n' = <[id := (d, name)]> (nb_ifaces n) /\ nb_ips n' = nb_ips n;
  nb_delete_interface_spec : forall id n, (forall p a, nb_ips n !! p <> Some (id, a)) ->
    nb_ifaces (nb_delete_interface id n) = delete id (nb_ifaces n) /\ nb_ips (nb_delete_interface id n) = nb_ips n;
  nb_create_ip_spec : forall f a n n' id, nb_create_ip f a n = (n', id) ->
    nb_ips n !! id = None /\ nb_ips n' = <[id := (f, a)]> (nb_ips n) /\ nb_ifaces n' = nb_ifaces n;
  nb_move_ip_spec : forall id f n,
    nb_ips (nb_move_ip id f n) = alter (fun p => (f, snd p)) id (nb_ips n) /\
    nb_ifaces (nb_move_ip id f n) = nb_ifaces n;
  nb_delete_ip_spec : forall id n,
    nb_ips (nb_delete_ip id n) = delete id (nb_ips n) /\ nb_ifaces (nb_delete_ip id n) = nb_ifaces n;
  nb_finalize_spec : forall d p4 p6 h n,
    nb_ips (nb_finalize_device d p4 p6 h n) = nb_ips n /\ nb_ifaces (nb_finalize_device d p4 p6 h n) = nb_ifaces n
}.

(** ** The state a reconciliation is to reach *)

(** The observed addresses, with the interface that carries them. *)
Definition observed_pairs (ifaces : list InventoryInterface) : list (string * string) :=
  flat_map (fun i => (fun c => (ii_name i, c)) <$> omap to_cidr (ii_ip_addresses i)) ifaces.

Section Spec.
Context {N : Type} `{NetboxLaws N}.

(** Device [d] has one interface per name. *)
Definition names_unique (d : NbId) (n : N) : Prop := forall x y name,
  nb_ifaces n !! x = Some (d, name) -> nb_ifaces n !! y = Some (d, name) -> x = y.

(** Address [p], with CIDR [c], is on an interface of device [d] with name [name]. *)
Definition on_device (d : NbId) (n : N) (p : NbId) (name c : string) : Prop :=
  exists f, nb_ips n !! p = Some (f, c) /\ nb_ifaces n !! f = Some (d, name).

Definition addresses_unique (d : NbId) (n : N) : Prop := forall p q x y c,
  on_device d n p x c -> on_device d n q y c -> p = q.

(** Every address of the table is on an interface of the table. *)
Definition assigned (n : N) : Prop := forall p f c, nb_ips n !! p = Some (f, c) -> is_Some (nb_ifaces n !! f).

(** The device has exactly the observed interfaces and addresses. *)
Definition device_matches (d : NbId) (observed : Inventory) (n : N) : Prop :=
  (forall name, name ∈ (ii_name <$> inv_interfaces observed) <-> exists f, nb_ifaces n !! f = Some (d, name)) /\
  (forall name c, (name, c) ∈ observed_pairs (inv_interfaces observed) <-> exists p, on_device d n p name c) /\
  names_unique d n /\ addresses_unique d n.

(** Nothing of another device changes. *)
Definition others_unchanged (d : NbId) (n n' : N) : Prop :=
  (forall f e name, e <> d -> (nb_ifaces n !! f = Some (e, name) <-> nb_ifaces n' !! f = Some (e, name))) /\
  (forall p f c, (forall name, nb_ifaces n !! f <> Some (d, name)) -> nb_ips n !! p = Some (f, c) ->
     nb_ips n' !! p = Some (f, c)).

End Spec.

(** ** Runs without failures *)

Section Runs.
Context {N : Type} `{NetboxDevices N}.

Lemma for_each_app {A} (l1 l2 : list A) (f : A -> NB N unit) w :
  for_each (l1 ++ l2) f w = nb_bind (for_each l1 f) (fun _ => for_each l2 f) w.
Proof.
  revert w. induction l1 as [|x l1 IH]; intros w; [done|]. simpl. unfold nbind at 1 2 3.
  destruct (f x w) as [w1 [[]|e]]; [|done]. rewrite IH. done.
Qed.

Lemma for_each_flat_map {A B} (g : A -> list B) (f : B -> NB N unit) l w :
  for_each l (fun x => for_each (g x) f) w = for_each (flat_map g l) f w.
Proof.
  revert w. induction l as [|x l IH]; intros w; [done|]. simpl. rewrite for_each_app. simpl. unfold nbind.
  destruct (for_each (g x) f w) as [w1 [[]|e]]; auto.
Qed.

(** From a world where no call fails, in a state of [P], [m] returns with [Q]. *)
Definition runs {A} (P : N -> Prop) (m : NB N A) (Q : A -> N -> Prop) : Prop :=
  forall w, w_faults w = [] -> P (w_nb w) ->
    exists a, snd (m w) = Ok a /\ w_faults (fst (m w)) = [] /\ Q a (w_nb (fst (m w))).

Lemma runs_ret {A} (a : A) (P : N -> Prop) (Q : A -> N -> Prop) : (forall n, P n -> Q a n) -> runs P (nb_ret a) Q.
Proof. intros HQ w Hf HP. exists a. auto. Qed.

Lemma runs_call {X} (q : Req X) (P : N -> Prop) (Q : X -> N -> Prop) :
  (forall n, P n -> Q (snd (perform q n)) (fst (perform q n))) -> runs P (nb_call q) Q.
Proof.
  intros HQ w Hf HP. simpl. unfold call, answer. rewrite Hf. specialize (HQ _ HP). destruct (perform q (w_nb w)) as [n a]. simpl in *. eauto.
Qed.

Lemma runs_bind {A B} (m : NB N A) (k : A -> NB N B) P Q R :
  runs P m Q -> (forall a, runs (Q a) (k a) R) -> runs P (nb_bind m k) R.
Proof.
  intros Hm Hk w Hf HP. destruct (Hm w Hf HP) as (a & Ha & Hf1 & HQ). simpl. unfold nbind. destruct (m w) as [w1 r]. simpl in *.
  subst r. by apply Hk.
Qed.

Lemma runs_pre {A} (P P' : N -> Prop) (m : NB N A) Q : (forall n, P n -> P' n) -> runs P' m Q -> runs P m Q.
Proof. intros HP Hm w Hf Hw. auto. Qed.

Lemma runs_post {A} P (m : NB N A) (Q Q' : A -> N -> Prop) : (forall a n, Q a n -> Q' a n) -> runs P m Q -> runs P m Q'.
Proof. intros HQ Hm w Hf Hw. destruct (Hm w Hf Hw) as (a & ? & ? & ?). eauto 6. Qed.

Lemma runs_at {A} P (m : NB N A) (Q : A -> N -> Prop) :
  (forall n, P n -> runs (fun x => x = n) m Q) -> runs P m Q.
Proof. intros Hm w Hf HP. by apply (Hm (w_nb w)). Qed.

Lemma runs_ext {A} P (m m' : NB N A) Q : (forall w, m w = m' w) -> runs P m' Q -> runs P m Q.
Proof. intros He Hm w Hf HP. rewrite He. auto. Qed.

(** A loop, with an invariant on the elements already done. *)
Lemma runs_for_each {A} (I : list A -> N -> Prop) (l : list A) (f : A -> NB N unit) :
  (forall pre x, x ∈ l -> runs (I pre) (f x) (fun _ => I (pre ++ [x]))) ->
  forall pre, runs (I pre) (for_each l f) (fun _ => I (pre ++ l)).
Proof.
  induction l as [|x l IH]; intros Hf pre; simpl.
  - apply runs_ret. by rewrite app_nil_r.
  - eapply runs_bind; [apply Hf; by left|]. intros [].
    replace (pre ++ x :: l) with ((pre ++ [x]) ++ l) by by rewrite <- app_assoc.
    apply IH. intros pre' y Hy. apply Hf. by right.
Qed.
End Runs.

(** ** The tables during a reconciliation *)

Section Reconcile.
Context `{Crypto} `{UuidLib} {N : Type} `{NetboxLaws N}.
Context (d : NbId) (n0 : N).
Implicit Types (n : N).

(** After the interfaces [names] and the addresses [pairs] were ensured. *)
Record Ensured (names : list string) (pairs : list (string * string)) (acc : Acc) n : Prop := {
  en_old : forall f v, nb_ifaces n0 !! f = Some v -> nb_ifaces n !! f = Some v;
  en_new : forall f v, nb_ifaces n !! f = Some v ->
    nb_ifaces n0 !! f = Some v \/ (nb_ifaces n0 !! f = None /\ exists name, name ∈ names /\ v = (d, name));
  en_names : forall name, name ∈ names -> exists f, nb_ifaces n !! f = Some (d, name);
  en_unique : names_unique d n;
  en_placed : forall name c, (name, c) ∈ pairs -> exists p, p ∈ acc_kept acc /\ on_device d n p name c;
  en_kept : forall p, p ∈ acc_kept acc -> exists name c, (name, c) ∈ pairs /\ name ∈ names /\ on_device d n p name c /\
    forall v, nb_ips n0 !! p = Some v -> snd v = c /\ exists name0, nb_ifaces n0 !! fst v = Some (d, name0);
  en_kept_unique : forall p q x y c, p ∈ acc_kept acc -> q ∈ acc_kept acc ->
    on_device d n p x c -> on_device d n q y c -> p = q;
  en_rest : forall p, p ∉ acc_kept acc -> nb_ips n !! p = nb_ips n0 !! p
}.

Lemma kept_keep_ip acc id c : acc_kept (keep_ip acc id c) = {[id]} ∪ acc_kept acc.
Proof. unfold keep_ip. by destruct (is_ipv4_cidr c). Qed.

Lemma by_name_some name id : current_by_name (nb_read_interfaces d n0) !! name = Some id -> nb_ifaces n0 !! id = Some (d, name).
Proof.
  intros Hl%list_to_map_snd. apply list_elem_of_In, in_rev, list_elem_of_In, list_elem_of_fmap in Hl as (i & [= -> ->] & Hi).
  apply nb_read_ifaces. eauto.
Qed.

Lemma by_name_none name f : current_by_name (nb_read_interfaces d n0) !! name = None -> nb_ifaces n0 !! f <> Some (d, name).
Proof.
  intros Hl (i & Hi & <- & <-)%nb_read_ifaces. apply not_elem_of_list_to_map_2 in Hl. apply Hl.
  apply list_elem_of_fmap. exists (if_name i, if_id i). split; [done|].
  apply list_elem_of_In, in_rev. rewrite rev_involutive. apply list_elem_of_In, list_elem_of_fmap. eauto.
Qed.

Lemma existing_some c id f : existing_ips (nb_read_interfaces d n0) !! c = Some (id, f) ->
  nb_ips n0 !! id = Some (f, c) /\ exists name, nb_ifaces n0 !! f = Some (d, name).
Proof.
  intros Hl%list_to_map_snd. apply list_elem_of_In, in_flat_map in Hl as (i & Hi & Hp).
  apply list_elem_of_In in Hi. apply list_elem_of_In, list_elem_of_fmap in Hp as (p & [= -> -> ->] & Hp).
  split; [by apply (nb_read_ips d n0)|]. exists (if_name i). apply nb_read_ifaces. eauto.
Qed.

Lemma ensure_interface names pairs acc name :
  name ∉ names ->
  runs (Ensured names pairs acc)
    (match current_by_name (nb_read_interfaces d n0) !! name with
     | Some id => nb_ret id | None => create_interface d name end)
    (fun f n => Ensured (names ++ [name]) pairs acc n /\ nb_ifaces n !! f = Some (d, name)).
Proof.
  intros Hnew. destruct (_ !! name) as [id|] eqn:E.
  - apply by_name_some in E. apply runs_ret. intros n [ ]. assert (nb_ifaces n !! id = Some (d, name)) by auto.
    split; [|done]. constructor; try done.
    + intros f v Hf. destruct (en_new0 f v Hf) as [|(? & x & ? & ?)]; [auto|]. right. set_solver.
    + intros x [Hx|Hx]%elem_of_app; [auto|]. apply list_elem_of_singleton in Hx as ->. eauto.
    + intros p Hp. destruct (en_kept0 p Hp) as (x & c & ? & ? & ?). exists x, c. set_solver.
  - apply runs_call. intros n [ ]. simpl. destruct (nb_create_interface d name n) as [n' f] eqn:Ec. simpl.
    destruct (nb_create_interface_spec _ _ _ _ _ Ec) as (Hf & Hi & Hp).
    assert (forall g v, nb_ifaces n !! g = Some v -> nb_ifaces n' !! g = Some v) as Hmono.
    { intros g v Hg. rewrite Hi, lookup_insert_ne; [done|]. intros <-. congruence. }
    assert (forall p x c, on_device d n p x c -> on_device d n' p x c) as Hon.
    { intros p x c (g & ? & ?). exists g. rewrite Hp. auto. }
    split; [|by rewrite Hi, lookup_insert_eq].
    assert (forall p x c, p ∈ acc_kept acc -> on_device d n' p x c -> on_device d n p x c) as Hback.
    { intros p x c Hk (g & Hg & Hg'). rewrite Hp in Hg. destruct (en_kept0 p Hk) as (x' & c' & _ & _ & (g' & Hg1 & Hg2) & _).
      exists g. split; [done|]. rewrite Hi, lookup_insert_ne in Hg'; [done|]. intros ->. congruence. }
    assert (forall g v, nb_ifaces n' !! g = Some v -> (g = f /\ v = (d, name)) \/ nb_ifaces n !! g = Some v) as Hcase.
    { intros g v. rewrite Hi. destruct (decide (f = g)) as [->|]; [rewrite lookup_insert_eq; intros [= <-]; auto|].
      rewrite lookup_insert_ne by done. auto. }
    assert (forall g, nb_ifaces n !! g <> Some (d, name)) as Hno.
    { intros g Hg. destruct (en_new0 g _ Hg) as [Hg0|(_ & x & Hx & [= <-])]; [by apply by_name_none in Hg0|done]. }
    constructor; eauto.
    + intros g v [[-> ->]|Hg]%Hcase.
      * right. split; [|set_solver]. destruct (nb_ifaces n0 !! f) eqn:E0; [|done]. apply en_old0 in E0. congruence.
      * destruct (en_new0 g v Hg) as [|(? & x & ? & ?)]; [auto|]. right. set_solver.
    + intros x [Hx|Hx]%elem_of_app; [destruct (en_names0 x Hx); eauto|]. apply list_elem_of_singleton in Hx as ->.
      exists f. by rewrite Hi, lookup_insert_eq.
    + intros x y nm [[-> Hx]|Hx]%Hcase [[-> Hy]|Hy]%Hcase; simplify_eq; try done; [by apply Hno in Hy|by apply Hno in Hx|eauto].
    + intros x c Hx. destruct (en_placed0 x c Hx) as (p & ? & ?). eauto.
    + intros p Hk. destruct (en_kept0 p Hk) as (x & c & ? & ? & ? & ?). exists x, c. split; [done|]. split; [set_solver|]. auto.
    + intros p Hk. rewrite Hp. auto.
Qed.

(** One more address is on the interface that carries it. *)
Lemma ensured_place names pairs acc name f c id n n' :
  Ensured names pairs acc n -> name ∈ names -> nb_ifaces n !! f = Some (d, name) -> c ∉ pairs.*2 ->
  (forall v, nb_ips n0 !! id = Some v -> snd v = c /\ exists name0, nb_ifaces n0 !! fst v = Some (d, name0)) ->
  id ∉ acc_kept acc -> nb_ifaces n' = nb_ifaces n -> nb_ips n' !! id = Some (f, c) ->
  (forall p, p <> id -> nb_ips n' !! p = nb_ips n !! p) ->
  Ensured names (pairs ++ [(name, c)]) (keep_ip acc id c) n'.
Proof.
  intros [ ] Hnm Hf Hc Hid Hk Hi Hp Hrest.
  assert (forall p x y, p <> id -> on_device d n' p x y <-> on_device d n p x y) as Hon.
  { intros p x y Hne. unfold on_device. by rewrite Hi, Hrest. }
  assert (on_device d n' id name c) as Hnew by (exists f; by rewrite Hi).
  assert (forall x y, on_device d n' id x y -> x = name /\ y = c) as Hinv.
  { intros x y (g & Hg & Hg'). rewrite Hp in Hg. injection Hg as <- <-. rewrite Hi in Hg'. split; congruence. }
  assert (forall p x, p ∈ acc_kept acc -> ~ on_device d n p x c) as Hfresh.
  { intros p x Hkp (g & Hg & _). destruct (en_kept0 p Hkp) as (x' & c' & Hin & _ & (g' & Hg' & _) & _).
    rewrite Hg in Hg'. injection Hg' as <- <-. apply Hc, list_elem_of_fmap. by exists (x', c). }
  assert (forall p, p ∈ acc_kept acc -> p <> id) as Hne by (intros p Hkp ->; done).
  constructor; rewrite ?kept_keep_ip, ?Hi; try done.
  - unfold names_unique. rewrite Hi. exact en_unique0.
  - intros x y [Hin|Hin]%elem_of_app.
    + destruct (en_placed0 x y Hin) as (p & Hkp & ?). exists p. split; [set_solver|]. apply Hon; auto.
    + apply list_elem_of_singleton in Hin as [= -> ->]. exists id. set_solver.
  - intros p [->%elem_of_singleton|Hkp]%elem_of_union.
    + exists name, c. split; [set_solver|]. auto.
    + destruct (en_kept0 p Hkp) as (x & y & ? & ? & ? & ?). exists x, y. split; [set_solver|]. split; [done|].
      split; [by apply Hon; auto|done].
  - intros p q x y z [->%elem_of_singleton|Hkp]%elem_of_union [->%elem_of_singleton|Hkq]%elem_of_union Hop Hoq; [done| | |].
    + apply Hinv in Hop as [_ ->]. apply Hon in Hoq; [|auto]. by apply Hfresh in Hoq.
    + apply Hinv in Hoq as [_ ->]. apply Hon in Hop; [|auto]. by apply Hfresh in Hop.
    + apply Hon in Hop, Hoq; eauto.
  - intros p Hkp. rewrite Hrest; set_solver.
Qed.

Lemma ensure_ip names pairs acc name f c :
  name ∈ names -> c ∉ pairs.*2 ->
  runs (fun n => Ensured names pairs acc n /\ nb_ifaces n !! f = Some (d, name))
    (match existing_ips (nb_read_interfaces d n0) !! c with
     | Some (id, cur) => if bool_decide (cur = f) then nb_ret id else nb_bind (move_ip id f) (fun _ => nb_ret id)
     | None => create_ip f c
     end)
    (fun id n => Ensured names (pairs ++ [(name, c)]) (keep_ip acc id c) n /\ nb_ifaces n !! f = Some (d, name)).
Proof.
  intros Hnm Hc. destruct (_ !! c) as [[id cur]|] eqn:E.
  - apply existing_some in E as [Hp0 [x Hcur]].
    assert (forall names' acc' n, Ensured names' pairs acc' n -> id ∉ acc_kept acc' /\ nb_ips n !! id = Some (cur, c)) as Hold.
    { intros names' acc' n [ ]. assert (id ∉ acc_kept acc') as Hk.
      { intros Hk. destruct (en_kept0 id Hk) as (y & c' & Hin & _ & _ & Hv). destruct (Hv _ Hp0) as [Hs _]. simpl in Hs. subst c'.
        apply Hc, list_elem_of_fmap. by exists (y, c). }
      split; [done|]. by rewrite en_rest0. }
    assert (forall v, nb_ips n0 !! id = Some v -> snd v = c /\ exists name0, nb_ifaces n0 !! fst v = Some (d, name0)) as Hid.
    { intros v Hv. rewrite Hp0 in Hv. injection Hv as <-. simpl. eauto. }
    case_bool_decide as Ef.
    + subst cur. apply runs_ret. intros n [He Hf]. destruct (Hold _ _ _ He) as [Hk Hp]. split; [|done].
      by eapply ensured_place.
    + eapply (runs_bind _ _ _ (fun _ n => Ensured names (pairs ++ [(name, c)]) (keep_ip acc id c) n /\ nb_ifaces n !! f = Some (d, name))).
      * apply runs_call. intros n [He Hf]. destruct (Hold _ _ _ He) as [Hk Hp]. simpl.
        destruct (nb_move_ip_spec id f n) as [Hm Hi]. rewrite Hi. split; [|done].
        eapply (ensured_place _ _ _ _ f); try done; [rewrite Hm, lookup_alter_eq, Hp; done|].
        intros p Hne. rewrite Hm. by apply lookup_alter_ne.
      * intros []. by apply runs_ret.
  - apply runs_call. intros n [He Hf]. simpl. destruct (nb_create_ip f c n) as [n' id] eqn:Ec. simpl.
    destruct (nb_create_ip_spec _ _ _ _ _ Ec) as (Hn & Hp & Hi). rewrite Hi. split; [|done].
    assert (id ∉ acc_kept acc) as Hk.
    { intros Hk. destruct (en_kept _ _ _ _ He id Hk) as (? & ? & _ & _ & (g & Hg & _) & _). congruence. }
    eapply (ensured_place _ _ _ _ f); try done.
    + intros v Hv. rewrite <- (en_rest _ _ _ _ He id Hk), Hn in Hv. done.
    + by rewrite Hp, lookup_insert_eq.
    + intros p Hne. by rewrite Hp, lookup_insert_ne by done.
Qed.

Lemma sync_ips_runs names pairs acc name f cidrs :
  name ∈ names -> NoDup (pairs.*2 ++ cidrs) ->
  runs (fun n => Ensured names pairs acc n /\ nb_ifaces n !! f = Some (d, name))
    (sync_ips (existing_ips (nb_read_interfaces d n0)) f cidrs acc)
    (fun acc' n => Ensured names (pairs ++ ((fun c => (name, c)) <$> cidrs)) acc' n).
Proof.
  intros Hnm. revert pairs acc. induction cidrs as [|c cidrs IH]; intros pairs acc Hnd; cbn [sync_ips].
  - apply runs_ret. intros n [He _]. simpl. by rewrite app_nil_r.
  - apply NoDup_app in Hnd as (Hnd1 & Hdis & Hnd2). apply NoDup_cons in Hnd2 as [Hc Hnd2].
    eapply runs_bind; [apply (ensure_ip names pairs acc name f c Hnm); set_solver|]. intros id.
    eapply runs_post; [|apply IH].
    + intros acc' n He. simpl in *. by rewrite <- app_assoc in He.
    + rewrite fmap_app. simpl. rewrite <- app_assoc. simpl.
      apply NoDup_app. split; [done|]. split; [set_solver|]. by constructor.
Qed.

Lemma sync_interfaces_runs names pairs acc ifaces :
  NoDup (names ++ (ii_name <$> ifaces)) -> NoDup (pairs.*2 ++ (observed_pairs ifaces).*2) ->
  runs (Ensured names pairs acc)
    (sync_interfaces d (current_by_name (nb_read_interfaces d n0)) (existing_ips (nb_read_interfaces d n0)) ifaces acc)
    (fun acc' n => Ensured (names ++ (ii_name <$> ifaces)) (pairs ++ observed_pairs ifaces) acc' n).
Proof.
  revert names pairs acc. induction ifaces as [|i ifaces IH]; intros names pairs acc Hn Hc; cbn [sync_interfaces].
  - apply runs_ret. intros n He. simpl. by rewrite !app_nil_r.
  - rewrite fmap_cons in Hn.
    assert (ii_name i ∉ names) as Hnew by (apply NoDup_app in Hn as (_ & Hd & _); set_solver).
    eapply runs_bind; [by apply ensure_interface|]. intros f.
    assert ((observed_pairs (i :: ifaces)).*2 = omap to_cidr (ii_ip_addresses i) ++ (observed_pairs ifaces).*2) as Hobs.
    { unfold observed_pairs. simpl. rewrite fmap_app. f_equal. rewrite <- list_fmap_compose. simpl. apply list_fmap_id. }
    rewrite Hobs, app_assoc in Hc.
    eapply runs_bind; [apply (sync_ips_runs _ pairs acc (ii_name i) f); [set_solver|by apply NoDup_app in Hc as (? & _ & _)]|].
    intros acc'. eapply runs_post; [|apply IH].
    + intros acc'' n He. unfold observed_pairs in *. simpl. by rewrite <- !app_assoc in He.
    + by rewrite <- app_assoc.
    + rewrite fmap_app, <- list_fmap_compose. simpl. by rewrite list_fmap_id.
Qed.

(** ** The removal phase *)

(** [m'] is [m] without the keys of [P]. *)
Definition removed {A} (P : NbId -> Prop) (m m' : gmap NbId A) : Prop :=
  forall x, (P x -> m' !! x = None) /\ (~ P x -> m' !! x = m !! x).

Lemma removed_none {A} (P : NbId -> Prop) (m : gmap NbId A) : (forall x, ~ P x) -> removed P m m.
Proof. intros HP x. split; [by intros ?%HP|done]. Qed.

Lemma removed_iff {A} (P P' : NbId -> Prop) (m m' : gmap NbId A) : (forall x, P' x <-> P x) -> removed P m m' -> removed P' m m'.
Proof. intros HP Hr x. rewrite HP. apply Hr. Qed.

Lemma removed_delete {A} (P P' : NbId -> Prop) (m m' : gmap NbId A) y :
  (forall x, P' x <-> P x \/ x = y) -> removed P m m' -> removed P' m (delete y m').
Proof.
  intros HP Hr x. rewrite HP. destruct (decide (x = y)) as [->|Hne].
  - rewrite lookup_delete_eq. tauto.
  - rewrite lookup_delete_ne by done. destruct (Hr x). tauto.
Qed.

Lemma prune_ips n1 (kept : gset NbId) (l : list NbIp) :
  runs (fun n => n = n1)
    (for_each l (fun ip => if bool_decide (ip_id ip ∈ kept) then nb_ret tt else delete_ip (ip_id ip)))
    (fun _ n => nb_ifaces n = nb_ifaces n1 /\ removed (fun p => p ∈ ip_id <$> l /\ p ∉ kept) (nb_ips n1) (nb_ips n)).
Proof.
  eapply runs_pre; [|apply (runs_for_each (fun pre n => nb_ifaces n = nb_ifaces n1 /\
    removed (fun p => p ∈ ip_id <$> pre /\ p ∉ kept) (nb_ips n1) (nb_ips n)) l _) with (pre := [])].
  { intros n ->. split; [done|]. apply removed_none. set_solver. }
  intros pre x _. case_bool_decide as Ek.
  - apply runs_ret. intros n [Hi Hp]. split; [done|]. eapply removed_iff, Hp. intros p. rewrite fmap_app. set_solver.
  - apply runs_call. intros n [Hi Hp]. simpl. destruct (nb_delete_ip_spec (ip_id x) n) as [Hd Hdi].
    rewrite Hdi, Hd. split; [done|]. eapply removed_delete, Hp. intros p. rewrite fmap_app. set_solver.
Qed.

Lemma prune_interfaces n1 (desired : gset string) (l : list NbInterface) :
  (forall i p a, i ∈ l -> if_name i ∉ desired -> nb_ips n1 !! p <> Some (if_id i, a)) ->
  runs (fun n => n = n1)
    (for_each l (fun i => if bool_decide (if_name i ∈ desired) then nb_ret tt else delete_interface (if_id i)))
    (fun _ n => nb_ips n = nb_ips n1 /\
       removed (fun f => exists i, i ∈ l /\ if_id i = f /\ if_name i ∉ desired) (nb_ifaces n1) (nb_ifaces n)).
Proof.
  intros Hfree.
  eapply runs_pre; [|apply (runs_for_each (fun pre n => nb_ips n = nb_ips n1 /\
    removed (fun f => exists i, i ∈ pre /\ if_id i = f /\ if_name i ∉ desired) (nb_ifaces n1) (nb_ifaces n)) l _) with (pre := [])].
  { intros n ->. split; [done|]. apply removed_none. set_solver. }
  intros pre x Hx. case_bool_decide as Ek.
  - apply runs_ret. intros n [Hi Hp]. split; [done|]. eapply removed_iff, Hp. intros f. set_solver.
  - apply runs_call. intros n [Hi Hp]. simpl.
    destruct (nb_delete_interface_spec (if_id x) n) as [Hd Hdi]; [intros p a; rewrite Hi; by apply Hfree|].
    rewrite Hdi, Hd. split; [done|]. eapply removed_delete, Hp. intros f. set_solver.
Qed.

Definition stale_ip (kept : gset NbId) (p : NbId) : Prop :=
  p ∈ ip_id <$> flat_map if_ips (nb_read_interfaces d n0) /\ p ∉ kept.
Definition stale_interface (names : list string) (f : NbId) : Prop :=
  exists i, i ∈ nb_read_interfaces d n0 /\ if_id i = f /\ if_name i ∉ (list_to_set names : gset string).

Lemma stale_ip_iff kept p : stale_ip kept p <->
  p ∉ kept /\ exists f c name, nb_ips n0 !! p = Some (f, c) /\ nb_ifaces n0 !! f = Some (d, name).
Proof.
  unfold stale_ip. rewrite list_elem_of_fmap. split.
  - intros [(q & -> & Hq) Hk]. split; [done|]. apply list_elem_of_In, in_flat_map in Hq as (i & Hi & Hq).
    apply list_elem_of_In in Hi, Hq. apply (nb_read_ips d n0 i q Hi) in Hq. eexists _, _, (if_name i). split; [done|].
    apply nb_read_ifaces. eauto.
  - intros (Hk & f & c & name & Hp & (i & Hi & <- & <-)%nb_read_ifaces). split; [|done]. exists (mkNbIp p c). split; [done|].
    apply list_elem_of_In, in_flat_map. exists i. split; [by apply list_elem_of_In|].
    apply list_elem_of_In. by apply (nb_read_ips d n0 i _ Hi).
Qed.

Lemma stale_interface_iff names f : stale_interface names f <->
  exists name, nb_ifaces n0 !! f = Some (d, name) /\ name ∉ names.
Proof.
  unfold stale_interface. setoid_rewrite nb_read_ifaces. setoid_rewrite elem_of_list_to_set. split.
  - intros (i & ? & ? & ?). eauto 6.
  - intros (name & (i & ? & ? & <-) & ?). eauto.
Qed.

Section Pruned.
Context names pairs acc (n1 n4 : N) (Hen : Ensured names pairs acc n1) (Hassigned : assigned n0).
Context (Hips : removed (stale_ip (acc_kept acc)) (nb_ips n1) (nb_ips n4)).
Context (Hifaces : removed (stale_interface names) (nb_ifaces n1) (nb_ifaces n4)).

Lemma removed_lookup {A} P (m m' : gmap NbId A) x v : removed P m m' -> m' !! x = Some v -> m !! x = Some v.
Proof.
  intros Hr Hx. destruct (Hr x) as [H3 H4]. destruct (m !! x) as [u|] eqn:E.
  - assert (~ P x) as HP by (intros HP; rewrite H3 in Hx; done). by rewrite H4 in Hx.
  - assert (~ P x) as HP by (intros HP; rewrite H3 in Hx; done). by rewrite H4 in Hx.
Qed.

(** After the removals a device address is a kept one. *)
Lemma pruned_on_device p name c : on_device d n4 p name c <-> p ∈ acc_kept acc /\ on_device d n1 p name c.
Proof.
  destruct Hen. split.
  - intros (f & Hp & Hf). apply (removed_lookup _ _ _ _ _ Hifaces) in Hf.
    pose proof (removed_lookup _ _ _ _ _ Hips Hp) as Hp1. split; [|by exists f].
    destruct (decide (p ∈ acc_kept acc)) as [|Hk]; [done|exfalso].
    rewrite en_rest0 in Hp1 by done. destruct (Hassigned _ _ _ Hp1) as [v Hv].
    pose proof (en_old0 _ _ Hv) as Hv1. rewrite Hf in Hv1. injection Hv1 as <-.
    destruct (Hips p) as [Hgone _]. rewrite Hgone in Hp; [done|]. apply stale_ip_iff. eauto 8.
  - intros [Hk (f & Hp & Hf)]. exists f. destruct (Hips p) as [_ ->]; [|by rewrite stale_ip_iff; intros [? _]].
    destruct (Hifaces f) as [_ ->]; [done|]. intros (nm & Hf0 & Hnm)%stale_interface_iff.
    apply en_old0 in Hf0. destruct (en_kept0 p Hk) as (x & c' & _ & Hx & (g & Hg & Hg') & _). congruence.
Qed.

Lemma pruned_matches observed :
  names = ii_name <$> inv_interfaces observed -> pairs = observed_pairs (inv_interfaces observed) ->
  device_matches d observed n4 /\ others_unchanged d n0 n4.
Proof.
  intros Hns Hps. unfold device_matches. rewrite <- Hns, <- Hps. pose proof pruned_on_device as Hon. destruct Hen.
  assert (forall f name, nb_ifaces n1 !! f = Some (d, name) -> name ∈ names -> nb_ifaces n4 !! f = Some (d, name)) as Hkeep.
  { intros f name Hf Hnm. destruct (Hifaces f) as [_ ->]; [done|].
    intros (nm & Hf0 & Hn)%stale_interface_iff. apply en_old0 in Hf0. congruence. }
  split; [repeat split|split].
  - intros Hnm. destruct (en_names0 name Hnm) as [f Hf]. eauto.
  - intros [f Hf]. pose proof (removed_lookup _ _ _ _ _ Hifaces Hf) as Hf1.
    destruct (en_new0 _ _ Hf1) as [Hf0|(_ & x & Hx & [= ->])]; [|done].
    destruct (decide (name ∈ names)) as [|Hn]; [done|]. destruct (Hifaces f) as [Hgone _].
    rewrite Hgone in Hf; [done|]. apply stale_interface_iff. eauto.
  - intros Hp. destruct (en_placed0 _ _ Hp) as (p & Hk & Hd). exists p. by apply Hon.
  - intros (p & [Hk (f & Hp & Hf)]%Hon). destruct (en_kept0 p Hk) as (x & c' & Hin & _ & (g & Hg & Hg') & _). congruence.
  - intros x y name Hx%(removed_lookup _ _ _ _ _ Hifaces) Hy%(removed_lookup _ _ _ _ _ Hifaces). eauto.
  - intros p q x y c [Hk Hp]%Hon [Hq Hq']%Hon. eauto.
  - intros f e name Hne. split; intros Hf.
    + destruct (Hifaces f) as [_ ->]; [auto|]. intros (nm & Hf0 & _)%stale_interface_iff. congruence.
    + apply (removed_lookup _ _ _ _ _ Hifaces) in Hf. destruct (en_new0 _ _ Hf) as [|(_ & x & _ & [= ? _])]; [done|congruence].
  - intros p f c Hf Hp. destruct (Hassigned _ _ _ Hp) as [[e nm] Hv].
    assert (p ∉ acc_kept acc) as Hk.
    { intros Hk. destruct (en_kept0 p Hk) as (x & c' & _ & _ & _ & Hv0). destruct (Hv0 _ Hp) as [_ [nm0 Hf0]].
      by apply Hf in Hf0. }
    destruct (Hips p) as [_ ->]; [by rewrite en_rest0|].
    intros (_ & f' & c' & nm' & Hp' & Hf')%stale_ip_iff. rewrite Hp in Hp'. injection Hp' as <- <-. by apply Hf in Hf'.
Qed.
End Pruned.

Lemma prune_runs names pairs acc n1 (current := nb_read_interfaces d n0) :
  Ensured names pairs acc n1 -> assigned n0 ->
  runs (fun n => n = n1)
    (nb_bind (for_each current (fun cur => for_each (if_ips cur) (fun ip =>
              if bool_decide (ip_id ip ∈ acc_kept acc) then nb_ret tt else delete_ip (ip_id ip))))
       (fun _ => for_each current (fun cur =>
          if bool_decide (if_name cur ∈ (list_to_set names : gset string)) then nb_ret tt else delete_interface (if_id cur))))
    (fun _ n => removed (stale_ip (acc_kept acc)) (nb_ips n1) (nb_ips n) /\
       removed (stale_interface names) (nb_ifaces n1) (nb_ifaces n)).
Proof.
  intros Hen Has. eapply runs_bind; [eapply runs_ext; [intros w; apply for_each_flat_map|apply prune_ips]|]. intros [].
  apply runs_at. intros n3 [Hi Hp]. eapply runs_post; [|apply prune_interfaces].
  - intros _ n [-> Hr]. rewrite Hi in Hr. split; [exact Hp|exact Hr].
  - intros i p a Hin Hnm Hpa. pose proof (removed_lookup _ _ _ _ _ Hp Hpa) as Hp1.
    assert (nb_ifaces n0 !! if_id i = Some (d, if_name i)) as Hf0 by (apply nb_read_ifaces; eauto).
    rewrite elem_of_list_to_set in Hnm. destruct (decide (p ∈ acc_kept acc)) as [Hk|Hk].
    + destruct Hen. destruct (en_kept0 p Hk) as (x & c & _ & Hx & (g & Hg & Hg') & _). apply en_old0 in Hf0. congruence.
    + rewrite (en_rest _ _ _ _ Hen p Hk) in Hp1. destruct (Hp p) as [Hgone _]. rewrite Hgone in Hpa; [done|].
      apply stale_ip_iff. eauto 8.
Qed.
End Reconcile.

Section Converges.
Context `{Crypto} `{UuidLib} {N : Type} `{NetboxLaws N}.

Lemma ensured_start d (n0 : N) : names_unique d n0 -> Ensured d n0 [] [] (mkAcc None None ∅) n0.
Proof. intros Hu. constructor; try done; [auto|..]; simpl; set_solver. Qed.

Lemma reconcile_runs d host observed (n0 : N) :
  names_unique d n0 -> assigned n0 -> NoDup (ii_name <$> inv_interfaces observed) ->
  NoDup (observed_pairs (inv_interfaces observed)).*2 ->
  runs (fun n => n = n0) (reconcile d host observed)
    (fun _ n => device_matches d observed n /\ others_unchanged d n0 n).
Proof.
  intros Hu Has Hn Hp. unfold reconcile.
  eapply (runs_bind _ _ _ (fun current n => current = nb_read_interfaces d n0 /\ n = n0)).
  { apply runs_call. intros n ->. done. }
  intros current. apply runs_at. intros n [-> ->].
  eapply runs_bind.
  { eapply runs_pre; [|apply (sync_interfaces_runs d n0 [] []); assumption]. intros n ->. by apply ensured_start. }
  intros acc. cbn beta. rewrite !app_nil_l.
  eapply (runs_bind _ _ _ (fun _ => Ensured d n0 (ii_name <$> inv_interfaces observed) (observed_pairs (inv_interfaces observed)) acc)).
  { apply runs_call. intros n [ ]. simpl. destruct (nb_finalize_spec d (acc_p4 acc) (acc_p6 acc) (uuid_to_string (host_uuid host)) n) as [Hfp Hfi].
    constructor; unfold on_device, names_unique in *; rewrite ?Hfp, ?Hfi; done. }
  intros []. apply runs_at. intros n1 Hen. eapply runs_post; [|by eapply prune_runs].
  intros [] n [Hr1 Hr2]. by eapply pruned_matches.
Qed.

(** ** A repeated run *)

Section Repeat.
Context (d : NbId) (n : N) (observed : Inventory) (Hm : device_matches d observed n).

Lemma by_name_iff name f : nb_ifaces n !! f = Some (d, name) -> current_by_name (nb_read_interfaces d n) !! name = Some f.
Proof.
  intros Hf. destruct (current_by_name _ !! name) as [g|] eqn:E; [|by eapply by_name_none in E].
  apply by_name_some in E. f_equal. by eapply (proj1 (proj2 (proj2 Hm))).
Qed.

Lemma existing_iff p f c name : nb_ips n !! p = Some (f, c) -> nb_ifaces n !! f = Some (d, name) ->
  existing_ips (nb_read_interfaces d n) !! c = Some (p, f).
Proof.
  intros Hp Hf. destruct (existing_ips _ !! c) as [[q g]|] eqn:E.
  - apply existing_some in E as [Hq [nm Hg]].
    assert (p = q) as <- by (eapply (proj2 (proj2 (proj2 Hm))); [exists f; eauto|exists g; eauto]). congruence.
  - apply not_elem_of_list_to_map_2 in E. destruct E. apply list_elem_of_fmap. exists (c, (p, f)). split; [done|].
    apply nb_read_ifaces in Hf as (i & Hi & <- & _). apply list_elem_of_In, in_flat_map. exists i.
    split; [by apply list_elem_of_In|]. apply list_elem_of_In, list_elem_of_fmap. exists (mkNbIp p c).
    split; [done|]. by apply (nb_read_ips d n).
Qed.

(** The addresses of one interface are all in place. *)
Lemma sync_ips_quiet f name cidrs acc (w : World N) :
  nb_ifaces n !! f = Some (d, name) -> (forall c, c ∈ cidrs -> exists p, on_device d n p name c) ->
  exists acc', sync_ips (existing_ips (nb_read_interfaces d n)) f cidrs acc w = (w, Ok acc') /\
    acc_kept acc ⊆ acc_kept acc' /\ forall p c, c ∈ cidrs -> on_device d n p name c -> p ∈ acc_kept acc'.
Proof.
  intros Hf. revert acc. induction cidrs as [|c cidrs IH]; intros acc Hc; [exists acc; set_solver|].
  destruct (Hc c) as (p & g & Hp & Hg); [by left|].
  assert (g = f) as -> by (by eapply (proj1 (proj2 (proj2 Hm)))).
  destruct (IH (keep_ip acc p c)) as (acc' & Hs & Hsub & Hall); [intros; apply Hc; by right|].
  exists acc'. rewrite kept_keep_ip in Hsub. split; [|split; [set_solver|]].
  - cbn [sync_ips]. rewrite (existing_iff p f c name), bool_decide_eq_true_2 by done. exact Hs.
  - intros q c' [->|Hin]%elem_of_cons Hq; [|by eapply Hall]. assert (q = p) as ->; [|set_solver].
    eapply (proj2 (proj2 (proj2 Hm))); [done|]. exists f. eauto.
Qed.

Lemma sync_interfaces_quiet ifaces acc (w : World N) :
  ifaces ⊆ inv_interfaces observed ->
  exists acc', sync_interfaces d (current_by_name (nb_read_interfaces d n)) (existing_ips (nb_read_interfaces d n)) ifaces acc w = (w, Ok acc') /\
    acc_kept acc ⊆ acc_kept acc' /\
    forall p name c, (name, c) ∈ observed_pairs ifaces -> on_device d n p name c -> p ∈ acc_kept acc'.
Proof.
  destruct Hm as (Hnames & Hpairs & _). revert acc. induction ifaces as [|i ifaces IH]; intros acc Hin; [exists acc; set_solver|].
  destruct (proj1 (Hnames (ii_name i))) as [f Hf]; [apply list_elem_of_fmap; exists i; set_solver|].
  destruct (sync_ips_quiet f (ii_name i) (omap to_cidr (ii_ip_addresses i)) acc w Hf) as (a1 & Hs1 & Hsub1 & Hall1).
  { intros c Hc. apply Hpairs. apply list_elem_of_In, in_flat_map. exists i. split; [apply list_elem_of_In; set_solver|].
    apply list_elem_of_In, list_elem_of_fmap. eauto. }
  destruct (IH a1) as (a2 & Hs2 & Hsub2 & Hall2); [set_solver|].
  exists a2. split; [|split; [set_solver|]].
  - cbn [sync_interfaces]. rewrite (by_name_iff _ _ Hf). simpl. unfold nbind. simpl. by rewrite Hs1.
  - intros p name c [Hp|Hp]%elem_of_app Hon; [|by eapply Hall2].
    apply list_elem_of_fmap in Hp as (c' & [= -> ->] & Hc). apply Hsub2. by eapply Hall1.
Qed.

Lemma for_each_skip {A} (l : list A) (f : A -> NB N unit) w : (forall x w, x ∈ l -> f x w = (w, Ok tt)) -> for_each l f w = (w, Ok tt).
Proof.
  intros Hf. induction l as [|x l IH]; [done|]. simpl. unfold nbind. rewrite Hf by by left. apply IH.
  intros y w' Hy. apply Hf. by right.
Qed.

(** On a device that already matches, a run only reads and stamps. *)
Lemma reconcile_quiet host (w : World N) :
  w_faults w = [] -> w_nb w = n ->
  exists p4 p6 w', reconcile d host observed w = (w', Ok tt) /\
    w_calls w' = w_calls w ++ [CRead d (Ok (nb_read_interfaces d n)); CFinalize d p4 p6 (uuid_to_string (host_uuid host)) (Ok tt)].
Proof.
  intros Hf Hn. unfold reconcile, read_interfaces. simpl. unfold nbind at 1, call at 1. rewrite Hf, Hn. simpl.
  destruct (sync_interfaces_quiet (inv_interfaces observed) (mkAcc None None ∅)
    (mkWorld n [] (w_calls w ++ [CRead d (Ok (nb_read_interfaces d n))]))) as (acc & Hs & _ & Hall); [done|].
  exists (acc_p4 acc), (acc_p6 acc). unfold nbind at 1. rewrite Hs. unfold nbind at 1. simpl. unfold nbind.
  assert (forall i, i ∈ nb_read_interfaces d n -> nb_ifaces n !! if_id i = Some (d, if_name i)) as Hread.
  { intros i Hi. apply nb_read_ifaces. eauto. }
  destruct Hm as (Hnames & Hpairs & _).
  rewrite for_each_skip.
  2: { intros i w' Hi. apply for_each_skip. intros p w'' Hp. rewrite bool_decide_eq_true_2; [done|].
       apply (nb_read_ips d n i p Hi) in Hp. assert (on_device d n (ip_id p) (if_name i) (ip_address p)) as Hon by (exists (if_id i); auto).
       eapply Hall; [|done]. apply Hpairs. eauto. }
  rewrite for_each_skip.
  2: { intros i w' Hi. rewrite bool_decide_eq_true_2; [done|]. apply elem_of_list_to_set, Hnames. eauto. }
  eexists. split; [done|]. simpl. by rewrite <- app_assoc.
Qed.
End Repeat.
End Converges.

(** C37. Reconciliation reaches the observed inventory.  When no call fails, on a device
    with one interface per name and for a snapshot without duplicate interface names or
    addresses, [reconcile] succeeds, leaves the device with exactly the observed
    interfaces and each observed address once, on the interface that carries it, and
    changes nothing of any other device; running it again only reads and stamps. *)
Theorem reconcile_converges `{Crypto} `{UuidLib} {N} `{NetboxLaws N} d host observed (w : World N) :
  w_faults w = [] -> names_unique d (w_nb w) -> assigned (w_nb w) ->
  NoDup (ii_name <$> inv_interfaces observed) -> NoDup (observed_pairs (inv_interfaces observed)).*2 ->
  exists w1, reconcile (M := NB N) d host observed w = (w1, Ok tt) /\
    device_matches d observed (w_nb w1) /\ others_unchanged d (w_nb w) (w_nb w1) /\
    exists w2 r p4 p6, reconcile (M := NB N) d host observed w1 = (w2, Ok tt) /\
      w_calls w2 = w_calls w1 ++ [CRead d (Ok r); CFinalize d p4 p6 (uuid_to_string (host_uuid host)) (Ok tt)].
Proof.
  intros Hf Hu Ha Hn Hp. destruct (reconcile_runs d host observed (w_nb w) Hu Ha Hn Hp w Hf eq_refl) as ([] & Hr & Hf1 & Hm & Ho).
  destruct (reconcile (M := NB N) d host observed w) as [w1 r1]. simpl in *. subst r1. exists w1. split; [done|]. split; [done|]. split; [done|].
  destruct (reconcile_quiet d (w_nb w1) observed Hm host w1 Hf1 eq_refl) as (p4 & p6 & w2 & Hr2 & Hc2).
  exists w2, (nb_read_interfaces d (w_nb w1)), p4, p6. done.
Qed.

(** ** A reference NetBox *)

Record RefNb := mkRefNb {
  rf_devices : gmap NbId (string * option string);
  rf_ifaces : gmap NbId (NbId * string);
  rf_ips : gmap NbId (NbId * string)
}.

Definition rf_if_ips (n : RefNb) (f : NbId) : list NbIp :=
  omap (fun '(id, (g, a)) => if bool_decide (g = f) then Some (mkNbIp id a) else None) (map_to_list (rf_ips n)).
Definition rf_read (d : NbId) (n : RefNb) : list NbInterface :=
  omap (fun '(id, (e, name)) => if bool_decide (e = d) then Some (mkNbInterface id name (rf_if_ips n id)) else None)
    (map_to_list (rf_ifaces n)).
Definition rf_match (serial : string) (n : RefNb) : SerialMatch :=
  match omap (fun '(id, (s, h)) => if bool_decide (s = serial) then Some (mkDeviceRef id h) else None)
          (map_to_list (rf_devices n)) with
  | [] => MatchNone
  | [dev] => MatchOne dev
  | l => MatchMany (length l)
  end.

#[global] Instance ref_netbox : NetboxDevices RefNb := {|
  nb_match_by_serial := rf_match;
  nb_read_interfaces := rf_read;
  nb_create_interface d name n :=
    let id := fresh (dom (rf_ifaces n)) in
    (mkRefNb (rf_devices n) (<[id := (d, name)]> (rf_ifaces n)) (rf_ips n), id);
  nb_delete_interface id n := mkRefNb (rf_devices n) (delete id (rf_ifaces n)) (rf_ips n);
  nb_create_ip f a n :=
    let id := fresh (dom (rf_ips n)) in
    (mkRefNb (rf_devices n) (rf_ifaces n) (<[id := (f, a)]> (rf_ips n)), id);
  nb_move_ip id f n := mkRefNb (rf_devices n) (rf_ifaces n) (alter (fun p => (f, snd p)) id (rf_ips n));
  nb_delete_ip id n := mkRefNb (rf_devices n) (rf_ifaces n) (delete id (rf_ips n));
  nb_finalize_device d p4 p6 h n := mkRefNb (alter (fun p => (fst p, Some h)) d (rf_devices n)) (rf_ifaces n) (rf_ips n)
|}.

Lemma rf_read_elem d n i : i ∈ rf_read d n <->
  rf_ifaces n !! if_id i = Some (d, if_name i) /\ if_ips i = rf_if_ips n (if_id i).
Proof.
  unfold rf_read. rewrite list_elem_of_omap. split.
  - intros ([id [e name]] & Hin & Hs). apply elem_of_map_to_list in Hin. case_bool_decide; simplify_eq/=. done.
  - intros [Hl He]. exists (if_id i, (d, if_name i)). split; [by apply elem_of_map_to_list|].
    rewrite bool_decide_eq_true_2 by done. destruct i. simpl in *. by rewrite He.
Qed.

Lemma rf_if_ips_elem n f p : p ∈ rf_if_ips n f <-> rf_ips n !! ip_id p = Some (f, ip_address p).
Proof.
  unfold rf_if_ips. rewrite list_elem_of_omap. split.
  - intros ([id [g a]] & Hin & Hs). apply elem_of_map_to_list in Hin. case_bool_decide; simplify_eq/=. done.
  - intros Hl. exists (ip_id p, (f, ip_address p)). split; [by apply elem_of_map_to_list|].
    rewrite bool_decide_eq_true_2 by done. by destruct p.
Qed.

#[global] Instance ref_netbox_laws : NetboxLaws RefNb.
Proof.
  refine {| nb_ifaces := rf_ifaces; nb_ips := rf_ips |}; simpl.
  - intros d n id name. split.
    + intros Hl. exists (mkNbInterface id name (rf_if_ips n id)). rewrite rf_read_elem. done.
    + by intros (i & [Hl _]%rf_read_elem & <- & <-).
  - intros d n i p [Hl He]%rf_read_elem. rewrite He. apply rf_if_ips_elem.
  - intros d name n n' id [= <- <-]. simpl. split; [apply not_elem_of_dom, is_fresh|done].
  - done.
  - intros f a n n' id [= <- <-]. simpl. split; [apply not_elem_of_dom, is_fresh|done].
  - done.
  - done.
  - done.
Defined.

Definition demo_netbox : RefNb :=
  mkRefNb {[ 7 := ("SN-42", None); 8 := ("SN-43", None) ]}
    {[ 1 := (7, "eth0"); 2 := (7, "old0"); 3 := (8, "eth0") ]}
    {[ 10 := (2, "192.0.2.5/32"); 11 := (1, "192.0.2.9/32"); 12 := (3, "192.0.2.9/32") ]}.
Definition demo_inventory : Inventory :=
  mkInventory (Some "SN-42") None [mkIface "eth0" "" ["192.0.2.5"]; mkIface "eth1" "" ["2001:db8::1"; "junk"]] [].

Lemma demo_names_unique : names_unique 7 demo_netbox.
Proof.
  intros x y name Hx Hy.
  assert (forall z, rf_ifaces demo_netbox !! z = Some (7, name) -> (z = 1 /\ name = "eth0") \/ (z = 2 /\ name = "old0")) as Hz.
  { intros z. unfold demo_netbox. simpl. rewrite !lookup_insert_Some, lookup_singleton_Some. naive_solver. }
  destruct (Hz _ Hx), (Hz _ Hy); naive_solver.
Qed.

Lemma demo_assigned : assigned demo_netbox.
Proof.
  intros p f c. unfold demo_netbox. simpl. rewrite !lookup_insert_Some, lookup_singleton_Some.
  intros Hp. assert (f = 1 \/ f = 2 \/ f = 3) as [->|[->| ->]] by naive_solver; by eexists.
Qed.

Lemma reconcile_converges_witness : exists w1,
  reconcile 7 demo_host demo_inventory (mkWorld demo_netbox [] []) = (w1, Ok tt) /\
  device_matches 7 demo_inventory (w_nb w1) /\ others_unchanged 7 demo_netbox (w_nb w1).
Proof.
  assert (NoDup (ii_name <$> inv_interfaces demo_inventory)) as Hn by (vm_compute; repeat constructor; set_solver).
  assert (NoDup (observed_pairs (inv_interfaces demo_inventory)).*2) as Hp by (vm_compute; repeat constructor; set_solver).
  destruct (reconcile_converges 7 demo_host demo_inventory (mkWorld demo_netbox [] []) eq_refl demo_names_unique demo_assigned Hn Hp)
    as (w1 & Hr & Hm & Ho & _). exists w1. done.
Defined.

(** A failed upsert leaves the dedup entry of the last success in place although it may
    already have written: the next report of the earlier snapshot is then taken as
    unchanged, with an observed address missing from the device. *)
Lemma failed_upsert_hides_later_snapshot :
  let inv (addrs extra : list string) := mkInventory (Some "SN-42") None
    (mkIface "eth0" "" addrs :: ((fun n => mkIface n "" []) <$> extra)) [] in
  let A := inv ["::5"] ["eth1"] in
  let B := inv ["::6"] [] in
  let '(s1, w1, r1) := upsert ∅ demo_host A (mkWorld demo_netbox [] []) in
  let faults := [NbOk; NbOk; NbOk; NbOk; NbOk; NbNotSent (Invalid "")] in
  let '(s2, w2, r2) := upsert s1 demo_host B (mkWorld (w_nb w1) faults []) in
  let '(s3, w3, r3) := upsert s2 demo_host A (mkWorld (w_nb w2) [] []) in
  r1 = Ok Updated /\ is_ok r2 = false /\ r3 = Ok Unchanged /\
  existsb (fun i => existsb (fun p => bool_decide (ip_address p = "::5/128")) (if_ips i))
    (nb_read_interfaces 7 (w_nb w1)) = true /\
  existsb (fun i => existsb (fun p => bool_decide (ip_address p = "::5/128")) (if_ips i))
    (nb_read_interfaces 7 (w_nb w3)) = false.
Proof. vm_compute. repeat split. Qed.

Lemma dedup_is_exact_witness :
  let o := mkInventory (Some "SN-42") None [mkIface "eth0" "" ["::5"]] [] in
  let '(synced, w', _) := upserts [(demo_host, o)] ∅ (mkWorld demo_netbox [] []) [] in
  snd (upsert synced demo_host o w') = Ok Unchanged.
Proof.
  intros o. assert (clean_inventory o) as Hc.
  { split; [intros serial Hs; vm_compute in Hs; injection Hs as <-; vm_compute; set_solver|].
    repeat constructor; vm_compute; set_solver. }
  assert (Forall (fun e => clean_inventory (snd e)) [(demo_host, o)]) as Hf by (apply Forall_singleton; exact Hc).
  pose proof (dedup_is_exact [(demo_host, o)] demo_host o "SN-42" (mkWorld demo_netbox [] []) eq_refl Hc Hf) as Hd.
  assert (last_update (snd (upserts [(demo_host, o)] ∅ (mkWorld demo_netbox [] []) [])) demo_host = Some o) as Hl
    by (vm_compute; reflexivity).
  destruct (upserts _ _ _ _) as [[synced w'] log]. by apply (proj1 Hd o).
Defined.
