(* ===== verification/NetboxClient.v ===== *)
(** * The NetBox REST adapter (osa-coordinator/src/netbox.rs, [NetboxClient])

    How the adapter turns NetBox's replies into the sink's terms, and what its writes
    carry.  The HTTP client is an interface: a call yields a page or object of JSON, or an
    error with an optional status. *)
From S2P Require Import Prelude Proto Concrete Text Ip Seal Registries Netbox.

(** ** JSON (serde_json) *)

Inductive Json :=
| JNull | JBool (b : bool) | JInt (n : Z) | JOther
| JString (s : string) | JArray (l : list Json) | JObject (fields : list (string * Json)).

(** [Value::get] with a key; an object's keys are distinct. *)
Definition json_get (k : string) (v : Json) : option Json :=
  match v with JObject fs => (list_to_map fs : gmap string Json) !! k | _ => None end.
Definition as_str (v : Json) : option string := match v with JString s => Some s | _ => None end.
(** [as_i64]: an integer within range. *)
Definition as_i64 (v : Json) : option Z :=
  match v with JInt n => if (- 2 ^ 63 <=? n) && (n <? 2 ^ 63) then Some n else None | _ => None end.

(** ** The client library (netbox) *)

Record NbError := mkNbError { ne_status : option Z; ne_text : string }.
Record Page (A : Type) := mkPage { pg_count : nat; pg_results : list A }.
Arguments mkPage {A}.
Arguments pg_count {A} p.
Arguments pg_results {A} p.
Record NbDevice := mkNbDevice { nd_id : option Z; nd_serial : option string; nd_custom_fields : option (list (string * Json)) }.

(** A write, as it leaves the adapter. *)
Inductive NbWrite :=
| WCreate (resource : string) (body : Json)
| WPatch (resource : string) (id : Z) (body : Json)
| WDelete (resource : string) (id : Z).

(** ** The adapter *)

Definition map_netbox_error (e : NbError) : PortError :=
  match ne_status e with
  | Some status => if ((400 <=? status) && (status <? 500)) && negb (status =? 429) then Invalid (ne_text e) else Backend (ne_text e)
  | None => Backend (ne_text e)
  end.

(** [match_by_serial], from the page the query returned. *)
Definition client_match_by_serial (serial : string) (reply : result (Page NbDevice) NbError) : result SerialMatch PortError :=
  let? page := map_err map_netbox_error reply in
  match pg_count page with
  | O => Ok MatchNone
  | S O =>
      let? device := ok_or (head (pg_results page)) (Backend "NetBox reported count=1 but returned no device") in
      if bool_decide ((fun s => eq_ignore_ascii_case s serial) <$> nd_serial device = Some true) then
        let? id := ok_or (nd_id device) (Backend "NetBox device has no id") in
        let host_id :=
          let! cf := nd_custom_fields device in
          let! v := (list_to_map cf : gmap string Json) !! CF_HOST_ID in
          let! s := as_str v in
          if is_empty s then None else Some s in
        Ok (MatchOne (mkDeviceRef id host_id))
      else Ok MatchNone
  | count => Ok (MatchMany count)
  end.

(** One address of the page: its interface and row, when it is assigned to one. *)
Definition assigned_ip (ip : Json) : option (Z * NbIp) :=
  if bool_decide ((let! v := json_get "assigned_object_type" ip in as_str v) = Some "dcim.interface") then
    let! iface := (let! v := json_get "assigned_object_id" ip in as_i64 v) in
    let! addr := (let! v := json_get "address" ip in as_str v) in
    let! id := (let! v := json_get "id" ip in as_i64 v) in
    Some (iface, mkNbIp id addr)
  else None.

(** The grouping of the addresses by interface. *)
Definition group_ips (ips : list Json) : gmap Z (list NbIp) :=
  foldl (fun m ip => match assigned_ip ip with
                     | Some (iface, row) => <[iface := default [] (m !! iface) ++ [row]]> m
                     | None => m
                     end) ∅ ips.

(** The interfaces, each taking its addresses out of the grouping. *)
Fixpoint take_interfaces (ifaces : list Json) (by_iface : gmap Z (list NbIp)) : list NbInterface :=
  match ifaces with
  | [] => []
  | iface :: ifaces =>
      match (let! v := json_get "id" iface in as_i64 v) with
      | None => take_interfaces ifaces by_iface
      | Some id =>
          let name := default EmptyString (let! v := json_get "name" iface in as_str v) in
          mkNbInterface id name (default [] (by_iface !! id)) :: take_interfaces ifaces (delete id by_iface)
      end
  end.

Definition client_read_interfaces (ifaces ips : result (Page Json) NbError) : result (list NbInterface) PortError :=
  let? ifaces := map_err map_netbox_error ifaces in
  let? ips := map_err map_netbox_error ips in
  Ok (take_interfaces (pg_results ifaces) (group_ips (pg_results ips))).

Definition to_u64 (id : Z) : result Z PortError := if 0 <=? id then Ok id else Err (Backend "negative NetBox row id").

Definition new_id (created : Json) (kind : string) : result Z PortError :=
  ok_or (let! v := json_get "id" created in as_i64 v) (Backend ("created " +:+ kind +:+ " has no id")).

Definition json_opt (o : option Z) : Json := match o with Some n => JInt n | None => JNull end.

Definition client_create_interface (device : Z) (name : string) : NbWrite :=
  WCreate "dcim/interfaces/" (JObject [("device", JInt device); ("name", JString name); ("type", JString "other")]).
Definition client_delete_interface (id : Z) : result NbWrite PortError :=
  let? id := to_u64 id in Ok (WDelete "dcim/interfaces/" id).
Definition client_create_ip (iface : Z) (address : string) : NbWrite :=
  WCreate "ipam/ip-addresses/" (JObject [("address", JString address); ("assigned_object_type", JString "dcim.interface");
    ("assigned_object_id", JInt iface)]).
Definition client_move_ip (id iface : Z) : result NbWrite PortError :=
  let? id := to_u64 id in
  Ok (WPatch "ipam/ip-addresses/" id (JObject [("assigned_object_type", JString "dcim.interface"); ("assigned_object_id", JInt iface)])).
Definition client_delete_ip (id : Z) : result NbWrite PortError :=
  let? id := to_u64 id in Ok (WDelete "ipam/ip-addresses/" id).
Definition client_finalize_device (device : Z) (p4 p6 : option Z) (host_id : string) : result NbWrite PortError :=
  let? id := to_u64 device in
  Ok (WPatch "dcim/devices/" id (JObject [("primary_ip4", json_opt p4); ("primary_ip6", json_opt p6);
    ("custom_fields", JObject [(CF_HOST_ID, JString host_id)])])).

(** The write a recorded call of the sink sends. *)
Definition write_of (c : NbCall) : option (result NbWrite PortError) :=
  match c with
  | CMatch _ _ | CRead _ _ => None
  | CCreateInterface d name _ => Some (Ok (client_create_interface d name))
  | CDeleteInterface id _ => Some (client_delete_interface id)
  | CCreateIp f a _ => Some (Ok (client_create_ip f a))
  | CMoveIp id f _ => Some (client_move_ip id f)
  | CDeleteIp id _ => Some (client_delete_ip id)
  | CFinalize d p4 p6 h _ => Some (client_finalize_device d p4 p6 h)
  end.

(** ** Lemmas *)

Definition iface_id (iface : Json) : option Z := let! v := json_get "id" iface in as_i64 v.

(** The addresses of the page assigned to [f], in page order. *)
Definition rows_on (f : Z) (ips : list Json) : list NbIp :=
  omap (fun ip => match assigned_ip ip with Some (g, row) => if decide (g = f) then Some row else None | None => None end) ips.

Lemma group_ips_rows ips f : default [] (group_ips ips !! f) = rows_on f ips.
Proof.
  unfold group_ips, rows_on. induction ips as [|ip ips IH] using rev_ind; [done|].
  rewrite foldl_app, omap_app, <- IH. simpl. destruct (assigned_ip ip) as [[g row]|]; simpl; [|by rewrite app_nil_r].
  case_decide as E; [subst; by rewrite lookup_insert_eq|]. rewrite lookup_insert_ne by done. by rewrite app_nil_r.
Qed.

Lemma take_interfaces_ids ifs m : if_id <$> take_interfaces ifs m = omap iface_id ifs.
Proof.
  revert m. induction ifs as [|i ifs IH]; intros m; [done|]. cbn [take_interfaces omap list_omap]. fold (iface_id i).
  destruct (iface_id i); [|apply IH]. rewrite fmap_cons, IH. done.
Qed.

Lemma take_interfaces_ips ifs m i :
  NoDup (omap iface_id ifs) -> i ∈ take_interfaces ifs m -> if_ips i = default [] (m !! if_id i).
Proof.
  revert m. induction ifs as [|j ifs IH]; intros m Hn; cbn [take_interfaces]; [by intros ?%not_elem_of_nil|].
  fold (iface_id j). cbn [omap list_omap] in Hn. destruct (iface_id j) as [id|] eqn:Ej; [|by apply IH].
  apply NoDup_cons in Hn as [Hid Hn]. intros [->|Hin]%elem_of_cons; [done|]. rewrite (IH _ Hn Hin), lookup_delete_ne; [done|].
  intros ->. apply Hid. rewrite <- (take_interfaces_ids _ (delete (if_id i) m)). apply list_elem_of_fmap. eauto.
Qed.

(** ** Properties *)

(** The adapter reads a device faithfully.  From pages whose interface ids are distinct,
    the sink gets every interface that has an id, in page order, and under each exactly the
    addresses of the page assigned to it as a device interface, in page order; an error of
    either query is reported, and is worth a retry exactly when it is not a client error
    other than 429. *)
Theorem interfaces_read_faithfully ifaces ips :
  (forall p q, ifaces = Ok p -> ips = Ok q -> NoDup (omap iface_id (pg_results p)) ->
     exists l, client_read_interfaces ifaces ips = Ok l /\ if_id <$> l = omap iface_id (pg_results p) /\
       forall i, i ∈ l -> if_ips i = rows_on (if_id i) (pg_results q)) /\
  (forall e, client_read_interfaces ifaces ips = Err e ->
     exists ne, (ifaces = Err ne \/ ips = Err ne) /\ e = map_netbox_error ne /\
       (is_transient e = false <-> exists s, ne_status ne = Some s /\ 400 <= s < 500 /\ s <> 429)).
Proof.
  split.
  - intros p q -> -> Hn. eexists. split; [done|]. split; [apply take_interfaces_ids|].
    intros i Hi. rewrite (take_interfaces_ips _ _ _ Hn Hi). apply group_ips_rows.
  - assert (forall ne, is_transient (map_netbox_error ne) = false <-> exists s, ne_status ne = Some s /\ 400 <= s < 500 /\ s <> 429) as Ht.
    { intros ne. unfold map_netbox_error. destruct (ne_status ne) as [s|]; [|split; [done|]; by intros (? & ? & _)].
      destruct (_ && _) eqn:E; simpl; (split; [|try done]).
      - intros _. exists s. rewrite !andb_true_iff, negb_true_iff, Z.leb_le, Z.ltb_lt, Z.eqb_neq in E. naive_solver.
      - done.
      - intros (s' & [= <-] & Hr & Hne). rewrite !andb_false_iff, negb_false_iff, Z.leb_gt, Z.ltb_ge, Z.eqb_eq in E. lia. }
    intros e. unfold client_read_interfaces. destruct ifaces as [p|ne]; simpl; [|intros [= <-]; exists ne; auto].
    destruct ips as [q|ne]; simpl; [done|]. intros [= <-]. exists ne. auto.
Qed.

(** What a write may touch: an interface or address row, or of a device only its primary
    addresses and the host id. *)
Definition field_scoped (w : NbWrite) : Prop :=
  match w with
  | WCreate r _ | WDelete r _ => r = "dcim/interfaces/" \/ r = "ipam/ip-addresses/"
  | WPatch r _ body =>
      (r = "ipam/ip-addresses/" /\ exists f, body = JObject [("assigned_object_type", JString "dcim.interface"); ("assigned_object_id", JInt f)]) \/
      (r = "dcim/devices/" /\ exists p4 p6 h, body = JObject [("primary_ip4", json_opt p4); ("primary_ip6", json_opt p6);
         ("custom_fields", JObject [(CF_HOST_ID, JString h)])])
  end.

Lemma write_of_scoped c wr : write_of c = Some (Ok wr) -> field_scoped wr.
Proof.
  destruct c; simpl; unfold client_delete_interface, client_delete_ip, client_move_ip, client_finalize_device, to_u64; try done;
    repeat case_match; intros; simplify_eq/=; auto; [left|right]; eauto 6.
Qed.

(** A device is stamped with [h]. *)
Definition stamps (h : string) (c : NbCall) : Prop := match c with CFinalize _ _ _ x _ => x = h | _ => True end.

Lemma attempt_stamps `{UuidLib} serial host complete tr :
  attempt_calls serial host complete tr -> Forall (stamps (uuid_to_string (host_uuid host))) tr.
Proof.
  intros (m & rest & -> & [[-> _]|(d & -> & _ & rr & tr' & -> & Hr)]); [by repeat constructor|].
  constructor; [done|]. constructor; [done|]. destruct rr as [current|e]; [|destruct Hr as [-> _]; constructor].
  assert (forall pre mine, additions (dev_id d) current mine pre -> Forall (stamps (uuid_to_string (host_uuid host))) pre) as Hpre.
  { intros pre. induction pre as [|c pre IH]; intros mine Hp; [constructor|]. destruct Hp as [Hc Hp]. constructor; [by destruct c|by eapply IH]. }
  destruct Hr as (pre & Hp & [[-> _]|(p4 & p6 & fr & dels & -> & Hd & _)]); [by eapply Hpre|].
  apply Forall_app. split; [by eapply Hpre|]. constructor; [done|]. eapply Forall_impl; [exact Hd|]. by intros [].
Qed.

(** No human-curated field is ever touched.  Of all writes an upsert sends, whatever it
    does and wherever it fails, creations and deletions are of interface and address rows
    only, an address is patched only in what it is assigned to, and a device only in its
    primary addresses and the agent's own custom field, with this host's id. *)
Theorem writes_are_field_scoped `{Crypto} `{UuidLib} {N} `{NetboxDevices N} synced host observed (w : World N) :
  let '(_, w', _) := upsert synced host observed w in
  exists calls, w_calls w' = w_calls w ++ calls /\
    forall c wr, c ∈ calls -> write_of c = Some (Ok wr) ->
      field_scoped wr /\
      (forall id body, wr = WPatch "dcim/devices/" id body -> exists p4 p6, body = JObject [("primary_ip4", json_opt p4);
         ("primary_ip6", json_opt p6); ("custom_fields", JObject [(CF_HOST_ID, JString (uuid_to_string (host_uuid host)))])]).
Proof.
  pose proof (upsert_only (stamps (uuid_to_string (host_uuid host))) synced host observed w
    (fun serial b tr => attempt_stamps serial host b tr)) as Hu.
  destruct (upsert synced host observed w) as [[synced' w'] r]. destruct Hu as (calls & Hc & Hall). exists calls. split; [done|].
  intros c wr Hin Hw. rewrite Forall_forall in Hall. specialize (Hall c Hin). split; [by eapply write_of_scoped|].
  intros id body ->. destruct c; simpl in Hw, Hall;
    unfold client_delete_interface, client_delete_ip, client_move_ip, client_finalize_device, to_u64 in Hw;
    repeat case_match; simplify_eq/=; eauto.
Qed.
