(* ===== verification/SinkTasks.v ===== *)
(** * The inventory sink under concurrency (osa-coordinator/src/netbox.rs, broker.rs)

    The bridge runs every upsert as a task of its own, so the calls of several upserts reach
    NetBox interleaved; a lock per host is held over the dedup check, the reconciliation and
    its mark.  Here the sink's code is a tree of requests ([Prog]), run one call at a time by
    tasks that share NetBox, the dedup table and the locks.  The theorem says that for each
    host this is a sequence of whole upserts, whatever the interleaving and whatever others do
    to NetBox meanwhile. *)
From S2P Require Import Prelude Proto Concrete Text Ip Seal Registries Netbox NetboxSync.

(** ** Programs *)

(** The code up to its next call, and what it does with the reply. *)
Inductive Prog (A : Type) : Type :=
| Ret (r : result A PortError)
| Ask {X : Type} (q : Req X) (k : result X PortError -> Prog A).
Arguments Ret {A} r.
Arguments Ask {A X} q k.

Fixpoint prog_bind {A B} (p : Prog A) (k : A -> Prog B) : Prog B :=
  match p with
  | Ret (Ok a) => k a
  | Ret (Err e) => Ret (Err e)
  | Ask q f => Ask q (fun r => prog_bind (f r) k)
  end.
#[global] Instance Prog_monad : NbMonad Prog := {|
  nb_ret A a := Ret (Ok a);
  nb_bind A B := prog_bind;
  nb_call X q := Ask q Ret
|}.

(** Run in one go, as the sequential sink runs it. *)
Fixpoint denote {N} `{NetboxDevices N} {A} (p : Prog A) : NB N A :=
  match p with
  | Ret r => fun w => (w, r)
  | Ask q k => fun w => let '(w, r) := call (perform q) (record_call q) w in denote (k r) w
  end.

(** The calls [p] makes, and what they lead to: a program that goes on, or its result. *)
Fixpoint reaches {A} (p : Prog A) (tr : list NbCall) (p' : Prog A) {struct tr} : Prop :=
  match tr with
  | [] => p = p'
  | c :: tr => match p with
               | Ret _ => False
               | Ask q k => exists r, c = record_call q r /\ reaches (k r) tr p'
               end
  end.
Definition traces {A} (p : Prog A) (tr : list NbCall) (r : result A PortError) : Prop := reaches p tr (Ret r).

(** ** Tasks *)

(** A task: before the lock; at a call, holding it, with the retries left; done. *)
Inductive Task :=
| TWaiting (h : HostId) (o : Inventory) (serial : string)
| TWorking (h : HostId) (o : Inventory) (serial : string) (retries : nat) (p : Prog UpsertOutcome)
| TFinished (h : HostId) (r : result UpsertOutcome PortError).

(** The sink: NetBox, the dedup table, the hosts whose lock is held, the tasks.  [sk_log]
    records every call with the host it was made for. *)
Record Sink (N : Type) := mkSink {
  sk_nb : N; sk_synced : gmap HostId string; sk_locked : gset HostId; sk_tasks : gmap nat Task; sk_log : list (HostId * NbCall)
}.
Arguments mkSink {N} _ _ _ _ _.
Arguments sk_nb {N} _.
Arguments sk_synced {N} _.
Arguments sk_locked {N} _.
Arguments sk_tasks {N} _.
Arguments sk_log {N} _.

(** A snapshot arrives for a fresh task; a task takes the lock; a task's next call, and how
    it ends; anyone else changes NetBox. *)
Inductive SkEvent (N : Type) :=
| SkSpawn (i : nat) (h : HostId) (o : Inventory)
| SkLock (i : nat)
| SkCall (i : nat) (f : NbFault)
| SkOther (g : N -> N).
Arguments SkSpawn {N} i h o.
Arguments SkLock {N} i.
Arguments SkCall {N} i f.
Arguments SkOther {N} g.

Section Sink.
Context `{Crypto} `{UuidLib} {N : Type} `{NetboxDevices N}.
Implicit Type s : Sink N.

Definition sink_init (n : N) : Sink N := mkSink n ∅ ∅ ∅ [].
Definition set_task s (i : nat) (t : Task) : Sink N := mkSink (sk_nb s) (sk_synced s) (sk_locked s) (<[i := t]> (sk_tasks s)) (sk_log s).

(** The guard is dropped when [upsert] returns. *)
Definition finish s (i : nat) (h : HostId) (r : result UpsertOutcome PortError) : Sink N :=
  mkSink (sk_nb s) (sk_synced s) (sk_locked s ∖ {[h]}) (<[i := TFinished h r]> (sk_tasks s)) (sk_log s).
Definition mark s (h : HostId) (hash : string) : Sink N :=
  mkSink (sk_nb s) (mark_synced (sk_synced s) h hash) (sk_locked s) (sk_tasks s) (sk_log s).

(** The loop of [upsert] after a call: on to the next one, the outcome, or a retry. *)
Definition settle s (i : nat) (h : HostId) (o : Inventory) (serial : string) (retries : nat) (p : Prog UpsertOutcome) : Sink N :=
  match p with
  | Ask _ _ => set_task s i (TWorking h o serial retries p)
  | Ret (Ok Updated) => finish (mark s h (content_hash serial h o)) i h (Ok Updated)
  | Ret (Ok outcome) => finish s i h (Ok outcome)
  | Ret (Err e) =>
      match retries with
      | S n => if is_transient e then set_task s i (TWorking h o serial n (match_and_reconcile serial h o)) else finish s i h (Err e)
      | O => finish s i h (Err e)
      end
  end.

Definition sink_spawn s (i : nat) (h : HostId) (o : Inventory) : Sink N :=
  match sk_tasks s !! i with
  | Some _ => s
  | None => match usable_serial o with
            | None => set_task s i (TFinished h (Ok SkippedNoSerial))
            | Some serial => set_task s i (TWaiting h o serial)
            end
  end.

(** [lock().await], and the dedup check behind it. *)
Definition sink_lock s (i : nat) : Sink N :=
  match sk_tasks s !! i with
  | Some (TWaiting h o serial) =>
      if bool_decide (h ∈ sk_locked s) then s
      else if already_synced (sk_synced s) h (content_hash serial h o) then finish s i h (Ok Unchanged)
      else mkSink (sk_nb s) (sk_synced s) ({[h]} ∪ sk_locked s)
             (<[i := TWorking h o serial MAX_TRANSIENT_RETRIES (match_and_reconcile serial h o)]> (sk_tasks s)) (sk_log s)
  | _ => s
  end.

Definition sink_call s (i : nat) (f : NbFault) : Sink N :=
  match sk_tasks s !! i with
  | Some (TWorking h o serial retries (Ask q k)) =>
      let '(n, r) := answer f (perform q) (sk_nb s) in
      settle (mkSink n (sk_synced s) (sk_locked s) (sk_tasks s) (sk_log s ++ [(h, record_call q r)])) i h o serial retries (k r)
  | _ => s
  end.

Definition sink_step s (ev : SkEvent N) : Sink N :=
  match ev with
  | SkSpawn i h o => sink_spawn s i h o
  | SkLock i => sink_lock s i
  | SkCall i f => sink_call s i f
  | SkOther g => mkSink (g (sk_nb s)) (sk_synced s) (sk_locked s) (sk_tasks s) (sk_log s)
  end.
Definition run_sink s (evs : list (SkEvent N)) : Sink N := foldl sink_step s evs.

(** ** The contract of one upsert *)

(** A finished upsert: its task and snapshot, its calls in order, its outcome. *)
Record Upsert := mkUpsert { up_task : nat; up_obs : Inventory; up_serial : string; up_calls : list NbCall; up_result : result UpsertOutcome PortError }.

(** The calls of [n] retries at most: failed attempts, then the one that counts. *)
Definition retried (n : nat) (code : Prog UpsertOutcome) (calls : list NbCall) (r : result UpsertOutcome PortError) : Prop :=
  exists attempts final, calls = concat attempts ++ final /\ (length attempts <= n)%nat /\
    Forall (fun tr => exists e, is_transient e = true /\ traces code tr (Err e)) attempts /\
    traces code final r /\ (forall e, r = Err e -> is_transient e = true -> length attempts = n).

(** From the dedup entry [before] of the host, one upsert may make these calls and return
    this, however NetBox answers: nothing when the content is what was last written; else
    at most three failed attempts and a last one. *)
Definition upsert_may (h : HostId) (before : option string) (u : Upsert) : Prop :=
  let code := match_and_reconcile (M := Prog) (up_serial u) h (up_obs u) in
  usable_serial (up_obs u) = Some (up_serial u) /\
  if bool_decide (before = Some (content_hash (up_serial u) h (up_obs u)))
  then up_calls u = [] /\ up_result u = Ok Unchanged
  else retried MAX_TRANSIENT_RETRIES code (up_calls u) (up_result u).
Definition entry_after (h : HostId) (before : option string) (u : Upsert) : option string :=
  if bool_decide (up_result u = Ok Updated) then Some (content_hash (up_serial u) h (up_obs u)) else before.

(** One after the other. *)
Fixpoint sequential (h : HostId) (before : option string) (us : list Upsert) (after : option string) : Prop :=
  match us with
  | [] => after = before
  | u :: us => upsert_may h before u /\ sequential h (entry_after h before u) us after
  end.

Definition host_calls s (h : HostId) : list NbCall := omap (fun '(h', c) => if decide (h' = h) then Some c else None) (sk_log s).

End Sink.

(** ** Lemmas: programs *)

Lemma reaches_app {A} (p p'' : Prog A) tr1 tr2 :
  reaches p (tr1 ++ tr2) p'' <-> exists p', reaches p tr1 p' /\ reaches p' tr2 p''.
Proof.
  revert p. induction tr1 as [|c tr1 IH]; intros p; simpl; [split; [by exists p|by intros (p' & Hp & ?); simpl in Hp; subst]|].
  destruct p as [r|X q k]; [split; [done|by intros (? & ? & ?)]|]. split.
  - intros (r & Hc & (p' & ? & ?)%IH). eauto 6.
  - intros (p' & (r & Hc & Hp) & ?). exists r. split; [done|]. apply IH. eauto.
Qed.

Lemma traces_ask {A X} (q : Req X) (k : result X PortError -> Prog A) tr r :
  traces (Ask q k) tr r <-> exists reply tr', tr = record_call q reply :: tr' /\ traces (k reply) tr' r.
Proof.
  unfold traces. destruct tr as [|c tr]; simpl; [split; [discriminate|by intros (? & ? & ? & ?)]|].
  split; [intros (r0 & -> & ?)|intros (? & ? & [= -> ->] & ?)]; eauto.
Qed.

Lemma traces_ret {A} (r r' : result A PortError) tr : traces (Ret r) tr r' <-> tr = [] /\ r' = r.
Proof. unfold traces. destruct tr; simpl; [split; [by intros [= ->]|by intros [_ ->]]|split; [done|by intros [? _]]]. Qed.

Lemma traces_bind {A B} (m : Prog A) (k : A -> Prog B) tr r :
  traces (prog_bind m k) tr r ->
  (exists e, traces m tr (Err e) /\ r = Err e) \/ exists tr1 tr2 a, tr = tr1 ++ tr2 /\ traces m tr1 (Ok a) /\ traces (k a) tr2 r.
Proof.
  revert tr. induction m as [[a|e]|X q f IH]; intros tr; simpl.
  - intros Hk. right. exists [], tr, a. split; [done|]. by rewrite traces_ret.
  - intros [-> ->]%traces_ret. left. exists e. by rewrite traces_ret.
  - intros (reply & tr' & -> & [(e & Ht & ->)|(tr1 & tr2 & a & -> & H1 & H2)]%IH)%traces_ask.
    + left. exists e. rewrite traces_ask. eauto.
    + right. exists (record_call q reply :: tr1), tr2, a. rewrite traces_ask. eauto 6.
Qed.

(** Whatever the replies. *)
#[global] Program Instance Prog_logic : NbLogic Prog := {| emits A p Q := forall tr r, traces p tr r -> Q tr r |}.
Next Obligation. intros A a Q HQ tr r [-> ->]%traces_ret. done. Qed.
Next Obligation. intros X q Q HQ tr r. simpl. rewrite traces_ask. intros (reply & tr' & -> & [-> ->]%traces_ret). apply HQ. Qed.
Next Obligation.
  intros A B m k Q Hm tr r [(e & Ht & ->)|(tr1 & tr2 & a & -> & H1 & H2)]%traces_bind; [by apply (Hm tr (Err e))|].
  by apply (Hm tr1 (Ok a) H1).
Qed.
Next Obligation. intros A m Q Q' Hm HQ tr r Ht. auto. Qed.

(** [denote] runs the same code as the sequential sink. *)
Section Denote.
Context `{Crypto} `{UuidLib} {N : Type} `{NetboxDevices N}.

Lemma denote_bind {A B} (p : Prog A) (k : A -> Prog B) (w : World N) :
  denote (prog_bind p k) w = nbind (denote p) (fun a => denote (k a)) w.
Proof.
  revert w. induction p as [[a|e]|X q f IH]; intros w; simpl; try done. unfold nbind at 1. simpl. destruct (call _ _ w) as [w1 r]. apply IH.
Qed.

Lemma denote_call {X} (q : Req X) (w : World N) : denote (nb_call q) w = nb_call (M := NB N) q w.
Proof. simpl. by destruct (call _ _ w). Qed.

(** Two programs bound one after the other, as the sequential code has them. *)
Lemma denote_seq {A B} (p : Prog A) (k : A -> Prog B) (m : NB N A) (k' : A -> NB N B) (w : World N) :
  (forall w, denote p w = m w) -> (forall a w, denote (k a) w = k' a w) -> denote (nb_bind p k) w = nb_bind m k' w.
Proof.
  intros Hm Hk. simpl. rewrite denote_bind. unfold nbind. rewrite Hm. destruct (m w) as [w1 [a|e]]; [apply Hk|done].
Qed.

Lemma denote_for_each {A} (l : list A) (f : A -> Prog unit) (g : A -> NB N unit) (w : World N) :
  (forall x w, denote (f x) w = g x w) -> denote (for_each l f) w = for_each l g w.
Proof. intros Hf. revert w. induction l as [|x l IH]; intros w; [done|]. apply denote_seq; [apply Hf|intros _; apply IH]. Qed.

Lemma denote_sync_ips existing iface cidrs acc (w : World N) :
  denote (sync_ips existing iface cidrs acc) w = sync_ips (M := NB N) existing iface cidrs acc w.
Proof.
  revert acc w. induction cidrs as [|cidr cidrs IH]; intros acc w; [done|]. cbn [sync_ips]. apply denote_seq.
  - intros w1. destruct (existing !! cidr) as [[id cur]|]; [|apply denote_call].
    destruct (bool_decide _); [done|]. apply denote_seq; [apply denote_call|done].
  - intros id w1. apply IH.
Qed.

Lemma denote_sync_interfaces device by_name existing ifaces acc (w : World N) :
  denote (sync_interfaces device by_name existing ifaces acc) w = sync_interfaces (M := NB N) device by_name existing ifaces acc w.
Proof.
  revert acc w. induction ifaces as [|i ifaces IH]; intros acc w; [done|]. cbn [sync_interfaces]. apply denote_seq.
  - intros w1. destruct (by_name !! _); [done|apply denote_call].
  - intros f w1. apply denote_seq; [intros w2; apply denote_sync_ips|intros a w2; apply IH].
Qed.

Lemma denote_reconcile device host observed (w : World N) :
  denote (reconcile device host observed) w = reconcile (M := NB N) device host observed w.
Proof.
  unfold reconcile. apply denote_seq; [intros; apply denote_call|]. intros current w1. apply denote_seq; [intros; apply denote_sync_interfaces|].
  intros acc w2. apply denote_seq; [intros; apply denote_call|]. intros _ w3. apply denote_seq.
  - intros w4. apply denote_for_each. intros cur w5. apply denote_for_each. intros ip w6. destruct (bool_decide _); [done|apply denote_call].
  - intros _ w4. apply denote_for_each. intros cur w5. destruct (bool_decide _); [done|apply denote_call].
Qed.

Lemma denote_match_and_reconcile serial host observed (w : World N) :
  denote (match_and_reconcile serial host observed) w = match_and_reconcile (M := NB N) serial host observed w.
Proof.
  unfold match_and_reconcile. apply denote_seq; [intros; apply denote_call|]. intros [|d|n] w1; try done.
  destruct (claimed_by_other d host); [done|]. apply denote_seq; [intros; apply denote_reconcile|done].
Qed.

Lemma denote_traces {A} (p : Prog A) (w : World N) :
  exists tr, w_calls (fst (denote p w)) = w_calls w ++ tr /\ traces p tr (snd (denote p w)).
Proof.
  revert w. induction p as [r|X q k IH]; intros w; simpl; [exists []; by rewrite app_nil_r|].
  unfold call. destruct (match w_faults w with [] => _ | _ => _ end) as [f fs]. destruct (answer _ _ _) as [nb r].
  destruct (IH r (mkWorld nb fs (w_calls w ++ [record_call q r]))) as (tr & Hc & Ht). exists (record_call q r :: tr).
  rewrite Hc, traces_ask. simpl. rewrite <- app_assoc. eauto.
Qed.

End Denote.

(** ** Lemmas: the contract *)

Section Contract.
Context `{Crypto} `{UuidLib} {N : Type} `{NetboxDevices N}.

Lemma retry_retried n code (m : NB N UpsertOutcome) w :
  (forall w, denote code w = m w) ->
  exists calls, w_calls (fst (retry n m w)) = w_calls w ++ calls /\ retried n code calls (snd (retry n m w)).
Proof.
  intros Hm. revert w. induction n as [|n IH]; intros w; cbn [retry]; pose proof (denote_traces code w) as (tr & Hc & Ht); rewrite Hm in Hc, Ht;
    destruct (m w) as [w1 [o|e]]; simpl in *.
  - exists tr. split; [done|]. exists [], tr. repeat split; auto; done.
  - exists tr. split; [done|]. exists [], tr. repeat split; auto.
  - exists tr. split; [done|]. exists [], tr. repeat split; auto; [simpl; lia|done].
  - destruct (is_transient e) eqn:Ee.
    + destruct (IH w1) as (calls & Hc2 & attempts & final & -> & Hl & Ha & Hf & He). exists (tr ++ concat attempts ++ final).
      split; [by rewrite Hc2, Hc, <- app_assoc|]. exists (tr :: attempts), final. simpl. rewrite <- app_assoc.
      split; [done|]. split; [lia|]. split; [constructor; eauto|]. split; [done|]. intros e' He' Ht'. f_equal. eauto.
    + exists tr. split; [done|]. exists [], tr. repeat split; auto; [simpl; lia|]. intros e' [= <-]. congruence.
Qed.

(** The sequential upsert keeps the contract. *)
Lemma upsert_sequential synced h o (w : World N) i serial :
  usable_serial o = Some serial ->
  let '(synced', w', r) := upsert synced h o w in
  exists calls, w_calls w' = w_calls w ++ calls /\ let u := mkUpsert i o serial calls r in
    upsert_may h (synced !! h) u /\ synced' !! h = entry_after h (synced !! h) u.
Proof.
  intros Hs. unfold upsert, upsert_may, entry_after, already_synced, mark_synced. rewrite Hs. cbn zeta.
  destruct (bool_decide (synced !! h = _)) eqn:Ed.
  { exists []. cbn. by rewrite Ed, app_nil_r. }
  destruct (retry_retried MAX_TRANSIENT_RETRIES (match_and_reconcile serial h o) (match_and_reconcile serial h o) w) as (calls & Hc & Hr).
  { intros w1. apply denote_match_and_reconcile. }
  destruct (retry _ _ w) as [w' r]. cbn [fst snd] in Hc, Hr.
  destruct (decide (r = Ok Updated)) as [->|Hne].
  - exists calls. cbn [up_obs up_serial up_calls up_result]. rewrite Ed, lookup_insert_eq. auto.
  - destruct r as [[]|e]; try done; exists calls; cbn [up_obs up_serial up_calls up_result]; rewrite Ed; auto.
Qed.

Lemma sequential_snoc h before us u after :
  sequential h before us after -> upsert_may h after u -> sequential h before (us ++ [u]) (entry_after h after u).
Proof. revert before. induction us as [|v us IH]; intros before; simpl; [by intros ->|]. intros [? ?] ?. auto. Qed.

(** What an upsert of the contract may call. *)
Lemma upsert_may_calls h before u :
  upsert_may h before u ->
  exists attempts, up_calls u = concat attempts /\ (length attempts <= 4)%nat /\
    Forall (fun tr => exists complete, attempt_calls (up_serial u) h complete tr) attempts.
Proof.
  intros [_ Hu]. destruct (bool_decide _); [exists []; simpl; destruct Hu as [-> _]; repeat split; [lia|constructor]|].
  destruct Hu as (attempts & final & -> & Hl & Ha & Hf & _). exists (attempts ++ [final]).
  rewrite concat_app, length_app. simpl. rewrite app_nil_r. unfold MAX_TRANSIENT_RETRIES in Hl. split; [done|]. split; [lia|].
  pose proof (match_and_reconcile_emits (M := Prog) (up_serial u) h (up_obs u)) as Hem.
  apply Forall_app. split; [|constructor; [|constructor]; eexists; by apply (Hem final (up_result u))].
  eapply Forall_impl; [exact Ha|]. intros tr (e & _ & Ht). eexists. by apply (Hem tr (Err e)).
Qed.

End Contract.

(** ** Lemmas: tasks *)

Section Tasks.
Context `{Crypto} `{UuidLib} {N : Type} `{NetboxDevices N}.
Implicit Type s : Sink N.

Definition task_host (t : Task) : HostId :=
  match t with TWaiting h _ _ => h | TWorking h _ _ _ _ => h | TFinished h _ => h end.
Definition working (h : HostId) (t : Task) : Prop := match t with TWorking h' _ _ _ _ => h' = h | _ => False end.
Definition asks (p : Prog UpsertOutcome) : Prop := match p with Ask _ _ => True | Ret _ => False end.

(** Task [i] holds the lock of [h], at its next call, after the calls [cur]. *)
Definition holds s (h : HostId) (i : nat) (cur : list NbCall) : Prop :=
  exists o serial retries p attempts tr,
    sk_tasks s !! i = Some (TWorking h o serial retries p) /\ asks p /\
    usable_serial o = Some serial /\ sk_synced s !! h <> Some (content_hash serial h o) /\
    cur = concat attempts ++ tr /\ (length attempts + retries)%nat = MAX_TRANSIENT_RETRIES /\
    Forall (fun tr => exists e, is_transient e = true /\ traces (match_and_reconcile serial h o) tr (Err e)) attempts /\
    reaches (match_and_reconcile serial h o) tr p.

(** The history of host [h]: its finished upserts, and the calls of the one under way. *)
Record host_inv s (h : HostId) (us : list Upsert) (cur : list NbCall) : Prop := {
  hi_calls : host_calls s h = concat (up_calls <$> us) ++ cur;
  hi_seq : sequential h None us (sk_synced s !! h);
  hi_done : forall i r, sk_tasks s !! i = Some (TFinished h r) -> r = Ok SkippedNoSerial \/ exists u, u ∈ us /\ up_task u = i /\ up_result u = r;
  hi_fin : forall u, u ∈ us -> sk_tasks s !! up_task u = Some (TFinished h (up_result u));
  hi_nodup : NoDup (up_task <$> us);
  hi_waiting : forall i o serial, sk_tasks s !! i = Some (TWaiting h o serial) -> usable_serial o = Some serial;
  hi_excl : forall i j t u, sk_tasks s !! i = Some t -> sk_tasks s !! j = Some u -> working h t -> working h u -> i = j;
  hi_free : h ∉ sk_locked s -> cur = [] /\ forall i t, sk_tasks s !! i = Some t -> ~ working h t;
  hi_held : h ∈ sk_locked s -> exists i, holds s h i cur
}.

(** Another host's step leaves a host alone. *)
Lemma host_inv_frame s s' h us cur :
  host_inv s h us cur -> host_calls s' h = host_calls s h -> sk_synced s' !! h = sk_synced s !! h -> (h ∈ sk_locked s' <-> h ∈ sk_locked s) ->
  (forall i t, task_host t = h -> sk_tasks s' !! i = Some t <-> sk_tasks s !! i = Some t) -> host_inv s' h us cur.
Proof.
  intros [Hc Hs Hd Hf Hn Hw He Hfr Hh] Ec Es El Et.
  assert (forall i t, sk_tasks s' !! i = Some t -> working h t -> sk_tasks s !! i = Some t) as Ew.
  { intros i t Ht Hwk. apply Et; [|done]. by destruct t. }
  split.
  - by rewrite Ec.
  - by rewrite Es.
  - intros i r Hi. apply Hd. by apply Et.
  - intros u Hu. apply Et; [done|]. by apply Hf.
  - done.
  - intros i o serial Hi. eapply Hw. by apply Et.
  - intros i j t u Hi Hj Hti Huj. eapply (He i j t u); eauto.
  - rewrite El. intros Hl. destruct (Hfr Hl) as [? Hno]. split; [done|]. intros i t Hi Hwk. by eapply (Hno i t); eauto.
  - rewrite El. intros Hl. destruct (Hh Hl) as (i & o & serial & retries & p & attempts & tr & Hi & Hrest). exists i, o, serial, retries, p, attempts, tr.
    rewrite Es. split; [by apply Et|done].
Qed.

(** A task of another host moves. *)
Lemma insert_other (m : gmap nat Task) i t' h :
  task_host t' <> h -> (forall t, m !! i = Some t -> task_host t <> h) ->
  forall j t, task_host t = h -> <[i := t']> m !! j = Some t <-> m !! j = Some t.
Proof.
  intros Ht' Hold j t Ht. destruct (decide (i = j)) as [<-|Hne]; [|by rewrite lookup_insert_ne].
  rewrite lookup_insert_eq. split; [intros [= ->]; done|]. intros Hm. by destruct (Hold t Hm).
Qed.

Lemma host_calls_snoc s h h' c (n : N) sy lk tk :
  host_calls (mkSink n sy lk tk (sk_log s ++ [(h', c)])) h = host_calls s h ++ (if decide (h' = h) then [c] else []).
Proof. unfold host_calls. simpl. rewrite omap_app. simpl. by destruct (decide (h' = h)). Qed.

(** A task of [h] ends: its upsert joins the history. *)
Lemma finish_inv s s' h us cur i told u :
  host_inv s h us cur -> sk_tasks s !! i = Some told -> task_host told = h -> (forall r, told <> TFinished h r) ->
  (forall j t, sk_tasks s !! j = Some t -> working h t -> j = i) ->
  up_task u = i -> upsert_may h (sk_synced s !! h) u -> host_calls s' h = concat (up_calls <$> us) ++ up_calls u ->
  sk_tasks s' = <[i := TFinished h (up_result u)]> (sk_tasks s) -> sk_synced s' !! h = entry_after h (sk_synced s !! h) u -> h ∉ sk_locked s' ->
  host_inv s' h (us ++ [u]) [].
Proof.
  intros [Hc Hs Hd Hf Hn Hw He Hfr Hh] Hi Hth Hnf Hone Hu Hmay Hcalls Ht Hsy Hl.
  assert (forall v, v ∈ us -> up_task v <> i) as Hnew by (intros v Hv E; apply Hf in Hv; rewrite E, Hi in Hv; injection Hv; apply Hnf).
  split.
  - rewrite Hcalls, fmap_app, concat_app. simpl. by rewrite !app_nil_r.
  - rewrite Hsy. by apply sequential_snoc.
  - intros j r. rewrite Ht, lookup_insert_Some. intros [[<- [= <-]]|[_ Hj]]; [right; exists u; set_solver|].
    destruct (Hd j r Hj) as [|(v & Hv & ?)]; [by left|]. right. exists v. set_solver.
  - intros v [Hv| ->%list_elem_of_singleton]%elem_of_app; rewrite Ht.
    + rewrite lookup_insert_ne; [by apply Hf|]. apply not_eq_sym. by apply Hnew.
    + by rewrite Hu, lookup_insert_eq.
  - rewrite fmap_app, NoDup_app. split; [done|]. split; [|apply NoDup_singleton].
    intros x (v & -> & Hv)%list_elem_of_fmap Hx. apply list_elem_of_singleton in Hx. apply (Hnew v Hv). by rewrite Hx, Hu.
  - intros j o serial. rewrite Ht, lookup_insert_Some. intros [[_ ?]|[_ Hj]]; [done|by eapply Hw].
  - intros j k t v. rewrite Ht, !lookup_insert_Some. intros [[_ <-]|[_ Hj]] [[_ <-]|[_ Hk]]; try done. by apply (He j k t v).
  - intros _. split; [done|]. intros j t. rewrite Ht, lookup_insert_Some. intros [[_ <-]|[Hne Hj]]; [by intros []|].
    intros Hwk. by destruct (Hone j t Hj Hwk).
  - done.
Qed.

(** A task of [h] goes on, or takes the lock. *)
Lemma work_inv s s' h us cur cur' i told o serial retries p :
  host_inv s h us cur -> sk_tasks s !! i = Some told -> task_host told = h -> (forall r, told <> TFinished h r) ->
  (forall j t, sk_tasks s !! j = Some t -> working h t -> j = i) ->
  sk_tasks s' = <[i := TWorking h o serial retries p]> (sk_tasks s) -> sk_synced s' !! h = sk_synced s !! h -> h ∈ sk_locked s' ->
  host_calls s' h = concat (up_calls <$> us) ++ cur' -> holds s' h i cur' -> host_inv s' h us cur'.
Proof.
  intros [Hc Hs Hd Hf Hn Hw He Hfr Hh] Hi Hth Hnf Hone Ht Hsy Hl Hcalls Hhold. split; try done.
  - by rewrite Hsy.
  - intros j r. rewrite Ht, lookup_insert_Some. intros [[_ ?]|[_ Hj]]; [done|by apply Hd].
  - intros v Hv. rewrite Ht, lookup_insert_ne; [by apply Hf|]. intros E. apply Hf in Hv. rewrite <- E, Hi in Hv. injection Hv. apply Hnf.
  - intros j o' serial'. rewrite Ht, lookup_insert_Some. intros [[_ ?]|[_ Hj]]; [done|by eapply Hw].
  - assert (forall j t, sk_tasks s' !! j = Some t -> working h t -> j = i) as Hone'.
    { intros j t. rewrite Ht, lookup_insert_Some. intros [[<- _]|[_ Hj]]; [done|by apply Hone]. }
    intros j k t v Hj Hk Hwj Hwk. by rewrite (Hone' j t Hj Hwj), (Hone' k v Hk Hwk).
  - eauto.
Qed.

(** A new task of [h]. *)
Lemma spawn_inv s h us cur i t :
  host_inv s h us cur -> sk_tasks s !! i = None ->
  (match t with TWaiting _ o serial => usable_serial o = Some serial | TWorking _ _ _ _ _ => False | TFinished _ r => r = Ok SkippedNoSerial end) ->
  host_inv (set_task s i t) h us cur.
Proof.
  intros [Hc Hs Hd Hf Hn Hw He Hfr Hh] Hi Ht.
  assert (~ working h t) as Hnw by (destruct t; [intros []|done|intros []]).
  split; try done; simpl.
  - intros j r. rewrite lookup_insert_Some. intros [[_ ->]|[_ Hj]]; [by left|by apply Hd].
  - intros u Hu. rewrite lookup_insert_ne; [by apply Hf|]. intros ->. apply Hf in Hu. congruence.
  - intros j o serial. rewrite lookup_insert_Some. intros [[_ ->]|[_ Hj]]; [done|by eapply Hw].
  - intros j k u v. rewrite !lookup_insert_Some. intros [[_ <-]|[_ Hj]] [[_ <-]|[_ Hk]]; try done. by apply (He j k u v).
  - intros Hl. destruct (Hfr Hl) as [? Hno]. split; [done|]. intros j u. rewrite lookup_insert_Some. intros [[_ <-]|[_ Hj]]; [done|by eapply Hno].
  - intros Hl. destruct (Hh Hl) as (j & o & serial & retries & p & attempts & tr & Hj & Hrest). exists j, o, serial, retries, p, attempts, tr.
    split; [|done]. simpl. rewrite lookup_insert_ne; [done|]. congruence.
Qed.

(** The lock: nobody else of the host is working. *)
Lemma alone s h us cur i o serial retries p :
  host_inv s h us cur -> sk_tasks s !! i = Some (TWorking h o serial retries p) ->
  h ∈ sk_locked s /\ holds s h i cur /\ forall j t, sk_tasks s !! j = Some t -> working h t -> j = i.
Proof.
  intros [_ _ _ _ _ _ He Hfr Hh] Hi. destruct (decide (h ∈ sk_locked s)) as [Hl|Hl]; [|by destruct (proj2 (Hfr Hl) i _ Hi)].
  split; [done|]. assert (forall j t, sk_tasks s !! j = Some t -> working h t -> j = i) as Hone by (intros j t Hj Hw; by eapply (He j i)).
  split; [|done]. destruct (Hh Hl) as [j Hj]. pose proof Hj as (o' & serial' & retries' & p' & attempts & tr & Hj' & _). by rewrite (Hone j _ Hj' eq_refl) in Hj.
Qed.

(** One more call of the holder's attempt, and the loop after it. *)
Lemma settle_inv s h us cur i o serial retries X (q : Req X) k n r :
  host_inv s h us cur -> sk_tasks s !! i = Some (TWorking h o serial retries (Ask q k)) ->
  let s1 := mkSink n (sk_synced s) (sk_locked s) (sk_tasks s) (sk_log s ++ [(h, record_call q r)]) in
  exists us' cur', host_inv (settle s1 i h o serial retries (k r)) h us' cur'.
Proof.
  intros Hinv Hi s1. destruct (alone _ _ _ _ _ _ _ _ _ Hinv Hi) as (Hl & Hhold & Hone).
  destruct Hhold as (o' & serial' & retries' & p & attempts & tr & Hi' & Hp & Hu & Hne & Hcur & Hlen & Hatt & Hre). rewrite Hi in Hi'.
  injection Hi' as <- <- <- <-. set (code := match_and_reconcile serial h o) in *.
  assert (reaches code (tr ++ [record_call q r]) (k r)) as Hre' by (apply reaches_app; exists (Ask q k); split; [done|]; simpl; eauto).
  assert (host_calls s1 h = concat (up_calls <$> us) ++ concat attempts ++ tr ++ [record_call q r]) as Hcalls.
  { unfold s1. rewrite host_calls_snoc, decide_True, (hi_calls _ _ _ _ Hinv), Hcur by done. by rewrite <- !app_assoc. }
  assert (forall res, k r = Ret res -> (forall e, res = Err e -> is_transient e = true -> retries = 0%nat) ->
    upsert_may h (sk_synced s !! h) (mkUpsert i o serial (concat attempts ++ tr ++ [record_call q r]) res)) as Hmay.
  { intros res Hk Hres. split; [done|]. cbn [up_serial up_obs up_calls up_result]. rewrite bool_decide_eq_false_2 by done.
    exists attempts, (tr ++ [record_call q r]). split; [done|]. split; [lia|]. split; [done|]. split; [unfold traces; by rewrite <- Hk|].
    intros e He Ht. specialize (Hres e He Ht). lia. }
  assert (forall res, k r = Ret res -> (forall e, res = Err e -> is_transient e = true -> retries = 0%nat) -> res <> Ok Updated ->
    exists us' cur', host_inv (finish s1 i h res) h us' cur') as Hfin.
  { intros res Hk Hres Hnu. eexists _, [].
    apply (finish_inv s _ h us cur i _ (mkUpsert i o serial (concat attempts ++ tr ++ [record_call q r]) res) Hinv Hi); try done.
    - by apply Hmay.
    - unfold entry_after. cbn [up_result]. by rewrite bool_decide_eq_false_2.
    - simpl. set_solver. }
  unfold settle. destruct (k r) as [[out|e]|Y q' k'] eqn:Ek.
  - destruct (decide (out = Updated)) as [->|Hnu]; [|destruct out; try done; by apply Hfin; [|..|congruence]].
    eexists _, []. apply (finish_inv s _ h us cur i _ (mkUpsert i o serial (concat attempts ++ tr ++ [record_call q r]) (Ok Updated)) Hinv Hi); try done.
    + by apply Hmay.
    + simpl. unfold mark_synced. by rewrite lookup_insert_eq.
    + simpl. set_solver.
  - destruct retries as [|m]; [by apply Hfin; [| |done]|]. destruct (is_transient e) eqn:Ee; [|by apply Hfin; [|intros e' [= <-]; congruence|done]].
    exists us, (concat (attempts ++ [tr ++ [record_call q r]]) ++ []). eapply (work_inv s _ h us cur _ i _ o serial m code Hinv Hi); try done.
    + rewrite concat_app, app_nil_r. simpl. by rewrite app_nil_r.
    + exists o, serial, m, code, (attempts ++ [tr ++ [record_call q r]]), []. simpl. rewrite lookup_insert_eq. split; [done|]. split; [done|].
      split; [done|]. split; [done|]. split; [done|]. split; [rewrite length_app; simpl; lia|]. split; [|done].
      apply Forall_app. split; [done|]. constructor; [|done]. exists e. split; [done|]. exact Hre'.
  - exists us, (concat attempts ++ tr ++ [record_call q r]). eapply (work_inv s _ h us cur _ i _ o serial retries (Ask q' k') Hinv Hi); try done.
    exists o, serial, retries, (Ask q' k'), attempts, (tr ++ [record_call q r]). simpl. by rewrite lookup_insert_eq.
Qed.

(** What the loop does for another host. *)
Lemma settle_other s s1 h us cur i h' o serial retries p told :
  host_inv s h us cur -> h' <> h -> sk_tasks s !! i = Some told -> task_host told = h' ->
  host_calls s1 h = host_calls s h -> sk_synced s1 = sk_synced s -> sk_locked s1 = sk_locked s -> sk_tasks s1 = sk_tasks s ->
  host_inv (settle s1 i h' o serial retries p) h us cur.
Proof.
  intros Hinv Hne Hi Hth Ec Es El Et.
  assert (forall t', task_host t' = h' -> forall j t, task_host t = h -> <[i := t']> (sk_tasks s1) !! j = Some t <-> sk_tasks s !! j = Some t) as Hins.
  { intros t' Ht'. rewrite Et. apply insert_other; [congruence|]. intros t Ht. rewrite Hi in Ht. injection Ht as <-. congruence. }
  assert (forall res, host_inv (finish s1 i h' res) h us cur) as Hfin.
  { intros res. apply (host_inv_frame s); try done; simpl; [by rewrite Es|rewrite El; set_solver|by apply Hins]. }
  assert (forall r p', host_inv (set_task s1 i (TWorking h' o serial r p')) h us cur) as Hset.
  { intros r p'. apply (host_inv_frame s); try done; simpl; [by rewrite Es|by rewrite El|by apply Hins]. }
  unfold settle. destruct p as [[[]|e]|Y q k]; try done; [|destruct retries; [done|]; by destruct (is_transient e)].
  apply (host_inv_frame s); try done; simpl; [|rewrite El; set_solver|by apply Hins]. unfold mark_synced. by rewrite lookup_insert_ne, Es.
Qed.

Lemma sink_lock_inv s h us cur i : host_inv s h us cur -> exists us' cur', host_inv (sink_lock s i) h us' cur'.
Proof.
  intros Hinv. unfold sink_lock. destruct (sk_tasks s !! i) as [[h' o serial|?|?]|] eqn:Hi; eauto.
  destruct (bool_decide (h' ∈ sk_locked s)) eqn:El; bool_to_prop; [eauto|].
  assert (forall t', task_host t' = h' -> h' <> h -> forall j t, task_host t = h -> <[i := t']> (sk_tasks s) !! j = Some t <-> sk_tasks s !! j = Some t) as Hins.
  { intros t' Ht' Hne. apply insert_other; [congruence|]. intros t Ht. rewrite Hi in Ht. injection Ht as <-. done. }
  unfold already_synced. destruct (decide (h' = h)) as [->|Hne].
  - destruct (hi_free _ _ _ _ Hinv El) as [-> Hno].
    assert (forall j t, sk_tasks s !! j = Some t -> working h t -> j = i) as Hone by (intros j t Hj Hw; by destruct (Hno j t Hj)).
    pose proof (hi_waiting _ _ _ _ Hinv _ _ _ Hi) as Hu. pose proof (hi_calls _ _ _ _ Hinv) as Hc. rewrite app_nil_r in Hc.
    destruct (bool_decide (sk_synced s !! h = _)) eqn:Ed.
    + eexists _, []. apply (finish_inv s _ h us [] i _ (mkUpsert i o serial [] (Ok Unchanged)) Hinv Hi); try done.
      * split; [done|]. cbn [up_serial up_obs up_calls up_result]. by rewrite Ed.
      * simpl. by rewrite app_nil_r.
      * simpl. set_solver.
    + bool_to_prop. exists us, []. eapply (work_inv s _ h us [] [] i _ o serial _ _ Hinv Hi); try done; simpl; [set_solver|by rewrite app_nil_r|].
      exists o, serial, MAX_TRANSIENT_RETRIES, (match_and_reconcile serial h o), [], []. simpl. by rewrite lookup_insert_eq.
  - exists us, cur. destruct (bool_decide _); (apply (host_inv_frame s); [done|done|done|simpl; set_solver|by apply Hins]).
Qed.

Lemma sink_step_inv s ev h us cur : host_inv s h us cur -> exists us' cur', host_inv (sink_step s ev) h us' cur'.
Proof.
  intros Hinv. destruct ev as [i h' o|i|i f|g]; simpl.
  - unfold sink_spawn. destruct (sk_tasks s !! i) eqn:Hi; [eauto|]. exists us, cur. destruct (usable_serial o) eqn:Eu; by apply spawn_inv.
  - by eapply sink_lock_inv.
  - unfold sink_call. destruct (sk_tasks s !! i) as [[?|h' o serial retries [?|X q k]|?]|] eqn:Hi; eauto.
    destruct (answer f (perform q) (sk_nb s)) as [n r]. destruct (decide (h' = h)) as [->|Hne]; [by eapply settle_inv|].
    exists us, cur. eapply (settle_other s); try done. rewrite host_calls_snoc, decide_False by done. by rewrite app_nil_r.
  - exists us, cur. by apply (host_inv_frame s).
Qed.

Lemma run_sink_inv s evs h us cur : host_inv s h us cur -> exists us' cur', host_inv (run_sink s evs) h us' cur'.
Proof.
  revert s us cur. induction evs as [|ev evs IH]; intros s us cur Hinv; [eauto|].
  destruct (sink_step_inv s ev h us cur Hinv) as (us1 & cur1 & H1'). exact (IH _ _ _ H1').
Qed.

Lemma sink_init_inv (n : N) h : host_inv (sink_init n) h [] [].
Proof. split; simpl; try done; [set_solver|constructor]. Qed.

End Tasks.

(** ** Properties *)

(** C39. Upserts of one host are sequential.  However the tasks of all hosts interleave, call
    by call, with failing calls and with others changing NetBox: the calls made for a host are
    those of whole upserts, one after the other, then of the one under way; each keeps the
    contract of the sequential sink from the dedup entry its predecessor left, so an unchanged
    snapshot makes no call and only an update is remembered; every attempt calls only what an
    attempt may; every finished task is one of them; and the lock of a host is held exactly
    while one task of it works, which always has a next call to make. *)
Theorem upserts_sequential_per_host `{Crypto} `{UuidLib} {N} `{NetboxDevices N} (n : N) evs h :
  let s := run_sink (sink_init n) evs in
  exists us cur, host_calls s h = concat (up_calls <$> us) ++ cur /\
    sequential h None us (sk_synced s !! h) /\
    Forall (fun u => exists attempts, up_calls u = concat attempts /\ (length attempts <= 4)%nat /\
      Forall (fun tr => exists complete, attempt_calls (up_serial u) h complete tr) attempts) us /\
    NoDup (up_task <$> us) /\
    (forall i r, sk_tasks s !! i = Some (TFinished h r) -> r = Ok SkippedNoSerial \/ exists u, u ∈ us /\ up_task u = i /\ up_result u = r) /\
    (h ∉ sk_locked s -> cur = [] /\ forall i o serial retries p, sk_tasks s !! i <> Some (TWorking h o serial retries p)) /\
    (h ∈ sk_locked s -> exists i o serial retries X (q : Req X) k, sk_tasks s !! i = Some (TWorking h o serial retries (Ask q k)) /\
       forall j o' serial' retries' p, sk_tasks s !! j = Some (TWorking h o' serial' retries' p) -> j = i).
Proof.
  intros s. destruct (run_sink_inv (sink_init n) evs h [] [] (sink_init_inv n h)) as (us & cur & Hinv). fold s in Hinv. exists us, cur.
  destruct Hinv as [Hc Hs Hd Hf Hn Hw He Hfr Hh]. do 2 (split; [done|]). split; [|split; [done|split; [done|split]]].
  - clear -Hs. revert Hs. generalize (None : option string). induction us as [|u us IH]; intros before; simpl; [constructor|].
    intros [Hu Hus]. constructor; [by eapply upsert_may_calls|by eapply IH].
  - intros Hl. destruct (Hfr Hl) as [? Hno]. split; [done|]. intros i o serial retries p Hi. by apply (Hno i _ Hi).
  - intros Hl. destruct (Hh Hl) as (i & o & serial & retries & p & attempts & tr & Hi & Hp & _). destruct p as [|X q k]; [done|].
    exists i, o, serial, retries, X, q, k. split; [done|]. intros j o' serial' retries' p' Hj. by eapply (He j i).
Qed.

(** Two tasks with one snapshot: the second waits for the first, and then writes nothing. *)
Definition demo_sink_evs : list (SkEvent RefNb) :=
  [SkSpawn 0 demo_host demo_inventory; SkSpawn 1 demo_host demo_inventory; SkLock 1; SkLock 0; SkCall 1 (NbNotSent (Transport "reset"))] ++
  flat_map (fun _ => [SkLock 0; SkCall 1 NbOk]) (seq 0 12) ++ [SkLock 0].
Definition sink_outcomes {N} (s : Sink N) : list (nat * result UpsertOutcome PortError) :=
  omap (fun '(i, t) => match t with TFinished _ r => Some (i, r) | _ => None end) (map_to_list (sk_tasks s)).
Lemma second_snapshot_unchanged :
  (let s := run_sink (sink_init demo_netbox) demo_sink_evs in (sink_outcomes s, size (sk_locked s), length (host_calls s demo_host))) =
  ([(1%nat, Ok Updated); (0%nat, Ok Unchanged)], 0%nat, 9%nat).
Proof. vm_compute. reflexivity. Qed.
