(* ===== verification/Enroll.v ===== *)
(** * The agent's identity on disk (osa-agent/src/enroll.rs)

    Enrollment and renewal from the host's side: the state directory's files with their
    modes, the temp-and-rename writes, and the requests to the coordinator.  Every file
    operation may fail, a write after any part of its bytes; a process that dies between
    two operations leaves what a failure there leaves. *)
From S2P Require Import Prelude Proto Concrete Text Seal Handshake Registries Ca Service.

Definition RENEW_BEFORE : Z := 8 * 3600.
Definition KEY_FILE : string := "host.key".
Definition CERT_FILE : string := "host.crt".
Definition CA_FILE : string := "ca.crt".
Definition HOST_ID_FILE : string := "host_id".

Record Identity := mkIdentity { id_host_id : string; id_key_pem : string; id_cert_pem : string; id_ca_root_pem : string }.

(** ** Files *)

(** The mode 0oabc. *)
Definition oct (a b c : Z) : Z := 64 * a + 8 * b + c.

Record File := mkFile { f_bytes : bytes; f_mode : Z }.
Record StateDir := mkStateDir { sd_mode : option Z; sd_files : gmap string File }.

(** How one file operation ends; a failed write has written a prefix. *)
Inductive IoFault := IoDone | IoFail (written : nat) (msg : string).

(** A computation on the state directory, with the faults still to come; errors carry
    the outermost [anyhow] context. *)
Definition Fs (A : Type) : Type := StateDir -> list IoFault -> StateDir * list IoFault * result A string.
Definition fret {A} (a : A) : Fs A := fun d fs => (d, fs, Ok a).
Definition fthrow {A} (e : string) : Fs A := fun d fs => (d, fs, Err e).
Definition fbind {A B} (m : Fs A) (k : A -> Fs B) : Fs B := fun d fs =>
  match m d fs with (d, fs, Ok a) => k a d fs | (d, fs, Err e) => (d, fs, Err e) end.
Definition context {A} (msg : string) (m : Fs A) : Fs A := fun d fs =>
  let '(d, fs, r) := m d fs in (d, fs, map_err (fun _ => msg) r).
(** [let _ = ...]: a failure is ignored. *)
Definition ignore (m : Fs unit) : Fs unit := fun d fs => let '(d, fs, _) := m d fs in (d, fs, Ok tt).
Definition lift {A} (r : result A string) : Fs A := fun d fs => (d, fs, r).

Notation "'do' x '<-' m ';' k" := (fbind m (fun x => k))
  (at level 10, x pattern, m at level 200, k at level 200) : osa_scope.

(** One file operation: [effect] when it succeeds, [partial] when it fails. *)
Definition fs_op {A} (effect : StateDir -> StateDir * A) (partial : nat -> StateDir -> StateDir) : Fs A := fun d fs =>
  match fs with
  | IoFail k msg :: fs => (partial k d, fs, Err msg)
  | IoDone :: fs => let '(d, a) := effect d in (d, fs, Ok a)
  | [] => let '(d, a) := effect d in (d, [], Ok a)
  end.

Section Files.
Context (umask : Z).

Definition set_file (name : string) (f : File) (d : StateDir) : StateDir := mkStateDir (sd_mode d) (<[name := f]> (sd_files d)).

(** [open] with create and truncate: the mode applies only to a file it creates. *)
Definition open_truncate (name : string) (mode : option Z) : Fs unit :=
  fs_op (fun d =>
    let m := match sd_files d !! name with
             | Some f => f_mode f
             | None => Z.land (default (oct 6 6 6) mode) (Z.lnot umask)
             end in
    (set_file name (mkFile [] m) d, tt)) (fun _ d => d).
Definition append (name : string) (b : bytes) (d : StateDir) : StateDir :=
  match sd_files d !! name with
  | Some f => set_file name (mkFile (f_bytes f ++ b) (f_mode f)) d
  | None => d
  end.
(** [write_all] then [sync_all]. *)
Definition write_sync (name : string) (b : bytes) : Fs unit :=
  fs_op (fun d => (append name b d, tt)) (fun k d => append name (take k b) d).
Definition rename (from to : string) : Fs unit :=
  fs_op (fun d => (match sd_files d !! from with
                   | Some f => mkStateDir (sd_mode d) (<[to := f]> (delete from (sd_files d)))
                   | None => d
                   end, tt)) (fun _ d => d).

Definition write_atomic (name : string) (b : bytes) (mode : option Z) : Fs unit :=
  let tmp := name +:+ ".tmp" in
  do _ <- context ("creating " +:+ tmp) (open_truncate tmp mode);
  do _ <- write_sync tmp b;
  context ("finalizing " +:+ name) (rename tmp name).

(** [create_dir_all]. *)
Definition create_dir : Fs unit :=
  fs_op (fun d => (mkStateDir (Some (default (Z.land (oct 7 7 7) (Z.lnot umask)) (sd_mode d))) (sd_files d), tt)) (fun _ d => d).
Definition set_dir_owner_only : Fs unit :=
  ignore (fs_op (fun d => (mkStateDir (Some (oct 7 0 0)) (sd_files d), tt)) (fun _ d => d)).
Definition read_string (name : string) : Fs string :=
  do f <- fs_op (fun d => (d, sd_files d !! name)) (fun _ d => d);
  match f with Some f => fret (String.string_of_list_byte (f_bytes f)) | None => fthrow "not found" end.

(** ** enroll.rs *)

Definition ensure_not_enrolled (force : bool) : Fs unit := fun d fs =>
  if bool_decide (is_Some (sd_files d !! KEY_FILE)) && negb force
  then (d, fs, Err "already enrolled; pass --force to re-enroll")
  else (d, fs, Ok tt).

Definition persist (id : Identity) (force : bool) : Fs unit :=
  do _ <- ensure_not_enrolled force;
  do _ <- context "creating state dir" create_dir;
  do _ <- set_dir_owner_only;
  do _ <- context "writing cert" (write_atomic CERT_FILE (bytes_of (id_cert_pem id)) None);
  do _ <- context "writing CA root" (write_atomic CA_FILE (bytes_of (id_ca_root_pem id)) None);
  do _ <- context "writing host_id" (write_atomic HOST_ID_FILE (bytes_of (id_host_id id)) None);
  context "writing private key" (write_atomic KEY_FILE (bytes_of (id_key_pem id)) (Some (oct 6 0 0))).

(** The host's key pair library (rcgen): a CSR for a PEM key. *)
Context `{X509} (key_csr : string -> result bytes string).

Definition der_to_pem (der : bytes) : string := pem_of_der der.

(** [run] against a coordinator with state [S]: [generated] is the new key, [connected]
    whether the connection comes up, [rpc] the Enroll call. *)
Definition run {S} (rpc : S -> string -> bytes -> S * result EnrollResponse string) (connected : bool)
    (generated : result string string) (token : string) (force : bool) (s : S) (d : StateDir) (fs : list IoFault)
    : S * (StateDir * list IoFault * result string string) :=
  if is_empty (trim token) then (s, (d, fs, Err "join token is empty"))
  else match ensure_not_enrolled force d fs with
  | (d, fs, Err e) => (s, (d, fs, Err e))
  | (d, fs, Ok _) =>
      match generated with
      | Err _ => (s, (d, fs, Err "generating keypair"))
      | Ok key =>
          match key_csr key with
          | Err _ => (s, (d, fs, Err "building CSR"))
          | Ok csr =>
              if negb connected then (s, (d, fs, Err "connecting to coordinator"))
              else match rpc s token csr with
              | (s, Err _) => (s, (d, fs, Err "enroll request failed"))
              | (s, Ok resp) =>
                  let identity := mkIdentity (er_host_id resp) key (der_to_pem (er_cert resp)) (der_to_pem (er_ca_root resp)) in
                  (s, (do _ <- persist identity force; fret (id_host_id identity)) d fs)
              end
          end
      end
  end.

Definition verify_chains_to_pinned_ca (cert_der : bytes) : Fs unit :=
  do ca_pem <- read_string CA_FILE;
  do ca_der <- lift (pem_contents ca_pem);
  do ca <- lift (map_err (fun _ => "malformed pinned CA") (x509_from_der ca_der));
  do leaf <- lift (map_err (fun _ => "renewed cert is not valid X.509") (x509_from_der cert_der));
  if x509_verify_signature leaf (xc_key ca) then fret tt else fthrow "renewed cert does not chain to the pinned CA".

(** [renew]: [rpc] is the connection and the Renew call. *)
Definition renew (rpc : bytes -> bytes -> result bytes string) : Fs unit :=
  do key_pem <- context "reading host.key (is the host enrolled?)" (read_string KEY_FILE);
  do cert_pem <- context "reading host.crt" (read_string CERT_FILE);
  do current_cert <- context "parsing current cert" (lift (pem_contents cert_pem));
  do _ <- context "loading private key" (lift (key_from_pem key_pem));
  do csr <- context "building CSR" (lift (key_csr key_pem));
  do cert <- lift (rpc current_cert csr);
  do _ <- context "validating renewed cert" (verify_chains_to_pinned_ca cert);
  context "writing renewed cert" (write_atomic CERT_FILE (bytes_of (der_to_pem cert)) None).

Definition cert_expiry_unix : Fs Z :=
  do cert_pem <- read_string CERT_FILE;
  do der <- lift (pem_contents cert_pem);
  do cert <- lift (map_err (fun _ => "malformed host certificate") (x509_from_der der));
  fret (xc_not_after cert).

(** One turn of [renewal_loop], with what it logs. *)
Inductive RenewalTurn := TurnExpired | TurnRenewed | TurnFailed (e : string) | TurnIdle | TurnUnreadable (e : string).
Definition renewal_turn (rpc : bytes -> bytes -> result bytes string) (now : Z) (d : StateDir) (fs : list IoFault)
    : StateDir * list IoFault * RenewalTurn :=
  match cert_expiry_unix d fs with
  | (d, fs, Ok not_after) =>
      if not_after <=? now then (d, fs, TurnExpired)
      else if not_after - now <=? RENEW_BEFORE then
        match renew rpc d fs with
        | (d, fs, Ok _) => (d, fs, TurnRenewed)
        | (d, fs, Err e) => (d, fs, TurnFailed e)
        end
      else (d, fs, TurnIdle)
  | (d, fs, Err e) => (d, fs, TurnUnreadable e)
  end.
End Files.

(** ** Lemmas *)

Definition tmp (name : string) : string := name +:+ ".tmp".

(** [holds d name b]: the file has these bytes. *)
Definition holds (d : StateDir) (name : string) (b : bytes) : Prop := f_bytes <$> sd_files d !! name = Some b.

(** The file, if there, is for its owner only. *)
Definition private (d : StateDir) (name : string) : Prop :=
  forall f, sd_files d !! name = Some f -> Z.land (f_mode f) (oct 0 7 7) = 0.

Lemma tmp_ne name : tmp name <> name.
Proof. intros He. apply (f_equal String.length) in He. unfold tmp in He. rewrite length_append in He. simpl in He. lia. Qed.

(** The mode a temp file has once opened. *)
Definition opened_mode (umask : Z) (d : StateDir) (name : string) (mode : option Z) : Z :=
  match sd_files d !! tmp name with
  | Some f => f_mode f
  | None => Z.land (default (oct 6 6 6) mode) (Z.lnot umask)
  end.

Lemma write_atomic_spec umask name b mode d fs d' fs' r :
  write_atomic umask name b mode d fs = (d', fs', r) ->
  sd_mode d' = sd_mode d /\
  (forall x, x <> name -> x <> tmp name -> sd_files d' !! x = sd_files d !! x) /\
  (forall f, sd_files d' !! tmp name = Some f -> f_mode f = opened_mode umask d name mode) /\
  match r with
  | Ok _ => sd_files d' !! name = Some (mkFile b (opened_mode umask d name mode))
  | Err _ => sd_files d' !! name = sd_files d !! name
  end.
Proof.
  pose proof (tmp_ne name) as Hne. unfold write_atomic, fbind, context, open_truncate, write_sync, rename, fs_op, append.
  fold (tmp name). fold (opened_mode umask d name mode).
  assert (forall f, sd_files d !! tmp name = Some f -> f_mode f = opened_mode umask d name mode) as Hold.
  { intros f Hf. unfold opened_mode. by rewrite Hf. }
  set (m := opened_mode umask d name mode) in *. clearbody m.
  destruct fs as [|[|] [|[|] [|[|] ?]]]; simpl; rewrite ?lookup_insert_eq; simpl; rewrite ?lookup_insert_eq; simpl;
    intros [= <- <- <-]; simpl; (split; [done|]); (split; [intros; simplify_map_eq; done|]);
    (split; [intros f Hf; simplify_map_eq; auto|simplify_map_eq; done]).
Qed.

Lemma fbind_inv {A B} (m : Fs A) (k : A -> Fs B) d fs d' fs' r :
  fbind m k d fs = (d', fs', r) ->
  (exists e, m d fs = (d', fs', Err e) /\ r = Err e) \/
  (exists a d1 fs1, m d fs = (d1, fs1, Ok a) /\ k a d1 fs1 = (d', fs', r)).
Proof.
  unfold fbind. destruct (m d fs) as [[d1 fs1] [a|e]]; [eauto 8|]. intros [= <- <- <-]. eauto.
Qed.

Lemma context_inv {A} msg (m : Fs A) d fs d' fs' r :
  context msg m d fs = (d', fs', r) -> exists r0, m d fs = (d', fs', r0) /\ r = map_err (fun _ => msg) r0.
Proof. unfold context. destruct (m d fs) as [[d1 fs1] r0]. intros [= <- <- <-]. eauto. Qed.

(** Two directories agree on the files [names]. *)
Definition same_on (names : list string) (d d' : StateDir) : Prop :=
  forall x, x ∈ names -> sd_files d' !! x = sd_files d !! x.

Lemma same_on_refl names d : same_on names d d.
Proof. done. Qed.

Lemma same_on_trans names d1 d2 d3 : same_on names d1 d2 -> same_on names d2 d3 -> same_on names d1 d3.
Proof. intros H1 H2 x Hx. rewrite H2 by done. auto. Qed.

Lemma same_on_sub names names' d d' : names' ⊆ names -> same_on names d d' -> same_on names' d d'.
Proof. intros Hs H x Hx. auto. Qed.

(** A guarded write of [name] in a sequence, for the files [names] other than it. *)
Lemma write_step umask msg name b mode names d fs d' fs' r :
  context msg (write_atomic umask name b mode) d fs = (d', fs', r) ->
  Forall (fun x => x <> name /\ x <> tmp name) names ->
  same_on names d d' /\ sd_mode d' = sd_mode d /\
  (forall f, sd_files d' !! tmp name = Some f -> f_mode f = opened_mode umask d name mode) /\
  match r with
  | Ok _ => sd_files d' !! name = Some (mkFile b (opened_mode umask d name mode))
  | Err _ => sd_files d' !! name = sd_files d !! name
  end.
Proof.
  intros (r0 & Hw & ->)%context_inv Hn. apply write_atomic_spec in Hw as (Hm & Ho & Ht & Hr).
  split; [|by destruct r0]. intros x Hx. rewrite Forall_forall in Hn. destruct (Hn x Hx). auto.
Qed.

Lemma create_dir_files umask msg d fs d' fs' r :
  context msg (create_dir umask) d fs = (d', fs', r) -> sd_files d' = sd_files d.
Proof. unfold context, create_dir, fs_op. destruct fs as [|[]]; simpl; by intros [= <- <- <-]. Qed.

Lemma set_dir_files d fs d' fs' r : set_dir_owner_only d fs = (d', fs', r) -> sd_files d' = sd_files d.
Proof. unfold set_dir_owner_only, ignore, fs_op. destruct fs as [|[]]; simpl; by intros [= <- <- <-]. Qed.

(** What [persist] leaves, wherever it stops. *)
Lemma persist_spec umask id force d fs d' fs' r :
  (bool_decide (is_Some (sd_files d !! KEY_FILE)) && negb force) = false ->
  persist umask id force d fs = (d', fs', r) ->
  match r with
  | Ok _ => holds d' CERT_FILE (bytes_of (id_cert_pem id)) /\ holds d' CA_FILE (bytes_of (id_ca_root_pem id)) /\
            holds d' HOST_ID_FILE (bytes_of (id_host_id id)) /\
            sd_files d' !! KEY_FILE = Some (mkFile (bytes_of (id_key_pem id)) (opened_mode umask d KEY_FILE (Some (oct 6 0 0))))
  | Err _ => sd_files d' !! KEY_FILE = sd_files d !! KEY_FILE
  end /\
  (forall f, sd_files d' !! tmp KEY_FILE = Some f -> f_mode f = opened_mode umask d KEY_FILE (Some (oct 6 0 0))).
Proof.
  set (k := [KEY_FILE; tmp KEY_FILE]).
  assert (forall d1, same_on k d d1 ->
    sd_files d1 !! KEY_FILE = sd_files d !! KEY_FILE /\
    (forall f, sd_files d1 !! tmp KEY_FILE = Some f -> f_mode f = opened_mode umask d KEY_FILE (Some (oct 6 0 0)))) as Hstop.
  { intros d1 Hs. split; [apply Hs; set_solver|]. intros f. rewrite Hs by set_solver. intros Hf.
    unfold opened_mode. by rewrite Hf. }
  intros Hg. unfold persist, ensure_not_enrolled. intros [(e & Hc & ->)|([] & d1 & fs1 & Hc & Hp)]%fbind_inv; rewrite Hg in Hc.
  { discriminate Hc. }
  injection Hc as <- <-.
  apply fbind_inv in Hp as [(e & Hc%create_dir_files & ->)|([] & d1 & fs1 & Hc%create_dir_files & Hp)].
  { apply Hstop. intros x _. by rewrite Hc. }
  apply fbind_inv in Hp as [(e & Hd%set_dir_files & ->)|([] & d2 & fs2 & Hd%set_dir_files & Hp)].
  { apply Hstop. intros x _. by rewrite Hd, Hc. }
  assert (same_on k d d2) as H2 by (intros x _; by rewrite Hd, Hc).
  apply fbind_inv in Hp as [(e & Hw & ->)|([] & d3 & fs3 & Hw & Hp)].
  { apply (write_step _ _ _ _ _ k) in Hw as (Hs & _); [|by repeat constructor]. apply Hstop. by eapply same_on_trans. }
  apply (write_step _ _ _ _ _ k) in Hw as (Hs3 & _ & _ & Hcert); [|by repeat constructor].
  pose proof (same_on_trans _ _ _ _ H2 Hs3) as H3.
  apply fbind_inv in Hp as [(e & Hw & ->)|([] & d4 & fs4 & Hw & Hp)].
  { apply (write_step _ _ _ _ _ k) in Hw as (Hs & _); [|by repeat constructor]. apply Hstop. by eapply same_on_trans. }
  apply (write_step _ _ _ _ _ (CERT_FILE :: k)) in Hw as (Hs4 & _ & _ & Hca); [|by repeat constructor].
  pose proof (same_on_trans _ _ _ _ H3 (same_on_sub (CERT_FILE :: k) k _ _ ltac:(set_solver) Hs4)) as H4.
  apply fbind_inv in Hp as [(e & Hw & ->)|([] & d5 & fs5 & Hw & Hp)].
  { apply (write_step _ _ _ _ _ k) in Hw as (Hs & _); [|by repeat constructor]. apply Hstop. by eapply same_on_trans. }
  apply (write_step _ _ _ _ _ (CERT_FILE :: CA_FILE :: k)) in Hw as (Hs5 & _ & _ & Hid); [|by repeat constructor].
  pose proof (same_on_trans _ _ _ _ H4 (same_on_sub (CERT_FILE :: CA_FILE :: k) k _ _ ltac:(set_solver) Hs5)) as H5.
  apply (write_step _ _ _ _ _ [CERT_FILE; CA_FILE; HOST_ID_FILE]) in Hp as (Hs6 & _ & Ht & Hkey); [|by repeat constructor].
  assert (opened_mode umask d5 KEY_FILE (Some (oct 6 0 0)) = opened_mode umask d KEY_FILE (Some (oct 6 0 0))) as Hmode.
  { unfold opened_mode. by rewrite (H5 (tmp KEY_FILE)) by set_solver. }
  rewrite Hmode in *. split; [|done]. destruct r as [[]|e]; [|rewrite Hkey; apply H5; set_solver].
  unfold holds. split; [|split; [|split; [|done]]]; (rewrite Hs6 by set_solver).
  - rewrite (Hs5 CERT_FILE) by set_solver. rewrite (Hs4 CERT_FILE) by set_solver. by rewrite Hcert.
  - rewrite (Hs5 CA_FILE) by set_solver. by rewrite Hca.
  - by rewrite Hid.
Qed.

Lemma lift_inv {A} (r0 : result A string) d fs d' fs' r : lift r0 d fs = (d', fs', r) -> d' = d /\ fs' = fs /\ r = r0.
Proof. by intros [= <- <- <-]. Qed.

Lemma read_string_inv name d fs d' fs' r :
  read_string name d fs = (d', fs', r) ->
  d' = d /\ forall s, r = Ok s -> exists b, holds d name b /\ s = String.string_of_list_byte b.
Proof.
  unfold read_string, fbind, fs_op, holds. destruct fs as [|[]]; simpl;
    destruct (sd_files d !! name) as [f|]; simpl; intros [= <- <- <-]; (split; [done|]); intros s Hs; simplify_eq; eauto.
Qed.

(** [quiet m d]: [m] leaves the directory as it is. *)
Definition quiet {A} (m : Fs A) : Prop := forall d fs, fst (fst (m d fs)) = d.

Lemma quiet_lift {A} (r : result A string) : quiet (lift r).
Proof. done. Qed.
Lemma quiet_read name : quiet (read_string name).
Proof.
  intros d fs. destruct (read_string name d fs) as [[d' fs'] r] eqn:E. by apply read_string_inv in E as [-> _].
Qed.
Lemma quiet_context {A} msg (m : Fs A) : quiet m -> quiet (context msg m).
Proof. intros Hq d fs. specialize (Hq d fs). unfold context. by destruct (m d fs) as [[? ?] ?]. Qed.
Lemma quiet_bind {A B} (m : Fs A) (k : A -> Fs B) : quiet m -> (forall a, quiet (k a)) -> quiet (fbind m k).
Proof.
  intros Hm Hk d fs. specialize (Hm d fs). unfold fbind. destruct (m d fs) as [[d1 fs1] [a|e]]; simpl in *; subst; [apply Hk|done].
Qed.
Lemma quiet_bind_inv {A B} (m : Fs A) (k : A -> Fs B) d fs d' fs' r :
  quiet m -> fbind m k d fs = (d', fs', r) ->
  (d' = d /\ is_ok r = false) \/ exists a fs1, m d fs = (d, fs1, Ok a) /\ k a d fs1 = (d', fs', r).
Proof.
  intros Hm [(e & He & ->)|(a & d1 & fs1 & He & Hk)]%fbind_inv; specialize (Hm d fs); rewrite He in Hm; simpl in Hm; subst; eauto.
Qed.
#[local] Hint Resolve quiet_lift quiet_read quiet_context : osa.

Lemma quiet_verify `{X509} cert : quiet (verify_chains_to_pinned_ca cert).
Proof. unfold verify_chains_to_pinned_ca. repeat (apply quiet_bind; [by auto with osa|intros ?]). by destruct (x509_verify_signature _ _). Qed.

(** An accepted certificate is signed by the pinned CA. *)
Lemma verify_chains_inv `{X509} cert d fs d' fs' :
  verify_chains_to_pinned_ca cert d fs = (d', fs', Ok tt) ->
  exists ca_file ca_der ca leaf, holds d CA_FILE ca_file /\ pem_contents (String.string_of_list_byte ca_file) = Ok ca_der /\
    x509_from_der ca_der = Ok ca /\ x509_from_der cert = Ok leaf /\ x509_verify_signature leaf (xc_key ca) = true.
Proof.
  unfold verify_chains_to_pinned_ca.
  intros [[_ ?]|(ca_pem & fs1 & [_ Hr]%read_string_inv & Hv)]%quiet_bind_inv; [done| |apply quiet_read].
  destruct (Hr _ eq_refl) as (b & Hb & ->).
  unfold fbind, lift in Hv. destruct (pem_contents _) as [der|] eqn:Ed; [|done]. destruct (x509_from_der der) as [ca|] eqn:Ec; [|done].
  simpl in Hv. destruct (x509_from_der cert) as [leaf|] eqn:El; [|done]. simpl in Hv.
  destruct (x509_verify_signature leaf (xc_key ca)) eqn:Ev; [|done]. eauto 10.
Qed.

#[local] Hint Resolve quiet_verify : osa.

(** Past one step of a sequence that leaves the directory alone. *)
Ltac quiet_step Hp x fs Hx :=
  apply quiet_bind_inv in Hp as [[-> ?]|(x & fs & Hx & Hp)];
  [split; [done|split; [done|intros ->; done]]| |by auto with osa].

Lemma quiet_expiry `{X509} : quiet cert_expiry_unix.
Proof. unfold cert_expiry_unix. repeat (apply quiet_bind; [by auto with osa|intros ?]). done. Qed.

Lemma cert_expiry_inv `{X509} d fs d' fs' na : cert_expiry_unix d fs = (d', fs', Ok na) ->
  d' = d /\ exists cert der c, holds d CERT_FILE cert /\ pem_contents (String.string_of_list_byte cert) = Ok der /\
    x509_from_der der = Ok c /\ xc_not_after c = na.
Proof.
  unfold cert_expiry_unix. intros [[_ ?]|(pem & fs1 & [_ Hr]%read_string_inv & Hv)]%quiet_bind_inv; [done| |by auto with osa].
  destruct (Hr _ eq_refl) as (b & Hb & ->). unfold fbind, lift in Hv.
  destruct (pem_contents _) as [der|] eqn:Ed; [|done]. destruct (x509_from_der der) as [c|] eqn:Ec; [|done].
  simpl in Hv. injection Hv as <- <- <-. eauto 10.
Qed.

(** The files a renewal never touches. *)
Definition kept_files : list string := [KEY_FILE; tmp KEY_FILE; CA_FILE; HOST_ID_FILE].

Lemma renew_spec umask `{X509} key_csr rpc d fs d' fs' r :
  renew umask key_csr rpc d fs = (d', fs', r) ->
  same_on kept_files d d' /\
  (is_ok r = false -> sd_files d' !! CERT_FILE = sd_files d !! CERT_FILE) /\
  (r = Ok tt -> exists key current csr cert ca_file ca_der ca leaf,
     holds d KEY_FILE key /\ key_csr (String.string_of_list_byte key) = Ok csr /\ rpc current csr = Ok cert /\
     holds d' CERT_FILE (bytes_of (pem_of_der cert)) /\
     holds d CA_FILE ca_file /\ pem_contents (String.string_of_list_byte ca_file) = Ok ca_der /\
     x509_from_der ca_der = Ok ca /\ x509_from_der cert = Ok leaf /\ x509_verify_signature leaf (xc_key ca) = true).
Proof.
  unfold renew. intros Hp.
  quiet_step Hp key_pem fs1 Hkey. quiet_step Hp cert_pem fs2 Hc. quiet_step Hp current fs3 Hcur. quiet_step Hp pub fs4 Hpub.
  quiet_step Hp csr fs5 Hcsr. quiet_step Hp cert fs6 Hrpc. quiet_step Hp u fs7 Hv. destruct u.
  apply (write_step _ _ _ _ _ kept_files) in Hp as (Hs & _ & _ & Hw); [|by repeat constructor].
  split; [done|]. split; [by destruct r|]. intros ->.
  apply context_inv in Hkey as ([k|] & [_ Hkey]%read_string_inv & [= ->]). destruct (Hkey _ eq_refl) as (key & Hk & ->).
  apply context_inv in Hcsr as ([c|] & (_ & _ & Hcsr)%lift_inv & [= ->]).
  apply lift_inv in Hrpc as (_ & _ & Hrpc).
  apply context_inv in Hv as ([[]|] & Hv & [=]). apply verify_chains_inv in Hv as (f & der & ca & leaf & ? & ? & ? & ? & ?).
  exists key, current, c, cert, f, der, ca, leaf. unfold holds at 2. rewrite Hw. auto 10.
Qed.

Lemma read_string_ok name d b : holds d name b -> read_string name d [] = (d, [], Ok (String.string_of_list_byte b)).
Proof. unfold holds, read_string, fbind, fs_op. destruct (sd_files d !! name) as [f|]; simpl; [|done]. by intros [= <-]. Qed.

(** Without faults [persist] succeeds. *)
Lemma persist_no_fault umask id force d :
  (bool_decide (is_Some (sd_files d !! KEY_FILE)) && negb force) = false ->
  exists d', persist umask id force d [] = (d', [], Ok tt).
Proof.
  intros Hg. eexists. unfold persist, fbind at 1, ensure_not_enrolled. rewrite Hg. reflexivity.
Qed.

(** The directory holds the whole identity. *)
Definition complete (d : StateDir) (id : Identity) : Prop :=
  holds d CERT_FILE (bytes_of (id_cert_pem id)) /\ holds d CA_FILE (bytes_of (id_ca_root_pem id)) /\
  holds d HOST_ID_FILE (bytes_of (id_host_id id)) /\ holds d KEY_FILE (bytes_of (id_key_pem id)).

Lemma owner_only_mode umask : Z.land (Z.land (oct 6 0 0) (Z.lnot umask)) (oct 0 7 7) = 0.
Proof. rewrite <- Z.land_assoc, (Z.land_comm (Z.lnot umask)), Z.land_assoc. reflexivity. Qed.

(** ** Properties *)

(** C23. A first enrollment is all or nothing.  Wherever [persist] stops, on a host without
    a key the key appears only with the complete identity, so a half-written one never
    looks enrolled; a key in place is never overwritten without force, and stays as it was
    unless the call succeeds; success leaves the complete identity; and the key and its
    temp file are never readable by anyone but their owner, whatever the umask. *)
Theorem identity_written_all_or_nothing umask id force d fs :
  let '(d', _, r) := persist umask id force d fs in
  (is_Some (sd_files d !! KEY_FILE) -> force = false -> d' = d /\ is_ok r = false) /\
  (r = Ok tt -> complete d' id) /\
  (sd_files d !! KEY_FILE = None -> is_Some (sd_files d' !! KEY_FILE) -> complete d' id) /\
  (is_ok r = false -> sd_files d' !! KEY_FILE = sd_files d !! KEY_FILE) /\
  (private d KEY_FILE -> private d (tmp KEY_FILE) -> private d' KEY_FILE /\ private d' (tmp KEY_FILE)).
Proof.
  destruct (persist umask id force d fs) as [[d' fs'] r] eqn:Ep.
  destruct (bool_decide (is_Some (sd_files d !! KEY_FILE)) && negb force) eqn:Eg.
  { unfold persist, fbind, ensure_not_enrolled in Ep. rewrite Eg in Ep. simplify_eq.
    apply andb_true_iff in Eg as [[f Hk]%bool_decide_eq_true _]. rewrite Hk. by repeat split. }
  destruct (persist_spec _ _ _ _ _ _ _ _ Eg Ep) as [Hr Ht].
  assert (r = Ok tt -> complete d' id) as Hok.
  { intros ->. destruct Hr as (? & ? & ? & Hk). repeat split; try done. unfold holds. by rewrite Hk. }
  split; [|split; [done|split; [|split]]].
  - intros Hk ->. by rewrite bool_decide_eq_true_2 in Eg.
  - intros Hn Hk. destruct r as [[]|e]; [auto|]. rewrite Hr, Hn in Hk. by apply is_Some_None in Hk.
  - by destruct r.
  - intros Hpk Hpt.
    assert (Z.land (opened_mode umask d KEY_FILE (Some (oct 6 0 0))) (oct 0 7 7) = 0) as Hm.
    { unfold opened_mode. destruct (sd_files d !! tmp KEY_FILE) eqn:E; [by apply Hpt|apply owner_only_mode]. }
    split; intros f Hf; [|by rewrite Ht]. destruct r as [[]|e].
    + destruct Hr as (_ & _ & _ & Hk). rewrite Hk in Hf. by injection Hf as <-.
    + rewrite Hr in Hf. by apply Hpk.
Qed.

(** Re-enrolling with force is not: a stop after the certificate is written leaves the
    new certificate beside the old key. *)
Lemma forced_reenroll_can_mix :
  let id n := mkIdentity ("host" +:+ n) ("key" +:+ n) ("cert" +:+ n) ("ca" +:+ n) in
  let '(d1, _, r1) := persist (oct 0 2 2) (id "1") false (mkStateDir None ∅) [] in
  let '(d2, _, r2) := persist (oct 0 2 2) (id "2") true d1 [IoDone; IoDone; IoDone; IoDone; IoDone; IoFail 0 "died"] in
  r1 = Ok tt /\ is_ok r2 = false /\
  f_bytes <$> sd_files d2 !! KEY_FILE = Some (bytes_of "key1") /\ f_bytes <$> sd_files d2 !! CERT_FILE = Some (bytes_of "cert2").
Proof. vm_compute. repeat split. Qed.

(** C24. Renewal never loses the identity.  Whatever fails, the key, the pinned CA and the
    host id stay; the certificate file is either untouched or, and only on success, the
    PEM of a certificate the coordinator returned for a CSR of the stored key, whose
    signature verifies under the CA pinned at enrollment; and a turn of the renewal loop
    asks for one only in the last eight hours of a certificate that has not lapsed. *)
Theorem renewal_keeps_identity umask `{X509} key_csr rpc now d fs :
  (let '(d', _, r) := renew umask key_csr rpc d fs in
   same_on [KEY_FILE; tmp KEY_FILE; CA_FILE; HOST_ID_FILE] d d' /\
   (is_ok r = false -> sd_files d' !! CERT_FILE = sd_files d !! CERT_FILE) /\
   (r = Ok tt -> exists key current csr cert ca_file ca_der ca leaf,
      holds d KEY_FILE key /\ key_csr (String.string_of_list_byte key) = Ok csr /\ rpc current csr = Ok cert /\
      holds d' CERT_FILE (bytes_of (pem_of_der cert)) /\
      holds d CA_FILE ca_file /\ pem_contents (String.string_of_list_byte ca_file) = Ok ca_der /\
      x509_from_der ca_der = Ok ca /\ x509_from_der cert = Ok leaf /\ x509_verify_signature leaf (xc_key ca) = true)) /\
  (let '(d', _, turn) := renewal_turn umask key_csr rpc now d fs in
   (d' = d \/ exists cert, holds d CERT_FILE cert /\
      exists der c, pem_contents (String.string_of_list_byte cert) = Ok der /\ x509_from_der der = Ok c /\
        0 < xc_not_after c - now <= RENEW_BEFORE)).
Proof.
  split.
  - destruct (renew umask key_csr rpc d fs) as [[d' fs'] r] eqn:Er. by apply renew_spec in Er.
  - destruct (renewal_turn _ _ _ _ _ _) as [[d' fs'] turn] eqn:Et. unfold renewal_turn in Et.
    destruct (cert_expiry_unix d fs) as [[d1 fs1] [na|e]] eqn:Ee.
    2: { left. pose proof (quiet_expiry d fs) as Hq. rewrite Ee in Hq. simpl in Hq. by simplify_eq. }
    apply cert_expiry_inv in Ee as [-> (cert & der & c & ? & ? & ? & <-)].
    destruct (Z.leb_spec (xc_not_after c) now); [left; by simplify_eq|].
    destruct (Z.leb_spec (xc_not_after c - now) RENEW_BEFORE); [|left; by simplify_eq].
    right. exists cert. split; [done|]. exists der, c. repeat split; auto; lia.
Qed.

(** A key library whose CSRs the coordinator's parser accepts as proofs of the key. *)
Class KeyCsrLaw `{X509} (key_csr : string -> result bytes string) :=
  csr_proves : forall pem csr, key_csr pem = Ok csr -> exists pub, key_from_pem pem = Ok pub /\ csr_from_der csr = Ok pub.

(** The coordinator's Enroll handler as the agent's RPC. *)
Definition enroll_rpc `{Crypto} `{UuidLib} `{X509} {T R L} `{JoinTokens T} ca (e : SvEnv) (re : RedeemEnv)
    (s : Service T R L) (token : string) (csr : bytes) : Service T R L * result EnrollResponse string :=
  let '(s, r) := enroll ca s token csr e re in (s, map_err (fun _ => "status") r).

(** C22. Enrollment works end to end.  When the host has no identity (or forces), the disk
    does not fail and the coordinator accepts the token, the agent stores its own key with
    a certificate that the coordinator's handshake check accepts, within its window, as
    the new host with that key, and pins the CA so that every certificate this CA issues
    passes the renewal check; when it already has one, or the token is blank, the
    coordinator is not contacted and no token is spent. *)
Theorem enrollment_end_to_end umask `{Crypto} `{UuidLaws} `{X509Laws} key_csr `{!KeyCsrLaw key_csr} {T R L} `{JoinTokens T} cp kp ttl ca
    (s : Service T R L) d token force key e re :
  from_material cp kp ttl = Ok ca ->
  let '(s', (d', _, r)) := run umask key_csr (enroll_rpc ca e re) true (Ok key) token force s d [] in
  (is_empty (trim token) = true \/ (is_Some (sd_files d !! KEY_FILE) /\ force = false) -> s' = s /\ d' = d /\ is_ok r = false) /\
  (is_ok (snd (enroll_rpc ca e re s token (match key_csr key with Ok c => c | Err _ => [] end))) = true ->
   is_empty (trim token) = false -> (sd_files d !! KEY_FILE = None \/ force = true) -> is_ok (key_csr key) = true ->
   exists host t cert pub, r = Ok host /\ token_redeem (sv_tokens s) re token = (t, Ok tt) /\ s' = set_tokens s t /\
     holds d' HOST_ID_FILE (bytes_of host) /\ uuid_parse host = Some (se_uuid e) /\
     holds d' KEY_FILE (bytes_of key) /\ key_from_pem key = Ok pub /\
     holds d' CERT_FILE (bytes_of (pem_of_der cert)) /\
     (forall now, se_secs e - CLOCK_SKEW <= now <= se_secs e + ttl ->
        verify_host_cert ca cert now =
        match sk_ec pub with
        | Some point => Ok (mkVerified (mkHostId (se_uuid e)) point)
        | None => Err (Invalid "host cert public key is not an EC key")
        end) /\
     (forall h csr now der, issue ca h csr now = Ok der -> verify_chains_to_pinned_ca der d' [] = (d', [], Ok tt))).
Proof.
  intros Hca. unfold run, ensure_not_enrolled. destruct (is_empty (trim token)) eqn:Et; [by naive_solver|].
  destruct (bool_decide (is_Some (sd_files d !! KEY_FILE)) && negb force) eqn:Eg.
  { apply andb_true_iff in Eg as [Hk%bool_decide_eq_true Hf%negb_true_iff]. split; [done|]. intros _ _ [Hn|Hn]; [|congruence].
    rewrite Hn in Hk. by apply is_Some_None in Hk. }
  destruct (key_csr key) as [csr|err] eqn:Ek; [|split; [|naive_solver]; intros [?|[Hk ->]]; [done|by rewrite bool_decide_eq_true_2 in Eg]].
  simpl. destruct (enroll_rpc ca e re s token csr) as [s' [resp|err]] eqn:Ee.
  2: { split; [|naive_solver]. intros [?|[Hk ->]]; [done|by rewrite bool_decide_eq_true_2 in Eg]. }
  set (id := mkIdentity _ _ _ _). destruct (persist_no_fault umask id force d Eg) as [d' Hp].
  unfold fbind. rewrite Hp. simpl. split; [intros [?|[Hk ->]]; [done|by rewrite bool_decide_eq_true_2 in Eg]|]. intros _ _ _ _.
  destruct (persist_spec _ _ _ _ _ _ _ _ Eg Hp) as [(Hcert & Hroot & Hhost & Hkey) _]. simpl in Hcert, Hroot, Hhost, Hkey.
  unfold enroll_rpc in Ee. destruct (enroll ca s token csr e re) as [s1 [resp1|]] eqn:Een; simplify_eq/=.
  destruct (enroll_ok_inv _ _ _ _ _ _ _ _ _ _ _ Hca Een) as (t & pub & Ht & -> & Hcsr & Hr & Hu & Hv).
  destruct (csr_proves key csr Ek) as (pub' & Hpub & Hcsr'). rewrite Hcsr in Hcsr'. injection Hcsr' as <-.
  exists (er_host_id resp), t, (er_cert resp), pub. repeat split; auto; [by unfold holds; rewrite Hkey|].
  intros h csr' now der Hi. destruct (issue_inv _ _ _ _ _ _ _ _ _ _ Hca Hca Hi)
    as (key' & c & root & _ & Hd & _ & Hroot' & Hsig & _).
  unfold verify_chains_to_pinned_ca, fbind. rewrite (read_string_ok _ _ _ Hroot).
  unfold bytes_of, der_to_pem, lift. rewrite String.string_of_list_byte_of_string, pem_round_trip, Hr. simpl.
  rewrite Hroot'. simpl. rewrite Hd. simpl. by rewrite Hsig.
Qed.

Definition demo_key_csr (pem : string) : result bytes string :=
  match key_from_pem pem with Ok pub => Ok (ser pub) | Err e => Err e end.
#[global] Instance demo_key_csr_law : KeyCsrLaw demo_key_csr.
Proof.
  intros pem csr. unfold demo_key_csr. destruct (key_from_pem pem) as [pub|] eqn:Ek; [|done].
  intros [= <-]. exists pub. split; [done|]. change (ok_or (deser (ser pub)) "csr" = Ok pub). by rewrite deser_ser.
Defined.

Lemma enrollment_end_to_end_witness :
  let e := mkSvEnv 0 1000 NoFault NoFault true [] (wrap 7) in
  let s := fst (mint_token 0 demo_service (wrap 60) (mkMintEnv 0 0 (Some (bytes_of "t")) (NoFault, NoFault, NoFault) "")) in
  let '(s', (d', _, r)) := run (oct 0 2 2) demo_key_csr (enroll_rpc demo_ca e (mkRedeemEnv 5 (NoFault, NoFault))) true
    (Ok "host-key") (to_hex (bytes_of "t")) false s (mkStateDir None ∅) [] in
  exists cert, holds d' CERT_FILE (bytes_of (pem_of_der cert)) /\
    verify_host_cert demo_ca cert 2000 = Ok (mkVerified demo_host (bytes_of "host-key")).
Proof.
  intros e s. assert (from_material (ca_cert_pem demo_ca) "ca-key" 3600 = Ok demo_ca) as Hca by (vm_compute; reflexivity).
  pose proof (enrollment_end_to_end (oct 0 2 2) demo_key_csr (ca_cert_pem demo_ca) "ca-key" 3600 demo_ca s (mkStateDir None ∅)
    (to_hex (bytes_of "t")) false "host-key" e (mkRedeemEnv 5 (NoFault, NoFault)) Hca) as Hrun.
  destruct (run _ _ _ _ _ _ _ _ _ _) as [s' [[d' fs'] r]].
  destruct Hrun as [_ Hok]. destruct Hok as (host & t & cert & pub & _ & _ & _ & _ & _ & _ & Hpub & Hc & Hv & _).
  - vm_compute. reflexivity.
  - vm_compute. reflexivity.
  - by left.
  - vm_compute. reflexivity.
  - exists cert. split; [done|]. vm_compute in Hpub. injection Hpub as <-.
    etransitivity; [apply (Hv 2000); vm_compute; split; intros Hx; discriminate Hx|]. vm_compute. reflexivity.
Defined.
