(* ===== verification/Inventory.v ===== *)
(** * The agent's inventory collectors (osa-agent/src/inventory.rs)

    What the host reports about itself: the DMI serial the NetBox sink matches on, the
    system facts and the network interfaces.  The sysfs files and the sysinfo readings are
    inputs; a fact that cannot be read becomes a typed gap. *)
From Stdlib Require Import Strings.Byte.
From stdpp Require Import sorting.
From S2P Require Import Prelude Proto Concrete Text Ip Seal Registries Disk Netbox.

Definition DMI_SERIAL_FILES : list string := ["product_serial"; "board_serial"].
Definition SERIAL_PLACEHOLDERS : list string :=
  ["none"; "not specified"; "not applicable"; "to be filled by o.e.m."; "system serial number"; "default string";
   "na"; "n/a"; "0"].

Record SystemInfo := mkSystemInfo { si_hostname : string; si_os : string; si_kernel : string; si_cpu_count : nat; si_memory_bytes : u64 }.
Record NetworkInterface := mkNetworkInterface { ni_name : string; ni_mac : string; ni_ips : list IpAddr }.

Inductive GapField := GapDmiSerial | GapHostname | GapOs | GapKernel | GapCpuCount | GapMemoryBytes | GapInterfaces.
#[global] Instance GapField_eq_dec : EqDecision GapField.
Proof. solve_decision. Defined.

Definition gap_as_str (f : GapField) : string :=
  match f with
  | GapDmiSerial => "dmi_serial"
  | GapHostname => "hostname"
  | GapOs => "os"
  | GapKernel => "kernel"
  | GapCpuCount => "cpu_count"
  | GapMemoryBytes => "memory_bytes"
  | GapInterfaces => "interfaces"
  end.

Record Gap := mkGapOf { gap_field : GapField; gap_reason : string }.
Record HostInventory := mkHostInventory {
  hi_dmi_serial : option string; hi_system : SystemInfo; hi_interfaces : list NetworkInterface; hi_gaps : list Gap
}.

(** ** The serial *)

Definition normalize_serial (raw : string) : option string :=
  let s := trim_of (white_space ++ control_chars) raw in
  if is_empty s || any_of control_chars s || bool_decide (to_ascii_lowercase s ∈ SERIAL_PLACEHOLDERS)
  then None else Some s.

(** The loop over the files, with the best reason so far and its rank. *)
Fixpoint dmi_loop (read : string -> result string IoError) (files : list string) (reason : string) (rank : Z)
    : option string * string :=
  match files with
  | [] => (None, reason)
  | file :: files =>
      match read file with
      | Ok raw =>
          match normalize_serial raw with
          | Some serial => (Some serial, reason)
          | None => if rank <? 1 then dmi_loop read files (file +:+ " holds only an empty/placeholder value") 1
                    else dmi_loop read files reason rank
          end
      | Err IoNotFound => dmi_loop read files reason rank
      | Err (IoOther e) => if rank <? 2 then dmi_loop read files (file +:+ " is not readable: " +:+ e) 2
                           else dmi_loop read files reason rank
      end
  end.

Definition read_dmi_serial (read : string -> result string IoError) (gaps : list Gap) : option string * list Gap :=
  match dmi_loop read DMI_SERIAL_FILES
          "no product_serial/board_serial in sysfs (VM, container, or non-Linux host)" 0 with
  | (Some serial, _) => (Some serial, gaps)
  | (None, reason) => (None, gaps ++ [mkGapOf GapDmiSerial reason])
  end.

(** ** System facts *)

(** The readings of sysinfo. *)
Record SysReadings := mkSysReadings {
  sr_host_name : option string; sr_long_os_version : option string; sr_name : option string;
  sr_kernel_version : option string; sr_cpus : nat; sr_total_memory : u64
}.

Definition string_or_gap (value : option string) (field : GapField) (gaps : list Gap) : string * list Gap :=
  match value with
  | Some v => (v, gaps)
  | None => (EmptyString, gaps ++ [mkGapOf field "not reported by the host"])
  end.

Definition collect_system (sr : SysReadings) (gaps : list Gap) : SystemInfo * list Gap :=
  let '(hostname, gaps) := string_or_gap (sr_host_name sr) GapHostname gaps in
  let '(os, gaps) := string_or_gap (match sr_long_os_version sr with Some v => Some v | None => sr_name sr end) GapOs gaps in
  let '(kernel, gaps) := string_or_gap (sr_kernel_version sr) GapKernel gaps in
  let gaps := if decide (sr_cpus sr = 0%nat) then gaps ++ [mkGapOf GapCpuCount "no CPUs reported by the host"] else gaps in
  let gaps := if decide (bval (sr_total_memory sr) = 0)
              then gaps ++ [mkGapOf GapMemoryBytes "no physical memory reported by the host"] else gaps in
  (mkSystemInfo hostname os kernel (sr_cpus sr) (sr_total_memory sr), gaps).

(** ** Interfaces *)

(** [Vec::dedup]: consecutive equal elements. *)
Fixpoint dedup {A} `{EqDecision A} (l : list A) : list A :=
  match l with
  | [] => []
  | x :: l' => match l' with
               | y :: _ => if decide (x = y) then dedup l' else x :: dedup l'
               | [] => [x]
               end
  end.

Definition sorted_deduped (ips : list IpAddr) : list IpAddr := dedup (merge_sort ip_le ips).

(** The table sysinfo enumerates, in some order: name, MAC and addresses. *)
Abbreviation Networks := (list (string * (string * list IpAddr))).

Definition name_le (a b : NetworkInterface) : Prop := String.le (ni_name a) (ni_name b).
#[global] Instance name_le_dec a b : Decision (name_le a b).
Proof. unfold name_le. apply _. Defined.

Definition interface_of (n : string * (string * list IpAddr)) : NetworkInterface :=
  mkNetworkInterface n.1 n.2.1 (sorted_deduped n.2.2).
Definition collect_interfaces (networks : Networks) : list NetworkInterface :=
  merge_sort name_le (interface_of <$> networks).

Definition collect (read : string -> result string IoError) (sr : SysReadings) (networks : Networks) : HostInventory :=
  let '(dmi_serial, gaps) := read_dmi_serial read [] in
  let '(system, gaps) := collect_system sr gaps in
  let interfaces := collect_interfaces networks in
  let gaps := match interfaces with
              | [] => gaps ++ [mkGapOf GapInterfaces "no network interfaces enumerated"]
              | _ => gaps
              end in
  mkHostInventory dmi_serial system interfaces gaps.

(** ** Lemmas: sorting and deduplication *)

Section Dedup.
Context {A} `{EqDecision A}.

Lemma elem_of_dedup (l : list A) x : x ∈ dedup l <-> x ∈ l.
Proof.
  induction l as [|y l IH]; [done|]. cbn [dedup]. destruct l as [|z l']; [done|].
  case_decide as E; [subst; rewrite IH, !elem_of_cons; tauto|]. rewrite elem_of_cons, IH, <- elem_of_cons. done.
Qed.

Lemma dedup_sorted (R : relation A) `{!AntiSymm (=) R} (l : list A) : StronglySorted R l -> StronglySorted R (dedup l) /\ NoDup (dedup l).
Proof.
  induction l as [|y l IH]; intros Hs; [repeat constructor|]. apply StronglySorted_cons in Hs as [Hy Hs].
  destruct (IH Hs) as [IHs IHn]. cbn [dedup]. destruct l as [|z l']; [repeat constructor; set_solver|].
  case_decide as E; [done|]. split.
  - constructor; [done|]. apply Forall_forall. intros x Hx. rewrite elem_of_dedup in Hx. rewrite Forall_forall in Hy. auto.
  - constructor; [|done]. rewrite elem_of_dedup. intros Hin. apply E.
    apply elem_of_cons in Hin as [->|Hin]; [done|]. apply StronglySorted_cons in Hs as [Hz _].
    rewrite Forall_forall in Hy, Hz. apply (anti_symm R); [apply Hy; by left|by apply Hz].
Qed.
End Dedup.

Lemma sorted_deduped_spec ips :
  StronglySorted ip_le (sorted_deduped ips) /\ NoDup (sorted_deduped ips) /\ forall a, a ∈ sorted_deduped ips <-> a ∈ ips.
Proof.
  unfold sorted_deduped. destruct (dedup_sorted ip_le (merge_sort ip_le ips)) as [Hs Hn]; [apply StronglySorted_merge_sort; apply _|].
  split; [done|]. split; [done|]. intros a. rewrite elem_of_dedup. by rewrite merge_sort_Permutation.
Qed.

(** The result depends only on the set of addresses. *)
Lemma sorted_deduped_canonical ips1 ips2 :
  (forall a, a ∈ ips1 <-> a ∈ ips2) -> sorted_deduped ips1 = sorted_deduped ips2.
Proof.
  intros Hset. destruct (sorted_deduped_spec ips1) as (Hs1 & Hn1 & He1), (sorted_deduped_spec ips2) as (Hs2 & Hn2 & He2).
  apply (StronglySorted_unique ip_le); [done|done|]. apply NoDup_Permutation; [done|done|]. intros a. by rewrite He1, He2.
Qed.

Lemma NoDup_fmap_elem {A B} (f : A -> B) l x y : NoDup (f <$> l) -> x ∈ l -> y ∈ l -> f x = f y -> x = y.
Proof.
  induction l as [|z l IH]; intros Hn Hx Hy Hf; [by apply not_elem_of_nil in Hx|].
  rewrite fmap_cons in Hn. apply NoDup_cons in Hn as [Hz Hn].
  apply elem_of_cons in Hx as [->|Hx], Hy as [->|Hy]; auto; exfalso; apply Hz; apply list_elem_of_fmap; eauto.
Qed.

Lemma sorted_by_name l : StronglySorted name_le (merge_sort name_le l).
Proof.
  apply StronglySorted_merge_sort; [intros a b c; unfold name_le; apply transitivity|].
  intros a b. unfold name_le. apply (total String.le).
Qed.

Lemma merge_sort_by_name l1 l2 :
  l1 ≡ₚ l2 -> NoDup (ni_name <$> l1) -> merge_sort name_le l1 = merge_sort name_le l2.
Proof.
  intros Hp Hn. apply (StronglySorted_unique_strong name_le).
  - intros a b Ha Hb Hab Hba. rewrite !merge_sort_Permutation in *.
    assert (ni_name a = ni_name b) as He by (by apply (anti_symm String.le)).
    rewrite <- Hp in Hb. by eapply (NoDup_fmap_elem ni_name l1).
  - apply sorted_by_name.
  - apply sorted_by_name.
  - by rewrite !merge_sort_Permutation.
Qed.

(** ** Lemmas: the serial *)

Lemma trimmed_nonempty : Forall (fun p => p <> EmptyString) (white_space ++ control_chars).
Proof. apply Forall_forall. intros p Hp. assert (bool_decide (p = EmptyString) = false) as Hb; [|by bool_to_prop].
  assert (forallb (fun p => negb (bool_decide (p = EmptyString))) (white_space ++ control_chars) = true) as Hall by (vm_compute; reflexivity).
  rewrite forallb_forall in Hall. specialize (Hall p). apply negb_true_iff, Hall. by apply list_elem_of_In.
Qed.

Lemma sub_app_l {A} (l k : list A) : l ⊆ l ++ k.
Proof. intros x. rewrite elem_of_app. auto. Qed.

Lemma normalize_serial_inv raw s : normalize_serial raw = Some s ->
  is_empty s = false /\ any_of control_chars s = false /\ to_ascii_lowercase s ∉ SERIAL_PLACEHOLDERS /\ trim s = s.
Proof.
  unfold normalize_serial. destruct (_ || _ || _) eqn:E; [done|]. intros [= <-].
  apply orb_false_iff in E as [[He Hc]%orb_false_iff Hp%bool_decide_eq_false].
  repeat split; try done. exact (trim_of_fixed (white_space ++ control_chars) white_space raw trimmed_nonempty (sub_app_l _ _)).
Qed.

Lemma bytes_of_has_char b s : b ∈ bytes_of s -> has_char (ascii_of_byte b) s = true.
Proof.
  induction s as [|c s IH]; [by intros ?%not_elem_of_nil|]. unfold bytes_of. simpl.
  intros [->|Hin]%elem_of_cons; [by rewrite ascii_of_byte_of_ascii, bool_decide_eq_true_2|]. rewrite IH by done. apply orb_true_r.
Qed.

(** What the loop returns, on any files. *)
Lemma dmi_loop_spec read files reason rank :
  match dmi_loop read files reason rank with
  | (Some s, _) => exists pre file post raw, files = pre ++ file :: post /\ read file = Ok raw /\ normalize_serial raw = Some s /\
      forall f, f ∈ pre -> forall raw, read f = Ok raw -> normalize_serial raw = None
  | (None, _) => forall f, f ∈ files -> forall raw, read f = Ok raw -> normalize_serial raw = None
  end.
Proof.
  revert reason rank. induction files as [|file files IH]; intros reason rank; simpl; [by intros ? ?%not_elem_of_nil|].
  assert (forall reason rank, (forall raw, read file = Ok raw -> normalize_serial raw = None) ->
    match dmi_loop read files reason rank with
    | (Some s, _) => exists pre f post raw, file :: files = pre ++ f :: post /\ read f = Ok raw /\ normalize_serial raw = Some s /\
        forall f, f ∈ pre -> forall raw, read f = Ok raw -> normalize_serial raw = None
    | (None, _) => forall f, f ∈ file :: files -> forall raw, read f = Ok raw -> normalize_serial raw = None
    end) as Hgo.
  { intros reason' rank' Hf. specialize (IH reason' rank'). destruct (dmi_loop read files reason' rank') as [[s|] ?].
    - destruct IH as (pre & f & post & raw & -> & ? & ? & ?). exists (file :: pre), f, post, raw. repeat split; auto.
      intros g [->|?]%elem_of_cons; eauto.
    - intros f [->|?]%elem_of_cons; eauto. }
  destruct (read file) as [raw|[|e]] eqn:Er.
  - destruct (normalize_serial raw) as [s|] eqn:En.
    + exists [], file, files, raw. repeat split; auto. by intros ? ?%not_elem_of_nil.
    + destruct (rank <? 1); apply Hgo; by intros raw' [= <-].
  - by apply Hgo.
  - destruct (rank <? 2); by apply Hgo.
Qed.

(** ** Properties *)

(** A reported serial is one the coordinator may match on.  It comes from the first of
    the two DMI files that holds a usable value; it is not empty, has no control
    character, is no OEM placeholder in any case, and the NetBox sink's own trimming leaves
    it as it is, so the sink never skips it; when no file holds one there is no serial and
    exactly one gap says so. *)
Theorem serial_is_a_match_key read gaps :
  match read_dmi_serial read gaps with
  | (Some s, gaps') => gaps' = gaps /\
      (exists pre file post raw, DMI_SERIAL_FILES = pre ++ file :: post /\ read file = Ok raw /\ normalize_serial raw = Some s /\
         forall f, f ∈ pre -> forall raw, read f = Ok raw -> normalize_serial raw = None) /\
      any_of control_chars s = false /\ to_ascii_lowercase s ∉ SERIAL_PLACEHOLDERS /\
      (forall o, inv_dmi_serial o = Some s -> usable_serial o = Some s) /\ x02 ∉ bytes_of s
  | (None, gaps') => (exists reason, gaps' = gaps ++ [mkGapOf GapDmiSerial reason]) /\
      forall f, f ∈ DMI_SERIAL_FILES -> forall raw, read f = Ok raw -> normalize_serial raw = None
  end.
Proof.
  unfold read_dmi_serial. pose proof (dmi_loop_spec read DMI_SERIAL_FILES
    "no product_serial/board_serial in sysfs (VM, container, or non-Linux host)" 0) as Hl.
  destruct (dmi_loop _ _ _ _) as [[s|] reason]; [|eauto].
  split; [done|]. split; [done|]. destruct Hl as (_ & _ & _ & raw & _ & _ & (He & Hc & Hp & Ht)%normalize_serial_inv & _).
  split; [done|]. split; [done|]. split.
  - intros o Ho. unfold usable_serial. by rewrite Ho, Ht, He.
  - intros Hb%bytes_of_has_char. rewrite (any_of_char control_chars) in Hb; [done| |done].
    vm_compute. do 2 right. left.
Qed.

Lemma interface_names (n : Networks) : ni_name <$> (interface_of <$> n) = n.*1.
Proof. rewrite <- list_fmap_compose. done. Qed.

Lemma collect_permutation n : collect_interfaces n ≡ₚ interface_of <$> n.
Proof. apply merge_sort_Permutation. Qed.

(** Two enumerations of one host: the same interfaces in any order, each with the same
    addresses in any order and any multiplicity. *)
Definition same_networks (n1 n2 : Networks) : Prop :=
  exists n, n ≡ₚ n2 /\ Forall2 (fun a b => a.1 = b.1 /\ a.2.1 = b.2.1 /\ forall ip, ip ∈ a.2.2 <-> ip ∈ b.2.2) n1 n.

(** The snapshot is canonical.  However the system enumerates the interfaces and their
    addresses, the collected list is the same, sorted by name, with each interface's
    addresses strictly increasing and exactly those observed; so an unchanged host yields
    an unchanged snapshot. *)
Theorem snapshot_is_canonical n1 n2 :
  NoDup n1.*1 -> same_networks n1 n2 ->
  collect_interfaces n1 = collect_interfaces n2 /\
  StronglySorted name_le (collect_interfaces n1) /\ NoDup (ni_name <$> collect_interfaces n1) /\
  (forall i, i ∈ collect_interfaces n1 <-> exists ips, (ni_name i, (ni_mac i, ips)) ∈ n1 /\ ni_ips i = sorted_deduped ips) /\
  (forall i, i ∈ collect_interfaces n1 -> StronglySorted ip_le (ni_ips i) /\ NoDup (ni_ips i)).
Proof.
  intros Hn (n & Hp & Hf). assert (interface_of <$> n1 = interface_of <$> n) as He.
  { clear Hn Hp. induction Hf as [|[a [m l]] [b [m' l']] ? ? (Ha & Hm & Hi)]; [done|]. simpl in *. subst. f_equal; [|done].
    unfold interface_of. simpl. by rewrite (sorted_deduped_canonical l l'). }
  split; [|split; [|split; [|split]]].
  - unfold collect_interfaces. rewrite He. apply merge_sort_by_name; [by rewrite Hp|]. by rewrite <- He, interface_names.
  - apply sorted_by_name.
  - rewrite collect_permutation, interface_names. done.
  - intros i. rewrite collect_permutation, list_elem_of_fmap. split.
    + intros ([a [m l]] & -> & Hin). exists l. done.
    + intros (ips & Hin & Hips). exists (ni_name i, (ni_mac i, ips)). split; [|done]. destruct i. simpl in *. by subst.
  - intros i. rewrite collect_permutation, list_elem_of_fmap. intros (x & -> & _).
    destruct (sorted_deduped_spec x.2.2) as (? & ? & _). done.
Qed.

Lemma snapshot_is_canonical_witness :
  let a := V4 0x0A000002 in let b := V4 0x0A000001 in
  collect_interfaces [("eth1", ("", [])); ("eth0", ("", [a; b; a]))] =
  collect_interfaces [("eth0", ("", [b; a])); ("eth1", ("", []))].
Proof.
  intros a b. apply snapshot_is_canonical.
  - repeat constructor; set_solver.
  - exists [("eth1", ("", [])); ("eth0", ("", [b; a]))]. split; [by apply Permutation_swap|].
    apply Forall2_cons_2; [simpl; set_solver|]. apply Forall2_cons_2; [simpl; set_solver|]. apply Forall2_nil_2.
Defined.

(** ** Gaps *)

Definition has_gap (f : GapField) (gaps : list Gap) : Prop := exists reason, mkGapOf f reason ∈ gaps.

Lemma has_gap_snoc f gaps f' reason : has_gap f (gaps ++ [mkGapOf f' reason]) <-> has_gap f gaps \/ f = f'.
Proof. unfold has_gap. setoid_rewrite elem_of_app. setoid_rewrite list_elem_of_singleton. naive_solver. Qed.

Lemma has_gap_if (P : Prop) `{Decision P} f gaps f' reason :
  has_gap f (if decide P then gaps ++ [mkGapOf f' reason] else gaps) <-> has_gap f gaps \/ (f = f' /\ P).
Proof. case_decide; [rewrite has_gap_snoc|]; naive_solver. Qed.

Lemma string_or_gap_gaps value field gaps f :
  has_gap f (snd (string_or_gap value field gaps)) <-> has_gap f gaps \/ (f = field /\ value = None).
Proof. destruct value; simpl; [naive_solver|]. rewrite has_gap_snoc. naive_solver. Qed.

Lemma collect_system_gaps sr gaps f :
  has_gap f (snd (collect_system sr gaps)) <-> has_gap f gaps \/
    (f = GapHostname /\ sr_host_name sr = None) \/
    (f = GapOs /\ sr_long_os_version sr = None /\ sr_name sr = None) \/
    (f = GapKernel /\ sr_kernel_version sr = None) \/
    (f = GapCpuCount /\ sr_cpus sr = 0%nat) \/ (f = GapMemoryBytes /\ bval (sr_total_memory sr) = 0).
Proof.
  unfold collect_system.
  destruct (string_or_gap (sr_host_name sr) GapHostname gaps) as [a g1] eqn:E1.
  destruct (string_or_gap _ GapOs g1) as [b g2] eqn:E2. destruct (string_or_gap _ GapKernel g2) as [c g3] eqn:E3. simpl.
  rewrite !has_gap_if.
  apply (f_equal snd) in E1, E2, E3. simpl in E1, E2, E3. rewrite <- E3, string_or_gap_gaps, <- E2, string_or_gap_gaps, <- E1, string_or_gap_gaps.
  destruct (sr_long_os_version sr); naive_solver.
Qed.

(** Nothing is missing silently.  The snapshot always comes out, with a gap for a fact
    exactly when the host did not report it: no usable serial, no name, OS or kernel, no
    CPU, no memory, no interface. *)
Theorem gaps_are_exact read sr networks :
  let i := collect read sr networks in
  forall f, (exists reason, mkGapOf f reason ∈ hi_gaps i) <->
  match f with
  | GapDmiSerial => hi_dmi_serial i = None
  | GapHostname => sr_host_name sr = None
  | GapOs => sr_long_os_version sr = None /\ sr_name sr = None
  | GapKernel => sr_kernel_version sr = None
  | GapCpuCount => sr_cpus sr = 0%nat
  | GapMemoryBytes => bval (sr_total_memory sr) = 0
  | GapInterfaces => networks = []
  end.
Proof.
  cbn zeta. intros f. change (exists reason, mkGapOf f reason ∈ hi_gaps (collect read sr networks))
    with (has_gap f (hi_gaps (collect read sr networks))).
  assert (collect_interfaces networks = [] <-> networks = []) as Hnil.
  { split; [|by intros ->]. intros Hc. pose proof (collect_permutation networks) as Hp. rewrite Hc in Hp.
    apply Permutation_nil in Hp. by destruct networks. }
  unfold collect. destruct (read_dmi_serial read []) as [serial g0] eqn:E0.
  assert (has_gap f g0 <-> f = GapDmiSerial /\ serial = None) as H0.
  { unfold read_dmi_serial in E0. destruct (dmi_loop _ _ _ _) as [[s|] reason]; injection E0 as <- <-;
      unfold has_gap; [set_solver|]. simpl. setoid_rewrite list_elem_of_singleton. naive_solver. }
  pose proof (collect_system_gaps sr g0 f) as Hs. destruct (collect_system sr g0) as [sys g1]. simpl in *.
  rewrite H0 in Hs. destruct (collect_interfaces networks) as [|i l]; simpl.
  - rewrite has_gap_snoc, Hs. destruct f; naive_solver.
  - rewrite Hs. destruct f; naive_solver.
Qed.
