(* ===== verification/Auth.v ===== *)
(** * Operator authentication (osa-core/src/auth.rs, osa-coordinator/src/auth.rs and
    jwks.rs, and the router and start-up checks of osa-coordinator/src/main.rs)

    JWT validation against a key set, the gRPC interceptor, the live key refresh, and the
    router that puts the interceptor in front of the operator service only.  The JWT, URL
    and JSON libraries are interfaces with the behaviour they document. *)
From S2P Require Import Prelude Proto Concrete Text Ip Seal Policy AuditLog Registries Ca Broker Service Cli.

(** ** The JWT library (jsonwebtoken) *)

Inductive Algorithm := HS256 | HS384 | HS512 | ES256 | ES384 | RS256 | RS384 | RS512 | PS256 | PS384 | PS512 | EdDSA.
#[global] Instance Algorithm_eq_dec : EqDecision Algorithm.
Proof. solve_decision. Defined.

(** A JWK's declared algorithm; [KaOther] are those for encryption and unknown ones. *)
Inductive KeyAlgorithm :=
| KaHS256 | KaHS384 | KaHS512 | KaES256 | KaES384 | KaRS256 | KaRS384 | KaRS512 | KaPS256 | KaPS384 | KaPS512 | KaEdDSA | KaOther.
Inductive EllipticCurve := P256 | P384 | P521 | Ed25519.
Inductive AlgorithmParameters := ApEllipticCurve (c : EllipticCurve) | ApRSA | ApOctetKey | ApOctetKeyPair.
Record Jwk := mkJwk { key_id : option string; key_algorithm : option KeyAlgorithm; jwk_params : AlgorithmParameters; jwk_material : bytes }.

(** [Validation], the fields the program uses. *)
Record Validation := mkValidation {
  v_algorithms : list Algorithm; v_leeway : Z; v_validate_exp : bool; v_validate_nbf : bool;
  v_iss : option (list string); v_aud : option (list string); v_required : list string
}.
Definition Validation_new (alg : Algorithm) : Validation := mkValidation [alg] 60 true false None None ["exp"].
Definition set_issuer (v : Validation) (i : list string) : Validation :=
  mkValidation (v_algorithms v) (v_leeway v) (v_validate_exp v) (v_validate_nbf v) (Some i) (v_aud v) (v_required v).
Definition set_audience (v : Validation) (a : list string) : Validation :=
  mkValidation (v_algorithms v) (v_leeway v) (v_validate_exp v) (v_validate_nbf v) (v_iss v) (Some a) (v_required v).
Definition set_leeway (v : Validation) (l : Z) : Validation :=
  mkValidation (v_algorithms v) l (v_validate_exp v) (v_validate_nbf v) (v_iss v) (v_aud v) (v_required v).
Definition set_validate_nbf (v : Validation) (b : bool) : Validation :=
  mkValidation (v_algorithms v) (v_leeway v) (v_validate_exp v) b (v_iss v) (v_aud v) (v_required v).
Definition set_required_spec_claims (v : Validation) (r : list string) : Validation :=
  mkValidation (v_algorithms v) (v_leeway v) (v_validate_exp v) (v_validate_nbf v) (v_iss v) (v_aud v) r.

Inductive ErrorKind := ExpiredSignature | ImmatureSignature | InvalidAudience | InvalidIssuer | InvalidSignature | OtherKind.

Class Jwt := {
  DecodingKey : Type;
  jwks_parse : bytes -> option (list Jwk);                  (** [serde_json::from_slice::<JwkSet>] *)
  from_jwk : Jwk -> option DecodingKey;
  decode_header : string -> option (option string);         (** the header's [kid] *)
  jwt_decode : forall (token : string) (key : DecodingKey) (v : Validation) (now : Z), result string ErrorKind (** the [sub] *)
}.

(** A token's registered claims. *)
Record TokenClaims := mkClaims { tc_sub : option string; tc_iss : option string; tc_aud : list string; tc_exp : option Z; tc_nbf : option Z }.

Definition claim_present (c : TokenClaims) (name : string) : bool :=
  if bool_decide (name = "sub") then bool_decide (is_Some (tc_sub c))
  else if bool_decide (name = "iss") then bool_decide (is_Some (tc_iss c))
  else if bool_decide (name = "aud") then negb (bool_decide (tc_aud c = []))
  else if bool_decide (name = "exp") then bool_decide (is_Some (tc_exp c))
  else if bool_decide (name = "nbf") then bool_decide (is_Some (tc_nbf c))
  else true.

(** What [decode] documents: it accepts a token exactly when its algorithm is allowed, its
    signature verifies, the required claims are there, and each check that is on passes. *)
Definition claims_pass (v : Validation) (now : Z) (c : TokenClaims) : Prop :=
  Forall (fun r => claim_present c r = true) (v_required v) /\
  match tc_exp c with Some e => v_validate_exp v = false \/ now - v_leeway v <= e | None => True end /\
  match tc_nbf c with Some n => v_validate_nbf v = false \/ n <= now + v_leeway v | None => True end /\
  match v_iss v, tc_iss c with Some l, Some i => i ∈ l | _, _ => True end /\
  match v_aud v with Some l => tc_aud c = [] \/ Exists (fun a => a ∈ l) (tc_aud c) | None => True end.
#[global] Instance claims_pass_dec v now c : Decision (claims_pass v now c).
Proof. unfold claims_pass. destruct (tc_exp c), (tc_nbf c), (v_iss v), (tc_iss c), (v_aud v); apply _. Defined.

Class JwtLaws `{Jwt} := {
  token_alg : string -> option Algorithm;
  token_claims : string -> option TokenClaims;
  signed_by : DecodingKey -> Algorithm -> string -> Prop;
  decode_spec : forall tok key v now sub, jwt_decode tok key v now = Ok sub <->
    exists alg c, token_alg tok = Some alg /\ alg ∈ v_algorithms v /\ signed_by key alg tok /\
      token_claims tok = Some c /\ tc_sub c = Some sub /\ claims_pass v now c
}.

(** ** osa-core/src/auth.rs *)

Inductive AuthError := Missing | Malformed | AuthBadSignature | Expired | NotYetValid | WrongAudience | WrongIssuer | UnknownKey.
Inductive JwksError := JwksJson | JwksEmpty | DuplicateKid (kid : string).

Record ValidationPolicy := mkPolicy { vp_issuer : string; vp_audience : string; vp_leeway_secs : Z }.

Definition key_algorithm_to_algorithm (ka : KeyAlgorithm) : option Algorithm :=
  match ka with
  | KaRS256 => Some RS256 | KaRS384 => Some RS384 | KaRS512 => Some RS512
  | KaPS256 => Some PS256 | KaPS384 => Some PS384 | KaPS512 => Some PS512
  | KaES256 => Some ES256 | KaES384 => Some ES384 | KaEdDSA => Some EdDSA
  | _ => None
  end.

Definition algorithm_of (jwk : Jwk) : option Algorithm :=
  match key_algorithm jwk with
  | Some ka => key_algorithm_to_algorithm ka
  | None =>
      match jwk_params jwk with
      | ApRSA => Some RS256
      | ApEllipticCurve c => match c with P256 => Some ES256 | P384 => Some ES384 | _ => None end
      | _ => None
      end
  end.

Definition map_jwt_error (e : ErrorKind) : AuthError :=
  match e with
  | ExpiredSignature => Expired
  | ImmatureSignature => NotYetValid
  | InvalidAudience => WrongAudience
  | InvalidIssuer => WrongIssuer
  | InvalidSignature => AuthBadSignature
  | OtherKind => Malformed
  end.

Section Core.
Context `{Jwt}.

Record VerifyingKey := mkVerifyingKey { vk_decoding : DecodingKey; vk_alg : Algorithm }.
Record JwtValidator := mkValidator { jv_policy : ValidationPolicy; jv_keys : gmap string VerifyingKey }.

(** What [from_jwks_json] keeps of a JWK. *)
Definition usable_jwk (jwk : Jwk) : option (string * VerifyingKey) :=
  let! kid := key_id jwk in
  let! alg := algorithm_of jwk in
  let! decoding := from_jwk jwk in
  Some (kid, mkVerifyingKey decoding alg).

Fixpoint index_keys (set : list Jwk) (keys : gmap string VerifyingKey) : result (gmap string VerifyingKey) JwksError :=
  match set with
  | [] => Ok keys
  | jwk :: set =>
      match usable_jwk jwk with
      | None => index_keys set keys
      | Some (kid, key) =>
          match keys !! kid with
          | Some _ => Err (DuplicateKid kid)
          | None => index_keys set (<[kid := key]> keys)
          end
      end
  end.

Definition from_jwks_json (policy : ValidationPolicy) (jwks : bytes) : result JwtValidator JwksError :=
  let? set := ok_or (jwks_parse jwks) JwksJson in
  let? keys := index_keys set ∅ in
  if bool_decide (keys = ∅) then Err JwksEmpty else Ok (mkValidator policy keys).

Definition validation_for (policy : ValidationPolicy) (key : VerifyingKey) : Validation :=
  let v := Validation_new (vk_alg key) in
  let v := set_issuer v [vp_issuer policy] in
  let v := set_audience v [vp_audience policy] in
  let v := set_leeway v (vp_leeway_secs policy) in
  let v := set_validate_nbf v true in
  set_required_spec_claims v ["exp"; "iss"; "aud"; "sub"].

(** [validate] at time [now]; the subject. *)
Definition validate (self : JwtValidator) (token : string) (now : Z) : result string AuthError :=
  let? header := ok_or (decode_header token) Malformed in
  let? kid := ok_or header Malformed in
  let? key := ok_or (jv_keys self !! kid) UnknownKey in
  map_err map_jwt_error (jwt_decode token (vk_decoding key) (validation_for (jv_policy self) key) now).

(** ** osa-coordinator/src/auth.rs *)

Definition unauthenticated : Status := StUnauthenticated "missing or invalid operator credential".

(** [HeaderValue::to_str]: visible ASCII, space and tab. *)
Definition header_to_str (b : bytes) : option string :=
  if forallb (fun x => let v := byte_val x in ((32 <=? v) && (v <=? 126)) || (v =? 9)) b
  then Some (String.string_of_list_byte b) else None.

(** [bearer_token]: [authorization] is the first value of that metadata key. *)
Definition bearer_token (authorization : option bytes) : result string Status :=
  let? raw := ok_or authorization unauthenticated in
  let? s := ok_or (header_to_str raw) unauthenticated in
  let? (scheme, token) := ok_or (split_once " " s) unauthenticated in
  if negb (eq_ignore_ascii_case scheme "bearer") || is_empty token then Err unauthenticated else Ok token.

(** The interceptor: the subject it binds to the request. *)
Definition intercept (validator : JwtValidator) (authorization : option bytes) (now : Z) : result string Status :=
  let? token := bearer_token authorization in
  map_err (fun _ => unauthenticated) (validate validator token now).
End Core.

(** ** osa-coordinator/src/jwks.rs *)

Definition MAX_JWKS_BYTES : nat := Z.to_nat (2 ^ 20).

Record OidcConfig := mkOidcConfig { oc_issuer : string; oc_audience : string; oc_leeway_secs : Z }.
Definition policy_of (c : OidcConfig) : ValidationPolicy := mkPolicy (oc_issuer c) (oc_audience c) (oc_leeway_secs c).

(** The URL library (reqwest): scheme, host and normalized text. *)
Record Url := mkUrl { url_scheme : string; url_host_str : option string; url_text : string }.
Class UrlLib := url_parse : string -> option Url.

(** [trim_start_matches] and [trim_end_matches] of one character. *)
Fixpoint trim_start_char (c : ascii) (s : string) : string :=
  match s with String a s' => if decide (a = c) then trim_start_char c s' else s | EmptyString => EmptyString end.
Definition trim_end_char (c : ascii) (s : string) : string := String.rev (trim_start_char c (String.rev s)).

Definition host_is_loopback (url : Url) : bool :=
  match url_host_str url with
  | Some host =>
      if bool_decide (host = "localhost") then true
      else match parse_ip (trim_end_char "]" (trim_start_char "[" host)) with Some ip => is_loopback ip | None => false end
  | None => false
  end.

Definition validate_url `{UrlLib} (raw : string) : result string string :=
  let raw := trim raw in
  if is_empty raw then Err "--oidc-jwks-url must not be empty"
  else match url_parse raw with
  | None => Err "--oidc-jwks-url is not a valid URL"
  | Some url =>
      if bool_decide (url_scheme url = "https") then Ok (url_text url)
      else if bool_decide (url_scheme url = "http") then
        if host_is_loopback url then Ok (url_text url)
        else Err "--oidc-jwks-url must use https"
      else Err "--oidc-jwks-url scheme is not supported (use https)"
  end.

(** The body of a response: its chunks, then its end or a read error. *)
Fixpoint read_body (max : nat) (chunks : list (result bytes string)) (body : bytes) : result bytes string :=
  match chunks with
  | [] => Ok body
  | Err e :: _ => Err e
  | Ok chunk :: chunks =>
      if decide (length body + length chunk <= max)%nat then read_body max chunks (body ++ chunk)
      else Err "JWKS body exceeds the limit"
  end.

(** A fetch: building the client and sending fail, or a status and a body arrive. *)
Inductive Response := FetchFailed (e : string) | Responded (success : bool) (chunks : list (result bytes string)).
Definition fetch_bytes (r : Response) : result bytes string :=
  match r with
  | FetchFailed e => Err e
  | Responded false _ => Err "JWKS endpoint returned an error"
  | Responded true chunks => read_body MAX_JWKS_BYTES chunks []
  end.

Definition fetch_validator `{Jwt} (config : OidcConfig) (r : Response) : result JwtValidator string :=
  let? b := fetch_bytes r in
  map_err (fun _ => "JWKS is unusable") (from_jwks_json (policy_of config) b).

(** One turn of the refresher on the validator cell. *)
Definition refresh `{Jwt} (config : OidcConfig) (cell : JwtValidator) (r : Response) : JwtValidator :=
  match fetch_validator config r with Ok v => v | Err _ => cell end.

(** ** Start-up (osa-coordinator/src/main.rs) *)

Definition MAX_LEEWAY_SECS : Z := 300.

(** The options read by the builders. *)
Record CoordCli := mkCoordCli {
  oidc_issuer : option string; oidc_audience : option string; oidc_jwks : option string; oidc_jwks_url : option string;
  oidc_refresh_secs : Z; oidc_leeway_secs : Z;
  rbac_policy : option string; netbox_url : option string; netbox_token : option string
}.

Section Startup.
Context `{Jwt} `{UrlLib}.
Context (read_jwks : string -> result bytes string) (get : string -> Response).

(** [build_operator_auth]: the validator and, with a live URL, the refresher's source. *)
Definition build_operator_auth (cli : CoordCli) : result (option (JwtValidator * option (OidcConfig * string))) string :=
  match oidc_issuer cli, oidc_audience cli with
  | Some issuer, Some audience =>
      if is_empty (trim issuer) || is_empty (trim audience) then Err "--oidc-issuer and --oidc-audience must be non-empty"
      else if negb (oidc_leeway_secs cli <=? MAX_LEEWAY_SECS) then Err "--oidc-leeway-secs must be <= 300"
      else
        let config := mkOidcConfig issuer audience (oidc_leeway_secs cli) in
        match oidc_jwks cli, oidc_jwks_url cli with
        | Some path, None =>
            if is_empty (trim path) then Err "--oidc-jwks must not be empty"
            else
              let? b := map_err (fun _ => "reading OIDC JWKS") (read_jwks path) in
              let? validator := map_err (fun _ => "invalid OIDC JWKS") (from_jwks_json (policy_of config) b) in
              Ok (Some (validator, None))
        | None, Some url =>
            if negb (1 <=? oidc_refresh_secs cli) then Err "--oidc-refresh-secs must be >= 1"
            else
              let? url := validate_url url in
              let? validator := fetch_validator config (get url) in
              Ok (Some (validator, Some (config, url)))
        | None, None => Err "operator OIDC auth requires --oidc-jwks <file> or --oidc-jwks-url <url>"
        | Some _, Some _ => Err "--oidc-jwks and --oidc-jwks-url are mutually exclusive"
        end
  | None, None =>
      if bool_decide (is_Some (oidc_jwks cli)) || bool_decide (is_Some (oidc_jwks_url cli))
      then Err "--oidc-jwks/--oidc-jwks-url require --oidc-issuer and --oidc-audience"
      else Ok None
  | _, _ => Err "--oidc-issuer and --oidc-audience must be set together"
  end.
End Startup.

(** [build_inventory_sink]: whether a sink is built, from its URL and token. *)
Definition build_inventory_sink (new_client : string -> string -> result unit string) (cli : CoordCli)
    : result (option (string * string)) string :=
  match netbox_url cli, netbox_token cli with
  | Some url, Some token =>
      if is_empty (trim url) || is_empty (trim token) then Err "--netbox-url and --netbox-token must be non-empty"
      else let? _ := new_client url token in Ok (Some (url, token))
  | None, None => Ok None
  | _, _ => Err "--netbox-url and --netbox-token must be set together"
  end.

(** [build_policy_engine]: without a policy file, the engine that denies everything. *)
Definition build_policy_engine (read : string -> result string string) (parse : string -> option PolicyDoc) (cli : CoordCli)
    : result RbacPolicyEngine string :=
  match rbac_policy cli with
  | Some path =>
      let? doc := map_err (fun _ => "reading RBAC policy") (read path) in
      map_err (fun _ => "invalid RBAC policy") (from_toml parse doc)
  | None => Ok empty_engine
  end.

(** ** The router (build_router) *)

(** An operator RPC that changes state; the subject is bound by the interceptor. *)
Inductive OperatorCall :=
| OcExec (i : nat) (req : DispatchRequest) (e : SvEnv)
| OcShell (i : nat) (first : option ShellClientMsg) (e : SvEnv)
| OcDispatch (req : DispatchRequest) (e : SvEnv)
| OcMint (ttl : u64) (e : MintEnv)
| OcRevoke (host_id : string) (e : SvEnv).

Definition operator_event (bound : option string) (c : OperatorCall) : SvEvent :=
  match c with
  | OcExec i req e => SvExec i bound req e
  | OcShell i first e => SvShell i bound first e
  | OcDispatch req e => SvDispatch bound req e
  | OcMint ttl e => SvMint ttl e
  | OcRevoke h e => SvRevoke h e
  end.

Inductive ServerEvent :=
| OperatorRpc (authorization : option bytes) (now : Z) (c : OperatorCall)
| EnrollRpc (token : string) (csr : bytes) (e : SvEnv) (re : RedeemEnv)
| ExecTaskStep (i : nat) (e : SvEnv)
| ShellTaskStep (i : nat) (msg : option ShellClientMsg) (e : SvEnv)
| JwksRefresh (r : Response).

Section Router.
Context `{Crypto} `{UuidLib} `{X509} `{Jwt} {P T R L : Type} `{PolicyPort P} `{JoinTokens T} `{Revocations R} `{AuditPort L}.
Variable ca : EmbeddedCa.
Variable policy : P.
Variable default_ttl : Z.

(** The validator cell ([None]: no interceptor), the refresher's configuration, and the
    service behind. *)
Record Server := mkServer { sr_cell : option JwtValidator; sr_oidc : option OidcConfig; sr_service : Service T R L }.

Definition serve (s : Server) (ev : SvEvent) : Server :=
  mkServer (sr_cell s) (sr_oidc s) (service_step ca policy default_ttl (sr_service s) ev).

(** One event; the status of a call the interceptor turns away. *)
Definition server_step (s : Server) (ev : ServerEvent) : Server * option Status :=
  match ev with
  | OperatorRpc authorization now c =>
      match sr_cell s with
      | None => (serve s (operator_event None c), None)
      | Some v =>
          match intercept v authorization now with
          | Ok sub => (serve s (operator_event (Some sub) c), None)
          | Err st => (s, Some st)
          end
      end
  | EnrollRpc token csr e re => (serve s (SvEnroll token csr e re), None)
  | ExecTaskStep i e => (serve s (SvExecStep i e), None)
  | ShellTaskStep i msg e => (serve s (SvShellStep i msg e), None)
  | JwksRefresh r =>
      match sr_cell s, sr_oidc s with
      | Some v, Some config => (mkServer (Some (refresh config v r)) (sr_oidc s) (sr_service s), None)
      | _, _ => (s, None)
      end
  end.

Definition run_server (s : Server) (evs : list ServerEvent) : Server := foldl (fun s ev => fst (server_step s ev)) s evs.
End Router.

(** ** Lemmas: who the service acts for *)

Section Attribution.
Context `{Crypto} `{UuidLib} `{X509} {P T R L : Type} `{PolicyPort P} `{JoinTokens T} `{Revocations R} `{!AuditPort L} `{!AuditLaws L}.
Context (ca : EmbeddedCa) (policy : P) (default_ttl : Z).
Implicit Type s : Service T R L.

(** [x] is the subject of an audit record or of a running fan-out. *)
Definition acts_for s (x : string) : Prop :=
  (exists r, r ∈ log_records (sv_audit s) /\ subject r = x) \/ (exists i t, sv_execs s !! i = Some t /\ et_subject t = x).

(** The subject an event brings in. *)
Definition bound_of (ev : SvEvent) : option string :=
  match ev with
  | SvExec _ b _ _ | SvShell _ b _ _ | SvDispatch b _ _ => Some (operator_of b)
  | _ => None
  end.

Lemma authorize_acts_for s subj act e s' r x :
  authorize_and_audit policy s subj act e = (s', r) -> acts_for s' x -> acts_for s x \/ x = subj.
Proof.
  intros Ha. destruct (authorize_and_audit_spec policy _ _ _ _ _ _ Ha) as (l & -> & [[Hl _]|(d & Hl & _)]);
    intros [(rc & Hr & <-)|?]; [left; left; simpl in Hr; rewrite Hl in Hr; eauto|by left; right| |by left; right].
  simpl in Hr. rewrite Hl in Hr. apply elem_of_app in Hr as [Hr|Hr]; [left; left; eauto|].
  apply list_elem_of_singleton in Hr as ->. by right.
Qed.

Lemma acts_for_same s s' x : sv_audit s' = sv_audit s -> sv_execs s' = sv_execs s -> acts_for s' x -> acts_for s x.
Proof. unfold acts_for. by intros -> ->. Qed.

Lemma acts_for_insert s s' i t x :
  sv_audit s' = sv_audit s -> sv_execs s' = <[i := t]> (sv_execs s) -> acts_for s' x -> acts_for s x \/ x = et_subject t.
Proof.
  unfold acts_for. intros -> ->. intros [?|(j & t' & [[<- <-]|[_ Hj]]%lookup_insert_Some & <-)]; [by left; left|by right|].
  left. right. eauto.
Qed.

Lemma exec_acts_for s i bound req e x : acts_for (fst (exec s i bound req e)) x -> acts_for s x \/ x = operator_of bound.
Proof.
  unfold exec. destruct (dr_action req) as [act|]; [|by left]. destruct (is_empty _); [by left|].
  set (s1 := if bool_decide _ then _ else s).
  assert (sv_audit s1 = sv_audit s /\ sv_execs s1 = sv_execs s) as [Ha Hx].
  { unfold s1, bridge_send. by destruct (bool_decide _), (se_bridge e). }
  assert (acts_for s1 x -> acts_for s x) as Hs1 by by apply acts_for_same.
  destruct (resolve _ _) as [[|h hosts]|]; simpl; [auto| |auto].
  intros Hf. eapply acts_for_insert in Hf; cycle 1; [exact Ha|simpl; rewrite Hx; reflexivity|exact Hf].
Qed.

Lemma exec_step_acts_for s i e x : acts_for (exec_step policy s i e) x -> acts_for s x.
Proof.
  unfold exec_step. destruct (sv_execs s !! i) as [t|] eqn:Et; [|done].
  assert (acts_for s (et_subject t)) as Ht by (right; eauto).
  assert (forall s1 s2 hosts al, sv_audit s2 = sv_audit s1 -> sv_execs s2 = sv_execs s1 -> acts_for (set_exec s2 i t hosts al) x ->
    acts_for s1 x \/ x = et_subject t) as Hset.
  { intros s1 s2 hosts al Ha Hx Hf. eapply (acts_for_insert s1) in Hf; cycle 1; [done|simpl; rewrite Hx; reflexivity|exact Hf]. }
  destruct (et_allowed t) as [host|].
  - unfold bridge_send. destruct (se_bridge e); intros Hf; apply (Hset s) in Hf as [|]; subst; done.
  - destruct (et_hosts t) as [|host hosts].
    + intros [?|(j & t' & Hj & <-)]; [by left|]. simpl in Hj. apply lookup_delete_Some in Hj as [_ Hj]. right. eauto.
    + destruct (authorize_and_audit _ _ _ _ _) as [s1 r] eqn:Ea. pose proof (authorize_acts_for _ _ _ _ _ _ x Ea) as Hau.
      destruct r as [[]|]; intros Hf; (eapply (Hset s1) in Hf as [Hf| ->]; [|done|done|done]);
        destruct (Hau Hf) as [|Hx]; try done; by rewrite Hx.
Qed.

Lemma shell_acts_for s i bound first e x :
  acts_for (fst (shell policy s i bound first e)) x -> acts_for s x \/ x = operator_of bound.
Proof.
  unfold shell, authorize_shell_open. destruct first as [[open| |]|]; try by left. destruct (uuid_parse _); [|by left].
  destruct (authorize_and_audit _ _ _ _ _) as [s1 r] eqn:Ea. pose proof (authorize_acts_for _ _ _ _ _ _ x Ea) as Hau.
  destruct r as [[]|]; simpl; auto.
Qed.

Lemma shell_step_acts_for s i msg e x : acts_for (shell_step s i msg e) x -> acts_for s x.
Proof.
  apply acts_for_same; unfold shell_step, bridge_send; destruct (sv_shells s !! i) as [t|]; try done;
    destruct (sk_phase t), (se_bridge e); try done; by destruct msg as [[]|].
Qed.

Lemma service_step_acts_for s ev x :
  acts_for (service_step ca policy default_ttl s ev) x -> acts_for s x \/ bound_of ev = Some x.
Proof.
  destruct ev as [i bound req e|i e|i bound first e|i msg e|bound req e|ttl e|h e|token csr e re]; cbn [service_step bound_of].
  - destruct (sv_execs s !! i); [by left|]. intros [?| ->]%exec_acts_for; auto.
  - intros ?%exec_step_acts_for. by left.
  - destruct (sv_shells s !! i); [by left|]. intros [?| ->]%shell_acts_for; auto.
  - intros ?%shell_step_acts_for. by left.
  - unfold dispatch. destruct (dr_action req) as [act|]; [|by left]. destruct (is_empty _); [by left|].
    destruct (authorize_and_audit _ _ _ _ _) as [s1 r] eqn:Ea. pose proof (authorize_acts_for _ _ _ _ _ _ x Ea) as Hau.
    destruct r as [[]|]; simpl; naive_solver.
  - intros Hf. left. revert Hf. unfold mint_token. destruct (token_mint _ _ _) as [t [|[]]]; by apply acts_for_same.
  - intros Hf. left. revert Hf. unfold revoke_host. destruct (uuid_parse h); [|done]. destruct (revoke _ _ _ _) as [r []]; by apply acts_for_same.
  - intros Hf. left. revert Hf. unfold enroll. destruct (validate_csr csr); [|done]. destruct (token_redeem _ _ _) as [t []];
      [|by apply acts_for_same]. destruct (issue _ _ _ _) as [|[]]; by apply acts_for_same.
Qed.
End Attribution.

(** ** Lemmas: keys *)

(** A public-key algorithm. *)
Definition asymmetric (a : Algorithm) : bool := match a with HS256 | HS384 | HS512 => false | _ => true end.

Lemma algorithm_of_asymmetric jwk a : algorithm_of jwk = Some a -> asymmetric a = true.
Proof. unfold algorithm_of. destruct (key_algorithm jwk) as [[]|], (jwk_params jwk) as [[]| | |]; by intros [= <-]. Qed.

Section Keys.
Context `{Jwt}.

Lemma usable_jwk_inv jwk kid key : usable_jwk jwk = Some (kid, key) ->
  key_id jwk = Some kid /\ algorithm_of jwk = Some (vk_alg key) /\ from_jwk jwk = Some (vk_decoding key).
Proof.
  unfold usable_jwk. destruct (key_id jwk), (algorithm_of jwk), (from_jwk jwk); try done. by intros [= <- <-].
Qed.

(** The indexed keys are the usable ones, whose ids are all different. *)
Lemma index_keys_spec set keys :
  match index_keys set keys with
  | Ok m => NoDup (omap usable_jwk set).*1 /\ (forall kid, kid ∈ (omap usable_jwk set).*1 -> keys !! kid = None) /\
      forall kid key, m !! kid = Some key <-> keys !! kid = Some key \/ (kid, key) ∈ omap usable_jwk set
  | Err e => exists kid, e = DuplicateKid kid /\ kid ∈ (omap usable_jwk set).*1 /\
      (~ NoDup (omap usable_jwk set).*1 \/ is_Some (keys !! kid))
  end.
Proof.
  revert keys. induction set as [|jwk set IH]; intros keys; cbn [index_keys omap list_omap].
  { split; [constructor|]. split; [by intros ? ?%not_elem_of_nil|]. intros kid key. rewrite elem_of_nil. tauto. }
  destruct (usable_jwk jwk) as [[kid key]|] eqn:Eu; [|apply IH]. rewrite fmap_cons. simpl.
  destruct (keys !! kid) as [k|] eqn:Ek; [exists kid; split; [done|]; split; [by left|right; by rewrite Ek]|].
  specialize (IH (<[kid := key]> keys)). destruct (index_keys set _) as [m|e].
  - destruct IH as (Hn & Hf & Hm).
    assert (kid ∉ (omap usable_jwk set).*1) as Hk by (intros Hin%Hf; by rewrite lookup_insert_eq in Hin).
    split; [by constructor|]. split.
    + intros kid' [->|Hin]%elem_of_cons; [done|]. specialize (Hf _ Hin).
      by apply lookup_insert_None in Hf as [? _].
    + intros kid' key'. rewrite Hm, elem_of_cons, lookup_insert_Some. split; [|naive_solver].
      naive_solver.
  - destruct IH as (kid' & -> & Hin & Hd). exists kid'. split; [done|]. split; [by right|].
    destruct Hd as [Hd|Hd]; [left; intros Hn; apply Hd; by inversion Hn|].
    destruct (decide (kid' = kid)) as [->|Hne]; [left; intros Hn; by inversion Hn|].
    right. by rewrite lookup_insert_ne in Hd.
Qed.

Lemma read_body_spec max chunks body b :
  (length body <= max)%nat ->
  read_body max chunks body = Ok b <->
  exists cs, chunks = Ok <$> cs /\ b = body ++ concat cs /\ (length b <= max)%nat.
Proof.
  revert body. induction chunks as [|[chunk|e] chunks IH]; intros body Hb; cbn [read_body].
  - split; [intros [= <-]; exists []; simpl; by rewrite app_nil_r|]. intros ([|] & Hc & -> & _); [|done]. simpl. by rewrite app_nil_r.
  - case_decide as Hd; [rewrite IH by (rewrite length_app; lia)|]; split; try done.
    + intros (cs & -> & -> & Hl). exists (chunk :: cs). simpl. by rewrite app_assoc.
    + intros ([|c cs] & Hc & -> & Hl); [done|]. simplify_eq/=. exists cs. rewrite <- app_assoc. auto.
    + intros ([|c cs] & Hc & -> & Hl); [done|]. simplify_eq/=. rewrite !length_app in Hl. lia.
  - split; [done|]. by intros ([|] & Hc & _).
Qed.
End Keys.

(** ** Properties *)

(** A key set is indexed exactly.  A JWKS is accepted when it has at least one usable
    signing key and no two usable keys share an id, and then the validator holds exactly
    those keys, each pinned to a public-key algorithm; it is refused as ambiguous only if
    two usable keys do share an id. *)
Theorem key_set_is_unambiguous `{Jwt} policy jwks :
  match from_jwks_json policy jwks with
  | Ok v => exists set, jwks_parse jwks = Some set /\ jv_policy v = policy /\ NoDup (omap usable_jwk set).*1 /\
      omap usable_jwk set <> [] /\
      (forall kid key, jv_keys v !! kid = Some key <-> (kid, key) ∈ omap usable_jwk set) /\
      (forall kid key, jv_keys v !! kid = Some key -> asymmetric (vk_alg key) = true)
  | Err JwksJson => jwks_parse jwks = None
  | Err JwksEmpty => exists set, jwks_parse jwks = Some set /\ omap usable_jwk set = []
  | Err (DuplicateKid kid) => exists set, jwks_parse jwks = Some set /\ kid ∈ (omap usable_jwk set).*1 /\ ~ NoDup (omap usable_jwk set).*1
  end.
Proof.
  unfold from_jwks_json. destruct (jwks_parse jwks) as [set|]; [|done]. simpl.
  pose proof (index_keys_spec set ∅) as Hi. destruct (index_keys set ∅) as [m|e].
  - destruct Hi as (Hn & _ & Hm). setoid_rewrite lookup_empty in Hm. case_bool_decide as Em.
    + exists set. split; [done|]. subst m. destruct (omap usable_jwk set) as [|[kid key] l]; [done|].
      exfalso. pose proof (proj2 (Hm kid key)) as Hk. rewrite lookup_empty in Hk. discriminate Hk. right. by left.
    + exists set. split; [done|]. split; [done|]. split; [done|]. simpl.
      assert (forall kid key, m !! kid = Some key <-> (kid, key) ∈ omap usable_jwk set) as Hk by (intros; rewrite Hm; naive_solver).
      split; [|split; [done|]].
      * intros Hnil. apply Em, map_eq. intros kid. rewrite lookup_empty. destruct (m !! kid) eqn:E; [|done].
        apply Hk in E. rewrite Hnil in E. by apply not_elem_of_nil in E.
      * intros kid key Hl%Hk. apply list_elem_of_omap in Hl as (jwk & _ & (_ & Ha & _)%usable_jwk_inv).
        by eapply algorithm_of_asymmetric.
  - destruct Hi as (kid & -> & Hin & [Hd|Hd]); [|rewrite lookup_empty in Hd; by apply is_Some_None in Hd]. eauto.
Qed.

(** The checks [validate] turns on, spelled out. *)
Lemma claims_pass_iff `{Jwt} policy key now c :
  claims_pass (validation_for policy key) now c <->
  is_Some (tc_sub c) /\ tc_iss c = Some (vp_issuer policy) /\ vp_audience policy ∈ tc_aud c /\
  (exists exp, tc_exp c = Some exp /\ now - vp_leeway_secs policy <= exp) /\
  (forall nbf, tc_nbf c = Some nbf -> nbf <= now + vp_leeway_secs policy).
Proof.
  unfold claims_pass, validation_for. simpl. rewrite !Forall_cons, Forall_nil, Exists_exists. unfold claim_present. simpl.
  rewrite !bool_decide_eq_true, negb_true_iff, bool_decide_eq_false. setoid_rewrite list_elem_of_singleton. split.
  - intros (([e He] & [i Hi] & Ha & Hs & _) & Hexp & Hnbf & Hiss & Haud). rewrite Hi in Hiss. rewrite He in Hexp.
    apply list_elem_of_singleton in Hiss as ->. split; [done|]. split; [done|].
    destruct Haud as [|(a & Hin & ->)]; [done|]. split; [done|]. split; [exists e; split; [done|by destruct Hexp]|].
    intros n Hn. rewrite Hn in Hnbf. by destruct Hnbf.
  - intros (Hs & Hi & Ha & (e & He & Hle) & Hn). rewrite Hi, He. repeat split; eauto.
    + intros Hnil. rewrite Hnil in Ha. by apply not_elem_of_nil in Ha.
    + destruct (tc_nbf c); auto.
    + by left.
Qed.

(** C25. A token is accepted exactly when it should be: its header names a key of the set,
    it is signed by that key with the very algorithm the key is pinned to, it carries the
    configured issuer and audience, an expiry not passed and, if it has one, a not-before
    reached (both within the leeway), and a subject, which is the one returned. *)
Theorem token_accepted_iff_valid `{JwtLaws} v token now sub :
  validate v token now = Ok sub <->
  exists kid key c, decode_header token = Some (Some kid) /\ jv_keys v !! kid = Some key /\
    token_alg token = Some (vk_alg key) /\ signed_by (vk_decoding key) (vk_alg key) token /\
    token_claims token = Some c /\ tc_sub c = Some sub /\
    tc_iss c = Some (vp_issuer (jv_policy v)) /\ vp_audience (jv_policy v) ∈ tc_aud c /\
    (exists exp, tc_exp c = Some exp /\ now - vp_leeway_secs (jv_policy v) <= exp) /\
    (forall nbf, tc_nbf c = Some nbf -> nbf <= now + vp_leeway_secs (jv_policy v)).
Proof.
  unfold validate. split.
  - destruct (decode_header token) as [[kid|]|]; [|done..]. simpl. destruct (jv_keys v !! kid) as [key|] eqn:Ek; [|done]. simpl.
    destruct (jwt_decode _ _ _ _) as [s|] eqn:Ed; [|done]. intros [= <-].
    apply decode_spec in Ed as (alg & c & Ha & Hin & Hs & Hc & Hsub & (_ & Hp)%claims_pass_iff).
    simpl in Hin. apply list_elem_of_singleton in Hin as ->. exists kid, key, c. done.
  - intros (kid & key & c & -> & Hk & Ha & Hs & Hc & Hsub & Hp). simpl. rewrite Hk. simpl.
    rewrite (proj2 (decode_spec token (vk_decoding key) (validation_for (jv_policy v) key) now sub)); [done|].
    exists (vk_alg key), c. do 5 (split; [try done; by left|]). apply claims_pass_iff. rewrite Hsub. done.
Qed.

(** Every rejection has the same status. *)
Lemma intercept_opaque `{Jwt} v authorization now st : intercept v authorization now = Err st -> st = unauthenticated.
Proof.
  unfold intercept, bearer_token. destruct authorization as [raw|]; simpl; [|by intros [= <-]].
  destruct (header_to_str raw) as [s|]; simpl; [|by intros [= <-]].
  destruct (split_once " " s) as [[scheme token]|]; simpl; [|by intros [= <-]].
  destruct (_ || _); [by intros [= <-]|]. destruct (validate v token now); by intros [= <-].
Qed.

(** An [authorization] header that carries a token: [Bearer <token>], the scheme in any case. *)
Definition presents (authorization : option bytes) (token : string) : Prop :=
  exists raw scheme, authorization = Some raw /\ String.string_of_list_byte raw = scheme +:+ (" " +:+ token) /\
    to_ascii_lowercase scheme = "bearer" /\ token <> EmptyString.

(** A call is let in only on the strength of a token the validator accepts. *)
Lemma intercept_inv `{Jwt} v authorization now sub :
  intercept v authorization now = Ok sub -> exists token, presents authorization token /\ validate v token now = Ok sub.
Proof.
  unfold intercept, bearer_token. destruct authorization as [raw|]; [|done]. simpl. unfold header_to_str.
  destruct (forallb _ raw); [|done]. simpl. destruct (split_once " " _) as [[scheme token]|] eqn:Es; [|done]. simpl.
  apply split_once_Some in Es as [Es _]. destruct (negb _ || _) eqn:Eb; [done|]. apply orb_false_iff in Eb as [Eb Et].
  destruct (validate v token now) as [x|] eqn:Ev; [|done]. intros [= <-]. exists token. split; [|done].
  exists raw, scheme. split; [done|]. split; [done|]. split; [|by intros ->].
  apply negb_false_iff in Eb. unfold eq_ignore_ascii_case in Eb. by bool_to_prop.
Qed.

(** The operator calls of a run that were let in, with the subject bound to them. *)
Definition let_in `{Crypto} `{UuidLib} `{X509} `{Jwt} {P T R L} `{PolicyPort P} `{JoinTokens T} `{Revocations R}
    `{!AuditPort L} ca (policy : P) ttl (s0 : Server (T := T) (R := R) (L := L)) (evs : list ServerEvent) (x : string) : Prop :=
  exists evs1 authorization now c evs2 v', evs = evs1 ++ OperatorRpc authorization now c :: evs2 /\
    sr_cell (run_server ca policy ttl s0 evs1) = Some v' /\ intercept v' authorization now = Ok x.

Lemma let_in_app `{Crypto} `{UuidLib} `{X509} `{Jwt} {P T R L} `{PolicyPort P} `{JoinTokens T} `{Revocations R}
    `{!AuditPort L} ca (policy : P) ttl (s0 : Server (T := T) (R := R) (L := L)) evs ev x :
  let_in ca policy ttl s0 evs x -> let_in ca policy ttl s0 (evs ++ [ev]) x.
Proof.
  intros (evs1 & a & now & c & evs2 & v' & -> & Hv & Hi). exists evs1, a, now, c, (evs2 ++ [ev]), v'.
  by rewrite <- app_assoc.
Qed.

(** The interceptor stays in place. *)
Lemma run_server_cell `{Crypto} `{UuidLib} `{X509} `{Jwt} {P T R L} `{PolicyPort P} `{JoinTokens T} `{Revocations R}
    `{!AuditPort L} ca (policy : P) ttl (s0 : Server (T := T) (R := R) (L := L)) evs :
  is_Some (sr_cell s0) -> is_Some (sr_cell (run_server ca policy ttl s0 evs)).
Proof.
  intros Hc. induction evs as [|ev evs [v' Hv]] using rev_ind; [done|]. unfold run_server. rewrite foldl_app.
  fold (run_server ca policy ttl s0 evs). simpl. set (s := run_server ca policy ttl s0 evs) in *.
  destruct ev; simpl; rewrite ?Hv; try done; [by destruct (intercept _ _ _); simpl; rewrite Hv|by destruct (sr_oidc s); simpl; rewrite ?Hv].
Qed.

(** The service behind an interceptor acts only for those let in. *)
Lemma server_attributed `{Crypto} `{UuidLib} `{X509} `{Jwt} {P T R L} `{PolicyPort P} `{JoinTokens T} `{Revocations R}
    `{!AuditPort L} `{!AuditLaws L} ca (policy : P) ttl (s0 : Server (T := T) (R := R) (L := L)) evs x :
  is_Some (sr_cell s0) -> (forall x, ~ acts_for (sr_service s0) x) ->
  acts_for (sr_service (run_server ca policy ttl s0 evs)) x -> let_in ca policy ttl s0 evs x.
Proof.
  intros Hc Hnone. revert x. induction evs as [|ev evs IH] using rev_ind; intros x; [by intros ?%Hnone|].
  unfold run_server. rewrite foldl_app. fold (run_server ca policy ttl s0 evs). simpl.
  pose proof (run_server_cell ca policy ttl s0 evs Hc) as [v' Hv].
  set (s := run_server ca policy ttl s0 evs) in *.
  assert (forall ev', bound_of ev' = None -> acts_for (sr_service (serve ca policy ttl s ev')) x -> let_in ca policy ttl s0 (evs ++ [ev]) x) as Hno.
  { intros ev' Hb [Hx|Hx]%service_step_acts_for; [by apply let_in_app, IH|congruence]. }
  destruct ev as [a now c|tok csr e re|i e|i msg e|r]; cbn [server_step fst];
    [| by apply (Hno (SvEnroll tok csr e re)) | by apply (Hno (SvExecStep i e)) | by apply (Hno (SvShellStep i msg e)) |].
  - rewrite Hv. destruct (intercept v' a now) as [sub|st] eqn:Ei; cbn [fst]; [|intros Hx; by apply let_in_app, IH].
    intros [Hx|Hx]%service_step_acts_for; [by apply let_in_app, IH|].
    exists evs, a, now, c, [], v'. split; [done|]. split; [done|]. rewrite Ei.
    destruct c; simpl in Hx; congruence.
  - rewrite Hv. destruct (sr_oidc s); simpl; intros Hx; by apply let_in_app, IH.
Qed.

(** C7. Every command is attributed to an operator who authenticated.  With the interceptor
    in place, whatever calls, task steps and key refreshes follow, every subject in the
    audit log is the subject of a token that some earlier operator call carried in its
    authorization header, as [Bearer <token>], and that the validator then in force accepted;
    and a call without a header, or with one that carries no token the validator accepts, is
    turned away with one and the same status and changes nothing. *)
Theorem operators_are_authenticated `{Crypto} `{UuidLib} `{X509} `{Jwt} {P T R L} `{PolicyPort P} `{JoinTokens T} `{Revocations R}
    `{!AuditPort L} `{!AuditLaws L} ca (policy : P) ttl v oidc t r (l : L) evs :
  log_records l = [] ->
  let s0 : Server := mkServer (Some v) oidc (service_init t r l) in
  (forall rc, rc ∈ log_records (sv_audit (sr_service (run_server ca policy ttl s0 evs))) ->
     exists evs1 authorization now c evs2 v' token, evs = evs1 ++ OperatorRpc authorization now c :: evs2 /\
       sr_cell (run_server ca policy ttl s0 evs1) = Some v' /\
       presents authorization token /\ validate v' token now = Ok (subject rc)) /\
  (let s := run_server ca policy ttl s0 evs in
   exists v', sr_cell s = Some v' /\
     forall authorization now c, (forall token sub, presents authorization token -> validate v' token now <> Ok sub) ->
       server_step ca policy ttl s (OperatorRpc authorization now c) = (s, Some unauthenticated)) /\
  (let s := run_server ca policy ttl s0 evs in
   forall now c, server_step ca policy ttl s (OperatorRpc None now c) = (s, Some unauthenticated)).
Proof.
  intros Hl s0. destruct (run_server_cell ca policy ttl s0 evs) as [v' Hv]; [by eexists|].
  assert (forall authorization now c, (forall token sub, presents authorization token -> validate v' token now <> Ok sub) ->
    server_step ca policy ttl (run_server ca policy ttl s0 evs) (OperatorRpc authorization now c) = (run_server ca policy ttl s0 evs, Some unauthenticated)) as Hout.
  { intros authorization now c Hno. cbn [server_step]. rewrite Hv. destruct (intercept v' authorization now) as [sub|st] eqn:Ei.
    - apply intercept_inv in Ei as (token & Hp & Ho). by destruct (Hno token sub Hp).
    - by rewrite (intercept_opaque _ _ _ _ Ei). }
  split; [|split].
  - intros rc Hrc. assert (let_in ca policy ttl s0 evs (subject rc)) as (evs1 & a & now & c & evs2 & v1 & He & Hv1 & Hi).
    { apply (server_attributed ca policy ttl s0 evs); [by eexists| |left; eauto].
      intros x [(r' & Hr & _)|(i & tk & Ht & _)]; simpl in *; [rewrite Hl in Hr; by apply not_elem_of_nil in Hr|by rewrite lookup_empty in Ht]. }
    apply intercept_inv in Hi as (token & Hp & Ho). by exists evs1, a, now, c, evs2, v1, token.
  - exists v'. by split.
  - intros s now c. apply Hout. intros token sub (raw & scheme & Hn & _). discriminate Hn.
Qed.

Lemma from_jwks_keys `{Jwt} policy b v : from_jwks_json policy b = Ok v -> jv_policy v = policy /\ jv_keys v <> ∅.
Proof.
  unfold from_jwks_json. destruct (jwks_parse b); [|done]. simpl. destruct (index_keys _ _); [|done].
  case_bool_decide; [done|]. by intros [= <-].
Qed.

Lemma fetch_validator_keys `{Jwt} config r v : fetch_validator config r = Ok v -> jv_policy v = policy_of config /\ jv_keys v <> ∅.
Proof.
  unfold fetch_validator. destruct (fetch_bytes r) as [b|]; [|done].
  destruct (from_jwks_json (policy_of config) b) as [v'|] eqn:E; [|done]. intros [= <-]. by eapply from_jwks_keys.
Qed.

(** Key refresh is bounded and fails safe.  A fetched document is used only if the
    endpoint answered with success and the whole body, the concatenation of its chunks, is
    within one MiB; whatever the endpoint does, the validator keeps the configured policy
    and has at least one key, and a refresh that fails leaves it as it was. *)
Theorem key_refresh_fails_safe `{Jwt} config cell r :
  (forall b, fetch_bytes r = Ok b <->
     exists cs, r = Responded true (Ok <$> cs) /\ b = concat cs /\ Z.of_nat (length b) <= 2 ^ 20) /\
  (is_ok (fetch_validator config r) = false -> refresh config cell r = cell) /\
  (jv_policy cell = policy_of config -> jv_keys cell <> ∅ ->
     jv_policy (refresh config cell r) = policy_of config /\ jv_keys (refresh config cell r) <> ∅).
Proof.
  split; [|split].
  - intros b. assert ((length b <= MAX_JWKS_BYTES)%nat <-> Z.of_nat (length b) <= 2 ^ 20) as Hmax.
    { unfold MAX_JWKS_BYTES. rewrite Nat2Z.inj_le, Z2Nat.id by lia. done. }
    setoid_rewrite <- Hmax. destruct r as [e|[] chunks]; simpl.
    + split; [done|]. by intros (? & ? & _).
    + rewrite read_body_spec by (simpl; lia). naive_solver.
    + split; [done|]. by intros (? & ? & _).
  - unfold refresh. by destruct (fetch_validator config r).
  - unfold refresh. intros Hp Hk. destruct (fetch_validator config r) eqn:E; [|done]. by eapply fetch_validator_keys.
Qed.

Lemma validate_url_inv `{UrlLib} raw text : validate_url raw = Ok text ->
  exists u, url_parse (trim raw) = Some u /\ text = url_text u /\
    (url_scheme u = "https" \/ (url_scheme u = "http" /\ host_is_loopback u = true)).
Proof.
  unfold validate_url. destruct (is_empty _); [done|]. destruct (url_parse _) as [u|]; [|done].
  case_bool_decide; [intros [= <-]; eauto|]. case_bool_decide; [|done].
  destruct (host_is_loopback u) eqn:El; [|done]. intros [= <-]. eauto 6.
Qed.

Lemma build_operator_auth_none `{Jwt} `{UrlLib} read_jwks get cli :
  build_operator_auth read_jwks get cli = Ok None <->
  oidc_issuer cli = None /\ oidc_audience cli = None /\ oidc_jwks cli = None /\ oidc_jwks_url cli = None.
Proof.
  unfold build_operator_auth. destruct (oidc_issuer cli), (oidc_audience cli); try (split; naive_solver; fail).
  - split; [|naive_solver]. repeat case_match; naive_solver.
  - destruct (oidc_jwks cli), (oidc_jwks_url cli); simpl; naive_solver.
Qed.

(** Operator authentication is never silently off.  The coordinator starts without it
    only if none of the OIDC options is given; otherwise start-up fails, or the validator
    has the configured, non-blank issuer and audience, a leeway of at most five minutes and
    at least one key, read from the given file or fetched from the given URL over https, or
    over http from a loopback host. *)
Theorem auth_is_never_silently_off `{Jwt} `{UrlLib} read_jwks get cli :
  (build_operator_auth read_jwks get cli = Ok None <->
     oidc_issuer cli = None /\ oidc_audience cli = None /\ oidc_jwks cli = None /\ oidc_jwks_url cli = None) /\
  (forall v source, build_operator_auth read_jwks get cli = Ok (Some (v, source)) ->
     exists issuer audience, oidc_issuer cli = Some issuer /\ oidc_audience cli = Some audience /\
       is_empty (trim issuer) = false /\ is_empty (trim audience) = false /\ oidc_leeway_secs cli <= 300 /\
       jv_policy v = mkPolicy issuer audience (oidc_leeway_secs cli) /\ jv_keys v <> ∅ /\
       match source with
       | None => exists path b, oidc_jwks cli = Some path /\ oidc_jwks_url cli = None /\ read_jwks path = Ok b /\
           from_jwks_json (jv_policy v) b = Ok v
       | Some (config, url) => exists raw u, oidc_jwks cli = None /\ oidc_jwks_url cli = Some raw /\
           url_parse (trim raw) = Some u /\ url = url_text u /\ policy_of config = jv_policy v /\
           (url_scheme u = "https" \/ (url_scheme u = "http" /\ host_is_loopback u = true)) /\
           fetch_validator config (get url) = Ok v
       end).
Proof.
  split; [apply build_operator_auth_none|]. unfold build_operator_auth.
  destruct (oidc_issuer cli) as [issuer|], (oidc_audience cli) as [audience|]; [|done|done|repeat case_match; naive_solver].
  destruct (is_empty (trim issuer)) eqn:Ei; [done|]. destruct (is_empty (trim audience)) eqn:Ea; [done|]. simpl.
  destruct (Z.leb_spec (oidc_leeway_secs cli) MAX_LEEWAY_SECS) as [Hl|]; simpl; [|done]. unfold MAX_LEEWAY_SECS in Hl.
  intros v source. destruct (oidc_jwks cli) as [path|], (oidc_jwks_url cli) as [raw|]; try done.
  - destruct (is_empty (trim path)); [done|]. destruct (read_jwks path) as [b|] eqn:Er; [|done]. simpl.
    destruct (from_jwks_json _ b) as [v'|] eqn:Ef; [|done]. intros [= <- <-].
    destruct (from_jwks_keys _ _ _ Ef) as [Hp Hk]. exists issuer, audience. rewrite Hp. repeat split; try done. eauto 8.
  - destruct (1 <=? oidc_refresh_secs cli); [|done]. simpl. destruct (validate_url raw) as [url|] eqn:Eu; [|done].
    destruct (fetch_validator _ (get url)) as [v'|] eqn:Ef; [|done]. intros [= <- <-].
    destruct (fetch_validator_keys _ _ _ Ef) as [Hp Hk]. apply validate_url_inv in Eu as (u & Hu & -> & Hs).
    exists issuer, audience. rewrite Hp. repeat split; try done. eauto 10.
Qed.

(** ** A reference JWT library *)

(** Tokens are named; the one of [toy_token] is signed by the key [k1]. *)
Record ToyToken := mkToy { tt_kid : option string; tt_alg : Algorithm; tt_key : bytes; tt_claims : TokenClaims }.
Definition toy_token (tok : string) : option ToyToken :=
  if bool_decide (tok = "alice-token")
  then Some (mkToy (Some "k1") RS256 (bytes_of "key") (mkClaims (Some "alice") (Some "https://issuer/") ["osa"] (Some 1000) None))
  else if bool_decide (tok = "forged-token")
  then Some (mkToy (Some "k1") HS256 (bytes_of "key") (mkClaims (Some "root") (Some "https://issuer/") ["osa"] (Some 1000) None))
  else None.
Definition toy_jwk : Jwk := mkJwk (Some "k1") (Some KaRS256) ApRSA (bytes_of "key").

#[global] Instance toy_jwt : Jwt := {|
  DecodingKey := bytes;
  jwks_parse b := if bool_decide (b = []) then None else Some [toy_jwk];
  from_jwk j := Some (jwk_material j);
  decode_header tok := tt_kid <$> toy_token tok;
  jwt_decode tok key v now :=
    match toy_token tok with
    | Some t =>
        if decide (tt_alg t ∈ v_algorithms v /\ tt_key t = key /\ claims_pass v now (tt_claims t))
        then ok_or (tc_sub (tt_claims t)) OtherKind else Err OtherKind
    | None => Err OtherKind
    end
|}.
#[global] Instance toy_jwt_laws : JwtLaws.
Proof.
  refine {| token_alg tok := tt_alg <$> toy_token tok; token_claims tok := tt_claims <$> toy_token tok;
            signed_by (key : DecodingKey) _ tok := tt_key <$> toy_token tok = Some key |}.
  intros tok key v now sub. simpl. destruct (toy_token tok) as [t|]; simpl; [|split; [done|]; by intros (? & ? & ? & _)].
  case_decide as Hd.
  - destruct (tc_sub (tt_claims t)) as [s|] eqn:Es; simpl; split; try done.
    + intros [= <-]. exists (tt_alg t), (tt_claims t). naive_solver.
    + intros (alg & c & [= <-] & _ & _ & [= <-] & Hs & _). congruence.
    + intros (alg & c & [= <-] & _ & _ & [= <-] & Hs & _). congruence.
  - split; [done|]. intros (alg & c & [= <-] & ? & [= <-] & [= <-] & _ & ?). naive_solver.
Defined.

Definition demo_validator : JwtValidator :=
  match from_jwks_json (mkPolicy "https://issuer/" "osa" 60) (bytes_of "jwks") with Ok v => v | Err _ => mkValidator (mkPolicy "" "" 0) ∅ end.

(** The reference library accepts the issuer's token until its expiry and leeway, and
    never one that names another algorithm than the key's. *)
Lemma token_accepted_iff_valid_witness :
  validate demo_validator "alice-token" 1060 = Ok "alice" /\ (forall sub now, validate demo_validator "forged-token" now <> Ok sub).
Proof.
  split.
  - apply token_accepted_iff_valid. eexists "k1", _, _. split; [reflexivity|]. split; [reflexivity|].
    split; [reflexivity|]. split; [reflexivity|]. split; [reflexivity|]. split; [reflexivity|]. split; [reflexivity|].
    split; [by left|]. split; [|done]. exists 1000. split; [reflexivity|]. vm_compute. discriminate.
  - intros sub now (kid & key & c & Hh & Hk & Ha & _)%token_accepted_iff_valid. vm_compute in Hh. injection Hh as <-.
    assert (vk_alg <$> jv_keys demo_validator !! "k1" = Some RS256) as Hv by (vm_compute; reflexivity).
    assert (token_alg "forged-token" = Some HS256) as Hf by (vm_compute; reflexivity).
    rewrite Hk in Hv. rewrite Hf in Ha. simpl in Hv. congruence.
Defined.

Lemma operators_are_authenticated_witness :
  let call tok := OperatorRpc (Some (bytes_of ("Bearer " +:+ tok))) 900 (OcDispatch demo_exec_request demo_sv_env) in
  let s0 := mkServer (Some demo_validator) None (service_init (T := JoinTokenRegistry) (sv_tokens demo_service) (sv_revocations demo_service) []) in
  let s := run_server demo_ca demo_policy 0 s0 [call "forged-token"; call "alice-token"] in
  subject <$> log_records (sv_audit (sr_service s)) = ["alice"] /\
  (forall rc, rc ∈ log_records (sv_audit (sr_service s)) -> exists a token v, presents a token /\ validate v token 900 = Ok (subject rc)) /\
  server_step demo_ca demo_policy 0 s (OperatorRpc None 900 (OcDispatch demo_exec_request demo_sv_env)) = (s, Some unauthenticated).
Proof.
  intros call s0 s. split; [vm_compute; reflexivity|].
  assert (log_records ([] : list AuditEntry) = []) as Hnil by (vm_compute; reflexivity).
  destruct (operators_are_authenticated demo_ca demo_policy 0 demo_validator None (sv_tokens demo_service) (sv_revocations demo_service)
    ([] : list AuditEntry) [call "forged-token"; call "alice-token"] Hnil) as (Hat & _ & Hout).
  split; [|apply Hout].
  intros rc Hrc. destruct (Hat rc Hrc) as (evs1 & a & now & c & evs2 & v & token & He & _ & Hp & Hi).
  assert (Forall (fun ev => match ev with OperatorRpc _ n _ => n = 900 | _ => True end)
    [call "forged-token"; call "alice-token"]) as Hall by (repeat constructor).
  rewrite He in Hall. apply Forall_app in Hall as [_ [Hnow _]%Forall_cons]. subst now. by exists a, token, v.
Defined.

(** ** The CLI's header at the interceptor *)

Lemma header_ok_to_str s : header_ok s = true -> header_to_str (bytes_of s) = Some s.
Proof.
  intros Hs. unfold header_to_str. match goal with |- context [forallb ?f ?l] => assert (forallb f l = true) as -> end.
  { induction s as [|c s IH]; [done|]. unfold header_ok in Hs. simpl in Hs. apply andb_true_iff in Hs as [Hc Hs].
    change (bytes_of (String c s)) with (byte_of_ascii c :: bytes_of s). cbn [forallb]. rewrite (IH Hs), andb_true_r.
    clear -Hc. destruct c as [[] [] [] [] [] [] [] []]; try discriminate Hc; reflexivity. }
  f_equal. apply String.string_of_list_byte_of_string.
Qed.

(** The bearer header the CLI attaches carries its token, whole, to the validator: for
    every non-empty token it accepts, the interceptor recovers exactly that token; without
    a token there is no header and the request is refused. *)
Theorem bearer_roundtrip token :
  match authed token with
  | Ok (Some h) => exists t, token = Some t /\ (bearer_token (Some (bytes_of h)) = if is_empty t then Err unauthenticated else Ok t)
  | Ok None => token = None /\ bearer_token None = Err unauthenticated
  | Err _ => exists t, token = Some t /\ header_ok t = false
  end.
Proof.
  unfold authed. destruct token as [t|]; [|done]. destruct (header_ok _) eqn:E.
  - exists t. split; [done|]. unfold bearer_token. cbn [ok_or]. rewrite header_ok_to_str by done.
    cbn. by destruct t.
  - exists t. split; [done|]. unfold header_ok in *. rewrite all_chars_app in E. by destruct (all_chars _ t).
Qed.
