(* ===== verification/AgentMain.v ===== *)
(** * The agent process (osa-agent/src/main.rs, the outer loop of control_channel.rs)

    What the subcommands of the agent decide (the backstop check, the exit status of a
    local command), and the life of the running agent: its start, one turn of the
    reconnect loop after another, each with the identity files read afresh, and the
    certificates the renewal loop puts in place meanwhile.  The theorem shows that over
    all of them it stays one host that trusts one CA. *)
From S2P Require Import Prelude Proto Concrete Text Seal Handshake Allowlist Disk Session Exec JobRunner Pty ShellStream ControlChannel.

(** ** Subcommands *)

(** [Command::Exec]: the exit status of a finished command. *)
Definition exec_status (o : ExecOutcome) : Z :=
  match eo_exit_code o, eo_signal o with
  | Some code, _ => bval code
  | None, Some sig => 128 + bval sig
  | None, None => 1
  end.

(** [Command::Exec]: what it writes to the two streams, and the status it exits with. *)
Definition exec_command (env : RunEnv) (argv : list string) (run_as : string) : result (bytes * bytes * Z) ExecError :=
  let? o := Exec.run env argv run_as in
  let note := match eo_exit_code o, eo_signal o with
              | None, Some sig => println ("terminated by signal " +:+ z_text (bval sig))
              | _, _ => []
              end in
  Ok (eo_stdout o, eo_stderr o ++ note, exec_status o).

(** [Command::Check]: the exit status, and what it prints on which stream. *)
Inductive CheckResult := CheckPermitted (kind run_as : string) | CheckRefused (d : BackstopDenial).
Definition check (path : option string) (read : string -> option string)
    (parse : string -> option AllowlistDoc) (kind run_as : string) : result CheckResult LoadError :=
  let? backstop := load path read parse in
  Ok (match permits backstop (mkAction kind EmptyString run_as []) with
      | Ok _ => CheckPermitted kind run_as
      | Err denial => CheckRefused denial
      end).

(** ** The running agent *)

(** The process between connections.  [pr_used] and [pr_acted] record the identities
    connections were made with and the dispatches acted on. *)
Record Process := mkProcess {
  pr_host : string; pr_conn : Conn; pr_attempt : u32; pr_waits : list Z;
  pr_used : list AgentIdentity; pr_acted : list Dispatch; pr_exit : option string
}.

(** One turn of the loop: the certificate file the renewal loop renamed into place
    meanwhile, read failures, what happens on the connection, and for how long it was up
    if it was acknowledged. *)
Record Turn := mkTurn {
  tn_renewed : option bytes; tn_tls_fail : string -> option string; tn_id_fail : string -> option string;
  tn_events : list AgentEvent; tn_elapsed : Z
}.

Definition renewed (d : Dir) (cert : option bytes) : Dir :=
  match cert with Some c => mkDir (<[CERT_FILE := c]> (cur d)) (durable d) | None => d end.

Section Process.
Context `{Crypto} `{Prost} `{UuidLib} `{Pki}.
Variable debug_str : string -> string.
Variable hash : u64 -> u32 -> u64.
Variable stable_seed : string -> u64.
Variable backstop : LocalAllowlist.

(** The inner loop: it ends at the first connection error. *)
Fixpoint conn_loop (host : string) (id : AgentIdentity) (c : Conn) (evs : list AgentEvent) : Conn :=
  match evs with
  | [] | ADisconnect :: _ => c
  | ev :: evs => conn_loop host id (agent_step debug_str host id backstop c ev) evs
  end.

(** [run] up to its loop; [jobs] is [JobStore::new]. *)
Definition start (d : Dir) (host_fail : option string) (tls_fail : string -> option string) (jobs : result Dir string)
    : result Process string :=
  let? host_id := map_err (fun _ => "host_id") (read_host_id d host_fail) in
  let? _ := load_identity d tls_fail in
  let? jobs_dir := map_err (fun _ => "opening the job store") jobs in
  Ok (mkProcess host_id (agent_init jobs_dir d) (wrap 0) [] [] [] None).

Definition turn (p : Process) (t : Turn) : Process :=
  match pr_exit p with
  | Some _ => p
  | None =>
      let c := set_state_dir (pr_conn p) (renewed (state_dir (pr_conn p)) (tn_renewed t)) in
      let seed := stable_seed (pr_host p) in
      match load_identity (state_dir c) (tn_tls_fail t) with
      | Err e => mkProcess (pr_host p) c (pr_attempt p) (pr_waits p) (pr_used p) (pr_acted p) (Some e)
      | Ok _ =>
          match AgentIdentity_load (state_dir c) (tn_id_fail t) with
          | Err _ =>
              mkProcess (pr_host p) c (saturating_add (pr_attempt p) 1)
                (pr_waits p ++ [backoff hash (pr_attempt p) seed]) (pr_used p) (pr_acted p) None
          | Ok id =>
              let c := conn_loop (pr_host p) id c (tn_events t) in
              let up_for := if connected c then Some (tn_elapsed t) else None in
              let '(attempt, wait) := after_disconnect hash seed (pr_attempt p) up_for in
              mkProcess (pr_host p) (agent_step debug_str (pr_host p) id backstop c ADisconnect) attempt
                (pr_waits p ++ [wait]) (pr_used p ++ [id]) (pr_acted p ++ acted c) None
          end
      end
  end.

Definition run_process (p : Process) (ts : list Turn) : Process := foldl turn p ts.

(** [Command::Run]: the backstop is loaded before anything connects. *)
Definition run_command (path : option string) (read : string -> option string) (parse : string -> option AllowlistDoc)
    (d : Dir) (host_fail : option string) (tls_fail : string -> option string) (jobs : result Dir string)
    : result (LocalAllowlist * Process) string :=
  let? allow := map_err (fun e => match e with ReadFailed => "reading allowlist" | NotToml => "allowlist is not valid TOML" end) (load path read parse) in
  let? p := start d host_fail tls_fail jobs in Ok (allow, p).

(** ** Lemmas *)

Lemma conn_loop_run host id c evs : exists evs', conn_loop host id c evs = run_agent debug_str host id backstop c evs'.
Proof.
  revert c. induction evs as [|ev evs IH]; intros c; [by exists []|].
  destruct (IH (agent_step debug_str host id backstop c ev)) as [evs' He].
  destruct ev eqn:Ev; try (by exists []); exists (ev :: evs'); subst ev; exact He.
Qed.

(** Events leave every file but the epoch alone. *)
Definition same_files (d d' : Dir) : Prop := forall f, f <> EPOCH_FILE -> cur d' !! f = cur d !! f.

Lemma next_epoch_files d rf wf : same_files d (fst (next_epoch d rf wf)).
Proof.
  intros f Hf. unfold next_epoch, write_durably.
  repeat case_match; simplify_eq/=; by rewrite ?lookup_insert_ne by done.
Qed.

Lemma begin_handshake_files host id c epoch e k : state_dir (fst (begin_handshake host id c epoch e k)) = state_dir c.
Proof. unfold begin_handshake, try_subscribe, try_publish. by repeat case_match; simplify_eq. Qed.

Lemma on_publish_files host id c topic payload e : state_dir (on_publish host id backstop c topic payload e) = state_dir c.
Proof.
  unfold on_publish, handle_shell_open, handle_job, try_publish.
  repeat first [done | case_match; simplify_eq/=].
Qed.

Lemma publish_heartbeat_files host c ok : state_dir (publish_heartbeat host c ok) = state_dir c.
Proof. by destruct ok. Qed.

Lemma agent_step_files host id c ev : same_files (state_dir c) (state_dir (agent_step debug_str host id backstop c ev)).
Proof.
  destruct ev as [e|topic payload e|ok|i e|w|]; simpl; try done.
  - unfold on_connack. destruct (next_epoch _ _ _) as [d r] eqn:En.
    assert (d = fst (next_epoch (state_dir c) (ae_epoch_read e) (ae_epoch_write e))) as ->.
    { rewrite <- (publish_heartbeat_files host (set_connected c true) (ae_client e 0) : _ = state_dir c), En. done. }
    destruct r as [epoch|]; [|apply next_epoch_files].
    destruct (begin_handshake _ _ _ _ _ _) as [c' hs] eqn:Eb. simpl.
    replace (state_dir c') with (state_dir (fst (begin_handshake host id (set_state_dir (publish_heartbeat host (set_connected c true) (ae_client e 0))
      (fst (next_epoch (state_dir c) (ae_epoch_read e) (ae_epoch_write e)))) epoch e 1))) by by rewrite Eb.
    rewrite begin_handshake_files. apply next_epoch_files.
  - by rewrite on_publish_files.
  - destruct (connected c); [|done]. by rewrite publish_heartbeat_files.
Qed.

Lemma run_agent_files host id c evs : same_files (state_dir c) (state_dir (run_agent debug_str host id backstop c evs)).
Proof.
  revert c. induction evs as [|ev evs IH]; intros c; [done|]. intros f Hf.
  etrans; [by apply IH|]. by apply agent_step_files.
Qed.

(** The identity of the host that was there at the start: its name and the pinned CA. *)
Definition pinned (d0 : Dir) (id : AgentIdentity) : Prop :=
  (exists b, cur d0 !! HOST_ID_FILE = Some b /\ ai_host_id id = trim (utf8 b)) /\
  (exists pem der, cur d0 !! CA_FILE = Some pem /\ pem_to_der pem = Some der /\
     subject_pubkey_sec1 der = Some (ai_ca_pubkey_sec1 id)).

Lemma identity_load_inv d fail id :
  AgentIdentity_load d fail = Ok id ->
  pinned d id /\ exists pem, cur d !! CERT_FILE = Some pem /\ pem_to_der pem = Some (ai_cert_der id).
Proof.
  unfold AgentIdentity_load, read_file, pinned. intros Hl.
  destruct (fail HOST_ID_FILE); [done|]. destruct (cur d !! HOST_ID_FILE) as [b|]; [|done].
  destruct (fail KEY_FILE); [done|]. destruct (cur d !! KEY_FILE) as [k|]; [|done].
  destruct (fail CERT_FILE); [done|]. destruct (cur d !! CERT_FILE) as [c|]; [|done]. simpl in Hl.
  destruct (pem_to_der c) as [der|] eqn:Ec; [|done]. simpl in Hl.
  destruct (fail CA_FILE); [done|]. destruct (cur d !! CA_FILE) as [ca|]; [|done]. simpl in Hl.
  destruct (pem_to_der ca) as [cader|] eqn:Eca; [|done]. simpl in Hl.
  destruct (subject_pubkey_sec1 cader) as [pk|] eqn:Ep; [|done]. injection Hl as <-. simpl. naive_solver.
Qed.

Definition identity_files : list string := [CA_FILE; CERT_FILE; KEY_FILE].

(** The TLS identity loads iff nothing fails and the three files are there. *)
Lemma load_identity_ok d fail :
  (forall f, fail f = None) -> Forall (fun f => is_Some (cur d !! f)) identity_files -> is_ok (load_identity d fail) = true.
Proof.
  intros Hf Ha. unfold load_identity, read_file. rewrite !Hf. unfold identity_files in Ha.
  rewrite !Forall_cons in Ha. destruct Ha as ([? Hca] & [? Hce] & [? Hk] & _).
  unfold CA_FILE in Hca. unfold CERT_FILE in Hce. unfold KEY_FILE in Hk. by rewrite Hca, Hce, Hk.
Qed.

Lemma load_identity_inv d fail :
  is_ok (load_identity d fail) = true -> Forall (fun f => is_Some (cur d !! f)) identity_files.
Proof.
  unfold load_identity, read_file, identity_files, CA_FILE, CERT_FILE, KEY_FILE.
  destruct (fail "ca.crt"); [done|]. destruct (cur d !! "ca.crt") eqn:E1; [|done].
  destruct (fail "host.crt"); [done|]. destruct (cur d !! "host.crt") eqn:E2; [|done].
  destruct (fail "host.key"); [done|]. destruct (cur d !! "host.key") eqn:E3; [|done].
  intros _. rewrite !Forall_cons, E1, E2, E3. by eauto.
Qed.

(** What holds between connections: nothing of the last one is left but the jobs. *)
Definition idle (c : Conn) : Prop :=
  (size (running (runner c)) <= MAX_CONCURRENT_JOBS)%nat /\
  c = mkConn false None None None ∅ (runner c) (state_dir c) (outbox c) [] [] [].

Lemma idle_inv id c : idle c -> agent_inv id backstop c.
Proof. intros [Hs ->]. by apply agent_inv_reset. Qed.

Record process_inv (d0 : Dir) (p : Process) : Prop := {
  pi_files : forall f, f <> EPOCH_FILE -> f <> CERT_FILE -> cur (state_dir (pr_conn p)) !! f = cur d0 !! f;
  pi_there : Forall (fun f => is_Some (cur (state_dir (pr_conn p)) !! f)) identity_files;
  pi_idle : idle (pr_conn p);
  pi_used : Forall (pinned d0) (pr_used p);
  pi_acted : Forall (fun d => exists id, pinned d0 id /\ authentic_dispatch id d) (pr_acted p);
  pi_waits : Forall (fun w => 250 <= w < 30000) (pr_waits p)
}.

Lemma renewed_files d cert f : f <> CERT_FILE -> cur (renewed d cert) !! f = cur d !! f.
Proof. intros Hf. destruct cert; [|done]. simpl. by rewrite lookup_insert_ne. Qed.

Lemma renewed_there d cert fs :
  Forall (fun f => is_Some (cur d !! f)) fs -> Forall (fun f => is_Some (cur (renewed d cert) !! f)) fs.
Proof.
  intros Hfs. eapply Forall_impl; [exact Hfs|]. intros f Hf. simpl in Hf |- *. destruct (decide (f = CERT_FILE)) as [->|]; [|by rewrite renewed_files].
  destruct cert; [|done]. simpl. rewrite lookup_insert_eq. eauto.
Qed.

Lemma pinned_files d d' id :
  (forall f, f <> EPOCH_FILE -> f <> CERT_FILE -> cur d' !! f = cur d !! f) -> pinned d' id -> pinned d id.
Proof. intros Hf [(b & Hb & ?) (pem & der & Hp & ?)]. rewrite Hf in Hb, Hp by done. split; eauto. Qed.

Lemma turn_inv d0 p t : process_inv d0 p -> process_inv d0 (turn p t).
Proof.
  intros [Hf Ht Hi Hu Ha Hw]. unfold turn. destruct (pr_exit p); [done|].
  set (c := set_state_dir _ _).
  assert (forall f, f <> EPOCH_FILE -> f <> CERT_FILE -> cur (state_dir c) !! f = cur d0 !! f) as Hfc.
  { intros f He Hc. rewrite <- Hf by done. by apply renewed_files. }
  assert (Forall (fun f => is_Some (cur (state_dir c) !! f)) identity_files) as Htc by by apply renewed_there.
  assert (idle c) as Hic by (destruct Hi as [Hs He]; split; [exact Hs|]; subst c; by rewrite He at 1).
  destruct (load_identity _ _) as [tls|e]; [|by split].
  destruct (AgentIdentity_load _ _) as [id|e] eqn:El.
  2: { split; try done. simpl. apply Forall_app. split; [done|]. constructor; [apply backoff_bounds|constructor]. }
  apply identity_load_inv in El as [Hp _]. apply (pinned_files d0) in Hp; [|done].
  destruct (conn_loop_run (pr_host p) id c (tn_events t)) as [evs ->].
  pose proof (run_agent_inv debug_str (pr_host p) id backstop c evs (idle_inv id c Hic)) as Hinv.
  pose proof (run_agent_files (pr_host p) id c evs) as Hrf. set (c' := run_agent _ _ _ _ _ _) in *.
  destruct (after_disconnect _ _ _ _) as [attempt wait] eqn:Ew. split; simpl.
  - intros f He Hc. rewrite Hrf by done. by apply Hfc.
  - unfold identity_files in *. rewrite !Forall_cons in *. rewrite !Hrf by (intros [=]). destruct Htc as (? & ? & ? & _). by repeat split.
  - split; [apply Hinv|done].
  - apply Forall_app. split; [done|]. by constructor.
  - apply Forall_app. split; [done|]. eapply Forall_impl; [apply Hinv|]. eauto.
  - apply Forall_app. split; [done|]. constructor; [|constructor].
    unfold after_disconnect in Ew. injection Ew as _ <-. apply backoff_bounds.
Qed.

Lemma run_process_inv d0 p ts : process_inv d0 p -> process_inv d0 (run_process p ts).
Proof. revert p. induction ts as [|t ts IH]; intros p Hp; [done|]. apply IH. by apply turn_inv. Qed.

Lemma process_start_inv d host_fail tls_fail jobs p :
  start d host_fail tls_fail jobs = Ok p ->
  process_inv d p /\ pr_exit p = None /\ exists b, cur d !! HOST_ID_FILE = Some b /\ pr_host p = trim (utf8 b).
Proof.
  unfold start, read_host_id, read_file. destruct host_fail; [done|].
  destruct (cur d !! "host_id") as [b|] eqn:Eb; [|done]. simpl.
  destruct (load_identity d tls_fail) as [tls|] eqn:El; [|done]. destruct jobs as [jobs_dir|]; [|done].
  intros [= <-]. simpl. split; [|eauto]. split; simpl; try done.
  - apply (load_identity_inv d tls_fail). by rewrite El.
  - split; [|done]. simpl. rewrite map_size_empty. lia.
Qed.

Lemma turn_host p t : pr_host (turn p t) = pr_host p.
Proof. unfold turn. by repeat case_match. Qed.

Lemma run_process_host p ts : pr_host (run_process p ts) = pr_host p.
Proof. revert p. induction ts as [|t ts IH]; intros p; [done|]. simpl. etrans; [apply IH|apply turn_host]. Qed.

Lemma turn_alive d0 p t :
  process_inv d0 p -> pr_exit p = None -> (forall f, tn_tls_fail t f = None) -> pr_exit (turn p t) = None.
Proof.
  intros Hp He Hf. unfold turn. rewrite He.
  pose proof (load_identity_ok _ (tn_tls_fail t) Hf (renewed_there _ (tn_renewed t) _ (pi_there _ _ Hp))) as Hok.
  simpl. destruct (load_identity _ _); [|done]. by repeat case_match.
Qed.

End Process.

(** ** Properties *)

(** C17. For its whole life the agent is one host that trusts one CA.  Through any number
    of reconnects, renewed certificates, read failures and hostile traffic: it connects
    only with the host name and the pinned CA key that were in the state directory when it
    started; every dispatch it acts on was sealed under keys agreed with the holder of
    that CA key; at most 16 jobs run; every reconnect waits at least 250 ms and less than
    30 s; and the process gives up only if one of its identity files cannot be read. *)
Theorem agent_process_is_one_host `{Crypto, Prost, UuidLib, Pki} debug_str hash stable_seed backstop
    d host_fail tls_fail jobs p ts :
  start d host_fail tls_fail jobs = Ok p ->
  let p' := run_process debug_str hash stable_seed backstop p ts in
  Forall (fun id => ai_host_id id = pr_host p /\ pinned d id) (pr_used p') /\
  Forall (fun dsp => exists id, pinned d id /\ authentic_dispatch id dsp) (pr_acted p') /\
  (size (running (runner (pr_conn p'))) <= 16)%nat /\
  Forall (fun w => 250 <= w < 30000) (pr_waits p') /\
  (Forall (fun t => forall f, tn_tls_fail t f = None) ts -> pr_exit p' = None).
Proof.
  intros Hs p'. apply process_start_inv in Hs as (Hp & He & b & Hb & Hh).
  assert (process_inv d p') as Hi by by apply run_process_inv. destruct Hi as [_ _ Hi Hu Ha Hw].
  split; [|split; [done|split; [apply Hi|split; [done|]]]].
  - eapply Forall_impl; [exact Hu|]. intros id Hid. split; [|done].
    destruct Hid as [(b' & Hb' & ->) _]. congruence.
  - intros Ht. clear Hi Hu Ha Hw. subst p'. clear Hh. revert p Hp He. induction Ht as [|t ts Htf Ht IH]; intros p Hp He; [done|].
    apply IH; [by apply turn_inv|]. by eapply turn_alive.
Qed.

(** PEM and certificate parsers that take every file as its own DER and key. *)
#[local] Instance PlainPki : Pki := {| pem_to_der := Some; subject_pubkey_sec1 := Some |}.

Definition demo_state : Dir :=
  let files := list_to_map [(HOST_ID_FILE, bytes_of "h"); (KEY_FILE, bytes_of "k"); (CERT_FILE, bytes_of "c1"); (CA_FILE, bytes_of "ca")] in
  mkDir files files.
Definition demo_turns : list Turn :=
  [mkTurn None (fun _ => None) (fun _ => Some "EIO") [] 0;
   mkTurn (Some (bytes_of "c2")) (fun _ => None) (fun _ => None) [AConnAck demo_agent_env; ADisconnect; AHeartbeat true] 40].

Lemma agent_process_is_one_host_witness :
  exists p, start demo_state None (fun _ => None) (Ok dir_empty) = Ok p /\
    let p' := run_process (fun s => s) (fun _ _ => wrap 0) (fun _ => wrap 0) deny_all p demo_turns in
    ai_cert_der <$> pr_used p' = [bytes_of "c2"] /\ pr_waits p' = [250; 250] /\
    Forall (fun id => ai_host_id id = "h" /\ pinned demo_state id) (pr_used p') /\ pr_exit p' = None.
Proof.
  destruct (start demo_state None (fun _ => None) (Ok dir_empty)) as [p|e] eqn:Es; [|discriminate Es].
  exists p. split; [reflexivity|]. intros p'.
  destruct (agent_process_is_one_host (fun s => s) (fun _ _ => wrap 0) (fun _ => wrap 0) deny_all demo_state None (fun _ => None)
    (Ok dir_empty) p demo_turns Es) as (Hu & _ & _ & _ & He).
  assert (pr_host p = "h") as Hh by (vm_compute in Es; injection Es as <-; reflexivity). rewrite Hh in Hu.
  assert (p = mkProcess "h" (agent_init dir_empty demo_state) (wrap 0) [] [] [] None) as Ep.
  { vm_compute in Es. injection Es as <-. vm_compute. reflexivity. }
  split; [subst p' p; vm_compute; reflexivity|]. split; [subst p' p; vm_compute; reflexivity|]. split; [exact Hu|].
  apply He. repeat constructor.
Defined.

(** A renewed certificate is adopted on the next connection: the identity it is made
    with carries the certificate then in the state directory. *)
Lemma renewed_certificate_adopted `{Crypto, Prost, UuidLib, Pki} debug_str hash stable_seed backstop p t cert id :
  tn_renewed t = Some cert ->
  pr_used (turn debug_str hash stable_seed backstop p t) = pr_used p ++ [id] -> pem_to_der cert = Some (ai_cert_der id).
Proof.
  intros Hr Hu. unfold turn in Hu.
  assert (pr_used p <> pr_used p ++ [id]) as Hne.
  { intros He%(f_equal length). rewrite length_app in He. simpl in He. lia. }
  destruct (pr_exit p); [done|]. destruct (load_identity _ _); [|done].
  destruct (AgentIdentity_load _ _) as [id'|] eqn:El; [|done]. destruct (after_disconnect _ _ _ _). simpl in Hu.
  apply app_inj_2 in Hu as [_ [= ->]]; [|done].
  apply identity_load_inv in El as [_ (pem & Hp & <-)]. simpl in Hp. rewrite Hr in Hp. simpl in Hp.
  rewrite lookup_insert_eq in Hp. by injection Hp as ->.
Qed.

(** What [check] refuses the running agent refuses: with the same allowlist a dispatched
    shell of that kind and user leaves the connection as it was. *)
Lemma check_predicts_shell `{Crypto, Prost, UuidLib} path read parse backstop c est d penv denial :
  load path read parse = Ok backstop ->
  check path read parse (d_kind d) (d_run_as d) = Ok (CheckRefused denial) -> handle_shell_open backstop c est d penv = c.
Proof.
  intros Hl. unfold check. rewrite Hl. simpl. unfold handle_shell_open. destruct (permits _ _); [done|].
  intros _. by repeat case_match.
Qed.
