(* ===== verification/Coordinator.v ===== *)
(** * The coordinator as one process (osa-coordinator/src/main.rs, service.rs, broker.rs)

    The gRPC service and the bridge, run together as [main] wires them: the bounded
    command channel between them, the result and output channels the service creates and
    the bridge writes to, and the revocation store they share.  Every interleaving of
    operator requests, task steps, commands taken, broker messages and operators reading
    their streams is a list of events.  The theorems say what the coordinator lets out: every
    frame it seals for a host is an audited dispatch, and a revoked host gets no session and
    no certificate but for what had passed its check before: a ClientHello and a renewal wait
    for the revocation store, and other steps may come in between. *)
From S2P Require Import Prelude Proto Concrete Topics Seal Handshake Registries Session Ca Broker Policy AuditLog Service ShellStream.

Definition BRIDGE_COMMAND_QUEUE : nat := 256.
Definition EXEC_EVENT_QUEUE : nat := 256.

(** [co_taken]: how many of the service's commands the bridge has received.  [co_hello]: the
    bridge is in a ClientHello whose revocation check has been answered, from the store as it
    was then.  [co_renewing] and [co_issued]: the renewals that passed their revocation check
    and have no certificate yet, and the certificates renewals were answered with. *)
Record Coordinator (T R L E : Type) := mkCoordinator {
  co_service : Service T R L; co_bridge : Bridge E R; co_taken : nat;
  co_hello : option R; co_renewing : list (HostId * bytes); co_issued : list (HostId * bytes)
}.
Arguments mkCoordinator {T R L E} co_service co_bridge co_taken co_hello co_renewing co_issued.
Arguments co_hello {T R L E} c.
Arguments co_renewing {T R L E} c.
Arguments co_issued {T R L E} c.
Arguments co_service {T R L E} c.
Arguments co_bridge {T R L E} c.
Arguments co_taken {T R L E} c.

(** What can happen: a request or a task of the service moves, the bridge takes the next
    command, the broker delivers a message, the sweep ticks, an upsert finishes, an
    operator reads from or drops its end of a stream; the revocation check of the hello the
    bridge works on is answered (the message that follows is that hello); a renewal passes its
    revocation check, and is issued. *)
Inductive CoEvent :=
| CoService (ev : SvEvent)
| CoTake (e : Env)
| CoMessage (topic : string) (payload : bytes) (e : Env)
| CoSweep (now : Z)
| CoUpsertDone (i : nat)
| CoRead (ch : nat) | CoDrop (ch : nat) | CoReadOutput (ch : nat) | CoDropOutput (ch : nat)
| CoCheck
| CoRenew (current_cert csr : bytes) (now : Z) (e : SvEnv)
| CoIssue (i : nat) (secs : Z).

(** The stores and channels the bridge shares with the service. *)
Definition share {E R} (b : Bridge E R) (rs : gmap nat (Chan HostResult)) (os : gmap nat (Chan StreamFrame)) (rv : R) : Bridge E R :=
  mkBridge (sessions b) (last_seen b) (pending b) (shells b) rs os (published b) (epochs b) rv (upserts b).

(** The bridge with the revocation store as of some time. *)
Definition with_revocations {E R} (b : Bridge E R) (rv : R) : Bridge E R := share b (results b) (outputs b) rv.

(** The events a service step sent, on their channels ([send().await]): [None] while one of
    them waits for room; a receiver that is gone loses the event. *)
Fixpoint send_all (m : gmap nat (Chan HostResult)) (evs : list (nat * HostResult)) : option (gmap nat (Chan HostResult)) :=
  match evs with
  | [] => Some m
  | (ch, r) :: evs =>
      match try_send m ch r with
      | (_, Full) => None
      | (m, _) => send_all m evs
      end
  end.

Section Coordinator.
Context `{Crypto} `{Prost} `{UuidLib} `{X509} {P T R L E : Type}.
Context `{PolicyPort P} `{JoinTokens T} `{Revocations R} `{AuditPort L} `{Epochs E}.
Variable ca : EmbeddedCa.
Variable policy : P.
Variable default_ttl : Z.
Variable has_sink : bool.
Implicit Type c : Coordinator T R L E.

(** Commands sent and not yet taken. *)
Definition co_queue c : list BridgeCommand := drop (co_taken c) (sv_commands (co_service c)).

(** A new fan-out or shell comes with its channel; the numbers are fresh. *)
Definition opens c (ev : SvEvent) : bool :=
  match ev with
  | SvExec i _ _ _ => bool_decide (results (co_bridge c) !! i = None)
  | SvShell i _ _ _ => bool_decide (outputs (co_bridge c) !! i = None)
  | _ => true
  end.
Definition new_results c (s' : Service T R L) (ev : SvEvent) : gmap nat (Chan HostResult) :=
  match ev with
  | SvExec i _ _ _ => match sv_execs s' !! i with
                      | Some _ => new_chan (results (co_bridge c)) i EXEC_EVENT_QUEUE
                      | None => results (co_bridge c)
                      end
  | _ => results (co_bridge c)
  end.
Definition new_outputs c (s' : Service T R L) (ev : SvEvent) : gmap nat (Chan StreamFrame) :=
  match ev with
  | SvShell i _ _ _ => match sv_shells s' !! i with
                       | Some _ => new_chan (outputs (co_bridge c)) i EXEC_EVENT_QUEUE
                       | None => outputs (co_bridge c)
                       end
  | _ => outputs (co_bridge c)
  end.

(** A step of the service.  It waits while the command queue, or the stream it sends to,
    is full. *)
Definition co_service_step c (ev : SvEvent) : Coordinator T R L E :=
  let s := co_service c in
  let s' := service_step ca policy default_ttl s ev in
  let sends := drop (length (sv_commands s)) (sv_commands s') in
  if negb (opens c ev) then c
  else if bool_decide (sends <> []) && bool_decide (BRIDGE_COMMAND_QUEUE <= length (co_queue c))%nat then c
  else match send_all (new_results c s' ev) (drop (length (sv_events s)) (sv_events s')) with
       | None => c
       | Some rs => mkCoordinator s' (share (co_bridge c) rs (new_outputs c s' ev) (sv_revocations s')) (co_taken c) (co_hello c) (co_renewing c) (co_issued c)
       end.

Definition co_bridge_step c (ev : Event) (taken : nat) : Coordinator T R L E :=
  mkCoordinator (co_service c) (bridge_step ca has_sink (co_bridge c) ev) taken (co_hello c) (co_renewing c) (co_issued c).

(** The bridge as its message handler sees it: a hello whose check was answered before goes
    by that answer. *)
Definition co_seen c : Bridge E R :=
  match co_hello c with Some rv => with_revocations (co_bridge c) rv | None => co_bridge c end.
Definition co_message_step c (topic : string) (payload : bytes) (e : Env) : Coordinator T R L E :=
  let b := bridge_step ca has_sink (co_seen c) (EvMessage topic payload e) in
  mkCoordinator (co_service c) (with_revocations b (revocations (co_bridge c))) (co_taken c) None (co_renewing c) (co_issued c).

(** A renewal passes its check, and is issued. *)
Definition co_renew c (current_cert csr : bytes) (now : Z) (e : SvEnv) : Coordinator T R L E :=
  match renew_check ca (co_service c) current_cert csr now e with
  | Ok h => mkCoordinator (co_service c) (co_bridge c) (co_taken c) (co_hello c) (co_renewing c ++ [(h, csr)]) (co_issued c)
  | Err _ => c
  end.
Definition co_issue c (i : nat) (secs : Z) : Coordinator T R L E :=
  match co_renewing c !! i with
  | None => c
  | Some (h, csr) =>
      mkCoordinator (co_service c) (co_bridge c) (co_taken c) (co_hello c) (delete i (co_renewing c))
        (co_issued c ++ match renew_issue ca h csr secs with Ok cert => [(h, cert)] | Err _ => [] end)
  end.

(** While the bridge waits inside a hello, its loop takes nothing else. *)
Definition co_step c (ev : CoEvent) : Coordinator T R L E :=
  match ev with
  | CoService ev => co_service_step c ev
  | CoTake e =>
      match co_hello c, co_queue c with
      | None, cmd :: _ => co_bridge_step c (EvCommand cmd e) (S (co_taken c))
      | _, _ => c
      end
  | CoMessage topic payload e => co_message_step c topic payload e
  | CoSweep now => match co_hello c with None => co_bridge_step c (EvSweep now) (co_taken c) | Some _ => c end
  | CoUpsertDone i => co_bridge_step c (EvUpsertDone i) (co_taken c)
  | CoRead ch => co_bridge_step c (EvReadResults ch) (co_taken c)
  | CoDrop ch => co_bridge_step c (EvDropResults ch) (co_taken c)
  | CoReadOutput ch => co_bridge_step c (EvReadOutput ch) (co_taken c)
  | CoDropOutput ch => co_bridge_step c (EvDropOutput ch) (co_taken c)
  | CoCheck =>
      match co_hello c with
      | None => mkCoordinator (co_service c) (co_bridge c) (co_taken c) (Some (revocations (co_bridge c))) (co_renewing c) (co_issued c)
      | Some _ => c
      end
  | CoRenew cert csr now e => co_renew c cert csr now e
  | CoIssue i secs => co_issue c i secs
  end.

Definition run_coordinator c (evs : list CoEvent) : Coordinator T R L E := foldl co_step c evs.

(** [main]'s wiring: one revocation store for both. *)
Definition co_init (t : T) (rv : R) (l : L) (ep : E) : Coordinator T R L E :=
  mkCoordinator (service_init t rv l) (bridge_init ep rv) 0 None [] [].

(** A restart on a database: the stores are what they were, the rest starts over. *)
Definition co_restart c : Coordinator T R L E :=
  co_init (sv_tokens (co_service c)) (sv_revocations (co_service c)) (sv_audit (co_service c)) (epochs (co_bridge c)).

(** ** What is sealed for a host *)

(** The dispatch a command carries to host [h]. *)
Definition dispatch_to (h : HostId) (cmd : BridgeCommand) : option Dispatch :=
  match cmd with
  | CmdDispatch h' d _ => if decide (h' = h) then Some d else None
  | CmdOpenShell h' stream_id run_as rows cols _ =>
      if decide (h' = h) then Some (mkDispatch stream_id "shell" run_as (encode_msg (mkShellParams rows cols))) else None
  | _ => None
  end.

(** A frame sealed on a session of the host: the session (numbered in the order they
    start), its id and keys, the sequence number, and the dispatch ([None]: the ready
    beacon). *)
Record Frame := mkFrameRec {
  fr_session : nat; fr_sid : string; fr_keys : SessionKeys; fr_seq : u64; fr_dispatch : option Dispatch
}.
Definition fr_payload (f : Frame) : bytes :=
  match fr_dispatch f with Some d => encode_msg d | None => CTRL_SESSION_READY end.
Definition fr_envelope (h : HostId) (f : Frame) : Envelope :=
  seal_envelope (fr_keys f) CoordToAgent (host_str h) (fr_sid f) (fr_seq f) KindControl (fr_payload f).

Definition session_of c (h : HostId) : option Session := by_host (sessions (co_bridge c)) !! h.

(** What one step sealed for [h], read off the host's session before and after: another
    session id is a new session, whose beacon is sealed if the counter moved; a counter
    that moved within a session is the command's dispatch. *)
Definition sealed_step (h : HostId) (n : nat) c (ev : CoEvent) : nat * list Frame :=
  match session_of (co_step c ev) h with
  | None => (n, [])
  | Some s' =>
      match session_of c h with
      | Some s =>
          if decide (cs_sid s = cs_sid s') then
            (n, if decide (cs_send_seq s = cs_send_seq s') then []
                else [mkFrameRec n (cs_sid s) (cs_keys s) (cs_send_seq s)
                        (match ev, co_queue c with CoTake _, cmd :: _ => dispatch_to h cmd | _, _ => None end)])
          else (S n, if decide (cs_send_seq s' = wrap 0) then [] else [mkFrameRec (S n) (cs_sid s') (cs_keys s') (wrap 0) None])
      | None => (S n, if decide (cs_send_seq s' = wrap 0) then [] else [mkFrameRec (S n) (cs_sid s') (cs_keys s') (wrap 0) None])
      end
  end.

Fixpoint sealed_log (h : HostId) (n : nat) c (evs : list CoEvent) : list Frame :=
  match evs with
  | [] => []
  | ev :: evs =>
      let '(n, l) := sealed_step h n c ev in l ++ sealed_log h n (co_step c ev) evs
  end.

(** The payloads sealed on session [n], in order. *)
Definition session_payloads (log : list Frame) (n : nat) : list bytes :=
  fr_payload <$> filter (fun f => fr_session f = n) log.

End Coordinator.

(** ** Lemmas: sessions *)

Section SessionLemmas.
Context `{Crypto} `{Prost} `{UuidLib} `{X509} {E R : Type} `{Epochs E} `{Revocations R}.
Variable ca : EmbeddedCa.
Implicit Type b : Bridge E R.

(** What sealing reads of a session; it is the same in both for every host. *)
Definition downlink (s : Session) : string * SessionKeys * u64 := (cs_sid s, cs_keys s, cs_send_seq s).
Definition same_seq b b' : Prop :=
  forall h, downlink <$> by_host (sessions b') !! h = downlink <$> by_host (sessions b) !! h.

Lemma same_seq_refl b b' : sessions b' = sessions b -> same_seq b b'.
Proof. intros Hs h. by rewrite Hs. Qed.

Lemma same_seq_eq b b1 b2 : same_seq b b1 -> sessions b2 = sessions b1 -> same_seq b b2.
Proof. intros Hb Hs h. rewrite Hs. apply Hb. Qed.

Lemma open_on_session_seq b h env : same_seq b (fst (open_on_session b h env)).
Proof.
  unfold open_on_session. destruct (by_host (sessions b) !! h) as [s|] eqn:Es; [|done].
  destruct (open_uplink s env) as [s' pt] eqn:Eo. intros h'. simpl.
  destruct (decide (h' = h)) as [->|]; [|by rewrite lookup_insert_ne].
  rewrite lookup_insert_eq, Es. simpl. f_equal. unfold open_uplink in Eo. by repeat case_match; simplify_eq.
Qed.

Lemma handle_ctrl_ack_seq b payload : same_seq b (handle_ctrl_ack b payload).
Proof.
  unfold handle_ctrl_ack. repeat (case_match; try by apply same_seq_refl). apply open_on_session_seq.
Qed.

Lemma handle_result_seq b t payload : same_seq b (handle_result b t payload).
Proof.
  unfold handle_result. destruct (uuid_parse t) as [u|]; [|done]. destruct (decode_msg _) as [env|]; [|done].
  pose proof (open_on_session_seq b (mkHostId u) env) as Ho.
  destruct (open_on_session b (mkHostId u) env) as [b' pt]. simpl in Ho.
  repeat (case_match; try done); by eapply same_seq_eq.
Qed.

Lemma decode_inventory_seq b t payload : same_seq b (fst (decode_inventory b t payload)).
Proof.
  unfold decode_inventory. destruct (uuid_parse t) as [u|]; [|done]. destruct (decode_msg _) as [env|]; [|done].
  pose proof (open_on_session_seq b (mkHostId u) env) as Ho.
  destruct (open_on_session b (mkHostId u) env) as [b' pt]. by repeat case_match.
Qed.

(** A message either leaves every downlink, or starts a session of one host. *)
Lemma on_message_seq has_sink b topic payload e :
  let b' := fst (on_message ca has_sink b topic payload e) in
  same_seq b b' \/
  exists t hello v resp q, authenticated_hello ca b t payload e hello v resp /\ q ∈ [wrap 0; wrap 1] /\
    by_host (sessions b') = <[vh_host_id v := mkSession (ch_sid hello) (sr_keys resp) q None]> (by_host (sessions b)).
Proof.
  simpl. unfold on_message. destruct (tenant_from_heartbeat topic); [by left|].
  destruct (tenant_from_hs_up topic) as [t|].
  { pose proof (handle_client_hello_cases ca b t payload e) as Hc.
    destruct (handle_client_hello ca b t payload e) as [b' r].
    destruct Hc as [[Hs ->]|(hello & v & resp & Ha & Hr & (q & Hq & Hs) & _)]; [left; by apply same_seq_refl|].
    right. exists t, hello, v, resp, q. by destruct Hr as [-> | ->]. }
  left. destruct (tenant_from_ctrl_up topic); [apply handle_ctrl_ack_seq|].
  destruct (tenant_from_result_up topic); [apply handle_result_seq|].
  destruct (tenant_from_stream_up topic); [apply same_seq_refl, handle_stream_up_sessions|].
  destruct (tenant_from_inventory_up topic) as [t|]; [|done]. destruct has_sink; [|done].
  pose proof (decode_inventory_seq b t payload) as Hd. destruct (decode_inventory b t payload) as [b' [snap|]]; [|done].
  simpl in *. by case_decide.
Qed.

(** A command seals at most one frame, its dispatch, on the session of its host. *)
Lemma handle_command_session b cmd e h :
  let b' := fst (handle_command b cmd e) in
  by_host (sessions b') !! h = by_host (sessions b) !! h \/
  exists d s, dispatch_to h cmd = Some d /\ by_host (sessions b) !! h = Some s /\
    by_host (sessions b') !! h = Some (fst (seal_downlink s (host_str h) (encode_msg d))).
Proof.
  assert (forall b1 h1 s (d : Dispatch) ok topic sealed, by_host (sessions b1) !! h1 = Some s ->
    let s1 := fst (seal_downlink s (host_str h1) (encode_msg d)) in
    let b2 := fst (publish (put_session b1 h1 s1) ok topic sealed) in
    (h1 <> h -> by_host (sessions b2) !! h = by_host (sessions b1) !! h) /\
    (h1 = h -> by_host (sessions b2) !! h = Some s1)) as Hseal.
  { intros b1 h1 s d ok topic sealed Hs s1 b2. subst b2. rewrite publish_sessions. simpl.
    split; intros Hh; [by rewrite lookup_insert_ne|subst h1; by rewrite lookup_insert_eq]. }
  destruct cmd as [h1 d ch| |h1 sid ra rows cols out|h1 sid data|h1 sid]; cbn [handle_command fst dispatch_to].
  - unfold handle_dispatch. destruct (bool_decide _); [by left|]. case_decide; [by left|].
    destruct (by_host (sessions b) !! h1) as [s|] eqn:Es; [|by left].
    destruct (Hseal b h1 s d (ev_link1 e) (dispatch_down (host_str h1)) (snd (seal_downlink s (host_str h1) (encode_msg d))) Es) as [Hne Heq].
    simpl in Hne, Heq |- *.
    destruct (publish _ _ _ _) as [b2 []]; simpl in *; (destruct (decide (h1 = h)) as [->|]; [right|left; by apply Hne]);
      exists d, s; auto.
  - by left.
  - unfold open_shell. set (d := mkDispatch sid "shell" ra (encode_msg (mkShellParams rows cols))).
    destruct (by_host (sessions b) !! h1) as [s|] eqn:Es; [|by left].
    destruct (Hseal b h1 s d (ev_link1 e) (dispatch_down (host_str h1)) (snd (seal_downlink s (host_str h1) (encode_msg d))) Es) as [Hne Heq].
    simpl in Hne, Heq |- *.
    destruct (publish _ _ _ _) as [b2 []]; simpl in *; (destruct (decide (h1 = h)) as [->|]; [right|left; by apply Hne]);
      exists d, s; auto.
  - left. unfold shell_input. destruct (shells b !! h1) as [rt|]; [|done]. destruct (negb _); [done|].
    destruct (Route_seal_downlink _ _ _) as [rt' sealed]. by destruct (ev_link1 e).
  - left. unfold shell_close. destruct (shells b !! h1) as [rt|]; [|done]. destruct (negb _); [done|].
    unfold close_shell_route. simpl. by rewrite publish_sessions.
Qed.

(** *** What the bridge publishes *)

(** A step from [b] to [b'], on command [o] if any, publishes a ServerHello, the beacon of a session it started, the
    dispatch of a command sealed on its host's session, or a frame of a shell stream. *)
Inductive spoken (o : option BridgeCommand) b b' : string * bytes -> Prop :=
| sp_hello h (sh : ServerHello) : spoken o b b' (hs_down (host_str h), encode_msg sh)
| sp_beacon h sid keys : by_host (sessions b') !! h = Some (mkSession sid keys (wrap 1) None) ->
    (forall a, by_host (sessions b) !! h = Some a -> cs_sid a <> sid) ->
    spoken o b b' (ctrl_down (host_str h), snd (seal_downlink (mkSession sid keys (wrap 0) None) (host_str h) CTRL_SESSION_READY))
| sp_dispatch h cmd d s : o = Some cmd -> dispatch_to h cmd = Some d -> by_host (sessions b) !! h = Some s ->
    by_host (sessions b') !! h = Some (fst (seal_downlink s (host_str h) (encode_msg d))) ->
    spoken o b b' (dispatch_down (host_str h), snd (seal_downlink s (host_str h) (encode_msg d)))
| sp_stream h route frame : spoken o b b' (stream_down (host_str h), snd (Route_seal_downlink route (host_str h) frame)).

Definition speaks o b b' : Prop := exists l, published b' = published b ++ l /\ Forall (spoken o b b') l.

Lemma speaks_none o b b' : published b' = published b -> speaks o b b'.
Proof. intros Hp. exists []. by rewrite app_nil_r. Qed.

Lemma speaks_one o b b' tp : published b' = published b ++ [tp] -> spoken o b b' tp -> speaks o b b'.
Proof. intros Hp Ht. exists [tp]. split; [done|]. by constructor. Qed.

Lemma speaks_frame o b b' b1 b1' :
  sessions b1 = sessions b -> published b1 = published b -> sessions b1' = sessions b' -> published b1' = published b' ->
  speaks o b b' -> speaks o b1 b1'.
Proof.
  intros Hs Hp Hs' Hp' (l & Hl & Hf). exists l. split; [congruence|]. eapply Forall_impl; [exact Hf|].
  intros tp []; econstructor; rewrite ?Hs, ?Hs'; eauto.
Qed.

Lemma close_shell_route_speaks o b0 b1 b' route h ok :
  published b1 = published b0 -> published b' = published (close_shell_route b1 route h ok) -> speaks o b0 b'.
Proof.
  unfold close_shell_route. simpl. intros H0' H1'. destruct ok; simpl in H1'; rewrite H0' in H1'; [|by apply speaks_none].
  by eapply speaks_one, (sp_stream _ _ _ h route eof_frame).
Qed.

Lemma handle_command_speaks b cmd e : speaks (Some cmd) b (fst (handle_command b cmd e)).
Proof.
  pose proof (handle_command_session b cmd e) as Hs.
  destruct cmd as [h d ch| |h sid ra rows cols out|h sid data|h sid]; cbn [handle_command fst] in *.
  - specialize (Hs h). revert Hs. unfold handle_dispatch. destruct (bool_decide _); [intros _; by apply speaks_none|].
    case_decide; [intros _; by apply speaks_none|].
    destruct (by_host (sessions b) !! h) as [s|] eqn:Es; [|intros _; by apply speaks_none]. simpl.
    destruct (ev_link1 e); simpl; intros _; [|by apply speaks_none].
    eapply speaks_one; [done|]. apply (sp_dispatch _ _ _ h (CmdDispatch h d ch) d s); simpl;
      rewrite ?decide_True by done; try done. by rewrite lookup_insert_eq.
  - by apply speaks_none.
  - unfold open_shell. destruct (by_host (sessions b) !! h) as [s|] eqn:Es; [|by apply speaks_none]. simpl.
    destruct (ev_link1 e); simpl; [|by apply speaks_none]. eapply speaks_one; [done|].
    apply (sp_dispatch _ _ _ h (CmdOpenShell h sid ra rows cols out) (mkDispatch sid "shell" ra (encode_msg (mkShellParams rows cols))) s); simpl;
      rewrite ?decide_True by done; try done. by rewrite lookup_insert_eq.
  - unfold shell_input. destruct (shells b !! h) as [rt|]; [|by apply speaks_none]. destruct (negb _); [by apply speaks_none|].
    simpl. destruct (ev_link1 e); simpl; [|by apply speaks_none].
    by eapply speaks_one, (sp_stream _ _ _ h rt (mkFrame data false)).
  - unfold shell_close. destruct (shells b !! h) as [rt|]; [|by apply speaks_none]. destruct (negb _); [by apply speaks_none|].
    by eapply close_shell_route_speaks.
Qed.

Lemma handle_client_hello_speaks b b2 t payload e :
  published b2 = published (fst (handle_client_hello ca b t payload e)) ->
  sessions b2 = sessions (fst (handle_client_hello ca b t payload e)) -> speaks None b b2.
Proof.
  unfold handle_client_hello. destruct (check_client_hello _ _ _ _ _) as [[[hello v] resp]|] eqn:Ec; [|by intros ? _; apply speaks_none].
  destruct (epoch_admit _ _ _ _) as [ep [[]|]]; [|by intros ? _; apply speaks_none..].
  unfold SessionStore_insert. cbn [sessions set_epochs]. destruct (_ && _); [by intros ? _; apply speaks_none|].
  destruct (ev_link1 e); simpl; [|by intros ? _; apply speaks_none].
  apply check_client_hello_inv in Ec as (_ & _ & _ & _ & _ & Hne & _).
  set (h := vh_host_id v) in *. set (sh := mkServerHello _ _ _).
  destruct (ev_link2 e); simpl; intros Hp Hs.
  - exists [(hs_down (host_str h), encode_msg sh);
            (ctrl_down (host_str h), snd (seal_downlink (mkSession (ch_sid hello) (sr_keys resp) (wrap 0) None) (host_str h) CTRL_SESSION_READY))].
    split; [by rewrite Hp, <- app_assoc|]. constructor; [constructor|]. constructor; [|constructor].
    apply sp_beacon; [|intros a Ha; by apply Hne]. rewrite Hs. simpl. by rewrite lookup_insert_eq.
  - eapply speaks_one; [done|constructor].
Qed.

Lemma on_message_speaks has_sink b topic payload e   : speaks None b (fst (on_message ca has_sink b topic payload e)).
Proof.
  unfold on_message. destruct (tenant_from_heartbeat topic); [by apply speaks_none|].
  destruct (tenant_from_hs_up topic) as [t|].
  { pose proof (handle_client_hello_speaks b) as Hh. specialize (fun b2 => Hh b2 t payload e).
    destruct (handle_client_hello ca b t payload e) as [b' [h|]]; by apply Hh. }
  assert (forall h env, published (fst (open_on_session b h env)) = published b) as Ho.
  { intros h env. unfold open_on_session. destruct (by_host _ !! h); [|done]. by destruct (open_uplink _ _). }
  destruct (tenant_from_ctrl_up topic).
  { apply speaks_none. unfold handle_ctrl_ack. repeat (case_match; try done). simpl. apply Ho. }
  destruct (tenant_from_result_up topic) as [t|].
  { apply speaks_none. unfold handle_result. simpl. destruct (uuid_parse t) as [u|]; [|done].
    destruct (decode_msg _) as [env|]; [|done]. specialize (Ho (mkHostId u) env).
    destruct (open_on_session b (mkHostId u) env) as [b' pt]. simpl in Ho. by repeat (case_match; simplify_eq/=). }
  destruct (tenant_from_stream_up topic) as [t|].
  { unfold handle_stream_up. simpl. destruct (uuid_parse t) as [u|]; [|by apply speaks_none].
    destruct (shells b !! _) as [rt|]; [|by apply speaks_none]. destruct (decode_msg _) as [env|]; [|by apply speaks_none].
    destruct (Route_open_uplink rt env) as [rt' [f|]]; [|by apply speaks_none].
    destruct (try_send _ _ _) as [m []]; [destruct (sf_eof f)| |]; try by apply speaks_none.
    all: eapply close_shell_route_speaks; [|done]; done. }
  destruct (tenant_from_inventory_up topic) as [t|]; [|by apply speaks_none]. destruct has_sink; [|by apply speaks_none].
  assert (published (fst (decode_inventory b t payload)) = published b) as Hd.
  { unfold decode_inventory. destruct (uuid_parse t) as [u|]; [|done]. destruct (decode_msg _) as [env|]; [|done].
    specialize (Ho (mkHostId u) env). destruct (open_on_session b (mkHostId u) env) as [b' pt]. by repeat case_match. }
  apply speaks_none. destruct (decode_inventory b t payload) as [b' [snap|]]; simpl in *; [|done]. by case_decide.
Qed.

End SessionLemmas.

(** ** Lemmas: one step *)

Section StepLemmas.
Context `{Crypto} `{Prost} `{UuidLib} `{X509} {P T R L E : Type}.
Context `{PolicyPort P} `{JoinTokens T} `{Revocations R} `{AuditPort L} `{Epochs E}.
Context (ca : EmbeddedCa) (policy : P) (default_ttl : Z) (has_sink : bool).
Implicit Type c : Coordinator T R L E.
Notation step := (co_step ca policy default_ttl has_sink).
Notation run := (run_coordinator ca policy default_ttl has_sink).

Lemma co_service_step_bridge c ev :
  exists rs os rv, co_bridge (co_service_step ca policy default_ttl c ev) = share (co_bridge c) rs os rv.
Proof.
  assert (exists rs os rv, co_bridge c = share (co_bridge c) rs os rv) as Hsame.
  { exists (results (co_bridge c)), (outputs (co_bridge c)), (revocations (co_bridge c)). by destruct (co_bridge c). }
  unfold co_service_step. destruct (negb _); [done|]. destruct (_ && _); [done|].
  destruct (send_all _ _); [|done]. simpl. eauto.
Qed.

(** The bridge a hello sees differs only in the revocations. *)
Lemma co_seen_share c : exists rv, co_seen c = with_revocations (co_bridge c) rv.
Proof. unfold co_seen. destruct (co_hello c) as [rv|]; [by exists rv|]. exists (revocations (co_bridge c)). by destruct (co_bridge c). Qed.
Lemma co_seen_sessions c : sessions (co_seen c) = sessions (co_bridge c).
Proof. by destruct (co_seen_share c) as [rv ->]. Qed.
Lemma co_seen_published c : published (co_seen c) = published (co_bridge c).
Proof. by destruct (co_seen_share c) as [rv ->]. Qed.

(** Renewals leave the bridge and the service alone. *)
Lemma co_renew_frame c cert csr now e :
  let c' := co_renew ca c cert csr now e in co_service c' = co_service c /\ co_bridge c' = co_bridge c /\ co_taken c' = co_taken c /\ co_hello c' = co_hello c.
Proof. unfold co_renew. simpl. by destruct (renew_check _ _ _ _ _ _). Qed.
Lemma co_issue_frame c i secs :
  let c' := co_issue ca c i secs in co_service c' = co_service c /\ co_bridge c' = co_bridge c /\ co_taken c' = co_taken c /\ co_hello c' = co_hello c.
Proof. unfold co_issue. simpl. by destruct (co_renewing c !! i) as [[h csr]|]. Qed.

(** What a step does to the session of a host. *)
Inductive session_step (h : HostId) c (ev : CoEvent) : option Session -> option Session -> Prop :=
| ss_same s s' : downlink <$> s' = downlink <$> s -> session_step h c ev s s'
| ss_seal e cmd q d s : ev = CoTake e -> co_hello c = None -> co_queue c = cmd :: q -> dispatch_to h cmd = Some d ->
    session_step h c ev (Some s) (Some (fst (seal_downlink s (host_str h) (encode_msg d))))
| ss_start topic payload e t hello v resp q s : ev = CoMessage topic payload e ->
    authenticated_hello ca (co_seen c) t payload e hello v resp -> vh_host_id v = h -> q ∈ [wrap 0; wrap 1] ->
    (forall a, s = Some a -> cs_sid a <> ch_sid hello) ->
    session_step h c ev s (Some (mkSession (ch_sid hello) (sr_keys resp) q None)).

Lemma co_step_session h c ev : session_step h c ev (session_of c h) (session_of (step c ev) h).
Proof.
  destruct ev as [ev|e|topic payload e|now|i|ch|ch|ch|ch| |cert csr now e|i secs]; simpl;
    try (apply ss_same; unfold session_of; simpl; reflexivity).
  - apply ss_same. unfold session_of. destruct (co_service_step_bridge c ev) as (rs & os & rv & ->). done.
  - destruct (co_hello c) eqn:Eh; [by apply ss_same|].
    destruct (co_queue c) as [|cmd q] eqn:Eq; [by apply ss_same|]. unfold session_of. simpl.
    destruct (handle_command_session (co_bridge c) cmd e h) as [->|(d & s & Hd & -> & ->)]; [by apply ss_same|].
    by eapply ss_seal.
  - unfold session_of. simpl. rewrite <- co_seen_sessions.
    destruct (on_message_seq ca has_sink (co_seen c) topic payload e) as [Hs|(t & hello & v & resp & q & Ha & Hq & ->)];
      [apply ss_same, Hs|].
    destruct (decide (vh_host_id v = h)) as [<-|]; [|rewrite lookup_insert_ne by done; by apply ss_same].
    rewrite lookup_insert_eq. eapply ss_start; try done.
    destruct Ha as [Hc _]. apply check_client_hello_inv in Hc. naive_solver.
  - destruct (co_hello c); by apply ss_same.
  - destruct (co_hello c); by apply ss_same.
  - unfold session_of. destruct (co_renew_frame c cert csr now e) as (_ & -> & _). by apply ss_same.
  - unfold session_of. destruct (co_issue_frame c i secs) as (_ & -> & _). by apply ss_same.
Qed.

Lemma seq_moves (q : u64) : q <> wrapping_add q 1.
Proof.
  intros Hq%(f_equal bval). pose proof (bint_range q). unfold wrapping_add in Hq. rewrite wrap_val in Hq.
  destruct (decide (bval q + 1 < 2 ^ 64)); [rewrite wrapZ_id in Hq; lia|].
  replace (bval q + 1) with (2 ^ 64) in Hq by lia. change (wrapZ 0 (2 ^ 64) (2 ^ 64)) with 0 in Hq. lia.
Qed.

Definition started (n : nat) (s : Session) : list Frame :=
  if decide (cs_send_seq s = wrap 0) then [] else [mkFrameRec (S n) (cs_sid s) (cs_keys s) (wrap 0) None].

(** ... and so what it seals for that host. *)
Lemma sealed_step_spec h n c ev :
  let s := session_of c h in let s' := session_of (step c ev) h in
  (downlink <$> s' = downlink <$> s /\ sealed_step ca policy default_ttl has_sink h n c ev = (n, [])) \/
  (exists e cmd q d a, ev = CoTake e /\ co_hello c = None /\ co_queue c = cmd :: q /\ dispatch_to h cmd = Some d /\ s = Some a /\
     s' = Some (fst (seal_downlink a (host_str h) (encode_msg d))) /\
     sealed_step ca policy default_ttl has_sink h n c ev = (n, [mkFrameRec n (cs_sid a) (cs_keys a) (cs_send_seq a) (Some d)])) \/
  (exists topic payload e t hello v resp q, ev = CoMessage topic payload e /\
     authenticated_hello ca (co_seen c) t payload e hello v resp /\ vh_host_id v = h /\ q ∈ [wrap 0; wrap 1] /\
     let a := mkSession (ch_sid hello) (sr_keys resp) q None in
     s' = Some a /\ sealed_step ca policy default_ttl has_sink h n c ev = (S n, started n a)).
Proof.
  intros s s'. unfold sealed_step. fold s s'. pose proof (co_step_session h c ev) as Hst. fold s s' in Hst.
  destruct Hst as [s s' Hd|e cmd q d a -> Hh Hq Hd|topic payload e t hello v resp q s -> Ha Hv Hq Hne].
  - left. split; [done|]. destruct s' as [a'|], s as [a|]; try done. simpl in Hd. injection Hd as H1' H2' H3'.
    rewrite decide_True by done. by rewrite decide_True.
  - right; left. exists e, cmd, q, d, a. do 6 (split; [done|]). simpl. rewrite decide_True by done.
    rewrite decide_False by apply seq_moves. by rewrite Hq, Hd.
  - right; right. exists topic, payload, e, t, hello, v, resp, q. do 5 (split; [done|]).
    destruct s as [a|]; [|done]. rewrite decide_False by by apply Hne. done.
Qed.

(** ** Lemmas: runs *)

(** The service component is a run of the service. *)
Lemma co_step_service c ev :
  co_service (step c ev) = co_service c \/
  exists sv, ev = CoService sv /\ co_service (step c ev) = service_step ca policy default_ttl (co_service c) sv.
Proof.
  destruct ev as [ev|e|topic payload e|now|i|ch|ch|ch|ch| |cert csr now e|i secs]; simpl; try by left.
  - unfold co_service_step. destruct (negb _); [by left|]. destruct (_ && _); [by left|].
    destruct (send_all _ _); [|by left]. right. eauto.
  - destruct (co_hello c), (co_queue c); by left.
  - destruct (co_hello c); by left.
  - destruct (co_hello c); by left.
  - left. apply co_renew_frame.
  - left. apply co_issue_frame.
Qed.

Lemma run_coordinator_service c evs :
  exists svs, co_service (run c evs) = run_service ca policy default_ttl (co_service c) svs.
Proof.
  revert c. induction evs as [|ev evs IH]; intros c; [by exists []|].
  destruct (IH (step c ev)) as [svs Hs]. destruct (co_step_service c ev) as [He|(sv & _ & He)].
  - exists svs. simpl. by rewrite <- He.
  - exists (sv :: svs). simpl. by rewrite <- He.
Qed.

(** Authorizing only writes to the log. *)
Lemma authorize_frame (s : Service T R L) sub a e :
  exists l, fst (authorize_and_audit policy s sub a e) = set_audit s l.
Proof.
  unfold authorize_and_audit. assert (exists l, s = set_audit s l) as Hs by (exists (sv_audit s); by destruct s).
  repeat case_match; simpl; eauto.
Qed.

(** A step of the service sends at most one command, and touches the revocations only by
    revoking. *)
Lemma service_step_frame (s : Service T R L) ev :
  let s' := service_step ca policy default_ttl s ev in
  (exists l, sv_commands s' = sv_commands s ++ l /\ (length l <= 1)%nat) /\
  (sv_revocations s' = sv_revocations s \/ exists f h now, sv_revocations s' = fst (revoke (sv_revocations s) f h now)).
Proof.
  assert (forall s' : Service T R L, sv_revocations s' = sv_revocations s -> (exists l, sv_commands s' = sv_commands s ++ l /\ (length l <= 1)%nat) ->
    (exists l, sv_commands s' = sv_commands s ++ l /\ (length l <= 1)%nat) /\
    (sv_revocations s' = sv_revocations s \/ exists f h now, sv_revocations s' = fst (revoke (sv_revocations s) f h now))) as Hgoal by auto.
  assert (exists l, sv_commands s = sv_commands s ++ l /\ (length l <= 1)%nat) as Hsame by (exists []; rewrite app_nil_r; auto).
  destruct ev as [i bound req e|i e|i bound first e|i msg e|bound req e|ttl e|h e|token csr e re]; cbn [service_step].
  - apply Hgoal; (destruct (sv_execs s !! i); [done|]); unfold exec, bridge_send;
      repeat (case_match; simplify_eq/=); try done; eauto.
  - unfold exec_step. destruct (sv_execs s !! i) as [t|]; [|by apply Hgoal].
    destruct (et_allowed t) as [h|]; [unfold bridge_send; destruct (se_bridge e); apply Hgoal; simpl; eauto|].
    destruct (et_hosts t) as [|h hs]; [by apply Hgoal|].
    set (ac := mkAction _ _ _ _). destruct (authorize_frame s (et_subject t) ac e) as [l Hl].
    destruct (authorize_and_audit _ _ _ _ _) as [s1 [[]|]]; simpl in Hl; subst s1; by apply Hgoal.
  - destruct (sv_shells s !! i); [by apply Hgoal|]. unfold shell. destruct first as [[o|d|b]|]; try by apply Hgoal.
    unfold authorize_shell_open. destruct (uuid_parse _); [|by apply Hgoal].
    set (ac := mkAction _ _ _ _). destruct (authorize_frame s (operator_of bound) ac e) as [l Hl].
    destruct (authorize_and_audit _ _ _ _ _) as [s1 [[]|]]; simpl in Hl; subst s1; by apply Hgoal.
  - apply Hgoal; unfold shell_step, bridge_send; repeat (case_match; simplify_eq/=); try done; eauto.
  - unfold dispatch. destruct (dr_action req) as [ac|]; [|by apply Hgoal]. destruct (is_empty _); [by apply Hgoal|].
    destruct (authorize_frame s (operator_of bound) ac e) as [l Hl].
    destruct (authorize_and_audit _ _ _ _ _) as [s1 [[]|]]; simpl in Hl; subst s1; by apply Hgoal.
  - unfold mint_token. repeat case_match; by apply Hgoal.
  - unfold revoke_host. destruct (uuid_parse h) as [u|]; [|by apply Hgoal].
    destruct (revoke _ _ _ _) as [r x] eqn:Er. split; [by destruct x|]. right.
    exists (se_revocations e), (mkHostId u), (se_now e). rewrite Er. by destruct x.
  - unfold enroll. repeat case_match; by apply Hgoal.
Qed.

Lemma run_commands_prefix c evs : sv_commands (co_service c) `prefix_of` sv_commands (co_service (run c evs)).
Proof.
  revert c. induction evs as [|ev evs IH]; intros c; [done|]. etrans; [|apply IH].
  destruct (co_step_service c ev) as [->|(sv & _ & ->)]; [done|].
  destruct (service_step_frame (co_service c) sv) as [(l & -> & _) _]. by apply prefix_app_r.
Qed.

(** The dispatches sealed for a host are, in order, among those of the commands. *)
Lemma sealed_log_commands h n c evs :
  sublist (omap fr_dispatch (sealed_log ca policy default_ttl has_sink h n c evs))
    (omap (dispatch_to h) (drop (co_taken c) (sv_commands (co_service (run c evs))))).
Proof.
  revert n c. induction evs as [|ev evs IH]; intros n c; [apply sublist_nil_l|]. cbn [sealed_log].
  pose proof (run_commands_prefix c (ev :: evs)) as [l Hl].
  set (final := sv_commands (co_service (run c (ev :: evs)))) in *.
  change (run c (ev :: evs)) with (run (step c ev) evs) in *.
  assert (forall n', sublist (omap fr_dispatch (sealed_log ca policy default_ttl has_sink h n' (step c ev) evs))
    (omap (dispatch_to h) (drop (co_taken c) final))) as Hrest.
  { intros n'. etrans; [apply IH|]. apply sublist_omap.
    assert (co_taken (step c ev) = co_taken c \/ co_taken (step c ev) = S (co_taken c)) as [-> | ->]; [|done|].
    - destruct ev as [ev|e|topic payload e|now|i|ch|ch|ch|ch| |cert csr now e|i secs]; simpl; auto.
      + left. unfold co_service_step. by repeat case_match.
      + destruct (co_hello c), (co_queue c); auto.
      + destruct (co_hello c); auto.
      + destruct (co_hello c); auto.
      + left. apply co_renew_frame.
      + left. apply co_issue_frame.
    - rewrite <- Nat.add_1_r, <- drop_drop. apply sublist_drop. }
  destruct (sealed_step_spec h n c ev) as [[_ ->]|[(e & cmd & q & d & a & -> & Hh & Hq & Hd & _ & _ & ->)|
    (topic & payload & e & t & hello & v & resp & q & -> & _ & _ & _ & _ & ->)]].
  - apply Hrest.
  - specialize (IH n (step c (CoTake e))).
    assert (co_taken (step c (CoTake e)) = S (co_taken c)) as Ht by (simpl; by rewrite Hh, Hq).
    rewrite Ht in IH. unfold co_queue in Hq.
    assert (drop (co_taken c) final = cmd :: drop (S (co_taken c)) final) as ->.
    { apply drop_S. rewrite Hl. apply lookup_app_l_Some.
      rewrite <- (Nat.add_0_r (co_taken c)), <- lookup_drop. by rewrite Hq. }
    cbn [omap list_omap app fr_dispatch]. rewrite Hd. apply sublist_skip. exact IH.
  - unfold started. destruct (decide _); simpl; apply Hrest.
Qed.

(** *** Sequence numbers *)

Lemma wrap_shift (a b : Z) : (wrap a : u64) = wrap b -> (wrap (a + 1) : u64) = wrap (b + 1).
Proof.
  intros Hab%(f_equal bval). rewrite !wrap_val in Hab. unfold wrapZ in Hab. apply bint_eq. rewrite !wrap_val. unfold wrapZ.
  rewrite !Z.sub_0_r, !Z.add_0_l in *. by rewrite <- (Z.add_mod_idemp_l a), Hab, Z.add_mod_idemp_l.
Qed.

Lemma envelopes_from_wrap keys dir kind host sid a b ps :
  (wrap a : u64) = wrap b -> envelopes_from keys dir kind host sid a ps = envelopes_from keys dir kind host sid b ps.
Proof.
  revert a b. induction ps as [|p ps IH]; intros a b Hab; [done|]. simpl. rewrite Hab. f_equal. by apply IH, wrap_shift.
Qed.

Lemma wrap_bval (q : u64) : wrap (bval q) = q.
Proof. apply bint_eq. pose proof (bint_range q). by rewrite wrap_small by lia. Qed.

Definition frames_on (n : nat) (log : list Frame) : list Frame := filter (fun f => fr_session f = n) log.

(** Frames with consecutive numbers from [q] on one session. *)
Definition consecutive (h : HostId) (keys : SessionKeys) (sid : string) (q : Z) (l : list Frame) : Prop :=
  fr_envelope h <$> l = envelopes_from keys CoordToAgent KindControl (host_str h) sid q (fr_payload <$> l).

Lemma consecutive_cons h keys sid q n d l :
  consecutive h keys sid (bval (wrapping_add q 1)) l ->
  consecutive h keys sid (bval q) (mkFrameRec n sid keys q d :: l).
Proof.
  unfold consecutive. intros Hl. rewrite !fmap_cons, Hl. cbn [envelopes_from]. rewrite wrap_bval. f_equal.
  apply envelopes_from_wrap. unfold wrapping_add. by rewrite wrap_bval.
Qed.

Lemma frames_on_app n l l' : frames_on n (l ++ l') = frames_on n l ++ frames_on n l'.
Proof. apply filter_app. Qed.

Lemma frames_on_ne n f : fr_session f <> n -> frames_on n [f] = [].
Proof. intros Hn. unfold frames_on. by rewrite filter_cons_False. Qed.

Lemma sealed_log_frames h n c evs :
  let log := sealed_log ca policy default_ttl has_sink h n c evs in
  (forall m, (m < n)%nat -> frames_on m log = []) /\
  match session_of c h with
  | Some a => consecutive h (cs_keys a) (cs_sid a) (bval (cs_send_seq a)) (frames_on n log)
  | None => frames_on n log = []
  end /\
  (forall m, (n < m)%nat -> exists keys sid, consecutive h keys sid 0 (frames_on m log)).
Proof.
  revert n c. induction evs as [|ev evs IH]; intros n c.
  { simpl. split; [done|]. split; [by destruct (session_of c h)|]. intros m _. by exists (mkKeys [] []), EmptyString. }
  cbn [sealed_log]. destruct (sealed_step_spec h n c ev) as [[Hd ->]|[(e & cmd & q & d & a & _ & _ & _ & _ & Hs & Hs' & ->)|
    (topic & payload & e & t & hello & v & resp & q & _ & _ & _ & Hq & Hs' & ->)]].
  - specialize (IH n (step c ev)) as (IH1 & IH2 & IH3). split; [done|]. split; [|done]. simpl.
    destruct (session_of (step c ev) h) as [a'|], (session_of c h) as [a|]; try done.
    simpl in Hd. injection Hd as Ha1 Ha2 Ha3. by rewrite <- Ha1, <- Ha2, <- Ha3.
  - specialize (IH n (step c ev)) as (IH1 & IH2 & IH3). rewrite Hs' in IH2. rewrite Hs. simpl in IH2. split; [|split].
    + intros m Hm. rewrite frames_on_app, frames_on_ne by (simpl; lia). by apply IH1.
    + rewrite frames_on_app. unfold frames_on at 1. rewrite filter_cons_True by done. by apply consecutive_cons.
    + intros m Hm. rewrite frames_on_app, frames_on_ne by (simpl; lia). by apply IH3.
  - specialize (IH (S n) (step c ev)) as (IH1 & IH2 & IH3). rewrite Hs' in IH2. simpl in IH2.
    set (a := mkSession _ _ _ _) in *.
    assert (forall m, m <> S n -> frames_on m (started n a) = []) as Hst.
    { intros m Hm. unfold started. destruct (decide _); [done|]. by apply frames_on_ne. }
    split; [|split].
    + intros m Hm. rewrite frames_on_app, Hst by lia. apply IH1. lia.
    + assert (frames_on n (started n a ++ sealed_log ca policy default_ttl has_sink h (S n) (step c ev) evs) = []) as ->.
      { rewrite frames_on_app, Hst by lia. apply IH1. lia. }
      by destruct (session_of c h).
    + intros m Hm. rewrite frames_on_app. destruct (decide (m = S n)) as [->|].
      2: { rewrite Hst by done. apply IH3. lia. }
      exists (cs_keys a), (cs_sid a). unfold started. apply elem_of_cons in Hq as [Hq|Hq%list_elem_of_singleton]; subst q.
      * rewrite decide_True by done. exact IH2.
      * rewrite decide_False by done. unfold frames_on at 1. rewrite filter_cons_True by done.
        by apply (consecutive_cons h (cs_keys a) (cs_sid a) (wrap 0)).
Qed.

(** *** What the coordinator publishes *)

(** What the network may see: a ServerHello, a frame of a shell stream, or a frame of the
    sealed log of some host. *)
Inductive heard (log : HostId -> list Frame) : string * bytes -> Prop :=
| hd_hello h (sh : ServerHello) : heard log (hs_down (host_str h), encode_msg sh)
| hd_frame h f topic : f ∈ log h -> topic ∈ [ctrl_down (host_str h); dispatch_down (host_str h)] ->
    heard log (topic, encode_msg (fr_envelope h f))
| hd_stream h route frame : heard log (stream_down (host_str h), snd (Route_seal_downlink route (host_str h) frame)).

Lemma heard_mono (log log' : HostId -> list Frame) tp : (forall h f, f ∈ log h -> f ∈ log' h) -> heard log tp -> heard log' tp.
Proof. intros Hl []; econstructor; eauto. Qed.

Lemma co_step_published c ev (n : HostId -> nat) :
  exists l, published (co_bridge (step c ev)) = published (co_bridge c) ++ l /\
    Forall (heard (fun h => snd (sealed_step ca policy default_ttl has_sink h (n h) c ev))) l.
Proof.
  assert (exists o, speaks o (co_bridge c) (co_bridge (step c ev)) /\
    forall cmd, o = Some cmd -> exists e q, ev = CoTake e /\ co_queue c = cmd :: q) as (o & (l & Hp & Hl) & Ho).
  { destruct ev as [ev|e|topic payload e|now|i|ch|ch|ch|ch| |cert csr now e|i secs]; simpl;
      try (exists None; split; [by apply speaks_none|done]).
    - exists None. destruct (co_service_step_bridge c ev) as (rs & os & rv & ->). split; [by apply speaks_none|done].
    - destruct (co_hello c); [exists None; split; [by apply speaks_none|done]|].
      destruct (co_queue c) as [|cmd q]; [exists None; split; [by apply speaks_none|done]|].
      exists (Some cmd). split; [apply handle_command_speaks|]. intros ? [= <-]. eauto.
    - exists None. split; [|done]. apply (speaks_frame None (co_seen c) (fst (on_message ca has_sink (co_seen c) topic payload e))); [symmetry; apply co_seen_sessions|symmetry; apply co_seen_published|done|done|].
      apply on_message_speaks.
    - exists None. split; [|done]. destruct (co_hello c); by apply speaks_none.
    - exists None. split; [|done]. destruct (co_hello c); by apply speaks_none.
    - exists None. split; [|done]. destruct (co_renew_frame c cert csr now e) as (_ & -> & _). by apply speaks_none.
    - exists None. split; [|done]. destruct (co_issue_frame c i secs) as (_ & -> & _). by apply speaks_none. }
  exists l. split; [done|]. eapply Forall_impl; [exact Hl|].
  intros tp [h sh|h sid keys Hs Hne|h cmd d s Hc Hd Hs Hs'|h route frame]; [constructor| | |constructor].
  - change (snd (seal_downlink _ _ _)) with (encode_msg (fr_envelope h (mkFrameRec (S (n h)) sid keys (wrap 0) None))).
    apply hd_frame; [|set_solver]. unfold sealed_step, session_of. rewrite Hs. simpl.
    destruct (by_host (sessions (co_bridge c)) !! h) as [a|]; [rewrite decide_False by by apply Hne|]; simpl; by left.
  - change (snd (seal_downlink _ _ _)) with (encode_msg (fr_envelope h (mkFrameRec (n h) (cs_sid s) (cs_keys s) (cs_send_seq s) (Some d)))).
    apply hd_frame; [|set_solver]. destruct (Ho cmd Hc) as (e & q & -> & Hq).
    unfold sealed_step. unfold session_of at 1. rewrite Hs'. unfold session_of. rewrite Hs. simpl.
    rewrite decide_True by done. rewrite decide_False by apply seq_moves. rewrite Hq, Hd. simpl. by left.
Qed.

(** The numbering of the sessions of every host along a run. *)
Definition session_count (h : HostId) (n : nat) c (ev : CoEvent) : nat := fst (sealed_step ca policy default_ttl has_sink h n c ev).

Lemma run_published c evs (n : HostId -> nat) :
  exists l, published (co_bridge (run c evs)) = published (co_bridge c) ++ l /\
    Forall (heard (fun h => sealed_log ca policy default_ttl has_sink h (n h) c evs)) l.
Proof.
  revert c n. induction evs as [|ev evs IH]; intros c n; [exists []; by rewrite app_nil_r|].
  destruct (co_step_published c ev n) as (l1 & Hp1 & Hl1).
  destruct (IH (step c ev) (fun h => session_count h (n h) c ev)) as (l2 & Hp2 & Hl2).
  exists (l1 ++ l2). change (run c (ev :: evs)) with (run (step c ev) evs). rewrite Hp2, Hp1, <- app_assoc. split; [done|]. cbn [sealed_log].
  apply Forall_app. split; (eapply Forall_impl; [eassumption|]); intros tp; apply heard_mono; intros h f Hf;
    unfold session_count in Hf; destruct (sealed_step _ _ _ _ h (n h) c ev) as [n' l]; simpl in Hf; apply elem_of_app; auto.
Qed.

End StepLemmas.

(** ** Lemmas: grants *)

Definition grant_for (h : HostId) (d : Dispatch) : Grant := (d_kind d, Some (host_uuid h), d_run_as d).

Lemma dispatch_to_needs `{Prost} h cmds : sublist (grant_for h <$> omap (dispatch_to h) cmds) (flat_map needs cmds).
Proof.
  induction cmds as [|cmd cmds IH]; [done|]. cbn [omap list_omap flat_map].
  destruct (dispatch_to h cmd) as [d|] eqn:Ed; [|by apply sublist_inserts_l].
  assert (needs cmd = [grant_for h d]) as ->; [|by apply sublist_skip].
  destruct cmd; simpl in *; try done; destruct (decide _); simplify_eq; done.
Qed.

(** ** Lemmas: revocation *)

Section Revocation.
Context `{Crypto} `{Prost} `{UuidLib} `{X509} {P T R L E : Type}.
Context `{PolicyPort P} `{JoinTokens T} `{RevocationsLaws R} `{AuditPort L} `{Epochs E}.
Context (ca : EmbeddedCa) (policy : P) (default_ttl : Z) (has_sink : bool).
Implicit Type c : Coordinator T R L E.
Notation step := (co_step ca policy default_ttl has_sink).
Notation run := (run_coordinator ca policy default_ttl has_sink).

Lemma bridge_step_revocations (b : Bridge E R) ev : revocations (bridge_step ca has_sink b ev) = revocations b.
Proof.
  assert (forall h env, revocations (fst (open_on_session b h env)) = revocations b) as Ho.
  { intros h env. unfold open_on_session. destruct (by_host _ !! h); [|done]. by destruct (open_uplink _ _). }
  destruct ev as [topic payload e|cmd e|now|i|i cap|i|i|i cap|i|i]; simpl; try done.
  - unfold on_message. destruct (tenant_from_heartbeat topic); [done|].
    destruct (tenant_from_hs_up topic) as [t|].
    { unfold handle_client_hello, publish. repeat (case_match; simplify_eq/=); done. }
    destruct (tenant_from_ctrl_up topic).
    { unfold handle_ctrl_ack. repeat (case_match; try done). simpl. apply Ho. }
    destruct (tenant_from_result_up topic) as [t|].
    { unfold handle_result. simpl. destruct (uuid_parse t) as [u|]; [|done]. destruct (decode_msg _) as [env|]; [|done].
      specialize (Ho (mkHostId u) env). destruct (open_on_session b (mkHostId u) env) as [b' pt]. simpl in Ho.
      by repeat (case_match; simplify_eq/=). }
    destruct (tenant_from_stream_up topic) as [t|].
    { unfold handle_stream_up, close_shell_route, publish. by repeat (case_match; simplify_eq/=). }
    destruct (tenant_from_inventory_up topic) as [t|]; [|done]. destruct has_sink; [|done].
    unfold decode_inventory. destruct (uuid_parse t) as [u|]; [|done]. destruct (decode_msg _) as [env|]; [|done].
    specialize (Ho (mkHostId u) env). destruct (open_on_session b (mkHostId u) env) as [b' pt]. simpl in Ho.
    by repeat (case_match; simplify_eq/=).
  - destruct cmd; simpl; try done; unfold handle_dispatch, open_shell, shell_input, shell_close, close_shell_route, publish;
      by repeat (case_match; simplify_eq/=).
Qed.

Lemma service_step_revocations (s : Service T R L) ev :
  revoked_set (sv_revocations s) ⊆ revoked_set (sv_revocations (service_step ca policy default_ttl s ev)).
Proof.
  destruct (service_step_frame ca policy default_ttl s ev) as [_ [->|(f & h & now & ->)]]; [done|].
  destruct (revoke_grows (sv_revocations s) f h now) as [-> | ->]; set_solver.
Qed.

(** The two components look at one store, which never forgets. *)
Record revoked_inv (h : HostId) c : Prop := {
  ri_shared : revocations (co_bridge c) = sv_revocations (co_service c);
  ri_revoked : h ∈ revoked_set (sv_revocations (co_service c))
}.

Lemma co_step_shared c ev :
  revocations (co_bridge c) = sv_revocations (co_service c) ->
  revocations (co_bridge (step c ev)) = sv_revocations (co_service (step c ev)).
Proof.
  intros Hs. destruct ev as [ev|e|topic payload e|now|i|ch|ch|ch|ch| |cert csr now e|i secs]; simpl; try done.
  - unfold co_service_step. by repeat case_match.
  - destruct (co_hello c); [done|]. destruct (co_queue c); [done|]. simpl. etrans; [apply (bridge_step_revocations _ (EvCommand _ _))|done].
  - by destruct (co_hello c).
  - by destruct (co_hello c).
  - by destruct (co_renew_frame ca c cert csr now e) as (-> & -> & _).
  - by destruct (co_issue_frame ca c i secs) as (-> & -> & _).
Qed.

Lemma run_shared c evs :
  revocations (co_bridge c) = sv_revocations (co_service c) ->
  revocations (co_bridge (run c evs)) = sv_revocations (co_service (run c evs)).
Proof. revert c. induction evs as [|ev evs IH]; intros c Hc; [done|]. apply IH. by apply co_step_shared. Qed.

(** Whether a hello of [h] may still be under way on an answer from before its revocation. *)
Definition allowance (h : HostId) c : nat :=
  match co_hello c with Some rv => if decide (h ∈ revoked_set rv) then 0 else 1 | None => 0 end.

(** How often a run starts or replaces the host's session. *)
Fixpoint restarts (h : HostId) c (evs : list CoEvent) : nat :=
  match evs with
  | [] => 0
  | ev :: evs => (if decide (cs_sid <$> session_of (step c ev) h = cs_sid <$> session_of c h) then 0 else 1) + restarts h (step c ev) evs
  end.

(** The entries of a list of renewals that are for the host. *)
Definition renewals_of (h : HostId) (l : list (HostId * bytes)) : list (HostId * bytes) := filter (fun x => x.1 = h) l.
Definition outstanding (h : HostId) c : nat := length (renewals_of h (co_renewing c)) + length (renewals_of h (co_issued c)).

Lemma revoked_inv_step h c ev : revoked_inv h c -> revoked_inv h (step c ev).
Proof.
  intros [Hs Hr]. split; [by apply co_step_shared|].
  destruct (co_step_service ca policy default_ttl has_sink c ev) as [->|(sv & _ & ->)]; [done|by apply service_step_revocations].
Qed.

Lemma co_step_hello c ev :
  co_hello (step c ev) = co_hello c \/ co_hello (step c ev) = None \/ (ev = CoCheck /\ co_hello (step c ev) = Some (revocations (co_bridge c))).
Proof.
  destruct ev as [ev|e|topic payload e|now|i|ch|ch|ch|ch| |cert csr now e|i secs]; simpl; auto.
  - unfold co_service_step. repeat case_match; auto.
  - destruct (co_hello c) eqn:Eh; [auto|]. destruct (co_queue c); simpl; auto.
  - destruct (co_hello c) eqn:Eh; simpl; auto.
  - destruct (co_hello c) eqn:Eh; simpl; auto.
  - left. apply co_renew_frame.
  - left. apply co_issue_frame.
Qed.

(** The session of a revoked host changes at most by the hello under way. *)
Lemma revoked_step h c ev :
  revoked_inv h c ->
  ((if decide (cs_sid <$> session_of (step c ev) h = cs_sid <$> session_of c h) then 0 else 1) + allowance h (step c ev) <= allowance h c)%nat.
Proof.
  intros [Hs Hr]. assert (allowance h (step c ev) <= allowance h c)%nat as Hle.
  { unfold allowance. destruct (co_step_hello c ev) as [->|[->|[_ ->]]]; [lia|lia|]. rewrite decide_True by (by rewrite Hs). lia. }
  destruct (co_step_session ca policy default_ttl has_sink h c ev)
    as [s s' Hd|e cmd q d a -> Hh Hq Hd|topic payload e t hello v resp q s -> [Hc _] Hv Hq Hne].
  - rewrite decide_True; [done|]. destruct s, s'; try done. simpl in *. by injection Hd as -> _ _.
  - by rewrite decide_True.
  - clear Hle. apply check_client_hello_inv in Hc as (_ & _ & _ & _ & _ & _ & Hno & _). apply is_revoked_exact in Hno. symmetry in Hno.
    bool_to_prop. rewrite Hv in Hno. unfold allowance. cbn [co_step co_message_step co_hello]. unfold co_seen in Hno.
    destruct (co_hello c) as [rv|]; simpl in Hno; [|by rewrite Hs in Hno]. rewrite (decide_False (P := h ∈ revoked_set rv)) by done. case_decide; lia.
Qed.

Lemma revoked_run h c evs :
  revoked_inv h c ->
  revoked_inv h (run c evs) /\ (restarts h c evs + allowance h (run c evs) <= allowance h c)%nat /\
  (allowance h c = 0%nat -> cs_sid <$> session_of (run c evs) h = cs_sid <$> session_of c h).
Proof.
  revert c. induction evs as [|ev evs IH]; intros c Hc; [done|]. pose proof (revoked_step h c ev Hc) as Hs.
  destruct (IH _ (revoked_inv_step h c ev Hc)) as (Hr & Hb & Hsid). change (run c (ev :: evs)) with (run (step c ev) evs). cbn [restarts].
  split; [done|]. split; [lia|]. intros H0'. destruct (decide _) as [Hd|]; [|lia]. etrans; [apply Hsid; lia|done].
Qed.

(** No renewal of a revoked host passes the check any more; one that had passed it is issued
    at most once. *)
Lemma revoked_check h c cert csr now e : revoked_inv h c -> renew_check ca (co_service c) cert csr now e <> Ok h.
Proof.
  intros [_ Hr]. unfold renew_check. destruct (validate_renewal _ _ _ _) as [h'|[]]; try done.
  destruct (is_revoked _ _ _) as [[]|] eqn:Ei; try done. apply is_revoked_exact in Ei. symmetry in Ei. bool_to_prop. congruence.
Qed.

Lemma delete_renewal h l i x : l !! i = Some x -> length (renewals_of h l) = ((if decide (x.1 = h) then 1 else 0) + length (renewals_of h (delete i l)))%nat.
Proof.
  intros Hx. unfold renewals_of. rewrite (delete_take_drop l i), <- (take_drop_middle l i x Hx) at 1. rewrite !filter_app, filter_cons.
  rewrite !length_app. case_decide; simpl; lia.
Qed.

Lemma outstanding_step h c ev : revoked_inv h c -> (outstanding h (step c ev) <= outstanding h c)%nat.
Proof.
  intros Hc. destruct ev as [ev|e|topic payload e|now|i|ch|ch|ch|ch| |cert csr now e|i secs]; simpl; try done.
  - unfold co_service_step. by repeat case_match.
  - by destruct (co_hello c), (co_queue c).
  - by destruct (co_hello c).
  - by destruct (co_hello c).
  - unfold co_renew. destruct (renew_check _ _ _ _ _ _) as [h'|] eqn:Er; [|done]. unfold outstanding. simpl. unfold renewals_of.
    rewrite filter_app, filter_cons_False; [by rewrite app_nil_r|]. simpl. intros ->. by eapply revoked_check.
  - unfold co_issue. destruct (co_renewing c !! i) as [[h' csr]|] eqn:Ei; [|done]. unfold outstanding. simpl.
    rewrite (delete_renewal h _ _ _ Ei). unfold renewals_of. rewrite filter_app, length_app. simpl.
    destruct (renew_issue _ _ _ _); simpl; [|lia]. rewrite filter_cons. simpl. case_decide; simpl; lia.
Qed.

Lemma outstanding_run h c evs : revoked_inv h c -> (outstanding h (run c evs) <= outstanding h c)%nat.
Proof.
  revert c. induction evs as [|ev evs IH]; intros c Hc; [done|]. etrans; [apply (IH (step c ev)), revoked_inv_step, Hc|]. by apply outstanding_step.
Qed.

End Revocation.

(** A coordinator on in-memory adapters, for the witnesses: the demo host says hello, "alice"
    runs a command on it, and the bridge takes what the service sends. *)
Definition demo_co : Coordinator JoinTokenRegistry RevocationRegistry (list AuditEntry) EpochRegistry :=
  co_init (JoinTokenRegistry_new (3600 * 1000000000)) (mkRevocationRegistry ∅) [] (mkEpochRegistry ∅).
(** A second hello of the same host, with a later epoch. *)
Definition demo_hello2 : bytes :=
  match start_handshake demo_id (wrap 6) (wrap 100) (Some (bytes_of "seed-c")) with Ok (_, m) => m | Err _ => [] end.
Definition demo_co_evs : list CoEvent :=
  CoMessage (hs_up (host_str demo_host)) demo_hello demo_env ::
  CoService (SvExec 0 (Some "alice") demo_exec_request demo_sv_env) ::
  (CoService <$> demo_steps) ++ repeat (CoTake demo_env) 3.

(** ** Properties *)

(** C3. The coordinator says to its hosts only what it has audited.  Over every interleaving
    of operators, tasks, broker messages and store failures, everything it has published is a
    ServerHello, a frame of a shell stream, or a frame of the host's sealed log; the frames of
    each session are numbered from zero without gaps under that session's keys; and each
    dispatch in a host's log, over all its sessions, has its own allow record for that
    capability, host and user in the audit log. *)
Theorem coordinator_says_only_audited `{Crypto} `{Prost} `{UuidLaws} `{X509} {P T R L E} `{PolicyPort P} `{JoinTokens T}
    `{Revocations R} `{!AuditPort L} `{!AuditLaws L} `{Epochs E} ca (policy : P) ttl has_sink (t : T) (rv : R) (l : L) (ep : E) evs :
  log_records l = [] ->
  let c0 := co_init t rv l ep in
  let c := run_coordinator ca policy ttl has_sink c0 evs in
  let log h := sealed_log ca policy ttl has_sink h 0 c0 evs in
  Forall (heard log) (published (co_bridge c)) /\
  (forall h n, exists keys sid, consecutive h keys sid 0 (frames_on n (log h))) /\
  (forall h, grant_for h <$> omap fr_dispatch (log h) ⊆+ omap grant_of (log_records (sv_audit (co_service c)))).
Proof.
  intros Hl c0 c log. split; [|split].
  - destruct (run_published ca policy ttl has_sink c0 evs (fun _ => 0%nat)) as (pub & Hp & Hpub). fold c in Hp. by rewrite Hp.
  - intros h [|n]; destruct (sealed_log_frames ca policy ttl has_sink h 0 c0 evs) as (_ & Hz & Hn); [|apply Hn; lia].
    exists (mkKeys [] []), EmptyString. unfold session_of in Hz. simpl in Hz. unfold log. by rewrite Hz.
  - intros h. destruct (run_coordinator_service ca policy ttl has_sink c0 evs) as [svs Hs]. fold c in Hs.
    etrans; [apply sublist_submseteq, fmap_sublist, (sealed_log_commands ca policy ttl has_sink h 0 c0 evs)|]. fold c. simpl.
    etrans; [apply sublist_submseteq, dispatch_to_needs|]. rewrite drop_0, Hs.
    rewrite <- (app_nil_r (flat_map _ _)).
    apply (audited_commands policy), run_service_audited, service_init_audited; simpl; by rewrite Hl.
Qed.

Lemma coordinator_says_only_audited_witness :
  let log := sealed_log demo_ca demo_policy 0 false demo_host 0 demo_co demo_co_evs in
  let c := run_coordinator demo_ca demo_policy 0 false demo_co demo_co_evs in
  map fst (published (co_bridge c)) = [hs_down (host_str demo_host); ctrl_down (host_str demo_host); dispatch_down (host_str demo_host)] /\
  length log = 2%nat /\ grant_for demo_host <$> omap fr_dispatch log = [("exec", Some (host_uuid demo_host), "deploy")] /\
  grant_for demo_host <$> omap fr_dispatch log ⊆+ omap grant_of (log_records (sv_audit (co_service c))).
Proof.
  intros log c. split; [vm_compute; reflexivity|]. split; [vm_compute; reflexivity|]. split; [vm_compute; reflexivity|].
  apply (coordinator_says_only_audited demo_ca demo_policy 0 false (JoinTokenRegistry_new (3600 * 1000000000))
    (mkRevocationRegistry ∅) ([] : list AuditEntry) (mkEpochRegistry ∅) demo_co_evs).
  reflexivity.
Defined.

(** C2. A revocation cuts the host off at both doors.  From the step that acknowledges it,
    whatever the operators, the hosts, the broker and the stores do: service and bridge see one
    and the same set, and no renewal of the host passes its check any more.  What had passed a
    check before is the only exception: if the bridge was then inside a ClientHello on an
    earlier answer, the host's session may be started or replaced once, and otherwise never;
    and the certificates the host is issued from then on are at most as many as its renewals
    that were then between check and issuance. *)
Theorem revoked_host_is_cut_off `{Crypto} `{Prost} `{UuidLib} `{X509} {P T R L E} `{PolicyPort P} `{JoinTokens T}
    `{RevocationsLaws R} `{!AuditPort L} `{Epochs E} ca (policy : P) ttl has_sink (t : T) (rv : R) (l : L) (ep : E) evs1 evs2 host e u s1 :
  let c1 := run_coordinator ca policy ttl has_sink (co_init t rv l ep) evs1 in
  revoke_host (co_service c1) host e = (s1, Ok tt) -> uuid_parse host = Some u ->
  let h := mkHostId u in
  let cr := co_step ca policy ttl has_sink c1 (CoService (SvRevoke host e)) in
  let c2 := run_coordinator ca policy ttl has_sink cr evs2 in
  revocations (co_bridge c2) = sv_revocations (co_service c2) /\
  (forall cert csr now e', renew_check ca (co_service c2) cert csr now e' <> Ok h) /\
  (restarts ca policy ttl has_sink h cr evs2 <= match co_hello c1 with Some _ => 1 | None => 0 end)%nat /\
  (co_hello c1 = None -> cs_sid <$> session_of c2 h = cs_sid <$> session_of c1 h) /\
  (length (renewals_of h (co_issued c2)) <= length (renewals_of h (co_issued c1)) + length (renewals_of h (co_renewing c1)))%nat.
Proof.
  intros c1 Hr Hu h cr c2.
  assert (revoked_inv h cr /\ session_of cr h = session_of c1 h /\ co_hello cr = co_hello c1 /\
    co_renewing cr = co_renewing c1 /\ co_issued cr = co_issued c1) as (Hcr & Hs & Hh & Hren & Hiss).
  { unfold cr. simpl. unfold co_service_step. cbn [service_step opens new_results new_outputs negb]. rewrite Hr. cbn [fst].
    unfold revoke_host in Hr. rewrite Hu in Hr.
    destruct (revoke _ _ _ _) as [r [[]|]] eqn:Er; [|done]. injection Hr as <-. apply revoke_ok in Er. simpl.
    rewrite !drop_all. simpl. split; [|done]. split; [done|]. simpl. set_solver. }
  destruct (revoked_run ca policy ttl has_sink h cr evs2 Hcr) as (Hin & Hb & Hsid). fold c2 in Hin, Hb, Hsid.
  pose proof (outstanding_run ca policy ttl has_sink h cr evs2 Hcr) as Ho. fold c2 in Ho. unfold outstanding in Ho. rewrite Hren, Hiss in Ho.
  split; [apply Hin|]. split; [intros cert csr now e'; by apply revoked_check|]. unfold allowance in Hb, Hsid. rewrite Hh in Hb, Hsid.
  split; [|split; [|lia]].
  - destruct (co_hello c1); [case_decide|]; lia.
  - intros Hn. rewrite Hn in Hsid. rewrite <- Hs. by apply Hsid.
Qed.

Lemma revoked_host_is_cut_off_witness :
  let c1 := run_coordinator demo_ca demo_policy 0 false demo_co demo_co_evs in
  let again := CoMessage (hs_up (host_str demo_host)) demo_hello2 demo_env in
  let revoke := CoService (SvRevoke (uuid_to_string (host_uuid demo_host)) demo_sv_env) in
  let renewal := [CoRenew demo_cert demo_csr 2000 demo_sv_env; CoIssue 0 2000] in
  cs_sid <$> session_of (run_coordinator demo_ca demo_policy 0 false c1 [again]) demo_host <> cs_sid <$> session_of c1 demo_host /\
  length (co_issued (run_coordinator demo_ca demo_policy 0 false c1 renewal)) = 1%nat /\
  let c2 := run_coordinator demo_ca demo_policy 0 false (co_step demo_ca demo_policy 0 false c1 revoke) (again :: renewal) in
  cs_sid <$> session_of c2 demo_host = cs_sid <$> session_of c1 demo_host /\ (length (renewals_of demo_host (co_issued c2)) <= 0)%nat.
Proof.
  intros c1 again revoke renewal. split; [vm_compute; discriminate|]. split; [vm_compute; reflexivity|]. intros c2.
  pose (r := revoke_host (co_service c1) (uuid_to_string (host_uuid demo_host)) demo_sv_env).
  assert (snd r = Ok tt) as Hk by (vm_compute; reflexivity).
  assert (r = (fst r, Ok tt)) as Hr by (rewrite <- Hk; apply surjective_pairing).
  assert (uuid_parse (uuid_to_string (host_uuid demo_host)) = Some (host_uuid demo_host)) as Hu by (vm_compute; reflexivity).
  destruct (revoked_host_is_cut_off demo_ca demo_policy 0 false (JoinTokenRegistry_new (3600 * 1000000000))
    (mkRevocationRegistry ∅) ([] : list AuditEntry) (mkEpochRegistry ∅) demo_co_evs (again :: renewal)
    (uuid_to_string (host_uuid demo_host)) demo_sv_env (host_uuid demo_host) (fst r) Hr Hu) as (_ & _ & _ & Hs & Hi).
  assert (co_hello c1 = None) as Hn by (vm_compute; reflexivity).
  assert (length (renewals_of demo_host (co_issued c1)) + length (renewals_of demo_host (co_renewing c1)) = 0)%nat as Hz by (vm_compute; reflexivity).
  split; [exact (Hs Hn)|]. rewrite <- Hz. exact Hi.
Defined.

(** The window the check leaves open: a hello and a renewal of the host that were checked just
    before its revocation still go through, once. *)
Lemma revocation_window :
  let c1 := run_coordinator demo_ca demo_policy 0 false demo_co (demo_co_evs ++ [CoCheck; CoRenew demo_cert demo_csr 2000 demo_sv_env]) in
  let again := CoMessage (hs_up (host_str demo_host)) demo_hello2 demo_env in
  let revoke := CoService (SvRevoke (uuid_to_string (host_uuid demo_host)) demo_sv_env) in
  let c2 := run_coordinator demo_ca demo_policy 0 false c1 [revoke; again; CoIssue 0 2000] in
  cs_sid <$> session_of c2 demo_host <> cs_sid <$> session_of c1 demo_host /\ length (renewals_of demo_host (co_issued c2)) = 1%nat.
Proof. split; [vm_compute; discriminate|vm_compute; reflexivity]. Qed.
