(* ===== verification/Wiring.v ===== *)
(** * The coordinator's channels are always connected

    The well-formedness of the coordinator's state (file Coordinator): every task, command,
    pending job and shell route names a channel that exists, queues stay within their
    capacities, the bridge is never ahead of the service, and both see one revocation store. *)
From S2P Require Import Prelude Proto Concrete Topics Seal Handshake Registries Session Ca Broker Policy AuditLog Service Coordinator.

(** ** The bridge *)

Section Bridge.
Context `{Crypto} `{Prost} `{UuidLib} `{X509} {E R : Type} `{Epochs E} `{Revocations R}.
Variable ca : EmbeddedCa.
Implicit Type b : Bridge E R.

(** The channels a bridge refers to exist. *)
Definition refs_ok b : Prop :=
  map_Forall (fun _ j => pj_events j ∈ dom (results b)) (pending b) /\
  map_Forall (fun _ r => rt_output r ∈ dom (outputs b)) (shells b).

(** [b'] has the channels of [b] and refers to them only. *)
Definition connected b b' : Prop :=
  dom (results b') = dom (results b) /\ dom (outputs b') = dom (outputs b) /\ (refs_ok b -> refs_ok b').

Lemma dom_try_send {A} (m : gmap nat (Chan A)) id x : dom (fst (try_send m id x)) = dom m.
Proof.
  unfold try_send. destruct (m !! id) as [c|] eqn:Em; [|done]. destruct (negb _); [done|]. case_decide; [done|].
  simpl. apply dom_insert_lookup_L. by rewrite Em.
Qed.

Lemma dom_fail_jobs msg l m : dom (fail_jobs msg l m) = dom m.
Proof.
  unfold fail_jobs. revert m. induction l as [|p l IH]; intros m; simpl; [done|]. rewrite IH. apply dom_try_send.
Qed.

Lemma connected_refl b b' :
  results b' = results b -> outputs b' = outputs b -> pending b' = pending b -> shells b' = shells b -> connected b b'.
Proof. intros H1' H2' H3' H4'. unfold connected, refs_ok. by rewrite H1', H2', H3', H4'. Qed.

Lemma connected_trans b1 b2 b3 : connected b1 b2 -> connected b2 b3 -> connected b1 b3.
Proof. intros (R1 & O1 & K1) (R2 & O2 & K2). unfold connected. rewrite R2, O2. auto. Qed.

Lemma connected_send_result b id x : connected b (set_results b (fst (try_send (results b) id x))).
Proof. unfold connected, refs_ok. simpl. by rewrite dom_try_send. Qed.

Lemma connected_send_output b id x : connected b (set_outputs b (fst (try_send (outputs b) id x))).
Proof. unfold connected, refs_ok. simpl. by rewrite dom_try_send. Qed.

Lemma connected_remove_pending b key : connected b (remove_pending b key).
Proof. do 2 (split; [done|]). intros [Hp Hs]. split; [by apply map_Forall_delete|done]. Qed.

Lemma connected_remove_shell b h : connected b (remove_shell b h).
Proof. do 2 (split; [done|]). intros [Hp Hs]. split; [done|by apply map_Forall_delete]. Qed.

Lemma connected_put_route b h r r' :
  shells b !! h = Some r -> rt_output r' = rt_output r -> connected b (set_shells b (<[h := r']> (shells b))).
Proof.
  intros Hr He. do 2 (split; [done|]). intros [Hp Hs]. split; [done|].
  apply map_Forall_insert_2; [|done]. rewrite He. by apply (Hs h).
Qed.

Lemma connected_filter_jobs b P `{!forall x, Decision (P x)} msg l :
  connected b (set_pending (set_results b (fail_jobs msg l (results b))) (filter P (pending b))).
Proof.
  unfold connected, refs_ok. simpl. rewrite dom_fail_jobs. do 2 (split; [done|]). intros [Hp Hs]. split; [|done].
  intros k j Hk. apply map_lookup_filter_Some in Hk as [Hk _]. by apply (Hp k).
Qed.

Lemma connected_publish b ok topic p : connected b (fst (publish b ok topic p)).
Proof. by destruct ok; apply connected_refl. Qed.

Lemma connected_open b h env : connected b (fst (open_on_session b h env)).
Proof.
  unfold open_on_session. destruct (by_host _ !! h); [|by apply connected_refl].
  destruct (open_uplink _ _). by apply connected_refl.
Qed.

Lemma connected_close b route h ok : connected b (close_shell_route b route h ok).
Proof. unfold close_shell_route. simpl. apply connected_publish. Qed.

#[local] Hint Resolve connected_send_result connected_send_output connected_remove_pending connected_remove_shell
  connected_publish connected_open connected_close connected_filter_jobs : connected.
#[local] Hint Extern 1 (connected _ _) => by apply connected_refl : connected.

Lemma connected_result b t payload : connected b (handle_result b t payload).
Proof.
  unfold handle_result. destruct (uuid_parse t) as [u|]; [|auto with connected].
  destruct (decode_msg _) as [env|]; [|auto with connected].
  pose proof (connected_open b (mkHostId u) env) as Ho. destruct (open_on_session b (mkHostId u) env) as [b' [pt|]]; [|done].
  simpl in Ho. destruct (decode_msg _) as [r|]; [|done]. destruct (pending b' !! _) as [job|]; [|done].
  pose proof (connected_send_result b' (pj_events job) (mkHostId u, r)) as Hs.
  destruct (try_send _ _ _) as [m sent]. simpl in Hs.
  eapply connected_trans; [exact Ho|]. destruct sent; [destruct (match jr_body r with Some (BOutcome _) => true | _ => false end)|..];
    try done; (eapply connected_trans; [exact Hs|]); auto with connected.
Qed.

Lemma connected_stream_up b t payload e : connected b (handle_stream_up b t payload e).
Proof.
  unfold handle_stream_up. destruct (uuid_parse t) as [u|]; [|auto with connected].
  destruct (shells b !! _) as [rt|] eqn:Er; [|auto with connected]. destruct (decode_msg _) as [env|]; [|auto with connected].
  destruct (Route_open_uplink rt env) as [rt' f] eqn:Eo.
  assert (connected b (set_shells b (<[mkHostId u := rt']> (shells b)))) as Hput.
  { eapply connected_put_route; [done|]. unfold Route_open_uplink in Eo. by repeat case_match; simplify_eq. }
  destruct f as [f|]; [|done]. set (b1 := set_shells _ _) in *.
  pose proof (connected_send_output b1 (rt_output rt') f) as Hs. destruct (try_send _ _ _) as [m sent]. simpl in Hs.
  assert (connected b (set_outputs b1 m)) as H1' by (by eapply connected_trans).
  assert (connected b (remove_shell (close_shell_route (set_outputs b1 m) rt' (mkHostId u) (ev_link1 e)) (mkHostId u))) as H2'.
  { eapply connected_trans; [exact H1'|]. eapply connected_trans; [apply connected_close|apply connected_remove_shell]. }
  destruct sent; [by destruct (sf_eof f)|done|done].
Qed.

Lemma connected_hello b t payload e : connected b (fst (handle_client_hello ca b t payload e)).
Proof.
  unfold handle_client_hello, publish. repeat (case_match; simplify_eq/=); by apply connected_refl.
Qed.

Lemma connected_message has_sink b topic payload e : connected b (fst (on_message ca has_sink b topic payload e)).
Proof.
  unfold on_message. destruct (tenant_from_heartbeat topic); [auto with connected|].
  destruct (tenant_from_hs_up topic) as [t|].
  { pose proof (connected_hello b t payload e) as Hh. destruct (handle_client_hello ca b t payload e) as [b' [h|]]; [|done].
    simpl in *. eapply connected_trans; [exact Hh|]. eapply connected_trans; [|apply connected_remove_shell].
    apply connected_filter_jobs. }
  destruct (tenant_from_ctrl_up topic).
  { unfold handle_ctrl_ack. repeat (case_match; try (by apply connected_refl)). apply connected_open. }
  destruct (tenant_from_result_up topic); [apply connected_result|].
  destruct (tenant_from_stream_up topic); [apply connected_stream_up|].
  destruct (tenant_from_inventory_up topic) as [t|]; [|auto with connected]. destruct has_sink; [|auto with connected].
  assert (connected b (fst (decode_inventory b t payload))) as Hd.
  { unfold decode_inventory. destruct (uuid_parse t) as [u|]; [|auto with connected]. destruct (decode_msg _) as [env|]; [|auto with connected].
    pose proof (connected_open b (mkHostId u) env) as Ho. destruct (open_on_session b (mkHostId u) env) as [b' pt].
    by repeat case_match. }
  destruct (decode_inventory b t payload) as [b' [snap|]]; [|done]. simpl in *.
  eapply connected_trans; [exact Hd|]. case_decide; by apply connected_refl.
Qed.

(** The channel a command names. *)
Definition cmd_ok b (cmd : BridgeCommand) : Prop :=
  match cmd with
  | CmdDispatch _ _ ch => ch ∈ dom (results b)
  | CmdOpenShell _ _ _ _ _ out => out ∈ dom (outputs b)
  | _ => True
  end.

Lemma connected_command b cmd e : cmd_ok b cmd -> connected b (fst (handle_command b cmd e)).
Proof.
  destruct cmd as [h d ch| |h sid ra rows cols out|h sid data|h sid]; cbn [handle_command fst cmd_ok]; intros Hc.
  - unfold handle_dispatch, report. destruct (bool_decide _); [auto with connected|]. case_decide; [auto with connected|].
    destruct (by_host _ !! h) as [s|]; [|auto with connected]. simpl. destruct (ev_link1 e); simpl.
    + do 2 (split; [done|]). intros [Hp Hs]. split; [|done]. by apply map_Forall_insert_2.
    + eapply (connected_trans _ (put_session b h _)); [by apply connected_refl|apply (connected_send_result (put_session b h _))].
  - auto with connected.
  - unfold open_shell. destruct (by_host _ !! h) as [s|]; [|auto with connected]. simpl. destruct (ev_link1 e); simpl.
    + do 2 (split; [done|]). intros [Hp Hs]. split; [done|]. by apply map_Forall_insert_2.
    + eapply (connected_trans _ (put_session b h _)); [by apply connected_refl|apply (connected_send_output (put_session b h _))].
  - unfold shell_input. destruct (shells b !! h) as [rt|] eqn:Er; [|auto with connected]. destruct (negb _); [auto with connected|].
    destruct (Route_seal_downlink rt (host_str h) (mkFrame data false)) as [rt' sealed] eqn:Es.
    assert (connected b (set_shells b (<[h := rt']> (shells b)))) as Hput.
    { eapply connected_put_route; [done|]. unfold Route_seal_downlink in Es. by simplify_eq. }
    destruct (ev_link1 e); simpl; [by eapply connected_trans; [exact Hput|apply connected_refl]|].
    eapply connected_trans; [exact Hput|apply connected_remove_shell].
  - unfold shell_close. destruct (shells b !! h) as [rt|]; [|auto with connected]. destruct (negb _); [auto with connected|].
    eapply connected_trans; [apply connected_close|apply connected_remove_shell].
Qed.

End Bridge.

(** ** The service *)

(** The channels a service refers to are in [rs] and [os]. *)
Record service_wf {T R L} (rs os : gset nat) (s : Service T R L) : Prop := {
  sw_execs : map_Forall (fun i t => et_events t = i /\ i ∈ rs) (sv_execs s);
  sw_shells : map_Forall (fun i t => i ∈ os /\ match sk_phase t with Authorized _ _ _ o => o = i | Live => True end) (sv_shells s);
  sw_commands : Forall (fun cmd => match cmd with
                                   | CmdDispatch _ _ ch => ch ∈ rs
                                   | CmdOpenShell _ _ _ _ _ out => out ∈ os
                                   | _ => True
                                   end) (sv_commands s)
}.

Lemma service_wf_mono {T R L} (rs rs' os os' : gset nat) (s : Service T R L) :
  rs ⊆ rs' -> os ⊆ os' -> service_wf rs os s -> service_wf rs' os' s.
Proof.
  intros Hr Ho [We Ws Wc]. split.
  - intros i t Hi. destruct (We i t Hi). split; [done|set_solver].
  - intros i t Hi. destruct (Ws i t Hi). split; [set_solver|done].
  - eapply Forall_impl; [exact Wc|]. intros []; set_solver.
Qed.

Section ServiceWf.
Context `{Crypto} `{UuidLib} `{X509} {P T R L : Type} `{PolicyPort P} `{JoinTokens T} `{Revocations R} `{AuditPort L}.
Context (ca : EmbeddedCa) (policy : P) (default_ttl : Z) (rs os : gset nat).
Implicit Type s : Service T R L.

(** A command that names nothing new. *)
Lemma service_wf_send s ok cmd :
  service_wf rs os s ->
  match cmd with CmdDispatch _ _ ch => ch ∈ rs | CmdOpenShell _ _ _ _ _ out => out ∈ os | _ => True end ->
  service_wf rs os (fst (bridge_send s ok cmd)).
Proof. intros [We Ws Wc] Hc. destruct ok; [|by split]. split; simpl; try done. apply Forall_app. split; [done|]. by constructor. Qed.

Lemma service_wf_execs s m :
  service_wf rs os s -> map_Forall (fun i t => et_events t = i /\ i ∈ rs) m -> service_wf rs os (set_execs s m).
Proof. intros [We Ws Wc] Hm. by split. Qed.

Lemma service_wf_shells s m :
  service_wf rs os s ->
  map_Forall (fun i t => i ∈ os /\ match sk_phase t with Authorized _ _ _ o => o = i | Live => True end) m ->
  service_wf rs os (set_sv_shells s m).
Proof. intros [We Ws Wc] Hm. by split. Qed.

Lemma service_wf_frame s s' :
  sv_execs s' = sv_execs s -> sv_shells s' = sv_shells s -> sv_commands s' = sv_commands s -> service_wf rs os s -> service_wf rs os s'.
Proof. intros E1 E2 E3 [We Ws Wc]. split; by rewrite ?E1, ?E2, ?E3. Qed.

Lemma exec_step_wf s i e : service_wf rs os s -> service_wf rs os (exec_step policy s i e).
Proof.
  intros Hs. unfold exec_step. destruct (sv_execs s !! i) as [t|] eqn:Et; [|done].
  destruct (sw_execs _ _ _ Hs i t Et) as [He Hi].
  assert (forall s1 hosts al, service_wf rs os s1 -> service_wf rs os (set_exec s1 i t hosts al)) as Hset.
  { intros s1 hosts al Hs1. apply service_wf_execs; [done|]. apply map_Forall_insert_2; [done|apply Hs1]. }
  destruct (et_allowed t) as [h|].
  - set (cmd := CmdDispatch _ _ _). assert (service_wf rs os (fst (bridge_send s (se_bridge e) cmd))) as Hb
      by (apply service_wf_send; [done|]; simpl; by rewrite He).
    destruct (bridge_send s (se_bridge e) cmd) as [s1 []]; apply Hset; [done|]. by apply (service_wf_frame s1).
  - destruct (et_hosts t) as [|h hs]; [apply service_wf_execs; [done|]; by apply map_Forall_delete, Hs|].
    set (ac := mkAction _ _ _ _). destruct (authorize_frame policy s (et_subject t) ac e) as [l Hl].
    destruct (authorize_and_audit _ _ _ _ _) as [s1 [[]|]]; simpl in Hl; subst s1; apply Hset; by apply (service_wf_frame s).
Qed.

Lemma shell_step_wf s i msg e : service_wf rs os s -> service_wf rs os (shell_step s i msg e).
Proof.
  intros Hs. unfold shell_step. destruct (sv_shells s !! i) as [t|] eqn:Et; [|done].
  destruct (sw_shells _ _ _ Hs i t Et) as [Hi Hp].
  assert (forall s1, service_wf rs os s1 -> service_wf rs os (set_sv_shells s1 (delete i (sv_shells s1)))) as Hdel.
  { intros s1 Hs1. apply service_wf_shells; [done|]. apply map_Forall_delete, Hs1. }
  destruct (sk_phase t) as [ra rows cols out|].
  - set (cmd := CmdOpenShell _ _ _ _ _ _). assert (service_wf rs os (fst (bridge_send s (se_bridge e) cmd))) as Hb
      by (apply service_wf_send; [done|]; simpl; by rewrite Hp).
    destruct (bridge_send s (se_bridge e) cmd) as [s1 []]; [|by apply Hdel].
    apply service_wf_shells; [done|]. apply map_Forall_insert_2; [done|apply Hb].
  - assert (forall s1, service_wf rs os s1 -> sv_shells s1 = sv_shells s -> service_wf rs os
      (set_sv_shells (fst (bridge_send s1 (se_bridge e) (CmdShellClose (sk_host t) (sk_stream_id t)))) (delete i (sv_shells s1)))) as Hclose.
    { intros s1 Hs1 Hsh. apply service_wf_shells; [by apply service_wf_send|]. apply map_Forall_delete, Hs1. }
    destruct msg as [[o|d|b]|]; [done| |by apply Hclose|by apply Hclose].
    pose proof (service_wf_send s (se_bridge e) (CmdShellInput (sk_host t) (sk_stream_id t) d) Hs I) as Hb.
    destruct (bridge_send s (se_bridge e) _) as [s1 []] eqn:Eb; [done|]. apply Hclose; [done|].
    unfold bridge_send in Eb. destruct (se_bridge e); by simplify_eq.
Qed.

(** A request adds the channel of the task it starts, if it starts one. *)
Definition with_task {A} (m : gmap nat A) (i : nat) (x : gset nat) : gset nat :=
  match m !! i with Some _ => {[i]} ∪ x | None => x end.

Lemma exec_wf s i bound req e :
  sv_execs s !! i = None -> service_wf rs os s ->
  let s' := fst (exec s i bound req e) in service_wf (with_task (sv_execs s') i rs) os s'.
Proof.
  intros Hi Hs s'. subst s'. unfold exec, with_task. destruct (dr_action req) as [ac|]; [|simpl; by rewrite Hi].
  destruct (is_empty _); [simpl; by rewrite Hi|]. set (s1 := if bool_decide _ then _ else s).
  assert (service_wf rs os s1 /\ sv_execs s1 = sv_execs s) as [Hs1 He1].
  { unfold s1. destruct (bool_decide _); [|done]. split; [by apply service_wf_send|by destruct (se_bridge e)]. }
  destruct (resolve _ _) as [[|h hs]|]; simpl; rewrite ?He1, ?Hi; try done.
  rewrite lookup_insert_eq. assert (service_wf ({[i]} ∪ rs) os s1) as Hs2 by (eapply service_wf_mono; [..|exact Hs1]; set_solver).
  pose proof (sw_execs _ _ _ Hs2) as We. rewrite He1 in We. destruct Hs2 as [_ Ws Wc]. split; simpl; try done.
  apply map_Forall_insert_2; [split; [done|set_solver]|done].
Qed.

Lemma shell_wf s i bound first e :
  sv_shells s !! i = None -> service_wf rs os s ->
  let s' := fst (shell policy s i bound first e) in service_wf rs (with_task (sv_shells s') i os) s'.
Proof.
  intros Hi Hs s'. subst s'. unfold shell, with_task. destruct first as [[o|d|b]|]; try (simpl; by rewrite Hi). unfold authorize_shell_open.
  destruct (uuid_parse _) as [u|]; [|simpl; by rewrite Hi].
  set (ac := mkAction _ _ _ _). destruct (authorize_frame policy s (operator_of bound) ac e) as [l Hl].
  destruct (authorize_and_audit _ _ _ _ _) as [s1 [[]|]]; simpl in Hl; subst s1; simpl; rewrite ?Hi; try by apply (service_wf_frame s).
  rewrite lookup_insert_eq. assert (service_wf rs ({[i]} ∪ os) s) as [We Ws Wc] by (eapply service_wf_mono; [..|exact Hs]; set_solver).
  split; simpl; try done. apply map_Forall_insert_2; [split; [set_solver|done]|done].
Qed.

(** The channels after a step. *)
Definition rs_after s (ev : SvEvent) : gset nat :=
  match ev with SvExec i _ _ _ => with_task (sv_execs (service_step ca policy default_ttl s ev)) i rs | _ => rs end.
Definition os_after s (ev : SvEvent) : gset nat :=
  match ev with SvShell i _ _ _ => with_task (sv_shells (service_step ca policy default_ttl s ev)) i os | _ => os end.

Lemma service_step_wf s ev :
  service_wf rs os s -> service_wf (rs_after s ev) (os_after s ev) (service_step ca policy default_ttl s ev).
Proof.
  intros Hs. destruct ev as [i bound req e|i e|i bound first e|i msg e|bound req e|ttl e|h e|token csr e re]; cbn [service_step rs_after os_after].
  - destruct (sv_execs s !! i) eqn:Ei; [|by apply exec_wf].
    eapply service_wf_mono; [|done|exact Hs]. unfold with_task. rewrite Ei. set_solver.
  - by apply exec_step_wf.
  - destruct (sv_shells s !! i) eqn:Ei; [|by apply shell_wf].
    eapply service_wf_mono; [done| |exact Hs]. unfold with_task. rewrite Ei. set_solver.
  - by apply shell_step_wf.
  - unfold dispatch. destruct (dr_action req) as [ac|]; [|done]. destruct (is_empty _); [done|].
    destruct (authorize_frame policy s (operator_of bound) ac e) as [l Hl].
    destruct (authorize_and_audit _ _ _ _ _) as [s1 [[]|]]; simpl in Hl; subst s1; by apply (service_wf_frame s).
  - unfold mint_token. repeat case_match; by apply (service_wf_frame s).
  - unfold revoke_host. repeat case_match; by apply (service_wf_frame s).
  - unfold enroll. repeat case_match; by apply (service_wf_frame s).
Qed.

End ServiceWf.

(** ** The coordinator *)

Section CoordinatorWf.
Context `{Crypto} `{Prost} `{UuidLib} `{X509} {P T R L E : Type}.
Context `{PolicyPort P} `{JoinTokens T} `{Revocations R} `{AuditPort L} `{Epochs E}.
Context (ca : EmbeddedCa) (policy : P) (default_ttl : Z) (has_sink : bool).
Implicit Type c : Coordinator T R L E.
Notation step := (co_step ca policy default_ttl has_sink).
Notation run := (run_coordinator ca policy default_ttl has_sink).

Record coordinator_wf c : Prop := {
  wf_service : service_wf (dom (results (co_bridge c))) (dom (outputs (co_bridge c))) (co_service c);
  wf_bridge : refs_ok (co_bridge c);
  wf_bounded : bounded (co_bridge c);
  wf_taken : (co_taken c <= length (sv_commands (co_service c)))%nat;
  wf_queue : (length (co_queue c) <= BRIDGE_COMMAND_QUEUE)%nat;
  wf_shared : revocations (co_bridge c) = sv_revocations (co_service c)
}.

Lemma dom_new_chan {A} (m : gmap nat (Chan A)) i cap : dom (new_chan m i cap) = {[i]} ∪ dom m.
Proof. unfold new_chan. destruct (m !! i) eqn:Em; [|by rewrite dom_insert_L]. apply elem_of_dom_2 in Em. set_solver. Qed.

Lemma send_all_wf m evs m' : send_all m evs = Some m' -> dom m' = dom m /\ (chans_bounded m -> chans_bounded m').
Proof.
  revert m. induction evs as [|[ch r] evs IH]; intros m; simpl; [intros [= <-]; done|].
  pose proof (dom_try_send m ch r) as Hd. pose proof (try_send_bounded m ch r) as Hb.
  destruct (try_send m ch r) as [m1 []]; simpl in *; try done; intros Hs; apply IH in Hs as [-> Hs]; auto.
Qed.

Lemma co_service_step_wf c ev : coordinator_wf c -> coordinator_wf (co_service_step ca policy default_ttl c ev).
Proof.
  intros Hc. unfold co_service_step. destruct (negb _); [done|].
  set (s := co_service c). set (s' := service_step ca policy default_ttl s ev).
  destruct (_ && _) eqn:Eq; [done|]. destruct (send_all _ _) as [rs|] eqn:Es; [|done].
  destruct Hc as [Ws Wb Wd Wt Wq _]. apply send_all_wf in Es as [Hdr Hbr].
  assert (dom rs = rs_after ca policy default_ttl (dom (results (co_bridge c))) s ev) as Hr.
  { rewrite Hdr. destruct ev; try done. cbn [new_results rs_after]. unfold with_task. fold s'.
    by destruct (sv_execs s' !! i); [apply dom_new_chan|]. }
  assert (dom (new_outputs c s' ev) = os_after ca policy default_ttl (dom (outputs (co_bridge c))) s ev) as Ho.
  { destruct ev; try done. cbn [new_outputs os_after]. unfold with_task. fold s'.
    by destruct (sv_shells s' !! i); [apply dom_new_chan|]. }
  assert (dom (results (co_bridge c)) ⊆ dom rs) as Hsr.
  { rewrite Hr. destruct ev; try done. cbn [rs_after]. unfold with_task. destruct (_ !! _); set_solver. }
  assert (dom (outputs (co_bridge c)) ⊆ dom (new_outputs c s' ev)) as Hso.
  { rewrite Ho. destruct ev; try done. cbn [os_after]. unfold with_task. destruct (_ !! _); set_solver. }
  destruct (service_step_frame ca policy default_ttl s ev) as [(l & Hl & Hl1) _]. fold s' in Hl.
  split; simpl.
  - rewrite Hr, Ho. by apply service_step_wf.
  - destruct Wb as [Wp Wr]. split; [intros k j Hk; apply Hsr; by apply (Wp k)|intros k r Hk; apply Hso; by apply (Wr k)].
  - destruct Wd as (B1 & B2 & B3 & B4 & B5 & B6 & B7). unfold bounded. simpl. do 5 (split; [done|]). split.
    + apply Hbr. unfold new_results. destruct ev; try done. destruct (_ !! _); [by apply new_chan_bounded|done].
    + unfold new_outputs. destruct ev; try done. destruct (_ !! _); [by apply new_chan_bounded|done].
  - rewrite Hl, length_app. fold s in Wt. lia.
  - unfold co_queue in *. simpl. fold s in Wt, Wq, Eq. rewrite Hl, drop_app_le, length_app by done.
    rewrite Hl, drop_app_length in Eq.
    apply andb_false_iff in Eq as [Eq|Eq]; bool_to_prop; [|lia].
    destruct l; [simpl; lia|]. destruct Eq. done.
  - done.
Qed.

Lemma co_bridge_step_wf c ev taken :
  coordinator_wf c -> connected (co_bridge c) (bridge_step ca has_sink (co_bridge c) ev) ->
  (taken <= length (sv_commands (co_service c)))%nat -> (co_taken c <= taken)%nat ->
  coordinator_wf (co_bridge_step ca has_sink c ev taken).
Proof.
  intros [Ws Wb Wd Wt Wq Wsh] (Hr & Ho & Hk) Htk Hle. split; simpl.
  - by rewrite Hr, Ho.
  - by apply Hk.
  - by apply bridge_step_bounded.
  - done.
  - unfold co_queue in *. simpl. rewrite length_drop in *. lia.
  - rewrite <- Wsh. apply bridge_step_revocations.
Qed.

(** The revocations are no part of what the invariant says of the bridge but that they are
    the service's. *)
Lemma co_message_step_wf c topic payload e : coordinator_wf c -> coordinator_wf (co_message_step ca has_sink c topic payload e).
Proof.
  intros [Ws Wb Wd Wt Wq Wsh]. destruct (co_seen_share c) as [rv Hseen]. unfold co_message_step. rewrite Hseen.
  set (b0 := with_revocations (co_bridge c) rv). destruct (connected_message ca has_sink b0 topic payload e) as (Hr & Ho & Hk).
  pose proof (bridge_step_bounded ca has_sink b0 (EvMessage topic payload e) Wd) as Hb.
  split; simpl; try done; [by rewrite Hr, Ho|exact (Hk Wb)].
Qed.

(** Renewals change neither component. *)
Lemma coordinator_wf_frame c c' :
  co_service c' = co_service c -> co_bridge c' = co_bridge c -> co_taken c' = co_taken c -> coordinator_wf c -> coordinator_wf c'.
Proof. intros Hs Hb Ht [Ws Wb Wd Wt Wq Wsh]. unfold co_queue in Wq. split; unfold co_queue; rewrite ?Hs, ?Hb, ?Ht; done. Qed.

Lemma co_step_wf c ev : coordinator_wf c -> coordinator_wf (step c ev).
Proof.
  intros Hc. destruct ev as [ev|e|topic payload e|now|i|ch|ch|ch|ch| |cert csr now e|i secs]; cbn [co_step].
  - by apply co_service_step_wf.
  - destruct (co_hello c); [done|]. destruct (co_queue c) as [|cmd q] eqn:Eq; [done|].
    assert (sv_commands (co_service c) !! co_taken c = Some cmd) as Hcmd.
    { rewrite <- (Nat.add_0_r (co_taken c)), <- lookup_drop. unfold co_queue in Eq. by rewrite Eq. }
    apply co_bridge_step_wf; [done| |by apply lookup_lt_Some in Hcmd|lia].
    simpl. apply connected_command. destruct (wf_service _ Hc) as [_ _ Wc].
    rewrite Forall_lookup in Wc. specialize (Wc _ _ Hcmd). by destruct cmd.
  - by apply co_message_step_wf.
  - destruct (co_hello c); [done|]. apply co_bridge_step_wf; [done|apply connected_filter_jobs|apply Hc|lia].
  - apply co_bridge_step_wf; [done|by apply connected_refl|apply Hc|lia].
  - apply co_bridge_step_wf; [done| |apply Hc|lia]. unfold connected, refs_ok. simpl. unfold read_chan. by rewrite dom_alter_L.
  - apply co_bridge_step_wf; [done| |apply Hc|lia]. unfold connected, refs_ok. simpl. unfold drop_chan. by rewrite dom_alter_L.
  - apply co_bridge_step_wf; [done| |apply Hc|lia]. unfold connected, refs_ok. simpl. unfold read_chan. by rewrite dom_alter_L.
  - apply co_bridge_step_wf; [done| |apply Hc|lia]. unfold connected, refs_ok. simpl. unfold drop_chan. by rewrite dom_alter_L.
  - destruct (co_hello c); [done|]. by apply (coordinator_wf_frame c).
  - destruct (co_renew_frame ca c cert csr now e) as (Hs & Hb & Ht & _). by apply (coordinator_wf_frame c).
  - destruct (co_issue_frame ca c i secs) as (Hs & Hb & Ht & _). by apply (coordinator_wf_frame c).
Qed.

Lemma co_init_wf t rv l ep : coordinator_wf (co_init t rv l ep).
Proof.
  split; simpl.
  - split; simpl; [by apply map_Forall_empty|by apply map_Forall_empty|by constructor].
  - split; by apply map_Forall_empty.
  - apply bridge_init_bounded.
  - done.
  - unfold BRIDGE_COMMAND_QUEUE. lia.
  - done.
Qed.

End CoordinatorWf.

(** ** Property *)

(** C15. The coordinator's state is well formed in every run, whatever operators, hosts,
    broker and stores do and in whatever order: every task, queued command, pending job and
    shell route names a channel that exists, of the right type; the bridge never takes a
    command the service did not send; the command queue, the pending jobs, the inventory
    upserts and every stream stay within their capacities; and service and bridge hold one
    revocation store. *)
Theorem coordinator_is_well_formed `{Crypto} `{Prost} `{UuidLib} `{X509} {P T R L E} `{PolicyPort P} `{JoinTokens T}
    `{Revocations R} `{AuditPort L} `{Epochs E} ca (policy : P) ttl has_sink (t : T) (rv : R) (l : L) (ep : E) evs :
  coordinator_wf (run_coordinator ca policy ttl has_sink (co_init t rv l ep) evs).
Proof.
  unfold run_coordinator. generalize (co_init_wf t rv l ep). generalize (co_init t rv l ep).
  induction evs as [|ev evs IH]; intros c Hc; [done|]. by apply IH, co_step_wf.
Qed.
