(* ===== verification/System.v ===== *)
(** * One host and its coordinator, over a hostile network

    The whole path of a command: the coordinator (file Coordinator), the agent's control
    channel and its job runner (files ControlChannel, JobRunner), and between them a broker
    that may drop, delay, duplicate, reorder, redirect and invent messages.  Events of both
    ends interleave freely; the agent reconnects, renews its identity and crashes.  The
    theorem follows a command to the process it starts. *)
From S2P Require Import Prelude Proto Concrete Topics Seal Handshake Disk Allowlist Registries Session Ca Broker Policy AuditLog Service Exec JobRunner Pty ShellStream ControlChannel Coordinator.

(** [sy_count] and [sy_log]: the sessions the coordinator started with the host and the
    frames it sealed on them; [sy_signed]: the handshake transcripts it signed, for any host;
    [sy_keys]: the keys of every session the agent established, with the transcript it took as
    signed by the coordinator; [sy_shells]: the dispatches it opened shells for on connections
    that are over. *)
Record System (T R L E : Type) := mkSystem {
  sy_co : Coordinator T R L E; sy_count : nat; sy_log : list Frame; sy_signed : list bytes;
  sy_id : AgentIdentity; sy_agent : Conn; sy_keys : list (SessionKeys * bytes); sy_shells : list Dispatch
}.
Arguments mkSystem {T R L E} sy_co sy_count sy_log sy_signed sy_id sy_agent sy_keys sy_shells.
Arguments sy_signed {T R L E} s.
Arguments sy_co {T R L E} s.
Arguments sy_count {T R L E} s.
Arguments sy_log {T R L E} s.
Arguments sy_id {T R L E} s.
Arguments sy_agent {T R L E} s.
Arguments sy_keys {T R L E} s.
Arguments sy_shells {T R L E} s.

(** The coordinator moves; the coordinator restarts on its database; the agent moves; the agent reconnects with the identity it
    loads then; the agent crashes and restarts on what its disks kept. *)
Inductive SyEvent :=
| SyCo (ev : CoEvent)
| SyRestart
| SyAgent (ev : AgentEvent)
| SyReconnect (id : AgentIdentity)
| SyCrash (kept_jobs kept_state : Dir) (now : Z) (mtime : string -> option Z) (id : AgentIdentity).

Section System.
Context `{Crypto} `{Prost} `{UuidLib} `{X509} {P T R L E : Type}.
Context `{PolicyPort P} `{JoinTokens T} `{Revocations R} `{AuditPort L} `{Epochs E}.
Variable ca : EmbeddedCa.
Variable policy : P.
Variable default_ttl : Z.
Variable has_sink : bool.
Variable debug_str : string -> string.
Variable host_id : string.
Variable backstop : LocalAllowlist.
Variable h : HostId.
Implicit Type s : System T R L E.

(** The transcript a ServerHello answers a handshake with. *)
Definition agreed_on (hs : Handshaking) (sh : ServerHello) : bytes :=
  server_transcript (ini_sid (hk_initiator hs)) (hs_public (ini_eph (hk_initiator hs))) (sh_server_eph sh).

(** The keys of the session an event establishes on the agent, if it does, and the transcript
    they were agreed on. *)
Definition establishes (id : AgentIdentity) (c : Conn) (ev : AgentEvent) : list (SessionKeys * bytes) :=
  match ev with
  | APublish topic payload _ =>
      if bool_decide (topic = st_hs_down (topics host_id)) then
        match handshaking c, decode_msg (M := ServerHello) payload with
        | Some hs, Ok sh => match finish_handshake hs id payload with Ok est => [(est_keys est, agreed_on hs sh)] | Err _ => [] end
        | _, _ => []
        end
      else []
  | _ => []
  end.

(** The transcript the coordinator signs when it handles an event: it answers a ClientHello. *)
Definition signs (c : Coordinator T R L E) (ev : CoEvent) : list bytes :=
  match ev with
  | CoMessage topic payload e =>
      match tenant_from_heartbeat topic, tenant_from_hs_up topic with
      | None, Some t =>
          match check_client_hello ca (co_seen c) t payload e with
          | Some (hello, _, resp) => [server_transcript (bytes_of (ch_sid hello)) (ch_client_eph hello) (sr_server_eph resp)]
          | None => []
          end
      | _, _ => []
      end
  | _ => []
  end.

(** The shells a disconnect ends. *)
Definition ends (c : Conn) (ev : AgentEvent) : list Dispatch := match ev with ADisconnect => opened c | _ => [] end.

Definition sys_agent s (ev : AgentEvent) : System T R L E :=
  let c := sy_agent s in
  mkSystem (sy_co s) (sy_count s) (sy_log s) (sy_signed s) (sy_id s) (agent_step debug_str host_id (sy_id s) backstop c ev)
    (sy_keys s ++ establishes (sy_id s) c ev) (sy_shells s ++ ends c ev).

Definition set_id s (id : AgentIdentity) : System T R L E :=
  mkSystem (sy_co s) (sy_count s) (sy_log s) (sy_signed s) id (sy_agent s) (sy_keys s) (sy_shells s).

Definition sys_step s (ev : SyEvent) : System T R L E :=
  match ev with
  | SyCo ev =>
      let '(n, l) := sealed_step ca policy default_ttl has_sink h (sy_count s) (sy_co s) ev in
      mkSystem (co_step ca policy default_ttl has_sink (sy_co s) ev) n (sy_log s ++ l)
        (sy_signed s ++ signs (sy_co s) ev) (sy_id s) (sy_agent s) (sy_keys s) (sy_shells s)
  | SyRestart =>
      mkSystem (co_restart (sy_co s)) (sy_count s) (sy_log s) (sy_signed s) (sy_id s) (sy_agent s) (sy_keys s) (sy_shells s)
  | SyAgent ev => sys_agent s ev
  | SyReconnect id => set_id (sys_agent s ADisconnect) id
  | SyCrash kept_jobs kept_state now mtime id =>
      mkSystem (sy_co s) (sy_count s) (sy_log s) (sy_signed s) id
        (mkConn false None None None ∅ (restart (runner (sy_agent s)) kept_jobs now mtime) kept_state [] [] [] [])
        (sy_keys s) (sy_shells s ++ opened (sy_agent s))
  end.

Definition run_system s (evs : list SyEvent) : System T R L E := foldl sys_step s evs.

Definition system_init (c0 : Coordinator T R L E) (id : AgentIdentity) (jobs_dir state : Dir) : System T R L E :=
  mkSystem c0 0 [] [] id (agent_init jobs_dir state) [] [].

(** ** The network *)

(** What an attacker without a session's keys can deliver: a frame the coordinator sealed for
    this host under them, or one that does not open. *)
Definition genuine s (keys : SessionKeys) (env : Envelope) : Prop :=
  (exists f, f ∈ sy_log s /\ fr_keys f = keys /\ env = fr_envelope h f) \/
  exists err, open_envelope keys CoordToAgent env = Err err.

(** The CA key the agent's identity pins is the coordinator's. *)
Definition pins (id : AgentIdentity) : Prop := ai_ca_pubkey_sec1 id = ecdsa_public (ca_key_pem ca).

(** The cryptographic assumptions on a message the broker delivers to the agent.  Signatures
    are not forged: what verifies under the coordinator's CA key as the answer to the agent's
    handshake is a transcript the coordinator signed. *)
Definition unforged s (payload : bytes) : Prop :=
  forall hs sh, handshaking (sy_agent s) = Some hs -> decode_msg payload = Ok sh ->
    ecdsa_verify (ecdsa_public (ca_key_pem ca)) (agreed_on hs sh) (sh_sig sh) = true -> agreed_on hs sh ∈ sy_signed s.
(** Keys agreed between an ephemeral of the agent and one of the coordinator are secret: if the
    coordinator signed the transcript they were agreed on, and so made its server ephemeral,
    only its own frames open under them.  (Nothing is assumed of keys agreed on a transcript
    it did not sign.) *)
Definition unopened s (payload : bytes) : Prop :=
  forall est transcript env, session (sy_agent s) = Some est -> (est_keys est, transcript) ∈ sy_keys s -> transcript ∈ sy_signed s ->
    decode_msg payload = Ok env -> genuine s (est_keys est) env.
(** The agent's ephemerals are fresh: no two of its sessions have the same keys. *)
Definition new_keys s (ev : AgentEvent) : Prop :=
  Forall (fun x => x.1 ∉ (sy_keys s).*1) (establishes (sy_id s) (sy_agent s) ev).

(** ... and on the agent itself: an identity it loads pins the coordinator's CA; a crash leaves
    what a disk may keep. *)
Definition possible_event s (ev : SyEvent) : Prop :=
  match ev with
  | SyAgent (APublish topic payload e) => unforged s payload /\ unopened s payload /\ new_keys s (APublish topic payload e)
  | SyReconnect id => pins id
  | SyCrash kept_jobs kept_state _ _ id =>
      crash (jobs (runner (sy_agent s))) kept_jobs /\ crash (state_dir (sy_agent s)) kept_state /\ pins id
  | _ => True
  end.

Fixpoint possible_run s (evs : list SyEvent) : Prop :=
  match evs with
  | [] => True
  | ev :: evs => possible_event s ev /\ possible_run (sys_step s ev) evs
  end.

(** Every dispatch a process was started or a shell was opened for on the host. *)
Definition executed s : list Dispatch := spawned (runner (sy_agent s)) ++ sy_shells s ++ opened (sy_agent s).

End System.

(** ** Lemmas: jobs *)

Section Jobs.
Context `{Crypto} `{Prost} (debug_str : string -> string) (backstop : LocalAllowlist) (host_id : string).

(** The dispatches of the tasks that may still spawn. *)
Definition to_spawn (t : JobTask) : option Dispatch := match t with AtRecord _ _ => None | _ => Some (task_dispatch t) end.
Definition waiting (m : gmap nat JobTask) : list Dispatch := omap (to_spawn ∘ snd) (map_to_list m).

Lemma waiting_insert m i t : m !! i = None -> waiting (<[i := t]> m) ≡ₚ option_list (to_spawn t) ++ waiting m.
Proof. intros Hi. unfold waiting. rewrite map_to_list_insert by done. cbn [omap list_omap]. simpl. by destruct (to_spawn t). Qed.

Lemma waiting_split m i t : m !! i = Some t -> waiting m ≡ₚ option_list (to_spawn t) ++ waiting (delete i m).
Proof. intros Hi. rewrite <- (insert_delete_id m i t Hi) at 1. apply waiting_insert, lookup_delete_eq. Qed.

Lemma waiting_replace m i t u : m !! i = Some t -> waiting (<[i := u]> m) ≡ₚ option_list (to_spawn u) ++ waiting (delete i m).
Proof. intros Hi. rewrite <- insert_delete_eq. apply waiting_insert, lookup_delete_eq. Qed.

Definition charged (r : Runner) : list Dispatch := spawned r ++ waiting (running r).

Lemma job_begin_charged r i d : running r !! i = None -> charged (job_begin r i d) ⊆+ d :: charged r.
Proof.
  intros Hi. unfold charged, job_begin, try_claim. destruct (_ || _); [by apply submseteq_cons|].
  destruct (bool_decide _); [by apply submseteq_cons|]. simpl. rewrite waiting_insert by done. simpl.
  by rewrite Permutation_middle.
Qed.

Lemma job_step_charged r i e : charged (job_step debug_str backstop host_id r i e) ⊆+ charged r.
Proof.
  assert (forall x t id res, running x = running r -> spawned x = spawned r -> running r !! i = Some t ->
    charged (job_end x i id res) ⊆+ charged r) as Hend.
  { intros x t id res Hx Hs Hi. unfold charged. simpl. rewrite Hx, Hs, (waiting_split _ _ _ Hi).
    by apply submseteq_app, submseteq_inserts_l. }
  assert (forall x t u, running x = running r -> spawned x = spawned r -> running r !! i = Some t -> to_spawn u = to_spawn t ->
    charged (set_task x i u) ⊆+ charged r) as Hset.
  { intros x t u Hx Hs Hi Hu. unfold charged. simpl. by rewrite Hx, Hs, (waiting_replace _ _ _ _ Hi), (waiting_split _ _ _ Hi), Hu. }
  unfold job_step. destruct (running r !! i) as [[d|d p|d p|d o]|] eqn:Ei; [..|done].
  - destruct (lookup_job _ _ _) as [[[|o]|]|]; try by eapply Hend.
    destruct (check_dispatch _ _ _ d); [by eapply Hset|by eapply Hend].
  - destruct (mark_started _ _ _) as [jd [[]|]]; [by eapply (Hset (set_jobs r jd))|by eapply (Hend (set_jobs r jd))].
  - destruct (stream _ _ _ _) as [[chunks k] res]. unfold charged. simpl.
    rewrite (waiting_replace _ _ _ _ Ei), (waiting_split _ _ _ Ei). simpl. by rewrite <- app_assoc.
  - destruct (record_done _ _ _ _) as [jd w]. by eapply (Hend (set_jobs r jd)).
Qed.

(** The host's allowlist permits a dispatch. *)
Definition permitted (d : Dispatch) : Prop := permits backstop (mkAction (d_kind d) EmptyString (d_run_as d) []) = Ok tt.

Record jobs_permitted (r : Runner) : Prop := {
  jp_spawned : Forall permitted (spawned r);
  jp_running : map_Forall (fun _ t => match t with AtMark d _ | AtExec d _ => permitted d | _ => True end) (running r)
}.

Lemma job_begin_permitted r i d : jobs_permitted r -> jobs_permitted (job_begin r i d).
Proof.
  intros [Hs Hr]. unfold job_begin, try_claim. destruct (_ || _); [done|]. destruct (bool_decide _); [done|].
  split; [done|]. simpl. by apply map_Forall_insert_2.
Qed.

Lemma job_step_permitted r i e : jobs_permitted r -> jobs_permitted (job_step debug_str backstop host_id r i e).
Proof.
  intros [Hs Hr]. unfold job_step. destruct (running r !! i) as [t|] eqn:Ei; [|done].
  assert (forall x id res, running x = running r -> spawned x = spawned r -> jobs_permitted (job_end x i id res)) as Hend.
  { intros x id res Hx Hsx. split; simpl; rewrite ?Hx, ?Hsx; [done|]. by apply map_Forall_delete. }
  pose proof (Hr i t Ei) as Ht. destruct t as [d|d p|d p|d o]; simpl in Ht.
  - destruct (lookup_job _ _ _) as [[[|o]|]|]; try by apply Hend.
    destruct (check_dispatch _ _ _ d) eqn:Ec; [|by apply Hend]. split; [done|]. simpl. apply map_Forall_insert_2; [|done].
    unfold check_dispatch in Ec. unfold permitted. destruct (permits _ (mkAction _ host_id _ _)) as [[]|] eqn:Ep; [exact Ep|done].
  - destruct (mark_started _ _ _) as [jd [[]|]]; [|by apply (Hend (set_jobs r jd))]. split; [done|]. simpl. by apply map_Forall_insert_2.
  - destruct (stream _ _ _ _) as [[chunks k] res]. split; simpl; [|by apply map_Forall_insert_2].
    apply Forall_app. split; [done|]. by constructor.
  - destruct (record_done _ _ _ _) as [jd w]. by apply (Hend (set_jobs r jd)).
Qed.

End Jobs.

(** ** Lemmas: the agent *)

Section AgentMoves.
Context `{Crypto} `{Prost} `{UuidLib} (debug_str : string -> string) (host_id : string) (backstop : LocalAllowlist) (id : AgentIdentity).
Implicit Type c : Conn.

(** What the accounting reads of a connection. *)
Definition ledger c := (session c, runner c, opened c).

(** A dispatch is run as a job, opens a shell, or is dropped. *)
Inductive handled (d : Dispatch) c c' : Prop :=
| hn_dropped : runner c' = runner c -> opened c' = opened c -> handled d c c'
| hn_job i : running (runner c) !! i = None -> runner c' = job_begin (runner c) i d -> opened c' = opened c -> handled d c c'
| hn_shell : runner c' = runner c -> opened c' = opened c ++ [d] -> permitted backstop d -> handled d c c'.

(** One event of the agent, as the accounting sees it. *)
Inductive moved c : AgentEvent -> Conn -> Prop :=
| mv_quiet ev c' : ev <> ADisconnect -> ledger c' = ledger c -> establishes host_id id c ev = [] -> moved c ev c'
| mv_established ev c' est tr : ev <> ADisconnect -> ledger c' = (Some est, runner c, opened c) -> est_recv_high est = None ->
    establishes host_id id c ev = [(est_keys est, tr)] -> moved c ev c'
| mv_guard ev c' est est' : ev <> ADisconnect -> session c = Some est -> ledger c' = (Some est', runner c, opened c) ->
    est_keys est' = est_keys est -> (next_seq (est_recv_high est) <= next_seq (est_recv_high est'))%nat ->
    establishes host_id id c ev = [] -> moved c ev c'
| mv_dispatch topic payload e c' env est est' p d :
    session c = Some est -> decode_msg payload = Ok env -> open_envelope (est_keys est) CoordToAgent env = Ok p ->
    decode_msg p = Ok d -> stale (est_recv_high est) (env_seq env) = false ->
    session c' = Some est' -> est_keys est' = est_keys est -> est_recv_high est' = Some (env_seq env) ->
    handled d c c' -> establishes host_id id c (APublish topic payload e) = [] -> moved c (APublish topic payload e) c'
| mv_job i e : moved c (AJob i e) (set_runner c (job_step debug_str backstop (ai_host_id id) (runner c) i e))
| mv_disconnect c' : ledger c' = (None, runner c, []) -> moved c ADisconnect c'.

Lemma open_downlink_guard est env est' r :
  open_downlink est env = (est', r) ->
  est_keys est' = est_keys est /\ (next_seq (est_recv_high est) <= next_seq (est_recv_high est'))%nat /\
  (forall p, r = Some p -> open_envelope (est_keys est) CoordToAgent env = Ok p /\
     stale (est_recv_high est) (env_seq env) = false /\ est_recv_high est' = Some (env_seq env)).
Proof.
  unfold open_downlink, accept_recv. destruct (open_envelope _ _ _) as [q|]; [|intros [= <- <-]; naive_solver].
  destruct (stale _ _) eqn:Es; intros [= <- <-]; simpl; [naive_solver|].
  split; [done|]. split; [|by intros ? [= ->]]. apply stale_next in Es. lia.
Qed.

Lemma confirm_session_guard est payload est' r :
  confirm_session est id payload = (est', r) ->
  est_keys est' = est_keys est /\ (next_seq (est_recv_high est) <= next_seq (est_recv_high est'))%nat.
Proof.
  unfold confirm_session. destruct (decode_msg _) as [env|]; [|by intros [= <- <-]].
  destruct (negb _); [by intros [= <- <-]|].
  destruct (open_downlink est env) as [est1 q] eqn:Eo. apply open_downlink_guard in Eo as (Hk & Hn & _).
  destruct q as [q|]; [|by intros [= <- <-]]. destruct (negb _); [by intros [= <- <-]|]. by intros [= <- <-].
Qed.

Lemma handled_dispatch c est d penv :
  handled d c (if bool_decide (d_kind d = Pty.KIND) then handle_shell_open backstop c est d penv else handle_job c d).
Proof.
  destruct (bool_decide _).
  - unfold handle_shell_open. destruct (_ || _); [by apply hn_dropped|]. destruct (bool_decide _); [by apply hn_dropped|].
    destruct (decide _); [by apply hn_dropped|]. destruct (permits _ _) as [[]|] eqn:Ep; [|by apply hn_dropped].
    destruct (ShellStream_open _ _ _ _ _ _); [by apply hn_shell|by apply hn_dropped].
  - unfold handle_job. destruct (decide _); [by apply hn_dropped|]. eapply hn_job; [|done..].
    apply not_elem_of_dom, is_fresh.
Qed.

Lemma handled_frame d c c1 c' : runner c1 = runner c -> opened c1 = opened c -> handled d c1 c' -> handled d c c'.
Proof. intros Hr Ho []; [apply hn_dropped|eapply hn_job|apply hn_shell]; rewrite <- ?Hr, <- ?Ho; eauto. Qed.

Lemma on_publish_moved c topic payload e : moved c (APublish topic payload e) (on_publish host_id id backstop c topic payload e).
Proof.
  unfold on_publish. destruct (bool_decide (topic = st_hs_down _)) eqn:E1.
  { destruct (handshaking c) as [hs|] eqn:Eh; [|apply mv_quiet; [done..|unfold establishes; by rewrite E1, Eh]].
    destruct (finish_handshake hs id payload) as [est|] eqn:Ef; [|apply mv_quiet; [done..|unfold establishes; rewrite E1, Eh, Ef; by destruct (decode_msg payload)]].
    pose proof Ef as Ef'. unfold finish_handshake in Ef.
    destruct (decode_msg payload) as [sh|] eqn:Esh; [|done]. simpl in Ef.
    eapply mv_established; [done|done| |unfold establishes; by rewrite E1, Eh, Esh, Ef']. destruct (negb _); [done|]. destruct (ok_or _ _); [|done]. simpl in Ef.
    destruct (map_err _ _); simpl in Ef; [|done]. by simplify_eq. }
  assert (establishes host_id id c (APublish topic payload e) = []) as Hes by (unfold establishes; by rewrite E1).
  destruct (bool_decide (topic = st_ctrl_down _)).
  { destruct (session c) as [est|] eqn:Es; [|by apply mv_quiet].
    destruct (confirm_session est id payload) as [est' r] eqn:Ec. apply confirm_session_guard in Ec as [Hk Hn].
    apply (mv_guard _ _ _ est est'); try done. destruct r; [|done]. by destruct (ae_client e 0). }
  destruct (bool_decide (topic = st_dispatch_down _)).
  { destruct (session c) as [est|] eqn:Es; [|by apply mv_quiet].
    unfold open_dispatch. destruct (decode_msg payload) as [env|] eqn:Ed.
    2: { apply (mv_guard _ _ _ est est); try done. }
    destruct (open_downlink est env) as [est' q] eqn:Eo. apply open_downlink_guard in Eo as (Hk & Hn & Hq).
    destruct q as [p|]; [|by apply (mv_guard _ _ _ est est')].
    destruct (decode_msg p) as [d|] eqn:Ep; [|by apply (mv_guard _ _ _ est est')]. simpl.
    destruct (Hq p eq_refl) as (Hop & Hst & Hh).
    set (c1 := set_acted (set_session c (Some est')) (acted c ++ [d])).
    destruct (handle_acted backstop c1 est' d (ae_pty e)) as (Hs' & _ & _). simpl in Hs'.
    apply (mv_dispatch _ _ _ _ _ env est est' p d); try done.
    eapply (handled_frame _ _ c1); [done..|]. apply handled_dispatch. }
  destruct (bool_decide (topic = st_stream_down _)); [|by apply mv_quiet].
  destruct (active_stream c); [|by apply mv_quiet]. destruct (decode_msg payload); [|by apply mv_quiet].
  destruct (route_downlink _ _). by apply mv_quiet.
Qed.

Lemma view_ledger c c' : view c' = view c -> runner c' = runner c -> ledger c' = ledger c.
Proof. unfold view, ledger. congruence. Qed.

Lemma on_connack_runner c e : runner (on_connack host_id id c e) = runner c.
Proof.
  unfold on_connack, begin_handshake, try_subscribe, publish_heartbeat, try_publish.
  by repeat (case_match; simplify_eq/=).
Qed.

Lemma agent_step_moved c ev : moved c ev (agent_step debug_str host_id id backstop c ev).
Proof.
  destruct ev as [e|topic payload e|ok|i e|w|]; simpl.
  - apply mv_quiet; [done| |done]. apply view_ledger; [apply on_connack_view|apply on_connack_runner].
  - apply on_publish_moved.
  - apply mv_quiet; [done| |done]. destruct (connected c); [|done]. by destruct ok.
  - apply mv_job.
  - by apply mv_quiet.
  - by apply mv_disconnect.
Qed.

End AgentMoves.

(** ** Lemmas: the accounts *)

Section Accounts.
Context `{CryptoLaws} `{ProstLaws} `{UuidLaws} `{X509} {P T R L E : Type}.
Context `{PolicyPort P} `{JoinTokens T} `{Revocations R} `{!AuditPort L} `{!AuditLaws L} `{Epochs E}.
Context (ca : EmbeddedCa) (policy : P) (default_ttl : Z) (has_sink : bool).
Context (debug_str : string -> string) (host_id : string) (backstop : LocalAllowlist) (h : HostId).
(** prost refuses the beacon as a Dispatch: its first byte is no valid field key. *)
Context (Hready : is_ok (decode_msg (M := Dispatch) CTRL_SESSION_READY) = false).
Implicit Type s : System T R L E.
Notation step := (sys_step ca policy default_ttl has_sink debug_str host_id backstop h).
Notation run := (run_system ca policy default_ttl has_sink debug_str host_id backstop h).
Notation log_of := (sealed_log ca policy default_ttl has_sink h).

(** An entry: the session's keys and the sequence number of the frame acted on, and the
    dispatch in it. *)
Abbreviation Entry := (SessionKeys * u64 * Dispatch)%type.

Definition entry_of (f : Frame) : option Entry := d ← fr_dispatch f; Some (fr_keys f, fr_seq f, d).

(** Each entry is for a frame of the log, no frame has two, and everything that was started
    or may still start is paid for by one. *)
Record accounts s (acts : list Entry) : Prop := {
  ac_once : NoDup acts.*1;
  ac_sealed : Forall (fun a => a ∈ omap entry_of (sy_log s) /\ a.1.1 ∈ (sy_keys s).*1) acts;
  ac_pinned : pins ca (sy_id s);
  ac_signed : Forall (fun x => x.2 ∈ sy_signed s) (sy_keys s);
  ac_guard : forall est q d, session (sy_agent s) = Some est -> (est_keys est, q, d) ∈ acts ->
    (Z.to_nat (bval q) < next_seq (est_recv_high est))%nat;
  ac_keys : forall est, session (sy_agent s) = Some est -> est_keys est ∈ (sy_keys s).*1;
  ac_charged : charged (runner (sy_agent s)) ++ sy_shells s ++ opened (sy_agent s) ⊆+ acts.*2;
  ac_jobs : jobs_permitted backstop (runner (sy_agent s));
  ac_shells : Forall (permitted backstop) (sy_shells s ++ opened (sy_agent s))
}.

(** An open frame of the log carries the dispatch it was sealed with. *)
Lemma genuine_dispatch s keys env p d :
  genuine h s keys env -> open_envelope keys CoordToAgent env = Ok p -> decode_msg p = Ok d ->
  (keys, env_seq env, d) ∈ omap entry_of (sy_log s).
Proof.
  intros [(f & Hf & <- & ->)|[err He]] Ho Hd; [|by rewrite He in Ho].
  unfold fr_envelope in *. rewrite open_seal_envelope in Ho. injection Ho as <-. unfold fr_payload in Hd.
  apply list_elem_of_omap. exists f. split; [done|]. unfold entry_of.
  destruct (fr_dispatch f) as [d'|]; [|by rewrite Hd in Hready].
  rewrite decode_encode in Hd. by injection Hd as ->.
Qed.

(** Nothing the accounts read has changed but by a step of a job. *)
Lemma accounts_quiet s acts log signed c shells n co :
  accounts s acts -> sy_log s `prefix_of` log -> sy_signed s ⊆ signed ->
  session c = session (sy_agent s) -> charged (runner c) ⊆+ charged (runner (sy_agent s)) ->
  jobs_permitted backstop (runner c) -> shells ++ opened c = sy_shells s ++ opened (sy_agent s) ->
  accounts (mkSystem co n log signed (sy_id s) c (sy_keys s) shells) acts.
Proof.
  intros [Ho Hse Hpi Hsi Hg Hk Hch Hj Hsh] [l ->] Hks Hs Hr Hp Hop. split; simpl; rewrite ?Hs; try done.
  - eapply Forall_impl; [exact Hse|]. intros a [Ha1 Ha2]. rewrite omap_app. set_solver.
  - eapply Forall_impl; [exact Hsi|]. intros x Hx. by apply Hks.
  - rewrite Hop. etrans; [|exact Hch]. by apply submseteq_app.
  - by rewrite Hop.
Qed.

(** A session moved: a new one, or its guard. *)
Lemma accounts_session s acts keys c est :
  accounts s acts -> sy_keys s ⊆ keys -> Forall (fun x => x.2 ∈ sy_signed s) keys -> est_keys est ∈ keys.*1 ->
  (forall q d, (est_keys est, q, d) ∈ acts -> (Z.to_nat (bval q) < next_seq (est_recv_high est))%nat) ->
  ledger c = (Some est, runner (sy_agent s), opened (sy_agent s)) ->
  accounts (mkSystem (sy_co s) (sy_count s) (sy_log s) (sy_signed s) (sy_id s) c keys (sy_shells s)) acts.
Proof.
  intros [Ho Hse Hpi Hsi Hg Hk Hch Hj Hsh] Hks Hsig Hin Hq [= Hc Hr Hop]. split; simpl; rewrite ?Hc, ?Hr, ?Hop; try done.
  - eapply Forall_impl; [exact Hse|]. intros a [Ha1 Ha2]. split; [done|].
    apply list_elem_of_fmap in Ha2 as (x & Hx & Hin'). apply list_elem_of_fmap. exists x. split; [done|by apply Hks].
  - intros ? q d [= <-]. apply Hq.
  - by intros ? [= <-].
Qed.

(** A dispatch of the log, acted on for the first time. *)
Lemma accounts_dispatch s acts c est est' q d :
  accounts s acts -> session (sy_agent s) = Some est -> session c = Some est' -> est_keys est' = est_keys est ->
  est_recv_high est' = Some q -> stale (est_recv_high est) q = false ->
  (est_keys est, q, d) ∈ omap entry_of (sy_log s) -> handled backstop d (sy_agent s) c ->
  accounts (mkSystem (sy_co s) (sy_count s) (sy_log s) (sy_signed s) (sy_id s) c (sy_keys s) (sy_shells s)) ((est_keys est, q, d) :: acts).
Proof.
  intros [Ho Hse Hpi Hsi Hg Hk Hch Hj Hsh] Hs Hs' Hkk Hh Hst Hlog Hd. apply stale_next in Hst.
  assert ((est_keys est, q) ∉ acts.*1) as Hnew.
  { intros ([[k q'] d'] & [= <- <-] & Ha)%list_elem_of_fmap. specialize (Hg est q d' Hs Ha). lia. }
  split; simpl; rewrite ?Hs'; try done.
  - by apply NoDup_cons.
  - constructor; [|done]. split; [done|]. by apply Hk.
  - intros est1 q1 d1 [= <-]. rewrite Hkk, Hh, elem_of_cons. simpl.
    intros [[= -> ->]|Ha]; [lia|]. specialize (Hg est q1 d1 Hs Ha). lia.
  - intros est1 [= <-]. rewrite Hkk. by apply Hk.
  - destruct Hd as [-> -> |i Hi -> -> | -> -> _].
    + by apply submseteq_cons.
    + etrans; [apply submseteq_app; [by apply job_begin_charged|done]|]. by apply submseteq_skip.
    + rewrite !app_assoc, Permutation_app_comm, <- app_assoc. by apply submseteq_skip.
  - destruct Hd as [-> _|i Hi -> _| -> _ _]; try done. by apply job_begin_permitted.
  - destruct Hd as [_ ->|i Hi _ -> |_ -> Hp]; try done. rewrite app_assoc. apply Forall_app. split; [done|]. by constructor.
Qed.

(** What the agent takes as the coordinator's answer, the coordinator signed. *)
Lemma establishes_signed s ev :
  pins ca (sy_id s) -> possible_event ca host_id h s (SyAgent ev) -> Forall (fun x => x.2 ∈ sy_signed s) (establishes host_id (sy_id s) (sy_agent s) ev).
Proof.
  intros Hpin Hp. destruct ev as [e|topic payload e|ok|i e|w|]; try constructor. destruct Hp as [Hsig _]. cbn [establishes].
  destruct (bool_decide _); [|constructor]. destruct (handshaking (sy_agent s)) as [hs|] eqn:Eh; [|constructor].
  destruct (decode_msg payload) as [sh|] eqn:Ed; [|constructor].
  destruct (finish_handshake hs (sy_id s) payload) as [est|] eqn:Ef; [|constructor]. constructor; [|constructor].
  apply (Hsig hs sh Eh Ed). unfold finish_handshake in Ef. rewrite Ed in Ef. simpl in Ef. destruct (negb _); [done|].
  unfold array32 in Ef. destruct (decide _); [|done]. simpl in Ef.
  destruct (Initiator_finish _ _ _ _) as [ks|] eqn:Ei; [|done]. apply Initiator_finish_inv in Ei as [Hv _]. by rewrite <- Hpin.
Qed.

Lemma sys_agent_accounts s ev acts :
  accounts s acts -> possible_event ca host_id h s (SyAgent ev) -> exists acts', accounts (sys_agent debug_str host_id backstop s ev) acts'.
Proof.
  intros Ha Hp. unfold sys_agent. pose proof (ac_jobs _ _ Ha) as Hj. pose proof (establishes_signed s ev (ac_pinned _ _ Ha) Hp) as Hsg.
  destruct (agent_step_moved debug_str host_id backstop (sy_id s) (sy_agent s) ev)
    as [ev c' Hne [= Hs Hr Ho] He|ev c' est tr Hne Hl Hh He|ev c' est est' Hne Hs Hl Hk Hn He
       |topic payload e c' env est est' p d Hs Hd Hop Hpd Hst Hs' Hk Hh Hhd He|i e|c' [= Hs Hr Ho]].
  - exists acts. rewrite He, app_nil_r. apply (accounts_quiet s); try done; [by rewrite Hr|by rewrite Hr|]. rewrite Ho. by destruct ev; rewrite ?app_nil_r.
  - exists acts. rewrite He in *. replace (ends (sy_agent s) ev) with (@nil Dispatch) by (by destruct ev). rewrite app_nil_r.
    apply (accounts_session _ _ _ _ est); try done; [set_solver| |rewrite fmap_app; set_solver|].
    { apply Forall_app. split; [apply (ac_signed _ _ Ha)|done]. }
    intros q d Hq. exfalso. assert (est_keys est ∉ (sy_keys s).*1) as Hnew.
    { destruct ev; try done. destruct Hp as (_ & _ & Hp). unfold new_keys in Hp. by rewrite He, Forall_singleton in Hp. }
    apply Hnew. pose proof (ac_sealed _ _ Ha) as Hse. rewrite Forall_forall in Hse. by apply (Hse _ Hq).
  - exists acts. rewrite He. replace (ends (sy_agent s) ev) with (@nil Dispatch) by (by destruct ev). rewrite !app_nil_r.
    apply (accounts_session _ _ _ _ est'); try done; [apply (ac_signed _ _ Ha)|rewrite Hk; by apply (ac_keys _ _ Ha)|].
    intros q d Hq. rewrite Hk in Hq. pose proof (ac_guard _ _ Ha est q d Hs Hq). lia.
  - exists ((est_keys est, env_seq env, d) :: acts). rewrite He. simpl. rewrite !app_nil_r.
    eapply accounts_dispatch; try done. destruct Hp as (_ & Hp & _). eapply genuine_dispatch; [|done..].
    pose proof (ac_keys _ _ Ha est Hs) as ([k tr] & Hk' & Hin)%list_elem_of_fmap. simpl in Hk'. subst k.
    apply (Hp est tr env); try done. pose proof (ac_signed _ _ Ha) as Hsi. rewrite Forall_forall in Hsi. by apply (Hsi _ Hin).
  - exists acts. simpl. rewrite app_nil_r. apply (accounts_quiet s); try done; simpl; [apply job_step_charged|by apply job_step_permitted|by rewrite app_nil_r].
  - exists acts. destruct Ha as [A1 A2 Ap As A3 A4 A5 A6 A7]. split; simpl; rewrite ?Hs, ?Hr, ?Ho, ?app_nil_r; done.
Qed.

(** The current coordinator process, since its start in [c0]: what it ran, what it sealed,
    and the grants spent before it. *)
Record process_of s (c0 : Coordinator T R L E) (n0 : nat) (evs : list CoEvent) (before since : list Frame) (spent : list Grant) : Prop := {
  po_start : exists t rv l ep, c0 = co_init t rv l ep;
  po_run : sy_co s = run_coordinator ca policy default_ttl has_sink c0 evs;
  po_log : sy_log s = before ++ since;
  po_since : forall evs', log_of n0 c0 (evs ++ evs') = since ++ log_of (sy_count s) (sy_co s) evs';
  po_spent : grant_for h <$> omap fr_dispatch before ⊆+ spent;
  po_audited : audited policy spent (co_service (sy_co s))
}.
Definition covered s : Prop := exists c0 n0 evs before since spent, process_of s c0 n0 evs before since spent.

Lemma process_sealed s c0 n0 evs before since spent :
  process_of s c0 n0 evs before since spent ->
  grant_for h <$> omap fr_dispatch (sy_log s) ⊆+ flat_map needs (sv_commands (co_service (sy_co s))) ++ spent.
Proof.
  intros [(t & rv & l & ep & ->) Hrun Hlog Hs Hsp _]. rewrite Hlog, omap_app, fmap_app, Permutation_app_comm.
  apply submseteq_app; [|done]. specialize (Hs []). rewrite !app_nil_r in Hs. rewrite <- Hs.
  etrans; [apply sublist_submseteq, fmap_sublist, sealed_log_commands|]. rewrite <- Hrun. simpl. rewrite drop_0.
  apply sublist_submseteq, dispatch_to_needs.
Qed.

Lemma covered_granted s : covered s -> grant_for h <$> omap fr_dispatch (sy_log s) ⊆+ granted (co_service (sy_co s)).
Proof.
  intros (c0 & n0 & evs & before & since & spent & Hp). etrans; [by eapply process_sealed|].
  apply (audited_commands policy). apply Hp.
Qed.

Lemma sys_step_covered s ev : covered s -> covered (step s ev).
Proof.
  intros (c0 & n0 & evs & before & since & spent & Hp). destruct ev as [ev| |ev|id|kj ks now mtime id];
    try (exists c0, n0, evs, before, since, spent; by destruct Hp).
  - pose proof Hp as [Hst Hrun Hlog Hs Hsp Ha]. simpl. destruct (sealed_step _ _ _ _ _ _ _ ev) as [n l] eqn:Es.
    exists c0, n0, (evs ++ [ev]), before, (since ++ l), spent. split; simpl; try done.
    + unfold run_coordinator in *. by rewrite foldl_app, <- Hrun.
    + by rewrite Hlog, app_assoc.
    + intros evs'. rewrite <- app_assoc, Hs. cbn [app sealed_log]. by rewrite Es, app_assoc.
    + destruct (co_step_service ca policy default_ttl has_sink (sy_co s) ev) as [->|(sv & _ & ->)]; [done|by apply service_step_audited].
  - set (cmds := flat_map needs (sv_commands (co_service (sy_co s)))).
    exists (co_restart (sy_co s)), (sy_count s), [], (sy_log s), [], (cmds ++ spent). split; simpl; try done.
    + by repeat eexists.
    + by rewrite app_nil_r.
    + by eapply process_sealed.
    + apply service_init_audited; [by apply (audited_commands policy), Hp|apply Hp].
Qed.

Lemma sys_step_accounts s ev :
  (exists acts, accounts s acts) -> possible_event ca host_id h s ev -> exists acts, accounts (step s ev) acts.
Proof.
  intros [acts Ha] Hp. destruct ev as [ev| |ev|id|kj ks now mtime id]; simpl.
  - exists acts. destruct (sealed_step _ _ _ _ _ _ _ ev) as [n l].
    apply (accounts_quiet s); try done; [by eexists|set_solver|apply Ha].
  - exists acts. apply (accounts_quiet s); try done. apply Ha.
  - by eapply sys_agent_accounts.
  - destruct (sys_agent_accounts s ADisconnect acts Ha I) as [acts' Ha']. exists acts'.
    destruct Ha' as [A1 A2 Ap As A3 A4 A5 A6 A7]. by split.
  - exists acts. destruct Ha as [A1 A2 Ap As A3 A4 A5 A6 A7]. split; simpl; rewrite ?app_nil_r; try done.
    + apply Hp.
    + etrans; [|exact A5]. apply submseteq_app; [|done]. unfold charged, waiting. simpl. rewrite map_to_list_empty. simpl.
      by apply submseteq_app, submseteq_nil_l.
    + split; [apply A6|]. apply map_Forall_empty.
Qed.

Lemma run_system_inv s evs :
  covered s -> (exists acts, accounts s acts) -> possible_run ca policy default_ttl has_sink debug_str host_id backstop h s evs ->
  covered (run s evs) /\ exists acts, accounts (run s evs) acts.
Proof.
  revert s. induction evs as [|ev evs IH]; intros s Hf Ha Hp; [done|]. destruct Hp as [He Hp].
  apply IH; [by apply sys_step_covered|by apply sys_step_accounts|done].
Qed.

Lemma system_init_inv t rv l ep id jobs_dir state :
  Forall (record_honest policy) (log_records l) -> pins ca id ->
  let s0 := system_init (co_init t rv l ep) id jobs_dir state in
  covered s0 /\ exists acts, accounts s0 acts.
Proof.
  intros Hl Hpin s0. split.
  { exists (co_init t rv l ep), 0%nat, [], [], [], []. split; simpl; try done; [by repeat eexists|].
    apply service_init_audited; [apply submseteq_nil_l|done]. }
  exists []. split; simpl; try done.
  apply NoDup_nil_2.
Qed.

(** Whatever was executed was sealed in a frame of its own. *)
Lemma accounts_executed s acts : accounts s acts -> executed s ⊆+ omap fr_dispatch (sy_log s).
Proof.
  intros [Ho Hse _ _ _ _ Hch _ _]. trans (acts.*2).
  - etrans; [|exact Hch]. unfold executed, charged. rewrite <- app_assoc. apply submseteq_app; [done|]. by apply submseteq_inserts_l.
  - replace (omap fr_dispatch (sy_log s)) with ((omap entry_of (sy_log s)).*2).
    + apply fmap_submseteq, NoDup_submseteq; [by eapply NoDup_fmap_1|]. intros a Ha. rewrite Forall_forall in Hse. by apply (Hse a Ha).
    + clear. induction (sy_log s) as [|f l IH]; [done|]. cbn [omap list_omap]. unfold entry_of at 1.
      destruct (fr_dispatch f); simpl; [f_equal|]; exact IH.
Qed.

End Accounts.

(** ** Checking a run *)

#[global] Instance SessionKeys_eq_dec : EqDecision SessionKeys.
Proof. solve_decision. Defined.

Section Checker.
Context `{Crypto} `{Prost} `{UuidLib} `{X509} {P T R L E : Type}.
Context `{PolicyPort P} `{JoinTokens T} `{Revocations R} `{AuditPort L} `{Epochs E}.
Context (ca : EmbeddedCa) (policy : P) (default_ttl : Z) (has_sink : bool).
Context (debug_str : string -> string) (host_id : string) (backstop : LocalAllowlist) (h : HostId).
Implicit Type s : System T R L E.

(** [possible_run], decided for runs without reconnects and crashes. *)
Definition genuine_b s (keys : SessionKeys) (env : Envelope) : bool :=
  existsb (fun f => bool_decide (fr_keys f = keys) && bool_decide (env = fr_envelope h f)) (sy_log s) ||
  negb (is_ok (open_envelope keys CoordToAgent env)).

Definition unforged_b s (payload : bytes) : bool :=
  match handshaking (sy_agent s), decode_msg (M := ServerHello) payload with
  | Some hs, Ok sh =>
      implb (ecdsa_verify (ecdsa_public (ca_key_pem ca)) (agreed_on hs sh) (sh_sig sh)) (bool_decide (agreed_on hs sh ∈ sy_signed s))
  | _, _ => true
  end.

Definition possible_event_b s (ev : SyEvent) : bool :=
  match ev with
  | SyAgent (APublish topic payload e) =>
      unforged_b s payload &&
      match session (sy_agent s), decode_msg payload with
      | Some est, Ok env => genuine_b s (est_keys est) env
      | _, _ => true
      end &&
      forallb (fun x => negb (bool_decide (x.1 ∈ (sy_keys s).*1))) (establishes host_id (sy_id s) (sy_agent s) (APublish topic payload e))
  | SyReconnect _ | SyCrash _ _ _ _ _ => false
  | _ => true
  end.

Fixpoint possible_run_b s (evs : list SyEvent) : bool :=
  match evs with
  | [] => true
  | ev :: evs => possible_event_b s ev && possible_run_b (sys_step ca policy default_ttl has_sink debug_str host_id backstop h s ev) evs
  end.

Lemma genuine_b_ok s keys env : genuine_b s keys env = true -> genuine h s keys env.
Proof.
  unfold genuine_b, genuine. intros [(f & Hf & Hb)%existsb_exists|Hn]%orb_true_iff; bool_to_prop.
  - left. exists f. rewrite list_elem_of_In. tauto.
  - right. destruct (open_envelope _ _ _) as [p|err]; [done|by exists err].
Qed.

Lemma possible_run_b_ok s evs :
  possible_run_b s evs = true -> possible_run ca policy default_ttl has_sink debug_str host_id backstop h s evs.
Proof.
  revert s. induction evs as [|ev evs IH]; intros s; [done|]. cbn [possible_run_b possible_run]. intros [He Hr]%andb_true_iff.
  split; [|by apply IH]. destruct ev as [ev| |ev|id|kj ks now mtime id]; try done. destruct ev as [e|topic payload e|ok|i e|w|]; try done.
  cbn [possible_event_b possible_event] in *. apply andb_true_iff in He as [[Hu Hg]%andb_true_iff Hk]. split; [|split].
  - intros hs sh Hh Hd Hv. unfold unforged_b in Hu. rewrite Hh, Hd, Hv in Hu. simpl in Hu. by bool_to_prop.
  - intros est tr env Hs _ _ Hd. rewrite Hs, Hd in Hg. by apply genuine_b_ok.
  - apply Forall_forall. intros k Hin. rewrite forallb_forall in Hk. specialize (Hk k). rewrite <- list_elem_of_In in Hk.
    specialize (Hk Hin). by bool_to_prop.
Qed.

End Checker.

(** ** Properties *)

(** C1. Nothing runs on a host that was not authorized.  For every run of the coordinator
    and the host's agent, however operators, tasks, stores, broker, reconnects, renewals,
    crashes of the agent and restarts of the coordinator on its database interleave, and
    whatever the broker does (it may drop, reorder, replay, redirect and invent messages, and
    stand between the two in the handshake): each process the agent started and each shell it
    opened has its own allow record in the coordinator's audit log, for that capability, host
    and user; every record is what the policy decides for its subject; and each was permitted
    by the host's own allowlist.  Assumed of the cryptography: signatures of the coordinator's
    CA key are not forged, keys agreed between an ephemeral of the agent and one of the
    coordinator are secret, and the agent's ephemerals are fresh; and of the host: its identity
    pins that CA key. *)
Theorem nothing_runs_unauthorized `{CryptoLaws} `{ProstLaws} `{UuidLaws} `{X509} {P T R L E} `{PolicyPort P} `{JoinTokens T}
    `{Revocations R} `{!AuditPort L} `{!AuditLaws L} `{Epochs E} ca (policy : P) ttl has_sink debug_str host_id backstop h
    (t : T) (rv : R) (l : L) (ep : E) id jobs_dir state evs :
  is_ok (decode_msg (M := Dispatch) CTRL_SESSION_READY) = false ->
  Forall (record_honest policy) (log_records l) ->
  pins ca id ->
  let s0 := system_init (co_init t rv l ep) id jobs_dir state in
  possible_run ca policy ttl has_sink debug_str host_id backstop h s0 evs ->
  let s := run_system ca policy ttl has_sink debug_str host_id backstop h s0 evs in
  let audit := log_records (sv_audit (co_service (sy_co s))) in
  grant_for h <$> executed s ⊆+ omap grant_of audit /\
  Forall (record_honest policy) audit /\
  Forall (permitted backstop) (executed s).
Proof.
  intros Hready Hl Hpin s0 Hp s audit. destruct (system_init_inv ca policy ttl has_sink backstop h t rv l ep id jobs_dir state Hl Hpin) as [Hc0 Ha0].
  destruct (run_system_inv ca policy ttl has_sink debug_str host_id backstop h Hready s0 evs Hc0 Ha0 Hp) as [Hc [acts Ha]].
  fold s in Hc, Ha. split; [|split].
  - etrans; [apply fmap_submseteq; by eapply accounts_executed|]. by eapply covered_granted.
  - destruct Hc as (c0 & n0 & cevs & before & since & spent & Hc). apply Hc.
  - unfold executed. apply Forall_app. split; [apply (ac_jobs _ _ _ _ Ha)|apply (ac_shells _ _ _ _ Ha)].
Qed.

(** A session, a command, its delivery twice over, and its run. *)
Definition demo_sys_request : DispatchRequest :=
  mkDispatchRequest (Some (mkAction "exec" "*" "deploy" [])) (encode_msg (mkExecParams ["id"])).
Definition demo_sys0 : System JoinTokenRegistry RevocationRegistry (list AuditEntry) EpochRegistry :=
  system_init demo_co demo_id dir_empty dir_empty.
Definition demo_sys_run (evs : list SyEvent) : System JoinTokenRegistry RevocationRegistry (list AuditEntry) EpochRegistry :=
  run_system demo_ca demo_policy 0 false (fun x => x) (host_str demo_host) demo_allow demo_host demo_sys0 evs.
(** The [i]-th message an end has sent, as the broker hands it on. *)
Definition from_agent (evs : list SyEvent) (i : nat) : SyEvent :=
  match outbox (sy_agent (demo_sys_run evs)) !! i with
  | Some (topic, payload) => SyCo (CoMessage topic payload demo_env)
  | None => SyCo (CoSweep 0)
  end.
Definition from_coordinator (evs : list SyEvent) (i : nat) : SyEvent :=
  match published (co_bridge (sy_co (demo_sys_run evs))) !! i with
  | Some (topic, payload) => SyAgent (APublish topic payload demo_agent_env)
  | None => SyCo (CoSweep 0)
  end.
Definition demo_sys_evs : list SyEvent :=
  let e1 := [SyAgent (AConnAck demo_agent_env)] in
  let e2 := e1 ++ [from_agent e1 1] in
  let e3 := e2 ++ [from_coordinator e2 0; from_coordinator e2 1] in
  let e4 := e3 ++ (SyCo <$> CoService (SvExec 0 (Some "alice") demo_sys_request demo_sv_env) ::
                     (CoService <$> demo_steps) ++ repeat (CoTake demo_env) 3) in
  e4 ++ [from_coordinator e4 2; from_coordinator e4 2; SyRestart] ++ repeat (SyAgent (AJob 0 demo_task_env)) 4.

Lemma nothing_runs_unauthorized_witness :
  let s := demo_sys_run demo_sys_evs in
  grant_for demo_host <$> executed s = [("exec", Some (host_uuid demo_host), "deploy")] /\
  grant_for demo_host <$> executed s ⊆+ omap grant_of (log_records (sv_audit (co_service (sy_co s)))).
Proof.
  intros s. split; [vm_compute; reflexivity|].
  apply (nothing_runs_unauthorized demo_ca demo_policy 0 false (fun x => x) (host_str demo_host) demo_allow demo_host
    (JoinTokenRegistry_new (3600 * 1000000000)) (mkRevocationRegistry ∅) ([] : list AuditEntry) (mkEpochRegistry ∅)
    demo_id dir_empty dir_empty demo_sys_evs).
  - vm_compute. reflexivity.
  - constructor.
  - vm_compute. reflexivity.
  - apply possible_run_b_ok. vm_compute. reflexivity.
Defined.
