(* ===== verification/Startup.v ===== *)
(** * Coordinator start-up (osa-coordinator/src/main.rs, broker.rs [spawn], db.rs)

    From the command line to a serving coordinator: the addresses, the database or the
    in-memory stores, the CA, the broker's TLS material on disk, the broker and its bridge,
    the probe of its listener, the policy and the operator authentication.  The database
    outlives the process, so start-up is also how a restart finds its state again. *)
From S2P Require Import Prelude Proto Concrete Text Topics Seal Handshake Ip Registries Session Ca Broker Policy AuditLog Service Auth ShellStream Coordinator.

(** Seconds, and nanoseconds for the token lifetimes. *)
Definition HOST_CERT_TTL : Z := 24 * 3600.
Definition MAX_TOKEN_TTL : Z := 3600 * 1000000000.
Definition DEFAULT_TOKEN_TTL : Z := 900 * 1000000000.

Definition BROKER_CERT : string := "broker.crt".
Definition BROKER_KEY : string := "broker.key".
Definition CA_CERT : string := "ca.crt".

(** ** Socket addresses (std::net) *)

Record SocketAddr := mkSocketAddr { sa_ip : IpAddr; sa_port : Z }.
#[global] Instance SocketAddr_eq_dec : EqDecision SocketAddr.
Proof. solve_decision. Defined.

Definition read_port : reader Z := fun s =>
  let! c := read_given_char ":" s in read_number 10 65536 (String.length c.2) true c.2.
(** [%] and a decimal scope id, if there is one. *)
Definition read_scope : reader unit := fun s =>
  match read_given_char "%" s with
  | None => Some (tt, s)
  | Some (_, r) => let! n := read_number 10 (2 ^ 32) (String.length r) true r in Some (tt, n.2)
  end.
Definition read_socket_addr_v4 : reader SocketAddr := fun s =>
  let! ip := read_ipv4_addr s in
  let! port := read_port ip.2 in Some (mkSocketAddr (V4 ip.1) port.1, port.2).
Definition read_socket_addr_v6 : reader SocketAddr := fun s =>
  let! a := read_given_char "[" s in
  let! ip := read_ipv6_addr a.2 in
  let! scope := read_scope ip.2 in
  let! b := read_given_char "]" scope.2 in
  let! port := read_port b.2 in Some (mkSocketAddr (V6 ip.1) port.1, port.2).
Definition parse_socket_addr (s : string) : option SocketAddr :=
  match read_socket_addr_v4 s with
  | Some (a, EmptyString) => Some a
  | Some (_, _) => None
  | None => match read_socket_addr_v6 s with Some (a, EmptyString) => Some a | _ => None end
  end.

Definition is_unspecified (a : IpAddr) : bool := match a with V4 n | V6 n => n =? 0 end.
Definition LOCALHOST : IpAddr := V4 (127 * 2 ^ 24 + 1).

(** [Display] of a port error (ports.rs). *)
Definition PortError_display (e : PortError) : string :=
  match e with
  | Transport m => "transport failure: " +:+ m
  | Denied => "denied by policy"
  | NotFound => "not found"
  | Invalid m => "invalid input: " +:+ m
  | Backend m => "backend failure: " +:+ m
  end.

(** ** The broker's TLS files *)

Record TlsFile := mkTlsFile { tf_contents : string; tf_mode : Z }.
Abbreviation TlsDir := (gmap string TlsFile).

(** Open to write, create, truncate: the mode, less the process's umask, is that of a
    new file; an existing one keeps its own. *)
Definition create_file (umask : Z) (d : TlsDir) (name : string) (mode : Z) (contents : string) (fault : option string)
    : result TlsDir string :=
  match fault with
  | Some e => Err e
  | None =>
      let m := match d !! name with Some f => tf_mode f | None => Z.land mode (Z.lnot umask) end in
      Ok (<[name := mkTlsFile contents m]> d)
  end.
(** [std::fs::write] creates with 0666. *)
Definition fs_write (umask : Z) d name contents fault := create_file umask d name 438 contents fault.
(** [write_secret]: 0600. *)
Definition write_secret (umask : Z) d name contents fault := create_file umask d name 384 contents fault.

(** ** The broker *)

(** What [spawn] configures of the broker's listener. *)
Record BrokerConfig := mkBrokerConfig {
  bc_listen : SocketAddr; bc_capath : option string; bc_certpath : string; bc_keypath : string;
  bc_max_payload_size : Z; bc_max_connections : Z
}.
Definition broker_config (addr : SocketAddr) : BrokerConfig :=
  mkBrokerConfig addr (Some CA_CERT) BROKER_CERT BROKER_KEY 1048576 10010.

Definition BRIDGE_FILTERS : list string :=
  [HEARTBEAT_FILTER; HS_UP_FILTER; CTRL_UP_FILTER; RESULT_UP_FILTER; STREAM_UP_FILTER; INVENTORY_UP_FILTER].

(** [spawn]: the link, one subscription after the other, the broker's thread and the
    receive thread. *)
Record SpawnEnv := mkSpawnEnv { sp_link : bool; sp_subscribe : string -> bool; sp_broker_thread : bool; sp_recv_thread : bool }.
Fixpoint subscribe_all (ok : string -> bool) (filters done : list string) : result (list string) string :=
  match filters with
  | [] => Ok done
  | f :: fs => if ok f then subscribe_all ok fs (done ++ [f]) else Err ("subscribing bridge to " +:+ f)
  end.
Definition spawn (addr : SocketAddr) (e : SpawnEnv) : result (BrokerConfig * list string) string :=
  if negb (sp_link e) then Err "creating broker bridge link"
  else
    let? filters := subscribe_all (sp_subscribe e) BRIDGE_FILTERS [] in
    if negb (sp_broker_thread e) then Err "spawning broker thread"
    else if negb (sp_recv_thread e) then Err "spawning bridge receive thread"
    else Ok (broker_config addr, filters).

(** [wait_until_listening]: the address probed, and up to 50 probes 100 ms apart; [Ok] has
    the number of sleeps. *)
Definition PROBES : nat := 50.
Definition probe_addr (addr : SocketAddr) : SocketAddr :=
  if is_unspecified (sa_ip addr) then mkSocketAddr LOCALHOST (sa_port addr) else addr.
Fixpoint probe_from (connects : nat -> bool) (n i : nat) : result nat string :=
  match n with
  | O => Err "embedded broker did not start listening"
  | S n => if connects i then Ok i else probe_from connects n (S i)
  end.
Definition wait_until_listening (addr : SocketAddr) (connect : SocketAddr -> nat -> bool) : result nat string :=
  probe_from (connect (probe_addr addr)) PROBES 0.

(** ** main *)

(** The tables of the database. *)
Record Database := mkDatabase {
  db_ca : list CaMaterial; db_tokens : TokenTable; db_revocations : PgRevocations; db_audit : PgAudit; db_epochs : PgEpochs
}.

Record Cli := mkCli { cli_grpc_bind : string; cli_mqtt_bind : string; cli_broker_dns : list string; cli_database_url : option string; cli_opts : CoordCli }.

(** What the environment answers during start-up. *)
Record BootEnv := mkBootEnv {
  be_connect : string -> option string; be_migrate : option string; be_ca_faults : Fault * Fault * Fault;
  be_now : Z; be_ca_key : result string string; be_server_key : result string string;
  be_tempdir : option string; be_umask : Z; be_write : string -> option string;
  be_netbox : string -> string -> result unit string; be_spawn : SpawnEnv; be_probe : SocketAddr -> nat -> bool;
  be_read_policy : string -> result string string; be_parse_policy : string -> option PolicyDoc;
  be_read_jwks : string -> result bytes string; be_get : string -> Response
}.

Section Main.
Context `{Crypto} `{UuidLib} `{X509} `{Jwt} `{UrlLib}.

(** A coordinator that serves: what it was set up with, and its state. *)
Record Front := mkFront {
  fo_ca : EmbeddedCa; fo_tls : TlsDir; fo_sink : option (string * string); fo_broker : BrokerConfig; fo_filters : list string;
  fo_policy : RbacPolicyEngine; fo_auth : option (JwtValidator * option (OidcConfig * string)); fo_bind : SocketAddr
}.
Record Serving (T R L E : Type) := mkServing { sv_front : Front; sv_state : Coordinator T R L E }.
#[global] Arguments mkServing {T R L E} _ _.
#[global] Arguments sv_front {T R L E} _.
#[global] Arguments sv_state {T R L E} _.

(** On Postgres, or in memory. *)
Inductive Process :=
| OnDatabase (s : Serving PgTokens PgRevocations PgAudit PgEpochs)
| InMemory (s : Serving JoinTokenRegistry RevocationRegistry (list AuditEntry) EpochRegistry).
Definition front (p : Process) : Front := match p with OnDatabase s => sv_front s | InMemory s => sv_front s end.

Definition port_text {A} (r : result A PortError) : result A string :=
  map_err PortError_display r.

(** The pool (db.rs): connecting, and the pending migrations. *)
Definition connect (e : BootEnv) (url : string) : result unit string :=
  match be_connect e url with Some _ => Err "connecting to Postgres" | None => Ok tt end.
Definition migrate (e : BootEnv) : result unit string :=
  match be_migrate e with Some _ => Err "running database migrations" | None => Ok tt end.

(** The three TLS files in a fresh directory. *)
Definition write_tls (e : BootEnv) (ca : EmbeddedCa) (cert : ServerCert) : result TlsDir string :=
  let? d := fs_write (be_umask e) ∅ BROKER_CERT (sc_cert_pem cert) (be_write e BROKER_CERT) in
  let? d := write_secret (be_umask e) d BROKER_KEY (sc_key_pem cert) (be_write e BROKER_KEY) in
  fs_write (be_umask e) d CA_CERT (ca_cert_pem ca) (be_write e CA_CERT).

(** [main] once CA and stores are there, up to [serve]. *)
Definition serve_with {T R L E} (cli : Cli) (e : BootEnv) (addr mqtt : SocketAddr) (ca : EmbeddedCa) (t : T) (rv : R) (l : L) (ep : E)
    : result (Serving T R L E) string :=
  match be_tempdir e with
  | Some _ => Err "creating broker cert dir"
  | None =>
      let? cert := port_text (issue_server_cert ca (cli_broker_dns cli) (be_now e) (be_server_key e)) in
      let? tls := write_tls e ca cert in
      let? sink := build_inventory_sink (be_netbox e) (cli_opts cli) in
      let? broker := spawn mqtt (be_spawn e) in
      let? _ := wait_until_listening mqtt (be_probe e) in
      let? policy := build_policy_engine (be_read_policy e) (be_parse_policy e) (cli_opts cli) in
      let? auth := build_operator_auth (be_read_jwks e) (be_get e) (cli_opts cli) in
      Ok (mkServing (mkFront ca tls sink broker.1 broker.2 policy auth addr) (co_init t rv l ep))
  end.

Definition main (db : Database) (cli : Cli) (e : BootEnv) : Database * result Process string :=
  match parse_socket_addr (cli_grpc_bind cli), parse_socket_addr (cli_mqtt_bind cli) with
  | None, _ => (db, Err "invalid --grpc-bind")
  | _, None => (db, Err "invalid --mqtt-bind")
  | Some addr, Some mqtt =>
      match cli_database_url cli with
      | Some url =>
          match (let? _ := connect e url in migrate e) with
          | Err m => (db, Err m)
          | Ok _ =>
              let '(f1, f2, f3) := be_ca_faults e in
              let '(table, ca) := load_or_generate (db_ca db) HOST_CERT_TTL (be_now e) (be_ca_key e) f1 f2 f3 in
              let db := mkDatabase table (db_tokens db) (db_revocations db) (db_audit db) (db_epochs db) in
              (db, let? ca := port_text ca in
                   let? s := serve_with cli e addr mqtt ca (mkPgTokens MAX_TOKEN_TTL DEFAULT_MAX_OUTSTANDING (db_tokens db))
                               (db_revocations db) (db_audit db) (db_epochs db) in
                   Ok (OnDatabase s))
          end
      | None =>
          (db, let? ca := port_text (generate HOST_CERT_TTL (be_now e) (be_ca_key e)) in
               let? s := serve_with cli e addr mqtt ca.1 (JoinTokenRegistry_new MAX_TOKEN_TTL) (mkRevocationRegistry ∅) []
                           (mkEpochRegistry ∅) in
               Ok (InMemory s))
      end
  end.

(** The database when a process on it stops: its tables as the process left them. *)
Definition left_behind (db : Database) (c : Coordinator PgTokens PgRevocations PgAudit PgEpochs) : Database :=
  mkDatabase (db_ca db) (pt_table (sv_tokens (co_service c))) (sv_revocations (co_service c)) (sv_audit (co_service c))
    (epochs (co_bridge c)).

End Main.

(** ** Lemmas *)

Lemma subscribe_all_ok ok filters acc r : subscribe_all ok filters acc = Ok r -> r = acc ++ filters.
Proof.
  revert acc. induction filters as [|f fs IH]; intros acc; simpl; [intros [= <-]; by rewrite app_nil_r|].
  destruct (ok f); [|done]. intros ->%IH. by rewrite <- app_assoc.
Qed.

Lemma spawn_ok addr e bc filters : spawn addr e = Ok (bc, filters) -> bc = broker_config addr /\ filters = BRIDGE_FILTERS.
Proof.
  unfold spawn. destruct (negb (sp_link e)); [done|]. destruct (subscribe_all _ _ _) as [fs|] eqn:Es; [|done].
  apply subscribe_all_ok in Es as ->. simpl. destruct (negb (sp_broker_thread e)); [done|]. destruct (negb (sp_recv_thread e)); [done|].
  by intros [= <- <-].
Qed.

Lemma probe_from_spec connects n i :
  match probe_from connects n i with
  | Ok k => (i <= k < i + n)%nat /\ connects k = true /\ forall j, (i <= j < k)%nat -> connects j = false
  | Err _ => forall j, (i <= j < i + n)%nat -> connects j = false
  end.
Proof.
  revert i. induction n as [|n IH]; intros i; simpl; [lia|]. destruct (connects i) eqn:Ei; [split; [lia|split; [done|lia]]|].
  specialize (IH (S i)). destruct (probe_from _ _ _) as [k|].
  - destruct IH as (Hk & Hc & Hj). split; [lia|]. split; [done|]. intros j Hle. destruct (decide (j = i)) as [->|]; [done|]. apply Hj. lia.
  - intros j Hle. destruct (decide (j = i)) as [->|]; [done|]. apply IH. lia.
Qed.

(** No bit for group or others survives, whatever the umask. *)
Lemma secret_mode umask : Z.land (Z.land 384 (Z.lnot umask)) 63 = 0.
Proof. rewrite <- Z.land_assoc, (Z.land_comm (Z.lnot umask)), Z.land_assoc. change (Z.land 384 63) with 0. apply Z.land_0_l. Qed.

Section MainLemmas.
Context `{Crypto} `{UuidLib} `{X509} `{Jwt} `{UrlLib}.

Lemma write_tls_ok e ca cert d :
  write_tls e ca cert = Ok d ->
  tf_contents <$> d !! BROKER_CERT = Some (sc_cert_pem cert) /\
  d !! BROKER_KEY = Some (mkTlsFile (sc_key_pem cert) (Z.land 384 (Z.lnot (be_umask e)))) /\
  tf_contents <$> d !! CA_CERT = Some (ca_cert_pem ca).
Proof.
  unfold write_tls, fs_write, write_secret, create_file.
  destruct (be_write e BROKER_CERT); [done|]. simpl. destruct (be_write e BROKER_KEY); [done|]. simpl.
  destruct (be_write e CA_CERT); [done|]. intros [= <-].
  rewrite lookup_insert_eq, !(lookup_insert_ne _ CA_CERT) by done. rewrite lookup_insert_eq.
  rewrite !(lookup_insert_ne _ BROKER_KEY) by done. by rewrite lookup_insert_eq.
Qed.

(** What a coordinator that serves was built from. *)
Record served_by (cli : Cli) (e : BootEnv) (addr mqtt : SocketAddr) (ca : EmbeddedCa) (f : Front) : Prop := {
  sb_cert : exists cert, issue_server_cert ca (cli_broker_dns cli) (be_now e) (be_server_key e) = Ok cert /\
    write_tls e ca cert = Ok (fo_tls f);
  sb_probe : exists n, wait_until_listening mqtt (be_probe e) = Ok n;
  sb_broker : fo_broker f = broker_config mqtt /\ fo_filters f = BRIDGE_FILTERS;
  sb_policy : build_policy_engine (be_read_policy e) (be_parse_policy e) (cli_opts cli) = Ok (fo_policy f);
  sb_auth : build_operator_auth (be_read_jwks e) (be_get e) (cli_opts cli) = Ok (fo_auth f);
  sb_ca : fo_ca f = ca
}.

Lemma serve_with_inv {T R L E} cli e addr mqtt ca (t : T) (rv : R) (l : L) (ep : E) s :
  serve_with cli e addr mqtt ca t rv l ep = Ok s ->
  served_by cli e addr mqtt ca (sv_front s) /\ sv_state s = co_init t rv l ep.
Proof.
  unfold serve_with. destruct (be_tempdir e); [done|].
  destruct (issue_server_cert _ _ _ _) as [cert|] eqn:Ec; [|done]. simpl.
  destruct (write_tls e ca cert) as [tls|] eqn:Et; [|done]. simpl.
  destruct (build_inventory_sink _ _) as [sink|] eqn:Ei; [|done]. simpl.
  destruct (spawn mqtt _) as [[bc fs]|] eqn:Es; [|done]. apply spawn_ok in Es as [-> ->]. simpl.
  destruct (wait_until_listening _ _) as [n|] eqn:Ew; [|done]. simpl.
  destruct (build_policy_engine _ _ _) as [policy|] eqn:Ep; [|done]. simpl.
  destruct (build_operator_auth _ _ _) as [auth|] eqn:Ea; [|done]. simpl. intros [= <-].
  split; [|done]. split; simpl; eauto.
Qed.

Lemma main_inv db cli e db' p :
  main db cli e = (db', Ok p) ->
  exists addr mqtt, parse_socket_addr (cli_grpc_bind cli) = Some addr /\ parse_socket_addr (cli_mqtt_bind cli) = Some mqtt /\
    served_by cli e addr mqtt (fo_ca (front p)) (front p) /\
    match p with
    | OnDatabase s => exists f1 f2 f3,
        load_or_generate (db_ca db) HOST_CERT_TTL (be_now e) (be_ca_key e) f1 f2 f3 = (db_ca db', Ok (fo_ca (sv_front s))) /\
        sv_state s = co_init (mkPgTokens MAX_TOKEN_TTL DEFAULT_MAX_OUTSTANDING (db_tokens db)) (db_revocations db) (db_audit db) (db_epochs db)
    | InMemory s => True
    end.
Proof.
  unfold main. destruct (parse_socket_addr (cli_grpc_bind cli)) as [addr|]; [|done].
  destruct (parse_socket_addr (cli_mqtt_bind cli)) as [mqtt|]; [|done]. intros Hm. exists addr, mqtt. do 2 (split; [done|]).
  destruct (cli_database_url cli) as [url|].
  - destruct (connect e url); [|done]. simpl in Hm. destruct (migrate e); [|done]. destruct (be_ca_faults e) as [[f1 f2] f3].
    destruct (load_or_generate _ _ _ _ _ _ _) as [table [ca|]] eqn:El; [|done]. simpl in Hm.
    destruct (serve_with _ _ _ _ _ _ _ _ _) as [s|] eqn:Es; [|done]. injection Hm as <- <-.
    apply serve_with_inv in Es as [Hs Hst]. pose proof (sb_ca _ _ _ _ _ _ Hs) as <-. split; [done|]. by exists f1, f2, f3.
  - destruct (generate _ _ _) as [[ca mat]|]; [|done]. simpl in Hm.
    destruct (serve_with _ _ _ _ _ _ _ _ _) as [s|] eqn:Es; [|done]. injection Hm as <- <-.
    apply serve_with_inv in Es as [Hs Hst]. by pose proof (sb_ca _ _ _ _ _ _ Hs) as <-.
Qed.

End MainLemmas.

Section Tables.
Context `{Crypto} `{Prost} `{UuidLib} `{X509} {P L E : Type} `{PolicyPort P} {R : Type} `{Revocations R} `{AuditPort L} `{Epochs E}.
Context (ca : EmbeddedCa) (policy : P) (default_ttl : Z) (has_sink : bool).

(** The token adapter's configuration, which its tables do not hold. *)
Definition token_limits (t : PgTokens) : Z * nat := (pt_max_ttl t, pt_cap t).

Lemma mint_limits (t : PgTokens) e ttl : token_limits (fst (token_mint t e ttl)) = token_limits t.
Proof. simpl. destruct (me_faults e) as [[f1 f2] f3]. by destruct (PgJoinTokens_mint _ _ _ _ _ _ _ _ _ _). Qed.

Lemma redeem_limits (t : PgTokens) e token : token_limits (fst (token_redeem t e token)) = token_limits t.
Proof. simpl. by destruct (PgJoinTokens_redeem _ _ _ _ _). Qed.

Lemma service_step_limits (s : Service PgTokens R L) ev :
  token_limits (sv_tokens (service_step ca policy default_ttl s ev)) = token_limits (sv_tokens s).
Proof.
  assert (forall ok cmd (x : Service PgTokens R L), sv_tokens (fst (bridge_send x ok cmd)) = sv_tokens x) as Hb by (by intros []).
  destruct ev as [i bound req e|i e|i bound first e|i msg e|bound req e|ttl e|h e|token csr e re]; cbn [service_step].
  - destruct (sv_execs s !! i); [done|]. unfold exec. by repeat case_match; simpl; rewrite ?Hb.
  - unfold exec_step. destruct (sv_execs s !! i) as [t|]; [|done]. destruct (et_allowed t).
    + destruct (se_bridge e); done.
    + destruct (et_hosts t) as [|host hosts]; [done|].
      destruct (authorize_frame policy s (et_subject t) (mkAction (et_kind t) (uuid_to_string (host_uuid host)) (et_run_as t) (et_params_hash t)) e) as [l Hl].
      destruct (authorize_and_audit _ _ _ _ _) as [s1 [[]|]]; simpl in Hl; by subst s1.
  - destruct (sv_shells s !! i); [done|]. unfold shell. destruct first as [[o|d|b]|]; try done. unfold authorize_shell_open.
    destruct (uuid_parse _) as [u|]; [|done]. set (ac := mkAction _ _ _ _).
    destruct (authorize_frame policy s (operator_of bound) ac e) as [l Hl].
    destruct (authorize_and_audit _ _ _ _ _) as [s1 [[]|]]; simpl in Hl; by subst s1.
  - unfold shell_step. destruct (sv_shells s !! i) as [t|]; [|done].
    destruct (sk_phase t), msg as [[]|], (se_bridge e); done.
  - unfold dispatch. destruct (dr_action req) as [ac|]; [|done]. destruct (is_empty _); [done|].
    destruct (authorize_frame policy s (operator_of bound) ac e) as [l Hl].
    destruct (authorize_and_audit _ _ _ _ _) as [s1 [[]|]]; simpl in Hl; by subst s1.
  - unfold mint_token. pose proof (mint_limits (sv_tokens s) e (if bval ttl =? 0 then default_ttl else bval ttl * 1000000000)) as Hm.
    destruct (token_mint _ _ _) as [t r]. by repeat case_match.
  - unfold revoke_host. by repeat case_match.
  - unfold enroll. destruct (validate_csr csr); [|done]. pose proof (redeem_limits (sv_tokens s) re token) as Hm.
    destruct (token_redeem _ _ _) as [t r]. by repeat case_match.
Qed.

Lemma run_limits (c : Coordinator PgTokens R L E) evs :
  token_limits (sv_tokens (co_service (run_coordinator ca policy default_ttl has_sink c evs))) = token_limits (sv_tokens (co_service c)).
Proof.
  revert c. induction evs as [|ev evs IH]; intros c; [done|]. simpl. etrans; [apply IH|].
  destruct (co_step_service ca policy default_ttl has_sink c ev) as [->|(sv & _ & ->)]; [done|apply service_step_limits].
Qed.

End Tables.

(** ** Properties *)

(** C11. A coordinator serves only when it is ready and closed.  Whenever start-up reaches
    its gRPC server, on a database or in memory: the broker demands client certificates
    signed by the coordinator's own CA, presents a certificate that CA signed for the
    configured names, and its private key is in a file no other user can read, whatever the
    umask; the broker has accepted a connection within fifty probes; the bridge is
    subscribed to every uplink topic of every host; without a policy file every action is
    denied; and operator authentication is off only if no OIDC option was given. *)
Theorem coordinator_serves_only_when_ready `{Crypto} `{UuidLib} `{X509Laws} `{Jwt} `{UrlLib} db cli e db' p :
  main db cli e = (db', Ok p) ->
  let f := front p in
  (bc_capath (fo_broker f) = Some CA_CERT /\ tf_contents <$> fo_tls f !! CA_CERT = Some (ca_cert_pem (fo_ca f))) /\
  (exists der c, tf_contents <$> fo_tls f !! bc_certpath (fo_broker f) = Some (pem_of_der der) /\ x509_from_der der = Ok c /\
     xc_sans c = Some (GnDns <$> cli_broker_dns cli) /\
     forall pub, key_from_pem (ca_key_pem (fo_ca f)) = Ok pub -> x509_verify_signature c pub = true) /\
  (exists key, fo_tls f !! bc_keypath (fo_broker f) = Some key /\ Z.land (tf_mode key) 63 = 0) /\
  (exists n, (n < 50)%nat /\ be_probe e (probe_addr (bc_listen (fo_broker f))) n = true) /\
  (forall h topic, has_char "/" h = false ->
     topic ∈ [heartbeat h; hs_up h; ctrl_up h; result_up h; stream_up h; inventory_up h] ->
     exists flt, flt ∈ fo_filters f /\ filter_matches flt topic = true) /\
  (rbac_policy (cli_opts cli) = None -> forall subject action, authorize (fo_policy f) subject action = Err Denied) /\
  (fo_auth f = None <-> let o := cli_opts cli in
     oidc_issuer o = None /\ oidc_audience o = None /\ oidc_jwks o = None /\ oidc_jwks_url o = None).
Proof.
  intros (addr & mqtt & _ & _ & [(cert & Hc & Hw) [n Hn] [Hb Hfl] Hp Ha _] & _)%main_inv f.
  apply write_tls_ok in Hw as (Hw1 & Hw2 & Hw3). fold f in Hw1, Hw2, Hw3, Hb, Hfl, Hp, Ha, Hc. rewrite Hb, Hfl. simpl.
  split; [done|]. split; [|split; [|split; [|split; [|split]]]].
  - unfold issue_server_cert in Hc. destruct (cli_broker_dns cli) as [|d ds]; [done|].
    destruct (be_server_key e) as [kp|]; [|done]. simpl in Hc. destruct (_ && _); [|done]. simpl in Hc.
    destruct (key_from_pem kp); [|done]. simpl in Hc. destruct (x509_sign _ _ _) as [der|] eqn:Es; [|done]. simpl in Hc.
    injection Hc as <-. destruct (sign_parses _ _ _ _ Es) as (c & Hd & _ & Hs & _ & _ & _ & Hv). by exists der, c.
  - rewrite Hw2. eexists. split; [done|]. apply secret_mode.
  - unfold wait_until_listening in Hn. pose proof (probe_from_spec (be_probe e (probe_addr mqtt)) PROBES 0) as Hs. rewrite Hn in Hs.
    unfold PROBES in Hs. exists n. split; [lia|tauto].
  - intros h topic Hh. destruct (filters_cover_uplinks h Hh) as (F1 & F2 & F3 & F4 & F5 & F6).
    intros Ht. repeat (apply elem_of_cons in Ht as [->|Ht]); [eexists; split; [|eassumption]; unfold BRIDGE_FILTERS; set_solver..|].
    by apply not_elem_of_nil in Ht.
  - intros Hnone subject action. unfold build_policy_engine in Hp. rewrite Hnone in Hp. injection Hp as <-.
    unfold authorize. by destruct (uuid_parse _).
  - rewrite <- (build_operator_auth_none (be_read_jwks e) (be_get e)). rewrite Ha. split; congruence.
Qed.

(** C12. A restart on the database forgets nothing.  When a coordinator on Postgres stops,
    after any run, and one starts again on what it left behind (with other options, another
    clock and another key generator): it has the same CA, so every certificate issued before
    still verifies; its tokens, revocations, audit log and session epochs are exactly those
    left; every host revoked before stays without a session, in whatever run follows, and
    cannot renew. *)
Theorem restart_forgets_nothing `{Crypto} `{Prost} `{UuidLaws} `{X509Laws} `{Jwt} `{UrlLib} {P} `{PolicyPort P}
    (policy policy' : P) db cli e db1 s1 evs cli' e' db2 s2 :
  main db cli e = (db1, Ok (OnDatabase s1)) ->
  let ca := fo_ca (sv_front s1) in
  let c := run_coordinator ca policy DEFAULT_TOKEN_TTL (bool_decide (is_Some (fo_sink (sv_front s1)))) (sv_state s1) evs in
  main (left_behind db1 c) cli' e' = (db2, Ok (OnDatabase s2)) ->
  fo_ca (sv_front s2) = ca /\ sv_state s2 = co_restart c /\
  (forall h, h ∈ revoked_set (sv_revocations (co_service c)) ->
     forall has_sink evs', let c' := run_coordinator ca policy' DEFAULT_TOKEN_TTL has_sink (sv_state s2) evs' in
     session_of c' h = None /\
     (forall cert csr now e', validate_renewal ca cert csr now = Ok h -> is_ok (renew ca (co_service c') cert csr now e') = false)).
Proof.
  intros (_ & _ & _ & _ & _ & f1 & f2 & f3 & Hca1 & Hst1)%main_inv ca c
    (_ & _ & _ & _ & _ & f1' & f2' & f3' & Hca2 & Hst2)%main_inv.
  change (front (OnDatabase s1)) with (sv_front s1) in *. fold ca in Hca1.
  assert (fo_ca (sv_front s2) = ca) as Hca.
  { pose proof (load_or_generate_material _ _ _ _ _ _ _ _ _ Hca1) as Hm1. pose proof (load_or_generate_material _ _ _ _ _ _ _ _ _ Hca2) as Hm2.
    apply load_or_generate_table in Hca1 as [Hh _], Hca2 as [Hh2 Hsame]. specialize (Hh _ eq_refl). specialize (Hsame _ Hh).
    rewrite Hsame in Hh2. specialize (Hh2 _ eq_refl). simpl in Hh2. rewrite Hh in Hh2. injection Hh2 as Hc Hk. rewrite Hc, Hk in Hm1. congruence. }
  assert (sv_state s2 = co_restart c) as Hst.
  { rewrite Hst2. unfold co_restart, left_behind. simpl. do 2 f_equal.
    pose proof (run_limits ca policy DEFAULT_TOKEN_TTL (bool_decide (is_Some (fo_sink (sv_front s1)))) (sv_state s1) evs) as Hl.
    fold c in Hl. rewrite Hst1 in Hl. unfold token_limits in Hl. simpl in Hl. injection Hl as Hl1 Hl2.
    destruct (sv_tokens (co_service c)) as [m k tb]. simpl in *. by subst. }
  split; [done|]. split; [done|]. intros h Hh has_sink evs'. rewrite Hst. intros c'.
  assert (revoked_inv h (co_restart c)) as Hr by (by split).
  destruct (revoked_run ca policy' DEFAULT_TOKEN_TTL has_sink h _ evs' Hr) as (Hin & _ & Hsid). fold c' in Hin, Hsid. specialize (Hsid eq_refl). split.
  - unfold session_of at 2 in Hsid. simpl in Hsid. by destruct (session_of c' h).
  - intros cert csr now e0 Hv. pose proof (revoked_check ca h c' cert csr now e0 Hin) as Hno.
    unfold renew, renew_check in *. rewrite Hv in *. by destruct (is_revoked _ _ _) as [[]|].
Qed.

(** ** Witnesses *)

#[local] Instance no_urls : UrlLib := fun _ => None.

Definition demo_cli (database : option string) : Cli :=
  mkCli "0.0.0.0:8443" "[::]:8883" ["localhost"] database (mkCoordCli None None None None 300 60 None None None).
(** The listener comes up at the fourth probe; the umask is 022. *)
Definition demo_boot (ca_key : string) : BootEnv :=
  mkBootEnv (fun _ => None) None (NoFault, NoFault, NoFault) 0 (Ok ca_key) (Ok "server-key") None 18 (fun _ => None)
    (fun _ _ => Ok tt) (mkSpawnEnv true (fun _ => true) true true)
    (fun a n => bool_decide (a = mkSocketAddr LOCALHOST 8883) && bool_decide (3 <= n)%nat)
    (fun _ => Err "no file") (fun _ => None) (fun _ => Err "no file") (fun _ => FetchFailed "no network").
Definition demo_db : Database := mkDatabase [] ∅ (mkPgRevocations ∅) (mkPgAudit []) (mkPgEpochs ∅).

(** Whatever [main] returned, if it returned a coordinator. *)
Lemma main_ok db cli e : is_ok (snd (main db cli e)) = true -> exists db' p, main db cli e = (db', Ok p).
Proof. destruct (main db cli e) as [db' [p|]]; [eauto|done]. Qed.

Lemma coordinator_serves_only_when_ready_witness :
  exists db' p, main demo_db (demo_cli None) (demo_boot "ca-key") = (db', Ok p) /\
    (exists key, fo_tls (front p) !! bc_keypath (fo_broker (front p)) = Some key /\ Z.land (tf_mode key) 63 = 0) /\
    authorize (fo_policy (front p)) "alice" (mkAction "exec" "h" "root" []) = Err Denied.
Proof.
  destruct (main_ok demo_db (demo_cli None) (demo_boot "ca-key")) as (db' & p & Hm); [vm_compute; reflexivity|].
  exists db', p. split; [exact Hm|].
  destruct (coordinator_serves_only_when_ready _ _ _ _ _ Hm) as (_ & _ & Hk & _ & _ & Hp & _). split; [exact Hk|].
  apply Hp. reflexivity.
Defined.

(** A first start, a host revoked, and a start with another key generator. *)
Definition demo_revoke : list CoEvent := [CoService (SvRevoke (uuid_to_string (host_uuid demo_host)) demo_sv_env)].

Definition demo_restarts : bool :=
  match main demo_db (demo_cli (Some "postgres://db")) (demo_boot "ca-key") with
  | (db1, Ok (OnDatabase s1)) =>
      bool_decide (fo_sink (sv_front s1) = None) &&
      let c := run_coordinator (fo_ca (sv_front s1)) demo_policy DEFAULT_TOKEN_TTL false (sv_state s1) demo_revoke in
      match snd (main (left_behind db1 c) (demo_cli (Some "postgres://db")) (demo_boot "other-key")) with
      | Ok (OnDatabase _) => true
      | _ => false
      end
  | _ => false
  end.

Lemma restart_forgets_nothing_witness :
  exists db1 s1, main demo_db (demo_cli (Some "postgres://db")) (demo_boot "ca-key") = (db1, Ok (OnDatabase s1)) /\
  let c := run_coordinator (fo_ca (sv_front s1)) demo_policy DEFAULT_TOKEN_TTL false (sv_state s1) demo_revoke in
  exists db2 s2, main (left_behind db1 c) (demo_cli (Some "postgres://db")) (demo_boot "other-key") = (db2, Ok (OnDatabase s2)) /\
    fo_ca (sv_front s2) = fo_ca (sv_front s1) /\ sv_state s2 = co_restart c.
Proof.
  assert (demo_restarts = true) as Hb by (vm_compute; reflexivity). unfold demo_restarts in Hb.
  destruct (main demo_db (demo_cli (Some "postgres://db")) (demo_boot "ca-key")) as [db1 [[s1|]|]] eqn:E1; [|discriminate Hb..].
  exists db1, s1. split; [reflexivity|]. intros c.
  apply andb_true_iff in Hb as [Hsink Hb]. apply bool_decide_eq_true_1 in Hsink. fold c in Hb.
  destruct (main (left_behind db1 c) (demo_cli (Some "postgres://db")) (demo_boot "other-key")) as [db2 [[s2|]|]] eqn:E2;
    [|discriminate Hb..]. exists db2, s2. split; [reflexivity|].
  assert (bool_decide (is_Some (fo_sink (sv_front s1))) = false) as Hs by (rewrite Hsink; reflexivity).
  pose proof (restart_forgets_nothing demo_policy demo_policy demo_db _ _ db1 s1 demo_revoke
    (demo_cli (Some "postgres://db")) (demo_boot "other-key") db2 s2 E1) as Hr. rewrite Hs in Hr.
  destruct (Hr E2) as (Hca & Hst & _). split; [exact Hca|exact Hst].
Defined.
