(* ===== verification/Command.v ===== *)
(** * A command from the operator's terminal to the process

    [osa exec] (osa-cli), the fan-out of the coordinator's service, and the job runner of
    the agent, end to end: what the operator typed is what runs, as the user it was typed
    for. *)
From S2P Require Import Prelude Proto Concrete Seal Handshake Disk Allowlist Registries Ca Broker Policy AuditLog Service Cli Exec JobRunner ShellStream Coordinator.

(** ** Lemmas: the fan-out *)

Section Fanout.
Context `{Crypto} `{UuidLaws} `{X509} {P T R L : Type} `{PolicyPort P} `{JoinTokens T} `{Revocations R} `{!AuditPort L} `{!AuditLaws L}.
Context (ca : EmbeddedCa) (policy : P) (default_ttl : Z) (i : nat) (kind run_as : string) (params : bytes).
Implicit Type s : Service T R L.

(** Fan-out [i] dispatches these parameters, as this user. *)
Record typed s : Prop := {
  ty_channels : channels_ok s;
  ty_task : forall t, sv_execs s !! i = Some t -> (et_kind t, et_run_as t, et_params t) = (kind, run_as, params);
  ty_commands : forall h d, CmdDispatch h d i ∈ sv_commands s -> (d_kind d, d_run_as d, d_params d) = (kind, run_as, params)
}.

(** Commands that dispatch nothing on channel [i]. *)
Definition elsewhere (cmd : BridgeCommand) : Prop := match cmd with CmdDispatch _ _ ch => ch <> i | _ => True end.

Lemma typed_frame s s' cmds :
  typed s -> channels_ok s' -> (forall t, sv_execs s' !! i = Some t -> sv_execs s !! i = Some t) -> sv_commands s' = sv_commands s ++ cmds ->
  Forall elsewhere cmds -> typed s'.
Proof.
  intros [Hc Ht Hd] Hc' Hx Hcm Hf. split; [done|by auto|]. intros h d. rewrite Hcm, elem_of_app. intros [?|Hin]; [by eapply Hd|].
  rewrite Forall_forall in Hf. by destruct (Hf _ Hin).
Qed.

(** A step that leaves the fan-outs and dispatches nothing. *)
Lemma typed_quiet s s' cmds :
  typed s -> sv_execs s' = sv_execs s -> sv_commands s' = sv_commands s ++ cmds -> Forall elsewhere cmds -> typed s'.
Proof. intros Ht Hx. apply typed_frame; [done| |by rewrite Hx]. unfold channels_ok. rewrite Hx. apply Ht. Qed.

(** The next turn of a task. *)
Lemma typed_set s s' j t hosts al cmds :
  typed s -> sv_execs s !! j = Some t -> sv_execs s' = sv_execs s -> sv_commands s' = sv_commands s ++ cmds ->
  Forall (fun cmd => elsewhere cmd \/ j = i /\ exists h d ch, cmd = CmdDispatch h d ch /\ (d_kind d, d_run_as d, d_params d) = (et_kind t, et_run_as t, et_params t)) cmds ->
  typed (set_exec s' j t hosts al).
Proof.
  intros [Hc Ht Hd] Hj Hx Hcm Hf. split.
  - unfold channels_ok, set_exec. simpl. rewrite Hx. apply map_Forall_insert_2; [|done]. exact (Hc j t Hj).
  - intros u. unfold set_exec. simpl. rewrite Hx, lookup_insert_Some. intros [[-> <-]|[_ Hu]]; [|by apply Ht]. simpl. by apply Ht.
  - intros h d. simpl. rewrite Hcm, elem_of_app. intros [?|Hin]; [by eapply Hd|]. rewrite Forall_forall in Hf.
    destruct (Hf _ Hin) as [He|(-> & h' & d' & ch & [= <- <- <-] & ->)]; [by destruct He|by apply Ht].
Qed.

Lemma exec_step_typed s j e : typed s -> typed (exec_step policy s j e).
Proof.
  intros Hs. unfold exec_step. destruct (sv_execs s !! j) as [t|] eqn:Et; [|done].
  pose proof (ty_channels _ Hs j t Et) as Hch. simpl in Hch.
  destruct (et_allowed t) as [host|].
  - set (d := mkDispatch _ _ _ _). destruct (se_bridge e); simpl.
    + eapply (typed_set s _ _ _ _ _ [CmdDispatch host d (et_events t)]); try done. constructor; [|done].
      destruct (decide (j = i)) as [->|]; [right; split; [done|]; by exists host, d, (et_events t)|left; simpl; congruence].
    + eapply (typed_set s _ _ _ _ _ []); try done. simpl. by rewrite app_nil_r.
  - destruct (et_hosts t) as [|host hosts].
    + eapply (typed_frame s _ []); try done; simpl; [by apply map_Forall_delete, Hs| |by rewrite app_nil_r].
      by intros u [_ Hu]%lookup_delete_Some.
    + set (ac := mkAction _ _ _ _). destruct (authorize_frame policy s (et_subject t) ac e) as [l Hl].
      destruct (authorize_and_audit _ _ _ _ _) as [s1 [[]|]]; simpl in Hl; subst s1;
        (eapply (typed_set s _ _ _ _ _ []); [done..|simpl; by rewrite app_nil_r|done]).
Qed.

Lemma service_step_typed s ev : typed s -> starts i ev = false -> typed (service_step ca policy default_ttl s ev).
Proof.
  intros Hs Hst. assert (forall s' ok cmd, typed s' -> elsewhere cmd -> typed (fst (bridge_send s' ok cmd))) as Hb.
  { intros s' [] cmd Hs' He; [|done]. by eapply (typed_quiet s' _ [cmd]); try done; constructor. }
  assert (forall s', sv_execs s' = sv_execs s -> sv_commands s' = sv_commands s -> typed s') as Hq.
  { intros s' Hx Hc. eapply (typed_quiet s _ []); try done. by rewrite app_nil_r. }
  destruct ev as [j bound req e|j e|j bound first e|j msg e|bound req e|ttl e|h e|token csr e re]; cbn [service_step].
  - simpl in Hst. apply bool_decide_eq_false in Hst. destruct (sv_execs s !! j) eqn:Ej; [done|]. unfold exec.
    destruct (dr_action req) as [act|]; [|done]. destruct (is_empty _); [done|]. set (s1 := if bool_decide _ then _ else s).
    assert (typed s1 /\ sv_execs s1 = sv_execs s) as [Hs1 Hx1].
    { unfold s1. destruct (bool_decide _); [|done]. split; [by apply Hb|by destruct (se_bridge e)]. }
    destruct (resolve _ _) as [[|h hosts]|]; try done. simpl.
    eapply (typed_frame s1 _ []); try done; simpl.
    + apply map_Forall_insert_2; [done|apply Hs1].
    + intros t. by rewrite lookup_insert_ne.
    + by rewrite app_nil_r.
  - by apply exec_step_typed.
  - destruct (sv_shells s !! j); [done|]. unfold shell. destruct first as [[o|d|b]|]; try done. unfold authorize_shell_open.
    destruct (uuid_parse _) as [u|]; [|done]. set (ac := mkAction _ _ _ _).
    destruct (authorize_frame policy s (operator_of bound) ac e) as [l Hl].
    destruct (authorize_and_audit _ _ _ _ _) as [s1 [[]|]]; simpl in Hl; subst s1; by apply Hq.
  - unfold shell_step. destruct (sv_shells s !! j) as [t|]; [|done].
    assert (forall s' m, typed s' -> typed (set_sv_shells s' m)) as Hset.
    { intros s' m Hs'. eapply (typed_quiet s' _ []); try done. simpl. by rewrite app_nil_r. }
    destruct (sk_phase t), msg as [[]|], (se_bridge e); simpl; try done; try apply Hset; try done;
      by eapply (typed_quiet s _ [_]); try done; constructor.
  - unfold dispatch. destruct (dr_action req) as [ac|]; [|done]. destruct (is_empty _); [done|].
    destruct (authorize_frame policy s (operator_of bound) ac e) as [l Hl].
    destruct (authorize_and_audit _ _ _ _ _) as [s1 [[]|]]; simpl in Hl; subst s1; by apply Hq.
  - unfold mint_token. repeat case_match; by apply Hq.
  - unfold revoke_host. repeat case_match; by apply Hq.
  - unfold enroll. repeat case_match; by apply Hq.
Qed.

Lemma run_service_typed s evs :
  typed s -> Forall (fun ev => starts i ev = false) evs -> typed (run_service ca policy default_ttl s evs).
Proof.
  revert s. induction evs as [|ev evs IH]; intros s Hs Hf; [done|]. apply Forall_cons in Hf as [He Hf].
  apply IH; [by apply service_step_typed|done].
Qed.

End Fanout.

(** ** Lemmas: the agent *)

Section Steps.
Context `{Crypto, Prost} (debug_str : string -> string) (backstop : LocalAllowlist) (host_id : string).
Notation step := (job_step debug_str backstop host_id).

Lemma step_checked r j d p e :
  running r !! j = Some (AtLookup d) -> lookup_job (jobs r) (d_job_id d) (te_read e) = Ok None ->
  check_dispatch debug_str backstop host_id d = Ok p -> step r j e = set_task r j (AtMark d p).
Proof. intros Hj Hl Hc. unfold job_step. by rewrite Hj, Hl, Hc. Qed.

Lemma step_marked r j d p e :
  running r !! j = Some (AtMark d p) -> te_write e = WOk ->
  step r j e = set_task (set_jobs r (fst (mark_started (jobs r) (d_job_id d) WOk))) j (AtExec d p).
Proof. intros Hj Hw. unfold job_step. rewrite Hj, Hw. done. Qed.

Lemma step_run r j d p e chunks k res :
  running r !! j = Some (AtExec d p) -> stream (te_run e) (ep_argv p) (d_run_as d) (mkLimits MAX_JOB_OUTPUT (Some JOB_TIMEOUT)) = (chunks, k, res) ->
  step r j e = mkRunner (jobs r) (inflight r) (<[j := AtRecord d (outcome_of debug_str res)]> (running r))
    (sent r ++ (chunk_result (d_job_id d) <$> chunks)) (spawned r ++ [d]) (forgotten r).
Proof. intros Hj Hs. unfold job_step. by rewrite Hj, Hs. Qed.

Lemma step_recorded r j d o e :
  running r !! j = Some (AtRecord d o) ->
  step r j e = job_end (set_jobs r (fst (record_done (jobs r) (d_job_id d) o (te_write e)))) j (d_job_id d) [outcome_result (d_job_id d) o].
Proof. intros Hj. unfold job_step. rewrite Hj. by destruct (record_done _ _ _ _). Qed.

End Steps.

(** An undisturbed run of a checked dispatch that the store does not know: the command is
    spawned once, its output is reported as it was read, then its outcome. *)
Lemma run_job_streams `{Crypto, Prost} debug_str backstop host_id r j d p e1 e2 e3 e4 :
  running r !! j = None -> d_job_id d ∉ inflight r -> (1 <= String.length (d_job_id d) <= 256)%nat ->
  cur (jobs r) !! job_path (d_job_id d) = None -> te_read e1 = None -> te_write e2 = WOk ->
  check_dispatch debug_str backstop host_id d = Ok p ->
  let r' := run_job debug_str backstop host_id r j d e1 e2 e3 e4 in
  let '(chunks, _, res) := stream (te_run e3) (ep_argv p) (d_run_as d) (mkLimits MAX_JOB_OUTPUT (Some JOB_TIMEOUT)) in
  sent r' = sent r ++ (chunk_result (d_job_id d) <$> chunks) ++ [outcome_result (d_job_id d) (outcome_of debug_str res)] /\
  spawned r' = spawned r ++ [d].
Proof.
  intros Hj Hin Hlen Hnew Hrd Hwr Hck. unfold run_job, job_begin, try_claim.
  assert (is_empty (d_job_id d) || (MAX_JOB_ID_LEN <? Z.of_nat (String.length (d_job_id d))) = false) as ->.
  { unfold MAX_JOB_ID_LEN. destruct (d_job_id d); simpl in *; [lia|]. apply Z.ltb_ge. lia. }
  rewrite bool_decide_eq_false_2 by done. set (r0 := mkRunner _ _ _ _ _ _).
  assert (running r0 !! j = Some (AtLookup d)) as Hr0 by apply lookup_insert_eq.
  assert (lookup_job (jobs r0) (d_job_id d) (te_read e1) = Ok None) as Hlk by (unfold lookup_job, read_file, r0; cbn [jobs]; by rewrite Hrd, Hnew).
  rewrite (step_checked debug_str backstop host_id r0 j d p e1 Hr0 Hlk Hck).
  rewrite (step_marked debug_str backstop host_id _ j d p e2 (lookup_insert_eq _ _ _) Hwr).
  destruct (stream _ _ _ _) as [[chunks k] res] eqn:Es.
  rewrite (step_run debug_str backstop host_id _ j d p e3 chunks k res (lookup_insert_eq _ _ _) Es).
  rewrite (step_recorded debug_str backstop host_id _ j d _ e4 (lookup_insert_eq _ _ _)). cbn [sent spawned job_end set_jobs set_task].
  by rewrite app_assoc.
Qed.

(** ** Properties *)

(** C13. What the operator typed is what runs.  For [osa exec host --run-as u -- argv], once
    the coordinator accepted it as its fan-out [i], and whatever else the service does: every
    dispatch it hands to the bridge for that fan-out is an exec as [u]; and an agent whose
    allowlist permits an exec as [u] checks it to exactly [argv], so that, delivered to an
    agent that does not know the job, it is handed to the exec engine once, as [argv] run by
    [u], and what that run wrote is reported chunk by chunk, then its outcome. *)
Theorem command_runs_as_typed `{Crypto} `{ProstLaws} `{UuidLaws} `{X509} {P T R L} `{PolicyPort P} `{JoinTokens T} `{Revocations R}
    `{!AuditPort L} `{!AuditLaws L} ca (policy : P) ttl (s s' : Service T R L) i bound host run_as argv req e evs h d debug_str backstop id :
  channels_ok s -> sv_execs s !! i = None -> served i s = [] ->
  exec_request host run_as argv = Ok req -> exec s i bound req e = (s', Ok tt) -> Forall (fun ev => starts i ev = false) evs ->
  CmdDispatch h d i ∈ sv_commands (run_service ca policy ttl s' evs) ->
  permits backstop (mkAction "exec" id run_as []) = Ok tt ->
  d_run_as d = run_as /\ check_dispatch debug_str backstop id d = Ok (mkExecParams argv) /\
  forall r j e1 e2 e3 e4,
    running r !! j = None -> d_job_id d ∉ inflight r -> (1 <= String.length (d_job_id d) <= 256)%nat ->
    cur (jobs r) !! job_path (d_job_id d) = None -> te_read e1 = None -> te_write e2 = WOk ->
    let r' := run_job debug_str backstop id r j d e1 e2 e3 e4 in
    let '(chunks, _, res) := stream (te_run e3) argv run_as (mkLimits MAX_JOB_OUTPUT (Some JOB_TIMEOUT)) in
    sent r' = sent r ++ (chunk_result (d_job_id d) <$> chunks) ++ [outcome_result (d_job_id d) (outcome_of debug_str res)] /\
    spawned r' = spawned r ++ [d].
Proof.
  intros Hc Hi Hsv Hreq Hex Hst Hd Hp.
  assert (typed i "exec" run_as (encode_msg (mkExecParams argv)) s') as Hty.
  { unfold exec_request in Hreq. destruct argv as [|a argv]; [done|]. injection Hreq as <-. unfold exec in Hex. simpl in Hex.
    set (s1 := if bool_decide _ then _ else s) in Hex.
    assert (sv_execs s1 = sv_execs s /\ (forall x y, CmdDispatch x y i ∉ sv_commands s1)) as [Hx Hno].
    { assert (forall x y, CmdDispatch x y i ∉ sv_commands s) as Hno.
      { intros x y Hxy. unfold served in Hsv. apply app_eq_nil in Hsv as [Hsv _].
        apply list_elem_of_split in Hxy as (l1 & l2 & Hl). rewrite Hl, flat_map_app in Hsv. simpl in Hsv.
        rewrite decide_True in Hsv by done. by apply app_eq_nil in Hsv as [_ ?]. }
      unfold s1. destruct (bool_decide _); [|done]. destruct (se_bridge e); [|done]. split; [done|]. intros x y. simpl. set_solver. }
    destruct (resolve _ _) as [[|x hosts]|]; try done. injection Hex as <-. split; simpl.
    - unfold channels_ok. simpl. apply map_Forall_insert_2; [done|]. by rewrite Hx.
    - intros t. rewrite lookup_insert_eq. by intros [= <-].
    - intros x' y Hxy. by destruct (Hno x' y). }
  apply (run_service_typed ca policy ttl _ _ _ _ s' evs Hty) in Hst. apply (ty_commands _ _ _ _ _ Hst) in Hd. injection Hd as Hk Hr Hpa.
  assert (check_dispatch debug_str backstop id d = Ok (mkExecParams argv)) as Hck.
  { unfold check_dispatch. rewrite Hk, Hr, Hpa, Hp. simpl. by rewrite decode_encode. }
  split; [done|]. split; [done|]. intros r j e1 e2 e3 e4 H1' H2' H3' H4' H5' H6'.
  rewrite <- Hr. by apply (run_job_streams debug_str backstop id r j d (mkExecParams argv)).
Qed.

(** "alice" types a command; the dispatch that reaches the bridge. *)
Definition demo_typed_request : DispatchRequest :=
  match exec_request "*" "deploy" ["id"] with Ok req => req | Err _ => mkDispatchRequest None [] end.
Definition demo_accepted : DemoService := fst (exec demo_service 0 (Some "alice") demo_typed_request demo_sv_env).
Definition demo_typed_dispatch : Dispatch :=
  match sv_commands (run_service demo_ca demo_policy 0 demo_accepted demo_steps) !! 1%nat with
  | Some (CmdDispatch _ d _) => d
  | _ => mkDispatch "" "" "" []
  end.

Lemma command_runs_as_typed_witness :
  check_dispatch (fun x => x) demo_allow "h" demo_typed_dispatch = Ok (mkExecParams ["id"]) /\
  let r' := run_job (fun x => x) demo_allow "h" (runner_init dir_empty) 0 demo_typed_dispatch
              demo_task_env demo_task_env demo_task_env demo_task_env in
  spawned r' = [demo_typed_dispatch] /\ length (sent r') = 1%nat.
Proof.
  assert (exec_request "*" "deploy" ["id"] = Ok demo_typed_request) as Hreq by reflexivity.
  assert (snd (exec demo_service 0 (Some "alice") demo_typed_request demo_sv_env) = Ok tt) as Hok by (vm_compute; reflexivity).
  assert (exec demo_service 0 (Some "alice") demo_typed_request demo_sv_env = (demo_accepted, Ok tt)) as Hex.
  { rewrite <- Hok. unfold demo_accepted. apply surjective_pairing. }
  assert (sv_commands (run_service demo_ca demo_policy 0 demo_accepted demo_steps) !! 1%nat = Some (CmdDispatch demo_host demo_typed_dispatch 0))
    as Hcmd by (vm_compute; reflexivity).
  assert (permits demo_allow (mkAction "exec" "h" "deploy" []) = Ok tt) as Hp by (vm_compute; reflexivity).
  destruct (command_runs_as_typed demo_ca demo_policy 0 demo_service demo_accepted 0 (Some "alice") "*" "deploy" ["id"] demo_typed_request
    demo_sv_env demo_steps demo_host demo_typed_dispatch (fun x => x) demo_allow "h" (map_Forall_empty _) eq_refl eq_refl Hreq Hex
    ltac:(repeat constructor) (list_elem_of_lookup_2 _ _ _ Hcmd) Hp) as (_ & Hck & Hrun).
  split; [exact Hck|]. intros r'. split; [|vm_compute; reflexivity].
  assert ((1 <= String.length (d_job_id demo_typed_dispatch) <= 256)%nat) as Hl by (vm_compute; lia).
  specialize (Hrun (runner_init dir_empty) 0%nat demo_task_env demo_task_env demo_task_env demo_task_env eq_refl (not_elem_of_empty _)
    Hl eq_refl eq_refl eq_refl).
  cbv zeta in Hrun. destruct (stream _ _ _ _) as [[chunks k] res]. exact (proj2 Hrun).
Defined.

(** The hash of the parameters is decided on and recorded by nobody: any hash goes with any
    parameters, all the way to the agent's check. *)
Lemma params_hash_unchecked hash :
  let req := mkDispatchRequest (Some (mkAction "exec" "*" "deploy" hash)) (encode_msg (mkExecParams ["id"])) in
  let s' := fst (exec demo_service 0 (Some "alice") req demo_sv_env) in
  flat_map (fun cmd => match cmd with CmdDispatch _ d _ => [ok (check_dispatch (fun x => x) demo_allow "h" d)] | _ => [] end)
    (sv_commands (run_service demo_ca demo_policy 0 s' demo_steps)) = [Some (mkExecParams ["id"])].
Proof. vm_compute. reflexivity. Qed.
