(* ===== verification/Uplink.v ===== *)
(** * The way of a job's results (osa-agent/src/dispatch.rs [JobChannel::send],
    control_channel.rs [publish_results]; osa-coordinator/src/broker.rs)

    Every job task seals its results with the session's shared counter and then hands them
    to a bounded queue, which one publisher task empties into the MQTT client.  Sealing and
    handing over are two steps, between which other tasks run; the coordinator's replay guard
    takes frames in the order of the counter only.  The theorems say exactly which results get
    through, and that all of them do under the order the guard relies on. *)
From S2P Require Import Prelude Proto Concrete Topics Seal Handshake Registries Session Ca Broker JobRunner.

Definition RESULT_QUEUE : nat := 256.

(** A result once sealed: who sealed it, its number, and the bytes handed on. *)
Record Sealed := mkSealed { sl_task : nat; sl_seq : u64; sl_result : JobResult; sl_bytes : bytes }.

(** The uplink of a session: the counter, the frames tasks hold inside [send], the queue,
    whether the publisher still receives, and what it published.  [up_sealed] records
    every frame in the order of sealing. *)
Record Uplink := mkUplink {
  up_seq : u64; up_held : gmap nat Sealed; up_queue : list Sealed; up_open : bool; up_published : list Sealed;
  up_sealed : list Sealed
}.
Definition uplink_init (seq : u64) : Uplink := mkUplink seq ∅ [] true [] [].

Inductive UpEvent := UpSeal (task : nat) (r : JobResult) | UpSend (task : nat) | UpPublish (ok : bool).

Section Uplink.
Context `{Crypto} `{Prost} (keys : SessionKeys) (host_id sid : string).

(** [JobChannel::send] up to its await; a task has one send at a time. *)
Definition send_seal (up : Uplink) (task : nat) (r : JobResult) : Uplink :=
  match up_held up !! task with
  | Some _ => up
  | None =>
      let '(ch, b) := JobChannel_send (mkChannel keys (up_seq up) host_id sid) r in
      let s := mkSealed task (up_seq up) r b in
      mkUplink (jc_send_seq ch) (<[task := s]> (up_held up)) (up_queue up) (up_open up) (up_published up) (up_sealed up ++ [s])
  end.

(** The await: it waits for room; without a receiver the frame is lost. *)
Definition send_queue (up : Uplink) (task : nat) : Uplink :=
  match up_held up !! task with
  | None => up
  | Some s =>
      if negb (up_open up)
      then mkUplink (up_seq up) (delete task (up_held up)) (up_queue up) false (up_published up) (up_sealed up)
      else if decide (RESULT_QUEUE <= length (up_queue up))%nat then up
      else mkUplink (up_seq up) (delete task (up_held up)) (up_queue up ++ [s]) true (up_published up) (up_sealed up)
  end.

(** One turn of [publish_results]: it stops at the first failure, and the queue with it. *)
Definition publish_results (up : Uplink) (ok : bool) : Uplink :=
  match up_queue up with
  | [] => up
  | s :: q =>
      if ok then mkUplink (up_seq up) (up_held up) q (up_open up) (up_published up ++ [s]) (up_sealed up)
      else mkUplink (up_seq up) (up_held up) [] false (up_published up) (up_sealed up)
  end.

Definition uplink_step (up : Uplink) (ev : UpEvent) : Uplink :=
  match ev with
  | UpSeal task r => send_seal up task r
  | UpSend task => send_queue up task
  | UpPublish ok => publish_results up ok
  end.
Definition run_uplink (up : Uplink) (evs : list UpEvent) : Uplink := foldl uplink_step up evs.

(** Each frame is handed over before the next is sealed: the order the coordinator's guard
    is written for. *)
Fixpoint one_at_a_time (up : Uplink) (evs : list UpEvent) : Prop :=
  match evs with
  | [] => True
  | ev :: evs => (match ev with UpSeal _ _ => up_held up = ∅ | _ => True end) /\ one_at_a_time (uplink_step up ev) evs
  end.

Definition frame_env (s : Sealed) : Envelope :=
  seal_envelope keys AgentToCoord host_id sid (sl_seq s) KindControl (encode_msg (sl_result s)).
Definition sl_payload (s : Sealed) : bytes := encode_msg (sl_result s).

End Uplink.

(** The frames numbered above all frames before them. *)
Fixpoint maxima (high : option u64) (l : list Sealed) : list Sealed :=
  match l with
  | [] => []
  | s :: l => if stale high (sl_seq s) then maxima high l else s :: maxima (Some (sl_seq s)) l
  end.

(** How many frames a schedule seals at most. *)
Definition is_seal (ev : UpEvent) : bool := match ev with UpSeal _ _ => true | _ => false end.
Definition seals (evs : list UpEvent) : nat := length (filter (fun ev => is_seal ev = true) evs).

(** ** The operator's end *)

Definition is_terminal (r : JobResult) : bool := match jr_body r with Some (BOutcome _) => true | _ => false end.

(** Frames arrive at the bridge on the host's result topic, and the operator reads its
    stream: what it has read. *)
Inductive OpEvent := OpFrame (s : Sealed) | OpRead.
Definition frames_of (evs : list OpEvent) : list Sealed := omap (fun ev => match ev with OpFrame s => Some s | OpRead => None end) evs.
Definition job_results (id : string) (l : list Sealed) : list JobResult := filter (fun r => jr_job_id r = id) (sl_result <$> l).

Section Operator.
Context `{Crypto} `{Prost} `{UuidLib} {E R : Type} (t : string) (ch : nat).

Definition operator_step (x : Bridge E R * list HostResult) (ev : OpEvent) : Bridge E R * list HostResult :=
  let '(b, got) := x in
  match ev with
  | OpFrame s => (handle_result b t (sl_bytes s), got)
  | OpRead => (set_results b (read_chan (results b) ch), got ++ match results b !! ch with Some c => take 1 (ch_queue c) | None => [] end)
  end.
Definition run_operator (x : Bridge E R * list HostResult) (evs : list OpEvent) : Bridge E R * list HostResult := foldl operator_step x evs.

(** The operator's stream has room whenever a frame arrives. *)
Fixpoint keeps_up (x : Bridge E R * list HostResult) (evs : list OpEvent) : Prop :=
  match evs with
  | [] => True
  | ev :: evs =>
      (match ev with OpFrame _ => forall c, results (fst x) !! ch = Some c -> (length (ch_queue c) < ch_cap c)%nat | OpRead => True end) /\
      keeps_up (operator_step x ev) evs
  end.

(** Nothing else writes to the stream. *)
Definition only_job (b : Bridge E R) (key : HostId * string) : Prop :=
  forall k pj, pending b !! k = Some pj -> pj_events pj = ch -> k = key.

End Operator.

(** ** Lemmas *)

Section UplinkLemmas.
Context `{CryptoLaws} `{ProstLaws} (keys : SessionKeys) (host_id sid : string).
Implicit Type up : Uplink.

(** Frames as sealed from number [q] on. *)
Definition numbered (q : Z) (l : list Sealed) : Prop :=
  forall k s, l !! k = Some s -> bval (sl_seq s) = q + Z.of_nat k /\ sl_bytes s = encode_msg (frame_env keys host_id sid s).

Definition in_flight up : list Sealed := (map_to_list (up_held up)).*2 ++ up_queue up ++ up_published up.

Record uplink_inv (q : Z) up : Prop := {
  ui_seq : up_seq up = wrap (q + Z.of_nat (length (up_sealed up)));
  ui_numbered : numbered q (up_sealed up);
  ui_sealed : in_flight up ⊆+ up_sealed up;
  ui_queue : (length (up_queue up) <= RESULT_QUEUE)%nat;
  ui_closed : up_open up = false -> up_queue up = []
}.

Lemma numbered_snoc q l s :
  numbered q l -> bval (sl_seq s) = q + Z.of_nat (length l) -> sl_bytes s = encode_msg (frame_env keys host_id sid s) ->
  numbered q (l ++ [s]).
Proof.
  intros Hl Hs Hb k s' [Hk|[Hk Hk']]%lookup_app_Some; [by apply Hl|].
  apply list_lookup_singleton_Some in Hk' as [Hz <-]. split; [|done]. rewrite Hs. lia.
Qed.

Lemma in_flight_delete up task s q o p :
  up_held up !! task = Some s ->
  (map_to_list (delete task (up_held up))).*2 ++ q ++ p ⊆+ in_flight (mkUplink (up_seq up) (up_held up) q o p (up_sealed up)).
Proof.
  intros Hs. unfold in_flight. simpl. rewrite <- (map_to_list_delete _ _ _ Hs). simpl. by apply submseteq_cons.
Qed.

Lemma uplink_step_inv q up ev :
  0 <= q -> q + Z.of_nat (length (up_sealed (uplink_step keys host_id sid up ev))) <= 2 ^ 64 ->
  uplink_inv q up -> uplink_inv q (uplink_step keys host_id sid up ev).
Proof.
  intros Hq Hn Hup. destruct Hup as [Hs Hl Hf Hb Hc]. destruct ev as [task r|task|ok]; simpl in *.
  - unfold send_seal in *. destruct (up_held up !! task) eqn:Eh; [done|]. simpl in *. rewrite length_app in Hn. simpl in Hn.
    split; simpl; try done.
    + rewrite Hs, length_app. unfold wrapping_add. rewrite wrap_small by lia. f_equal. simpl. lia.
    + apply numbered_snoc; [done|simpl; rewrite Hs; by rewrite wrap_small by lia|done].
    + unfold in_flight in *. simpl. rewrite map_to_list_insert by done. simpl.
      rewrite (Permutation_app_comm _ [_]). simpl. by apply submseteq_skip.
  - unfold send_queue in *. destruct (up_held up !! task) as [s|] eqn:Eh; [|done].
    assert (s :: (map_to_list (delete task (up_held up))).*2 ≡ₚ (map_to_list (up_held up)).*2) as Hp.
    { rewrite <- (map_to_list_delete _ _ _ Eh). done. }
    unfold in_flight in *. rewrite <- Hp in Hf. destruct (negb (up_open up)) eqn:Eo.
    + apply negb_true_iff in Eo. split; simpl; try done; [|by intros _; apply Hc].
      etrans; [|exact Hf]. simpl. by apply submseteq_cons.
    + apply negb_false_iff in Eo. case_decide as Hd; [by split; unfold in_flight; rewrite <- ?Hp|]. split; simpl; try done.
      * etrans; [|exact Hf]. unfold in_flight. simpl. apply Permutation_submseteq.
        rewrite <- (app_assoc (up_queue up)), (app_assoc _ (up_queue up)). simpl. rewrite <- Permutation_middle. by rewrite <- app_assoc.
      * rewrite length_app. simpl. lia.
  - unfold publish_results in *. destruct (up_queue up) as [|s q'] eqn:Eq; [by split; rewrite ?Eq|]. unfold in_flight in *. rewrite Eq in Hf.
    destruct ok; split; simpl in *; try done; try lia.
    + etrans; [|exact Hf]. apply Permutation_submseteq. unfold in_flight. simpl. apply Permutation_app_head.
      rewrite app_assoc. by rewrite <- Permutation_cons_append.
    + intros Ho. by apply Hc in Ho.
    + etrans; [|exact Hf]. unfold in_flight. simpl. apply submseteq_app; [done|].
      apply submseteq_cons. apply submseteq_inserts_l. done.
Qed.

Lemma sealed_grows up ev :
  exists l, up_sealed (uplink_step keys host_id sid up ev) = up_sealed up ++ l /\ (length l <= seals [ev])%nat.
Proof.
  destruct ev as [task r|task|ok]; simpl; unfold seals; simpl.
  - unfold send_seal. destruct (up_held up !! task); [exists []; rewrite app_nil_r; split; [done|simpl; lia]|]. simpl.
    eexists. split; [done|]. simpl. lia.
  - exists []. rewrite app_nil_r. split; [|simpl; lia]. unfold send_queue. destruct (_ !! _); [|done]. destruct (negb _); [done|]. by case_decide.
  - exists []. rewrite app_nil_r. split; [|simpl; lia]. unfold publish_results. destruct (up_queue up); [done|]. by destruct ok.
Qed.

Lemma seals_cons ev evs : seals (ev :: evs) = (seals [ev] + seals evs)%nat.
Proof. unfold seals. change (ev :: evs) with ([ev] ++ evs). by rewrite filter_app, length_app. Qed.

Lemma run_uplink_inv q up evs :
  0 <= q -> q + Z.of_nat (length (up_sealed up) + seals evs) <= 2 ^ 64 -> uplink_inv q up ->
  uplink_inv q (run_uplink keys host_id sid up evs) /\
  (length (up_sealed (run_uplink keys host_id sid up evs)) <= length (up_sealed up) + seals evs)%nat.
Proof.
  intros Hq. revert up. induction evs as [|ev evs IH]; intros up Hn Hup; [split; [done|simpl; lia]|].
  rewrite seals_cons in *. destruct (sealed_grows up ev) as (l & Hl & Hlen).
  assert (length (up_sealed (uplink_step keys host_id sid up ev)) = length (up_sealed up) + length l)%nat as Hlen' by (by rewrite Hl, length_app).
  destruct (IH (uplink_step keys host_id sid up ev)) as [Hi Hb]; [lia|apply uplink_step_inv; [done|lia|done]|].
  split; [done|]. simpl. unfold run_uplink in *. lia.
Qed.

Lemma uplink_init_inv q : uplink_inv q (uplink_init (wrap q)).
Proof. split; simpl; try done; [by rewrite Z.add_0_r|lia]. Qed.

(** The coordinator opens exactly the running maxima of what arrives. *)
Lemma recv_frames high l :
  recv_all keys AgentToCoord high (frame_env keys host_id sid <$> l) = sl_payload <$> maxima high l.
Proof.
  revert high. induction l as [|s l IH]; intros high; [done|]. cbn [fmap list_fmap recv_all maxima].
  unfold frame_env at 1. rewrite open_seal_envelope. simpl. destruct (stale _ _); [apply IH|]. cbn [fmap list_fmap]. by rewrite IH.
Qed.

(** Under any broker: in the order of sealing, each at most once. *)
Lemma recv_numbered_sublist q l envs high :
  0 <= q -> q + Z.of_nat (length l) <= 2 ^ 64 -> numbered q l ->
  Forall (authentic keys AgentToCoord (frame_env keys host_id sid <$> l)) envs ->
  sublist (recv_all keys AgentToCoord high envs) (sl_payload <$> drop (next_seq high - Z.to_nat q) l).
Proof.
  intros Hq Hl Hn Hall. revert high. induction Hall as [|e es He Hes IH]; intros high; simpl; [apply sublist_nil_l|].
  destruct He as [(s & -> & Hs)%list_elem_of_fmap|[err Herr]]; [|rewrite Herr; apply IH].
  unfold frame_env at 1. rewrite open_seal_envelope. simpl. destruct (stale _ _) eqn:E; [apply IH|]. apply stale_next in E.
  apply list_elem_of_lookup in Hs as [k Hk]. pose proof (lookup_lt_Some _ _ _ Hk) as Hlt. destruct (Hn _ _ Hk) as [Hseq _].
  specialize (IH (Some (sl_seq s))). cbn [next_seq] in IH. rewrite Hseq in E, IH.
  replace (S (Z.to_nat (q + Z.of_nat k)) - Z.to_nat q)%nat with (S k) in IH by lia.
  transitivity (sl_payload <$> drop k l).
  - rewrite (drop_S _ _ _ Hk). cbn [fmap list_fmap]. by apply sublist_skip.
  - apply fmap_sublist. set (j := (next_seq high - Z.to_nat q)%nat) in *. replace k with (j + (k - j))%nat by lia.
    rewrite <- drop_drop. apply sublist_drop.
Qed.

Lemma maxima_numbered q l high :
  0 <= q -> (next_seq high <= Z.to_nat q)%nat -> numbered q l -> maxima high l = l.
Proof.
  revert q high. induction l as [|s l IH]; intros q high Hq Hh Hn; [done|]. simpl. destruct (Hn 0%nat s eq_refl) as [Hs _].
  rewrite (proj2 (stale_next high (sl_seq s))) by lia. f_equal. apply (IH (q + 1)); [lia|simpl; lia|].
  intros k s' Hk. destruct (Hn (S k) s' Hk) as [Hk1 Hk2]. split; [lia|done].
Qed.

Lemma numbered_prefix q l l' : l `prefix_of` l' -> numbered q l' -> numbered q l.
Proof. intros Hp Hn k s Hk. apply Hn. by eapply prefix_lookup_Some. Qed.

(** One frame at a time: what is published is what was sealed, in order, up to a point. *)
Record calm up : Prop := {
  ca_held : (size (up_held up) <= 1)%nat;
  ca_prefix : up_published up `prefix_of` up_sealed up;
  ca_all : up_open up = true -> up_sealed up = up_published up ++ up_queue up ++ (map_to_list (up_held up)).*2;
  ca_closed : up_open up = false -> up_queue up = []
}.

Lemma held_only {A} (m : gmap nat A) k x : (size m <= 1)%nat -> m !! k = Some x -> delete k m = ∅ /\ map_to_list m = [(k, x)].
Proof.
  intros Hs Hk. pose proof (map_size_delete k m) as Hd. rewrite Hk in Hd. simpl in Hd.
  assert (delete k m = ∅) as He by (apply map_size_empty_inv; lia). split; [done|].
  rewrite <- (insert_id m k x Hk), <- insert_delete_eq, He, insert_empty. apply map_to_list_singleton.
Qed.

Lemma calm_step up ev :
  match ev with UpSeal _ _ => up_held up = ∅ | _ => True end -> calm up -> calm (uplink_step keys host_id sid up ev).
Proof.
  intros Hev Hup. pose proof Hup as [Hh Hp Ha Hc]. destruct ev as [task r|task|ok]; simpl.
  - unfold send_seal. rewrite Hev, lookup_empty. simpl. rewrite Hev in Ha. split; simpl; try done.
    + rewrite insert_empty, map_size_singleton. lia.
    + by apply prefix_app_r.
    + intros Ho. rewrite insert_empty, map_to_list_singleton, (Ha Ho), map_to_list_empty. simpl. by rewrite app_nil_r, <- app_assoc.
  - unfold send_queue. destruct (up_held up !! task) as [s|] eqn:Eh; [|done]. destruct (held_only _ _ _ Hh Eh) as [Hd Hl].
    destruct (negb (up_open up)) eqn:Eo.
    + apply negb_true_iff in Eo. split; simpl; try done; [rewrite Hd, map_size_empty; lia|by intros _; apply Hc].
    + apply negb_false_iff in Eo. case_decide; [done|]. split; simpl; try done; [rewrite Hd, map_size_empty; lia|].
      intros _. rewrite Hd, (Ha Eo), Hl, map_to_list_empty. simpl. by rewrite app_nil_r.
  - unfold publish_results. destruct (up_queue up) as [|s q] eqn:Eq; [done|]. destruct ok; split; simpl; try done.
    + assert (up_open up = true) as Ho by (destruct (up_open up); [done|by specialize (Hc eq_refl)]).
      rewrite (Ha Ho). cbn [app]. apply prefix_app, prefix_cons, prefix_nil.
    + intros Ho. rewrite (Ha Ho). by rewrite <- app_assoc.
    + intros Ho. by apply Hc in Ho.
Qed.

Lemma calm_run up evs : one_at_a_time keys host_id sid up evs -> calm up -> calm (run_uplink keys host_id sid up evs).
Proof.
  revert up. induction evs as [|ev evs IH]; intros up; [done|]. simpl. intros [Hev Hevs] Hup.
  apply (IH (uplink_step keys host_id sid up ev)); [done|]. by apply calm_step.
Qed.

Lemma calm_init q : calm (uplink_init q).
Proof. split; simpl; try done. rewrite map_size_empty. lia. Qed.

End UplinkLemmas.

(** ** Lemmas: the operator's end *)

Section OperatorLemmas.
Context `{CryptoLaws} `{ProstLaws} `{UuidLib} {E R : Type} (keys : SessionKeys) (host_id sid t : string) (ch : nat) (u : Uuid).
Hypothesis Ht : uuid_parse t = Some u.
Let host := mkHostId u.
Implicit Type b : Bridge E R.

(** The host's session, as far as its uplink goes. *)
Definition listens b (q : Z) : Prop :=
  exists s, by_host (sessions b) !! host = Some s /\ cs_keys s = keys /\ (next_seq (cs_recv_high s) <= Z.to_nat q)%nat.

Definition framed (q : Z) (s : Sealed) : Prop := bval (sl_seq s) = q /\ sl_bytes s = encode_msg (frame_env keys host_id sid s).

Lemma handle_sealed b s q :
  0 <= q -> listens b q -> framed q s ->
  exists b1, sessions b1 = sessions (handle_result b t (sl_bytes s)) /\ listens b1 (q + 1) /\ pending b1 = pending b /\ results b1 = results b /\
    handle_result b t (sl_bytes s) =
      match pending b !! (host, jr_job_id (sl_result s)) with
      | None => b1
      | Some job =>
          let '(m, sent) := try_send (results b) (pj_events job) (host, sl_result s) in
          match sent with
          | Sent => if is_terminal (sl_result s) then remove_pending (set_results b1 m) (host, jr_job_id (sl_result s)) else set_results b1 m
          | _ => remove_pending (set_results b1 m) (host, jr_job_id (sl_result s))
          end
      end.
Proof.
  intros Hq (se & Hse & Hkeys & Hh) [Hs Hb]. set (se' := mkSession (cs_sid se) (cs_keys se) (cs_send_seq se) (Some (sl_seq s))).
  exists (put_session b host se').
  assert (handle_result b t (sl_bytes s) =
      match pending b !! (host, jr_job_id (sl_result s)) with
      | None => put_session b host se'
      | Some job =>
          let '(m, sent) := try_send (results b) (pj_events job) (host, sl_result s) in
          match sent with
          | Sent => if is_terminal (sl_result s) then remove_pending (set_results (put_session b host se') m) (host, jr_job_id (sl_result s))
                    else set_results (put_session b host se') m
          | _ => remove_pending (set_results (put_session b host se') m) (host, jr_job_id (sl_result s))
          end
      end) as Hr.
  { unfold handle_result. rewrite Ht, Hb, decode_encode. unfold open_on_session. fold host. rewrite Hse. unfold open_uplink, frame_env.
    rewrite Hkeys, open_seal_envelope. unfold seal_envelope. cbn [env_seq].
    rewrite (proj2 (stale_next (cs_recv_high se) (sl_seq s))) by (by rewrite Hs). rewrite <- Hkeys. fold se'.
    rewrite decode_encode. reflexivity. }
  split; [|split; [|done]].
  - rewrite Hr. destruct (pending b !! _) as [job|]; [|done]. destruct (try_send _ _ _) as [m []]; [by destruct (is_terminal _)|done..].
  - exists se'. simpl. rewrite lookup_insert_eq. split; [done|]. split; [done|]. rewrite Hs. lia.
Qed.

Lemma try_send_room (m : gmap nat (Chan HostResult)) id qu cap x :
  m !! id = Some (mkChan qu cap true) -> (length qu < cap)%nat -> try_send m id x = (<[id := mkChan (qu ++ [x]) cap true]> m, Sent).
Proof. intros Hm Hl. unfold try_send. rewrite Hm. simpl. by rewrite decide_False by lia. Qed.

(** What a frame does to the job [id] and the stream [ch]. *)
Lemma frame_step b s q id :
  0 <= q -> listens b q -> framed q s -> only_job ch b (host, id) ->
  let b' := handle_result b t (sl_bytes s) in
  listens b' (q + 1) /\ only_job ch b' (host, id) /\
  (jr_job_id (sl_result s) <> id -> results b' !! ch = results b !! ch /\ pending b' !! (host, id) = pending b !! (host, id)) /\
  (jr_job_id (sl_result s) = id -> forall pj qu cap,
     pending b !! (host, id) = Some pj -> pj_events pj = ch -> results b !! ch = Some (mkChan qu cap true) -> (length qu < cap)%nat ->
     results b' !! ch = Some (mkChan (qu ++ [(host, sl_result s)]) cap true) /\
     pending b' !! (host, id) = if is_terminal (sl_result s) then None else Some pj).
Proof.
  intros Hq Hl Hs Ho b'. destruct (handle_sealed b s q Hq Hl Hs) as (b1 & Hses & Hl1 & Hp1 & Hr1 & Hb'). fold b' in Hses, Hb'.
  assert (listens b' (q + 1)) as Hl' by (unfold listens in *; by rewrite <- Hses).
  assert (pending b' ⊆ pending b) as Hsub.
  { rewrite Hb'. destruct (pending b !! _) as [job|]; [|by rewrite Hp1].
    destruct (try_send _ _ _) as [m []]; [destruct (is_terminal _)|..]; simpl; rewrite ?Hp1; try done; apply delete_subseteq. }
  split; [done|]. split; [|split].
  - intros k pj Hk. apply Ho. by eapply lookup_weaken.
  - intros Hne. rewrite Hb'. destruct (pending b !! (host, jr_job_id (sl_result s))) as [job|] eqn:Ej; [|by rewrite Hr1, Hp1].
    assert (pj_events job <> ch) as Hch by (intros He; pose proof (Ho _ _ Ej He); congruence).
    assert ((host, jr_job_id (sl_result s)) <> (host, id)) as Hk by congruence.
    pose proof (try_send_other (results b) (pj_events job) (host, sl_result s) ch) as Hto.
    destruct (try_send _ _ _) as [m []]; [destruct (is_terminal _)|..]; simpl in *; rewrite ?Hp1, ?lookup_delete_ne by done;
      split; try done; by apply Hto.
  - intros He pj qu cap Hpj Hev Hres Hroom. rewrite Hb', He, Hpj, Hev, (try_send_room _ _ _ _ _ Hres Hroom).
    destruct (is_terminal _); simpl; rewrite lookup_insert_eq, Hp1; split; try done; apply lookup_delete_eq.
Qed.

Definition delivered (x : Bridge E R * list HostResult) : list HostResult :=
  snd x ++ match results (fst x) !! ch with Some c => ch_queue c | None => [] end.

Lemma read_step b got id qu cap :
  results b !! ch = Some (mkChan qu cap true) ->
  let x' := operator_step t ch (b, got) OpRead in
  results (fst x') !! ch = Some (mkChan (tail qu) cap true) /\ snd x' = got ++ take 1 qu /\
  sessions (fst x') = sessions b /\ pending (fst x') = pending b /\ (only_job ch b (host, id) -> only_job ch (fst x') (host, id)).
Proof.
  intros Hr x'. unfold x'. simpl. unfold read_chan. rewrite lookup_alter_eq, Hr. done.
Qed.

Lemma job_results_cons id s l :
  job_results id (s :: l) = if decide (jr_job_id (sl_result s) = id) then sl_result s :: job_results id l else job_results id l.
Proof. unfold job_results. cbn [fmap list_fmap]. rewrite filter_cons. done. Qed.

Lemma take_tail {A} (l : list A) : take 1 l ++ tail l = l.
Proof. by destruct l. Qed.

(** Frames of other jobs leave the job and its stream alone. *)
Lemma run_others evs : forall b got id q qu cap,
  0 <= q -> listens b q -> only_job ch b (host, id) -> results b !! ch = Some (mkChan qu cap true) ->
  (forall k s, frames_of evs !! k = Some s -> framed (q + Z.of_nat k) s) -> job_results id (frames_of evs) = [] ->
  let x' := run_operator t ch (b, got) evs in
  delivered x' = got ++ qu /\ pending (fst x') !! (host, id) = pending b !! (host, id).
Proof.
  induction evs as [|[s|] evs IH]; intros b got id q qu cap Hq Hl Ho Hr Hf Hj.
  - unfold delivered. simpl. by rewrite Hr.
  - cbn [frames_of omap list_omap] in *. rewrite job_results_cons in Hj. destruct (decide _) as [|Hne]; [done|].
    pose proof (Hf 0%nat s eq_refl) as Hs. rewrite Z.add_0_r in Hs.
    destruct (frame_step b s q id Hq Hl Hs Ho) as (Hl' & Ho' & Hother & _). destruct (Hother Hne) as [Hr' Hp']. rewrite Hr in Hr'.
    destruct (IH _ got id (q + 1) qu cap ltac:(lia) Hl' Ho' Hr') as [Hd Hp]; [|done|].
    { intros k s' Hk. replace (q + 1 + Z.of_nat k) with (q + Z.of_nat (S k)) by lia. by apply Hf. }
    simpl. by rewrite <- Hp'.
  - cbn [frames_of omap list_omap] in *. destruct (read_step b got id qu cap Hr) as (Hr' & Hgot & Hs & Hp & Ho').
    destruct (operator_step t ch (b, got) OpRead) as [b' got'] eqn:Ex. simpl in *. subst got'.
    destruct (IH b' (got ++ take 1 qu) id q (tail qu) cap Hq ltac:(unfold listens in *; by rewrite Hs) (Ho' Ho) Hr' Hf Hj) as [Hd Hp2].
    unfold run_operator in *. simpl. rewrite Ex, Hd, Hp2, Hp, <- app_assoc, take_tail. done.
Qed.

(** The job's results reach its stream, and its last one closes it. *)
Lemma run_job_results evs : forall b got id q qu cap pj pre last,
  0 <= q -> listens b q -> only_job ch b (host, id) -> results b !! ch = Some (mkChan qu cap true) ->
  pending b !! (host, id) = Some pj -> pj_events pj = ch ->
  (forall k s, frames_of evs !! k = Some s -> framed (q + Z.of_nat k) s) -> job_results id (frames_of evs) = pre ++ [last] ->
  Forall (fun r => is_terminal r = false) pre -> is_terminal last = true -> keeps_up t ch (b, got) evs ->
  let x' := run_operator t ch (b, got) evs in
  delivered x' = got ++ qu ++ (pair host <$> pre ++ [last]) /\ pending (fst x') !! (host, id) = None.
Proof.
  induction evs as [|[s|] evs IH]; intros b got id q qu cap pj pre last Hq Hl Ho Hr Hpj Hev Hf Hj Hpre Hlast Hk.
  - by destruct pre.
  - cbn [frames_of omap list_omap] in *. rewrite job_results_cons in Hj. destruct Hk as [Hroom Hk]. specialize (Hroom _ Hr). simpl in Hroom.
    pose proof (Hf 0%nat s eq_refl) as Hs. rewrite Z.add_0_r in Hs.
    assert (forall k s', frames_of evs !! k = Some s' -> framed (q + 1 + Z.of_nat k) s') as Hf'.
    { intros k s' Hk'. replace (q + 1 + Z.of_nat k) with (q + Z.of_nat (S k)) by lia. by apply Hf. }
    destruct (frame_step b s q id Hq Hl Hs Ho) as (Hl' & Ho' & Hother & Hsame). simpl in Hk. destruct (decide _) as [He|Hne].
    + destruct (Hsame He pj qu cap Hpj Hev Hr Hroom) as [Hr' Hp']. destruct pre as [|r pre]; simpl in Hj; injection Hj as Hj1 Hj2.
      * rewrite Hj1, Hlast in Hp'. destruct (run_others evs _ got id (q + 1) _ cap ltac:(lia) Hl' Ho' Hr' Hf' Hj2) as [Hd Hp].
        simpl. rewrite Hd, Hp, Hp', Hj1. done.
      * inversion Hpre as [|? ? Hr0 Hpre']; subst. rewrite Hr0 in Hp'.
        destruct (IH _ got (jr_job_id (sl_result s)) (q + 1) _ cap pj pre last ltac:(lia) Hl' Ho' Hr' Hp' Hev Hf' Hj2 Hpre' Hlast Hk) as [Hd Hp].
        simpl. rewrite Hd, Hp, <- app_assoc. done.
    + destruct (Hother Hne) as [Hr' Hp']. rewrite Hr in Hr'. rewrite Hpj in Hp'.
      destruct (IH _ got id (q + 1) qu cap pj pre last ltac:(lia) Hl' Ho' Hr' Hp' Hev Hf' Hj Hpre Hlast Hk) as [Hd Hp]. done.
  - cbn [frames_of omap list_omap] in *. destruct (read_step b got id qu cap Hr) as (Hr' & Hgot & Hs & Hp & Ho'). destruct Hk as [_ Hk].
    destruct (operator_step t ch (b, got) OpRead) as [b' got'] eqn:Ex. simpl in *. subst got'. rewrite <- Hp in Hpj.
    destruct (IH b' (got ++ take 1 qu) id q (tail qu) cap pj pre last Hq ltac:(unfold listens in *; by rewrite Hs) (Ho' Ho) Hr' Hpj Hev Hf Hj Hpre Hlast Hk)
      as [Hd Hp2].
    unfold run_operator in *. simpl. rewrite Ex, Hd, Hp2, <- app_assoc, (app_assoc (take 1 qu)), take_tail. done.
Qed.

End OperatorLemmas.

(** ** Properties *)

(** C27. Which results of a session's jobs get through.  For every interleaving of the job
    tasks and the publisher, with failing publishes: the queue stays within its bound and
    only sealed frames are published, each once; delivered as published, the coordinator
    takes exactly the frames numbered above all before them; whatever the broker does, it
    takes results in the order of sealing, each at most once; and when each frame is handed
    over before the next is sealed, it takes everything published, which is what was sealed,
    in order, up to the first failed publish. *)
Theorem results_get_through `{CryptoLaws} `{ProstLaws} keys host_id sid q high cseq evs :
  0 <= q -> q + Z.of_nat (seals evs) <= 2 ^ 64 ->
  let up := run_uplink keys host_id sid (uplink_init (wrap q)) evs in
  let coordinator := accept_all_uplink (mkSession sid keys cseq high) in
  let env := frame_env keys host_id sid in
  (length (up_queue up) <= RESULT_QUEUE)%nat /\ up_published up ⊆+ up_sealed up /\
  Forall (fun s => decode_msg (sl_bytes s) = Ok (env s)) (up_published up) /\
  coordinator (env <$> up_published up) = sl_payload <$> maxima high (up_published up) /\
  (forall envs, Forall (authentic keys AgentToCoord (env <$> up_sealed up)) envs ->
     sublist (coordinator envs) (sl_payload <$> up_sealed up)) /\
  (one_at_a_time keys host_id sid (uplink_init (wrap q)) evs -> (next_seq high <= Z.to_nat q)%nat ->
     coordinator (env <$> up_published up) = sl_payload <$> up_published up /\
     up_published up `prefix_of` up_sealed up /\
     (up_open up = true -> up_sealed up = up_published up ++ up_queue up ++ (map_to_list (up_held up)).*2)).
Proof.
  intros Hq Hn up coordinator env.
  destruct (run_uplink_inv keys host_id sid q (uplink_init (wrap q)) evs Hq) as [Hi Hlen]; [simpl; lia|apply uplink_init_inv|].
  fold up in Hi, Hlen. simpl in Hlen. destruct Hi as [_ Hnum Hf Hb _].
  assert (up_published up ⊆+ up_sealed up) as Hp.
  { etrans; [|exact Hf]. unfold in_flight. by do 2 apply submseteq_inserts_l. }
  assert (coordinator (env <$> up_published up) = sl_payload <$> maxima high (up_published up)) as Hm.
  { unfold coordinator. rewrite accept_all_uplink_eq. apply recv_frames. }
  split; [done|]. split; [done|]. split; [|split; [done|split]].
  - apply Forall_forall. intros s Hs. apply (elem_of_submseteq _ _ _ Hs) in Hp as Hs'. apply list_elem_of_lookup in Hs' as [k Hk].
    destruct (Hnum _ _ Hk) as [_ ->]. apply decode_encode.
  - intros envs He. unfold coordinator. rewrite accept_all_uplink_eq.
    etrans; [by apply (recv_numbered_sublist keys host_id sid q (up_sealed up)); [|lia|..]|]. apply fmap_sublist, sublist_drop.
  - intros Hone Hh. pose proof (calm_run keys host_id sid _ evs Hone (calm_init (wrap q))) as [_ Hpre Hall _]. fold up in Hpre, Hall.
    split; [|done]. rewrite Hm. by rewrite (maxima_numbered keys host_id sid q) by (done || by eapply numbered_prefix).
Qed.

(** C26. A job's output reaches its operator, in a run without losses: the agent hands
    each frame over before it seals the next, no publish fails (the publisher is still open)
    and nothing is left queued or held, the broker delivers what is published in order, no
    other pending job uses the operator's stream, and that stream has room whenever a frame
    arrives (where it has none, the bridge drops the job).  Then, however deliveries and the
    operator's reads interleave and whatever other jobs of the host report, the operator gets
    exactly the results the job's task sent, in order, and the last one closes the job. *)
Theorem output_reaches_operator `{CryptoLaws} `{ProstLaws} `{UuidLib} {E R} (b : Bridge E R) keys host_id sid t u ch q sched id pj cap evs pre last :
  uuid_parse t = Some u -> 0 <= q -> q + Z.of_nat (seals sched) <= 2 ^ 64 ->
  one_at_a_time keys host_id sid (uplink_init (wrap q)) sched ->
  let up := run_uplink keys host_id sid (uplink_init (wrap q)) sched in
  up_open up = true -> up_queue up = [] -> up_held up = ∅ -> frames_of evs = up_published up ->
  let host := mkHostId u in
  listens keys u b q -> pending b !! (host, id) = Some pj -> pj_events pj = ch -> only_job ch b (host, id) ->
  results b !! ch = Some (mkChan [] cap true) -> keeps_up t ch (b, []) evs ->
  job_results id (up_sealed up) = pre ++ [last] -> Forall (fun r => is_terminal r = false) pre -> is_terminal last = true ->
  let '(b', got) := run_operator t ch (b, []) evs in
  got ++ match results b' !! ch with Some c => ch_queue c | None => [] end = pair host <$> pre ++ [last] /\
  pending b' !! (host, id) = None.
Proof.
  intros Ht Hq Hn Hone up Hopen Hqueue Hheld Hfr host Hl Hp Hev Ho Hr Hk Hj Hpre Hlast.
  destruct (run_uplink_inv keys host_id sid q (uplink_init (wrap q)) sched Hq) as [Hi _]; [simpl; lia|apply uplink_init_inv|].
  pose proof (calm_run keys host_id sid _ sched Hone (calm_init (wrap q))) as Hc. fold up in Hi, Hc.
  assert (up_sealed up = frames_of evs) as Hs.
  { rewrite Hfr, (ca_all _ Hc Hopen), Hqueue, Hheld, map_to_list_empty. simpl. by rewrite app_nil_r. }
  rewrite Hs in Hj. pose proof (ui_numbered _ _ _ _ _ Hi) as Hnum. rewrite Hs in Hnum.
  destruct (run_job_results keys host_id sid t ch u Ht evs b [] id q [] cap pj pre last) as [Hd Hnone]; try done.
  unfold delivered in Hd. destruct (run_operator t ch (b, []) evs) as [b' got]. done.
Qed.

(** ** Witnesses *)

Definition demo_chunk (id : string) : JobResult := mkResult id (Some (BChunk (mkChunk (stream_i32 Stdout) (bytes_of "hi")))).
Definition demo_outcome (id : string) : JobResult := outcome_result id (mkOutcome (Some (ExitCode (wrap 0))) false false).

(** Task 0 runs the job, task 1 another one; each frame is handed over at once. *)
Definition demo_orderly : list UpEvent :=
  [UpSeal 0 (demo_chunk "job"); UpSend 0; UpSeal 1 (demo_chunk "other"); UpSend 1; UpPublish true; UpSeal 0 (demo_outcome "job");
   UpSend 0; UpPublish true; UpPublish true].
Definition demo_uplink (evs : list UpEvent) : Uplink := run_uplink (cs_keys demo_session) "h" "sid" (uplink_init (wrap 1)) evs.

Lemma results_get_through_witness :
  let up := demo_uplink demo_orderly in
  length (up_published up) = 3%nat /\
  accept_all_uplink (mkSession "sid" (cs_keys demo_session) (wrap 0) (Some (wrap 0))) (frame_env (cs_keys demo_session) "h" "sid" <$> up_published up) =
    sl_payload <$> up_published up.
Proof.
  split; [vm_compute; reflexivity|].
  apply (results_get_through (cs_keys demo_session) "h" "sid" 1 (Some (wrap 0)) (wrap 0) demo_orderly).
  - lia.
  - vm_compute. intros Hc; discriminate Hc.
  - cbn. repeat split; reflexivity.
  - vm_compute. lia.
Defined.

Lemma output_reaches_operator_witness :
  let t := uuid_simple (host_uuid demo_host) in
  let evs := (OpFrame <$> up_published (demo_uplink demo_orderly)) ++ [OpRead] in
  let '(b', got) := run_operator t 0 (demo_bridge, []) evs in
  got = [(demo_host, demo_chunk "job")] /\
  got ++ match results b' !! 0%nat with Some c => ch_queue c | None => [] end = [(demo_host, demo_chunk "job"); (demo_host, demo_outcome "job")] /\
  pending b' !! (demo_host, "job") = None.
Proof.
  intros t evs.
  assert (let '(b', got) := run_operator t 0 (demo_bridge, []) evs in got = [(demo_host, demo_chunk "job")]) as Hgot by (vm_compute; reflexivity).
  assert (uuid_parse t = Some (host_uuid demo_host)) as Ht by (vm_compute; reflexivity).
  pose proof (output_reaches_operator demo_bridge (cs_keys demo_session) "h" "sid" t (host_uuid demo_host) 0 1 demo_orderly "job" (mkPending 0 100) 4 evs
    [demo_chunk "job"] (demo_outcome "job") Ht) as Hth.
  destruct (run_operator t 0 (demo_bridge, []) evs) as [b' got] eqn:Er. split; [exact Hgot|]. apply Hth.
  - lia.
  - vm_compute. intros Hc; discriminate Hc.
  - cbn. repeat split; reflexivity.
  - vm_compute. reflexivity.
  - vm_compute. reflexivity.
  - vm_compute. reflexivity.
  - vm_compute. reflexivity.
  - exists demo_session. split; [vm_compute; reflexivity|]. split; [reflexivity|]. vm_compute. lia.
  - vm_compute. reflexivity.
  - reflexivity.
  - intros k pj Hk _. unfold demo_bridge in Hk. simpl in Hk. by apply lookup_singleton_Some in Hk as [<- _].
  - vm_compute. reflexivity.
  - cbn [keeps_up evs]. vm_compute. repeat split; intros c [= <-]; simpl; lia.
  - vm_compute. reflexivity.
  - repeat constructor.
  - reflexivity.
Defined.

(** Where sealing and handing over interleave, results are lost: job "job" ends while another
    task is between the two; its outcome is sealed first but queued second, is published and
    delivered, and the coordinator refuses it as stale, so the job stays pending and its
    operator hears nothing. *)
Definition demo_race : list UpEvent :=
  [UpSeal 0 (demo_outcome "job"); UpSeal 1 (demo_chunk "other"); UpSend 1; UpSend 0; UpPublish true; UpPublish true].

Lemma concurrent_results_lost :
  let up := demo_uplink demo_race in
  let '(b', got) := run_operator (uuid_simple (host_uuid demo_host)) 0 (demo_bridge, []) (OpFrame <$> up_published up) in
  demo_outcome "job" ∈ sl_result <$> up_published up /\ results b' !! 0%nat = Some (mkChan [] 4 true) /\
  is_Some (pending b' !! (demo_host, "job")).
Proof. vm_compute. split; [right; left|]. split; [reflexivity|]. by eexists. Qed.
