(* ===== verification/Teardown.v ===== *)
(** * The end of an interactive shell (osa-agent/src/pty.rs [shutdown], shell_stream.rs [drop])

    The signals the teardown sends to the processes of a shell on its terminal.  The kernel is
    a class: what kill(2), wait(2) and the hangup of a terminal are documented to do, and no
    more (a process that catches SIGHUP may live or die); a concrete kernel shows that the laws
    can be met.  The theorem says what is gone afterwards and what is not touched. *)
From S2P Require Import Prelude.

(** ** Processes *)

Inductive ProcState := Running | Zombie.
#[global] Instance ProcState_eq_dec : EqDecision ProcState.
Proof. solve_decision. Defined.

(** What a process does with SIGHUP: leaves it at the default action (and does not block it),
    ignores it, or catches or blocks it. *)
Inductive Disposition := HupDefault | HupIgnored | HupCaught.
#[global] Instance Disposition_eq_dec : EqDecision Disposition.
Proof. solve_decision. Defined.

(** A process: its group, its session, its state, its disposition of SIGHUP. *)
Record Proc := mkProc { p_pgid : Z; p_sid : Z; p_state : ProcState; p_hup : Disposition }.
Abbreviation Procs := (gmap Z Proc).

Definition is_running (t : Procs) (pid : Z) : bool := match t !! pid with Some p => bool_decide (p_state p = Running) | None => false end.

(** Whom a kill(2) names: a group (a negative pid) or one process. *)
Inductive Target := Group (pgid : Z) | Only (pid : Z).
Definition targets (g : Target) (pid : Z) (p : Proc) : Prop :=
  match g with Group pgid => p_pgid p = pgid | Only q => pid = q end.
#[global] Instance targets_dec g pid p : Decision (targets g pid p).
Proof. destruct g; simpl; apply _. Defined.

(** ** The kernel *)

(** [kill fg g] sends SIGKILL to [g] on a terminal whose foreground group is [fg], [wait pid]
    returns once the child [pid] has terminated and reaps it. *)
Class Kernel := {
  kill : Z -> Target -> Procs -> Procs;
  wait : Z -> Procs -> Procs;
  (** SIGKILL cannot be caught, blocked or ignored. *)
  kill_fatal fg g t q p : t !! q = Some p -> targets g q p -> is_running (kill fg g t) q = false;
  (** A session leader that dies hangs up its terminal: the foreground group gets SIGHUP. *)
  kill_hangup fg g t leader l q p :
    t !! leader = Some l -> p_sid l = leader -> p_state l = Running -> targets g leader l ->
    t !! q = Some p -> p_sid p = leader -> p_pgid p = fg -> p_hup p = HupDefault -> is_running (kill fg g t) q = false;
  (** A session none of whose processes is named is not concerned. *)
  kill_frame fg g t q p :
    t !! q = Some p -> (forall r l, t !! r = Some l -> p_sid l = p_sid p -> ~ targets g r l) -> kill fg g t !! q = Some p;
  (** A signal starts no process and moves none to another session. *)
  kill_sid fg g t q p' : kill fg g t !! q = Some p' -> exists p, t !! q = Some p /\ p_sid p' = p_sid p;
  (** A terminated process does not run again. *)
  kill_dead fg g t q : is_running t q = false -> is_running (kill fg g t) q = false;
  wait_reaps pid t : wait pid t !! pid = None;
  wait_frame pid t q p : t !! q = Some p -> q <> pid -> p_sid p <> pid -> wait pid t !! q = Some p;
  wait_dead pid t q : is_running t q = false -> is_running (wait pid t) q = false
}.

(** ** Teardown *)

Section Teardown.
Context `{Kernel}.
Implicit Types (t : Procs).

(** [PtySession::shutdown]; [id] is the child's pid while it has not been reaped. *)
Definition shutdown (id : option Z) (fg : Z) t : Procs :=
  match id with
  | Some pid =>
      let t := kill fg (Group pid) t in
      let t := kill fg (Only pid) t in
      wait pid t
  | None => t
  end.

(** The drop of a [ShellStream]: the group first, then the child by [kill_on_drop], which
    the runtime may reap at once or leave to its orphan queue ([reaped]). *)
Definition stream_drop (reaped : bool) (id : option Z) (fg : Z) t : Procs :=
  match id with
  | Some pid =>
      let t := kill fg (Group pid) t in
      let t := kill fg (Only pid) t in
      if reaped then wait pid t else t
  | None => t
  end.

(** ** Lemmas *)

(** The group of the shell is in its session. *)
Definition own_group (pid : Z) t : Prop := forall q p, t !! q = Some p -> p_pgid p = pid -> p_sid p = pid.

Lemma not_running t pid : t !! pid = None -> is_running t pid = false.
Proof. unfold is_running. by intros ->. Qed.

Lemma kills_frame pid fg t q p :
  own_group pid t -> (forall shell, t !! pid = Some shell -> p_sid shell = pid) ->
  t !! q = Some p -> p_sid p <> pid -> kill fg (Only pid) (kill fg (Group pid) t) !! q = Some p.
Proof.
  intros Hin Hshell Hq Hs. apply kill_frame.
  - apply kill_frame; [done|]. intros r l Hl Hls Hg. apply Hs. rewrite <- Hls. by eapply Hin.
  - intros r l (l0 & Hl & E)%kill_sid Hls ->. apply Hs. rewrite <- Hls, E. by apply Hshell.
Qed.

Lemma shutdown_frame pid fg t q p : own_group pid t -> (forall shell, t !! pid = Some shell -> p_sid shell = pid) ->
  t !! q = Some p -> p_sid p <> pid -> shutdown (Some pid) fg t !! q = Some p.
Proof.
  intros Hin Hshell Hq Hs. apply wait_frame; [by apply kills_frame| |done]. intros ->. by apply Hs, Hshell.
Qed.

(** What the first signal or the hangup it causes ends. *)
Definition doomed (pid fg : Z) (p : Proc) : Prop := p_pgid p = pid \/ (p_sid p = pid /\ p_pgid p = fg /\ p_hup p = HupDefault).

Lemma kills_dead pid fg t shell q p :
  t !! pid = Some shell -> p_pgid shell = pid -> p_sid shell = pid -> p_state shell = Running ->
  t !! q = Some p -> doomed pid fg p -> is_running (kill fg (Only pid) (kill fg (Group pid) t)) q = false.
Proof.
  intros Hs Hg Hsid Hst Hq [Hp|(Hp1 & Hp2 & Hp3)]; apply kill_dead; [by eapply kill_fatal|by eapply (kill_hangup _ _ _ pid shell)].
Qed.

End Teardown.

(** ** A kernel *)

(** The weakest teardown the laws allow: a process that ignores or catches SIGHUP lives on. *)
Module Demo.
Definition dead (p : Proc) : Proc := mkProc (p_pgid p) (p_sid p) Zombie (p_hup p).
Definition kill_where (which : Z -> Proc -> bool) (t : Procs) : Procs := map_imap (fun pid p => Some (if which pid p then dead p else p)) t.
(** [leader] is a running session leader that [g] names. *)
Definition dies_leading (g : Target) (t : Procs) (leader : Z) : bool :=
  match t !! leader with
  | Some l => bool_decide (p_sid l = leader) && bool_decide (p_state l = Running) && bool_decide (targets g leader l)
  | None => false
  end.
Definition hung_up (fg : Z) (g : Target) (t : Procs) (p : Proc) : bool :=
  dies_leading g t (p_sid p) && bool_decide (p_pgid p = fg) && bool_decide (p_hup p = HupDefault).
Definition demo_kill (fg : Z) (g : Target) (t : Procs) : Procs :=
  kill_where (fun pid p => bool_decide (targets g pid p) || hung_up fg g t p) t.
Definition demo_wait (pid : Z) (t : Procs) : Procs := delete pid t.

Lemma kill_where_lookup which t pid : kill_where which t !! pid = (fun p => if which pid p then dead p else p) <$> t !! pid.
Proof. unfold kill_where. rewrite map_lookup_imap. by destruct (t !! pid). Qed.

Lemma kill_where_kills which t q p : t !! q = Some p -> which q p = true -> is_running (kill_where which t) q = false.
Proof. intros Hq Hw. unfold is_running. rewrite kill_where_lookup, Hq. simpl. by rewrite Hw. Qed.

#[global] Program Instance demo_kernel : Kernel := { kill := demo_kill; wait := demo_wait }.
Next Obligation. intros fg g t q p Hq Hg. eapply kill_where_kills; [done|]. by rewrite bool_decide_eq_true_2. Qed.
Next Obligation.
  intros fg g t leader l q p Hl Hs Hr Hg Hq Hp1 Hp2 Hp3. eapply kill_where_kills; [done|].
  apply orb_true_intro. right. unfold hung_up, dies_leading. by rewrite Hp1, Hl, !bool_decide_eq_true_2.
Qed.
Next Obligation.
  intros fg g t q p Hq Hl. unfold demo_kill. rewrite kill_where_lookup, Hq. simpl.
  rewrite bool_decide_eq_false_2 by (by eapply Hl). unfold hung_up, dies_leading.
  destruct (t !! p_sid p) as [l|] eqn:El; [|done]. destruct (decide (p_sid l = p_sid p)) as [E|E].
  - rewrite (bool_decide_eq_false_2 (targets g (p_sid p) l)) by (by eapply Hl). by rewrite andb_false_r.
  - by rewrite (bool_decide_eq_false_2 (p_sid l = p_sid p)).
Qed.
Next Obligation.
  intros fg g t q p'. unfold demo_kill. rewrite kill_where_lookup. intros (p & Hq & ->)%fmap_Some. exists p. split; [done|]. by destruct (_ || _).
Qed.
Next Obligation.
  intros fg g t q. unfold is_running, demo_kill. rewrite kill_where_lookup. destruct (t !! q) as [p|]; [|done]. simpl. by destruct (_ || _).
Qed.
Next Obligation. intros pid t. apply lookup_delete_eq. Qed.
Next Obligation. intros pid t q p Hq Hne _. unfold demo_wait. by rewrite lookup_delete_ne. Qed.
Next Obligation.
  intros pid t q. unfold is_running, demo_wait. destruct (decide (q = pid)) as [->|Hne]; [by rewrite lookup_delete_eq|by rewrite lookup_delete_ne].
Qed.

(** A shell, its pipeline in a group of its own in the foreground (one process of it catches
    the hangup), and another session. *)
Definition demo_procs : Procs :=
  list_to_map [(7, mkProc 7 7 Running HupDefault); (8, mkProc 8 7 Running HupDefault); (9, mkProc 8 7 Running HupCaught); (20, mkProc 20 20 Running HupDefault)].
Lemma demo_own_group : own_group 7 demo_procs.
Proof.
  intros q p Hq Hp. apply (elem_of_list_to_map_2 (M := gmap Z)) in Hq.
  repeat (apply elem_of_cons in Hq as [[= -> ->]|Hq]; [first [done|discriminate Hp]|]). by apply not_elem_of_nil in Hq.
Qed.

(** Only the shell's own group is signalled: a foreground job in a group of its own that does
    not die of the hangup survives the teardown. *)
Lemma foreground_job_survives reaped :
  is_running (shutdown (Some 7) 8 demo_procs) 9 = true /\ is_running (stream_drop reaped (Some 7) 8 demo_procs) 9 = true.
Proof. by destruct reaped; split; vm_compute. Qed.
End Demo.

(** ** Properties *)

(** C35. What the end of a shell ends, on any kernel with the documented behaviour of
    kill(2), wait(2) and the terminal hangup.  Shutting a shell down, or dropping its stream,
    while it still runs: the shell is dead, and reaped ([shutdown] waits for it; after a drop
    it may stay a zombie until the runtime reaps it); every process of its own process group
    is dead; so is every process of the terminal's foreground group that leaves SIGHUP at its
    default action; and no process outside its session is touched. *)
Theorem shell_teardown_exact `{Kernel} (reaped : bool) pid fg (t : Procs) shell :
  t !! pid = Some shell -> p_pgid shell = pid -> p_sid shell = pid -> p_state shell = Running -> own_group pid t ->
  shutdown (Some pid) fg t !! pid = None /\ (reaped = true -> stream_drop reaped (Some pid) fg t !! pid = None) /\
  forall t', t' = shutdown (Some pid) fg t \/ t' = stream_drop reaped (Some pid) fg t ->
    is_running t' pid = false /\
    (forall q p, t !! q = Some p -> p_pgid p = pid \/ (p_sid p = pid /\ p_pgid p = fg /\ p_hup p = HupDefault) -> is_running t' q = false) /\
    (forall q p, t !! q = Some p -> p_sid p <> pid -> t' !! q = Some p).
Proof.
  intros Hs Hg Hsid Hst Hin. split; [apply wait_reaps|]. split; [intros ->; apply wait_reaps|]. intros t' Ht'.
  assert (forall shell', t !! pid = Some shell' -> p_sid shell' = pid) as Hsh by congruence.
  assert (forall q p, t !! q = Some p -> doomed pid fg p -> is_running t' q = false) as Hd.
  { intros q p Hq Hp. pose proof (kills_dead pid fg t shell q p Hs Hg Hsid Hst Hq Hp) as Hk.
    destruct Ht' as [-> | ->]; unfold shutdown, stream_drop; [|destruct reaped]; by try apply wait_dead. }
  split; [eapply Hd; [done|by left]|]. split; [done|]. intros q p Hq Hp.
  pose proof (kills_frame pid fg t q p Hin Hsh Hq Hp). pose proof (shutdown_frame pid fg t q p Hin Hsh Hq Hp).
  destruct Ht' as [-> | ->]; [done|]. unfold stream_drop. by destruct reaped.
Qed.

Lemma shell_teardown_exact_witness :
  let t' := shutdown (Some 7) 8 Demo.demo_procs in
  t' !! 7 = None /\ is_running t' 8 = false /\ is_running t' 9 = true /\ t' !! 20 = Demo.demo_procs !! 20.
Proof.
  intros t'. destruct (shell_teardown_exact false 7 8 Demo.demo_procs (mkProc 7 7 Running HupDefault)) as (Hg & _ & Hd);
    [reflexivity|reflexivity|reflexivity|reflexivity|exact Demo.demo_own_group|].
  destruct (Hd t' (or_introl eq_refl)) as (_ & Hk & Hf). split; [exact Hg|].
  split; [apply (Hk 8 (mkProc 8 7 Running HupDefault)); [reflexivity|right; done]|]. split; [vm_compute; reflexivity|].
  etransitivity; [apply (Hf 20 (mkProc 20 20 Running HupDefault)); [reflexivity|simpl; lia]|reflexivity].
Defined.
