(* ===== verification/CliMain.v ===== *)
(** * The subcommands of the CLI, run against the coordinator (osa-cli/src/main.rs [main])

    Each subcommand of [osa] from its arguments to its exit status: the bearer header, the
    call through the operator interceptor (file Auth) to the service's handler, and what is
    printed.  The theorem says that success is never reported for something that did not
    happen. *)
From Stdlib Require Import Strings.Byte.
From S2P Require Import Prelude Proto Concrete Text Seal AuditLog Registries Ca Broker Policy Service Cli Auth.

(** A finished command: its lines and bytes on the two streams, and its exit status. *)
Record Exit := mkExit { ex_stdout : bytes; ex_stderr : bytes; ex_code : Z }.

(** An error that [main] returns is printed with its message; the status is 1. *)
Definition bail (msg : string) : Exit := mkExit [] (println ("Error: " +:+ msg)) 1.
Definition panic : Exit := mkExit [] [] 101.

Section CliMain.
Context `{Crypto} `{Prost} `{UuidLib} `{X509} `{Jwt} {T R L : Type} `{JoinTokens T} `{Revocations R} `{AuditPort L}.
Variable default_ttl : Z.
Variable status_text : Status -> string.
Variable audit_error_text : AuditError -> string.
Implicit Type s : Server (T := T) (R := R) (L := L).

(** A unary operator call: the interceptor, then the handler with the subject it bound. *)
Definition call {A} s (authorization : option bytes) (now : Z) (handler : Service T R L -> Service T R L * result A Status)
    : Server (T := T) (R := R) (L := L) * result A Status :=
  let run := let '(sv, r) := handler (sr_service s) in (mkServer (sr_cell s) (sr_oidc s) sv, r) in
  match sr_cell s with
  | None => run
  | Some v => match intercept v authorization now with Ok _ => run | Err st => (s, Err st) end
  end.

(** Connect, attach the token, call: what [main] does for every subcommand.  [connect] is
    whether the channel to the coordinator is up. *)
Definition request {A} s (connect : bool) (token : option string) (now : Z)
    (handler : Service T R L -> Service T R L * result A Status) : Server (T := T) (R := R) (L := L) * result A string :=
  if negb connect then (s, Err "transport error")
  else match authed token with
       | Err e => (s, Err e)
       | Ok header => let '(s, r) := call s (bytes_of <$> header) now handler in (s, map_err status_text r)
       end.

(** [osa token] *)
Definition osa_token s (connect : bool) (token : option string) (now : Z) (e : MintEnv) : Server (T := T) (R := R) (L := L) * Exit :=
  match request s connect token now (fun sv => mint_token default_ttl sv (wrap 0) e) with
  | (s, Err m) => (s, bail m)
  | (s, Ok (join_token, expires)) =>
      (s, mkExit (println ("join token:     " +:+ join_token) ++ println ("expires (unix): " +:+ z_text (bval expires))) [] 0)
  end.

(** [osa revoke <host>] *)
Definition osa_revoke s (connect : bool) (token : option string) (now : Z) (host : string) (e : SvEnv)
    : Server (T := T) (R := R) (L := L) * Exit :=
  match request s connect token now (fun sv => revoke_host sv host e) with
  | (s, Err m) => (s, bail m)
  | (s, Ok _) => (s, mkExit (println ("revoked " +:+ host)) [] 0)
  end.

(** The verdict on the exported chain, printed. *)
Definition verdict_exit (v : AuditVerdict) : Exit :=
  match v with
  | VerdictEmpty => mkExit (println "audit chain is EMPTY (0 entries)") [] 0
  | VerdictOk n anchored head =>
      mkExit (println ("audit chain OK — " +:+ (to_dec (Z.of_nat n) +:+ (" entries verified" +:+ (if anchored then ", anchored" else "")))) ++
              println ("head: " +:+ head)) [] 0
  | VerdictFailed err => mkExit [] (println ("audit verification FAILED: " +:+ audit_error_text err)) 1
  | VerdictError m => bail m
  | VerdictPanic => panic
  end.

(** [osa audit verify [--expect-head h]]: the anchor is parsed first. *)
Definition osa_audit_verify s (connect : bool) (token : option string) (now : Z) (expect_head : option string) (e : SvEnv)
    : Server (T := T) (R := R) (L := L) * Exit :=
  let go :=
    match request s connect token now (fun sv => (sv, export_audit sv e)) with
    | (s, Err m) => (s, bail m)
    | (s, Ok exported) =>
        (s, verdict_exit (audit_verify expect_head exported))
    end in
  match expect_head with
  | None => go
  | Some h => match parse_head h with
              | None => (s, panic)
              | Some (Err m) => (s, bail m)
              | Some (Ok _) => go
              end
  end.

(** [osa exec]: the request (file Cli), then the report over the events of the stream;
    an error of the stream ends the command. *)
Fixpoint exec_report (r : Report) (events : list (result ExecEvent Status)) : Exit :=
  match events with
  | [] =>
      let r := eprintln r ("[osa] " +:+ (to_dec (Z.of_nat (rp_hosts r)) +:+ (" host(s) reported, " +:+ (to_dec (Z.of_nat (rp_failures r)) +:+ " failed")))) in
      mkExit (rp_stdout r) (rp_stderr r) (if bool_decide (rp_failures r = 0%nat) && bool_decide (0 < rp_hosts r)%nat then 0 else 1)
  | Err st :: _ => mkExit (rp_stdout r) (rp_stderr r ++ println ("Error: " +:+ status_text st)) 1
  | Ok ev :: events => exec_report (report_event r ev) events
  end.
Definition osa_exec s (connect : bool) (token : option string) (now : Z) (host run_as : string) (argv : list string) (i : nat)
    (e : SvEnv) (events : list (result ExecEvent Status)) : Server (T := T) (R := R) (L := L) * Exit :=
  match exec_request host run_as argv with
  | Err m => (s, bail m)
  | Ok req =>
      if negb connect then (s, bail "transport error")
      else match authed token with
           | Err m => (s, bail m)
           | Ok header =>
               let bound := match sr_cell s with
                            | None => None
                            | Some v => match intercept v (bytes_of <$> header) now with Ok sub => Some sub | Err _ => None end
                            end in
               match call s (bytes_of <$> header) now (fun sv => exec sv i bound req e) with
               | (s, Err st) => (s, bail (status_text st))
               | (s, Ok _) => (s, exec_report report_init events)
               end
           end
  end.

(** [osa shell]: the terminal is raw during the session and restored before the process
    exits. *)
Definition osa_shell {A} (cfmakeraw : A -> A) (tty : option A) (raw_ok restore_ok : bool) (open : result unit string)
    (msgs : list (result (option ShellServerMsg) string)) : option A * Exit :=
  let '(saved, during) := RawMode_enable cfmakeraw tty raw_ok in
  let '(out, result) := match open with Err m => ([], Err m) | Ok _ => shell_output msgs end in
  (RawMode_drop saved during restore_ok,
   match result with Ok _ => mkExit out [] 0 | Err m => mkExit out (println ("osa shell: " +:+ m)) 1 end).

(** ** Lemmas *)

Lemma request_ok {A} s connect token now (handler : Service T R L -> Service T R L * result A Status) s' a :
  request s connect token now handler = (s', Ok a) ->
  handler (sr_service s) = (sr_service s', Ok a) /\ connect = true /\
  exists header, authed token = Ok header /\
    forall v, sr_cell s = Some v -> exists sub, intercept v (bytes_of <$> header) now = Ok sub.
Proof.
  unfold request, call. destruct connect; [|done]. simpl. destruct (authed token) as [header|]; [|done].
  destruct (sr_cell s) as [v|] eqn:Ev.
  - destruct (intercept v _ now) as [sub|] eqn:Ei; [|done]. destruct (handler (sr_service s)) as [sv [x|]] eqn:Eh; [|done].
    intros [= <- <-]. split; [done|]. split; [done|]. exists header. split; [done|]. intros ? [= <-]. eauto.
  - destruct (handler (sr_service s)) as [sv [x|]] eqn:Eh; [|done]. intros [= <- <-]. split; [done|]. split; [done|].
    exists header. done.
Qed.

(** No token the CLI sends is one the validator accepts. *)
Definition turned_away (v : JwtValidator) (token : option string) (now : Z) : Prop :=
  forall header tok sub, authed token = Ok header -> presents (bytes_of <$> header) tok -> validate v tok now <> Ok sub.

Lemma turned_away_intercept v token now header :
  turned_away v token now -> authed token = Ok header -> is_ok (intercept v (bytes_of <$> header) now) = false.
Proof.
  intros Ht Ha. destruct (intercept v _ now) as [sub|] eqn:Ei; [|done]. apply intercept_inv in Ei as (tok & Hp & Hv). by destruct (Ht header tok sub Ha Hp).
Qed.

Lemma request_err {A} s connect token now (handler : Service T R L -> Service T R L * result A Status) v header :
  sr_cell s = Some v -> authed token = Ok header -> is_ok (intercept v (bytes_of <$> header) now) = false ->
  fst (request s connect token now handler) = s /\ is_ok (snd (request s connect token now handler)) = false.
Proof.
  intros Hv Ha Hi. unfold request, call. destruct connect; [|done]. simpl. rewrite Ha, Hv. by destruct (intercept v _ now).
Qed.

End CliMain.

Lemma exec_report_code status_text r events :
  ex_code (exec_report status_text r events) = 0 ->
  exists evs, events = Ok <$> evs /\ let r' := foldl report_event r evs in rp_failures r' = 0%nat /\ (0 < rp_hosts r')%nat.
Proof.
  revert r. induction events as [|[ev|st] events IH]; intros r; simpl; [|intros (evs & -> & Hr)%IH; by exists (ev :: evs)|done].
  intros Hc. exists []. split; [done|]. simpl. destruct (bool_decide _) eqn:E1, (bool_decide (0 < _)%nat) eqn:E2; try done.
  by apply bool_decide_eq_true_1 in E1, E2.
Qed.

Section Subcommands.
Context `{Crypto} `{Prost} `{UuidLib} `{X509} `{Jwt} {T R L : Type} `{JoinTokens T} `{Revocations R} `{AuditPort L}.
Context (status_text : Status -> string) (audit_error_text : AuditError -> string) (s : Server (T := T) (R := R) (L := L)).
Context (connect : bool) (token : option string) (now : Z).

Lemma osa_exec_ok host run_as argv i e events s' x :
  osa_exec status_text s connect token now host run_as argv i e events = (s', x) -> ex_code x = 0 ->
  (exists task, sv_execs (sr_service s') !! i = Some task /\
     forall v, sr_cell s = Some v -> exists header tok, authed token = Ok header /\ presents (bytes_of <$> header) tok /\ validate v tok now = Ok (et_subject task)) /\
  exists evs, events = Ok <$> evs /\ omap outcome_of_event evs <> [] /\ Forall succeeded (omap outcome_of_event evs).
Proof.
  unfold osa_exec. destruct (exec_request _ _ _) as [req|]; [|by intros [= <- <-]].
  destruct connect; [|by intros [= <- <-]]. simpl. destruct (authed token) as [header|] eqn:Ea; [|by intros [= <- <-]].
  set (bound := match sr_cell s with None => None | Some v => _ end). destruct (call _ _ _ _) as [s1 [[]|]] eqn:Ec; [|by intros [= <- <-]].
  intros [= <- <-] Hx. split.
  + assert (exec (sr_service s) i bound req e = (sr_service s1, Ok tt)) as Hex.
    { clear -Ec. unfold call in Ec. destruct (sr_cell s) as [v|]; [destruct (intercept v _ now); [|done]|];
        destruct (exec _ _ _ _ _) as [sv [[]|]]; try done; by injection Ec as <-. }
    unfold exec in Hex. destruct (dr_action req); [|done]. destruct (is_empty _); [done|].
    destruct (resolve _ _) as [[|]|]; try done. injection Hex as <-. simpl. rewrite lookup_insert_eq. eexists. split; [done|]. intros v Hv. simpl.
    unfold call in Ec. rewrite Hv in Ec. unfold bound. rewrite Hv.
    destruct (intercept v (bytes_of <$> header) now) as [sub|] eqn:Ei; [|done]. apply intercept_inv in Ei as (tok & Hp & Hval). by exists header, tok.
  + apply exec_report_code in Hx as (evs & -> & Hf & Hh). exists evs. split; [done|]. apply exec_exit_status_exact.
    unfold exec_exit_code. by rewrite !bool_decide_eq_true_2.
Qed.

Lemma osa_audit_ok head e s' x :
  osa_audit_verify status_text audit_error_text s connect token now head e = (s', x) -> ex_code x = 0 ->
  exists wire entries anchor, export_audit (sr_service s) e = Ok wire /\ collect to_audit_entry wire = Ok entries /\
    verify entries anchor = Ok tt /\ (head <> None -> exists h a, head = Some h /\ parse_head h = Some (Ok a) /\ anchor = Some a).
Proof.
  unfold osa_audit_verify.
  destruct (match head with Some h => parse_head h | None => Some (Ok []) end) as [[a|m]|] eqn:Eh.
  2,3: destruct head; [rewrite Eh; by intros [= <- <-]|done].
  destruct (request _ _ _ _ _ _) as [s1 [wire|]] eqn:Er.
  2: { destruct head; [rewrite Eh|]; by intros [= <- <-]. }
  apply request_ok in Er as [Hr _]. injection Hr as _ Hexp. intros Hx Hc. exists wire.
  assert (exists entries anchor, collect to_audit_entry wire = Ok entries /\ verify entries anchor = Ok tt /\
    (head <> None -> exists h a, head = Some h /\ parse_head h = Some (Ok a) /\ anchor = Some a)) as (en & an & ?).
  { assert (x = verdict_exit audit_error_text (audit_verify head wire)) as -> by (destruct head; [rewrite Eh in Hx|]; congruence).
    clear Hx. unfold audit_verify in Hc. destruct head as [h|].
    - rewrite Eh in Hc. destruct (collect _ wire) as [en|]; [|done]. destruct (verify en (Some a)) as [[]|] eqn:Ev; [|done].
      exists en, (Some a). split; [done|]. split; [done|]. intros _. by exists h, a.
    - destruct (collect _ wire) as [en|]; [|done]. destruct (verify en None) as [[]|] eqn:Ev; [|done]. by exists en, None. }
  by exists en, an.
Qed.

(** Turned away, nothing happens. *)
Lemma request_refused {A} v (handler : Service T R L -> Service T R L * result A Status) :
  sr_cell s = Some v -> turned_away v token now ->
  exists m, request status_text s connect token now handler = (s, Err m).
Proof.
  intros Hv Ht. destruct (authed token) as [header|] eqn:Ea.
  - destruct (request_err status_text s connect token now handler v header Hv Ea (turned_away_intercept _ _ _ _ Ht Ea)) as [Hs Hr].
    destruct (request _ _ _ _ _ _) as [s1 [y|m]]; [done|]. simpl in Hs. subst. by exists m.
  - unfold request. rewrite Ea. destruct connect; eauto.
Qed.

Lemma refused_unchanged default_ttl v :
  sr_cell s = Some v -> turned_away v token now ->
  let refused (y : Server * Exit) := fst y = s /\ ex_code (snd y) <> 0 in
  (forall host e, refused (osa_revoke status_text s connect token now host e)) /\
  (forall e, refused (osa_token default_ttl status_text s connect token now e)) /\
  (forall host run_as argv i e events, refused (osa_exec status_text s connect token now host run_as argv i e events)) /\
  (forall head e, refused (osa_audit_verify status_text audit_error_text s connect token now head e)).
Proof.
  intros Hv Ht refused. assert (forall m, refused (s, bail m)) as Hb by done.
  split; [|split; [|split]]; intros.
  - unfold osa_revoke. match goal with |- context [request _ _ _ _ _ ?f] => destruct (request_refused v f Hv Ht) as [m ->] end. apply Hb.
  - unfold osa_token. match goal with |- context [request _ _ _ _ _ ?f] => destruct (request_refused v f Hv Ht) as [m ->] end. apply Hb.
  - unfold osa_exec. destruct (exec_request _ _ _); [|apply Hb]. destruct connect; [|apply Hb]. cbn [negb].
    destruct (authed token) as [header|] eqn:Ea; [|apply Hb]. unfold call. rewrite Hv.
    pose proof (turned_away_intercept _ _ _ _ Ht Ea) as Hi. destruct (intercept v _ now); [done|apply Hb].
  - unfold osa_audit_verify. match goal with |- context [request _ _ _ _ _ ?f] => destruct (request_refused v f Hv Ht) as [m ->] end.
    destruct head as [h|]; [|apply Hb]. destruct (parse_head h) as [[]|]; apply Hb || done.
Qed.

End Subcommands.

(** ** Properties *)

(** C14. The CLI reports success only for what happened.  [osa revoke] exits 0 only if the
    host is in the coordinator's revocation store; [osa token] only with a token the store
    has just minted, which it prints; [osa exec] only if the coordinator accepted the
    command, its stream ended without an error, at least one host reported, and every
    reported outcome is exit code 0; [osa audit verify] only if the exported entries decode
    and form a chain that ends at the anchor given.  Where operators authenticate, a command
    that was accepted is bound to the subject of the token sent; and without a token the
    validator accepts, no subcommand (revoke, token, exec, audit verify) exits 0 and none
    changes anything at the coordinator.  However a shell session ends, the local
    terminal is as it was. *)
Theorem cli_success_is_truthful `{Crypto} `{Prost} `{UuidLib} `{X509} `{Jwt} {T R L} `{JoinTokens T} `{RevocationsLaws R} `{!AuditPort L}
    default_ttl status_text audit_error_text (s : Server (T := T) (R := R) (L := L)) connect token now :
  (forall host e s' x, osa_revoke status_text s connect token now host e = (s', x) -> ex_code x = 0 ->
     exists u, uuid_parse host = Some u /\ mkHostId u ∈ revoked_set (sv_revocations (sr_service s'))) /\
  (forall e s' x, osa_token default_ttl status_text s connect token now e = (s', x) -> ex_code x = 0 ->
     exists tok exp, token_mint (sv_tokens (sr_service s)) e default_ttl = (sv_tokens (sr_service s'), Ok (tok, exp)) /\
       ex_stdout x = println ("join token:     " +:+ tok) ++ println ("expires (unix): " +:+ z_text (bval exp))) /\
  (forall host run_as argv i e events s' x, osa_exec status_text s connect token now host run_as argv i e events = (s', x) -> ex_code x = 0 ->
     (exists task, sv_execs (sr_service s') !! i = Some task /\
        forall v, sr_cell s = Some v -> exists header tok, authed token = Ok header /\ presents (bytes_of <$> header) tok /\ validate v tok now = Ok (et_subject task)) /\
     exists evs, events = Ok <$> evs /\ omap outcome_of_event evs <> [] /\ Forall succeeded (omap outcome_of_event evs)) /\
  (forall head e s' x, osa_audit_verify status_text audit_error_text s connect token now head e = (s', x) -> ex_code x = 0 ->
     exists wire entries anchor, export_audit (sr_service s) e = Ok wire /\ collect to_audit_entry wire = Ok entries /\
       verify entries anchor = Ok tt /\ (head <> None -> exists h a, head = Some h /\ parse_head h = Some (Ok a) /\ anchor = Some a)) /\
  (forall v, sr_cell s = Some v ->
     (forall header tok sub, authed token = Ok header -> presents (bytes_of <$> header) tok -> validate v tok now <> Ok sub) ->
     let refused (y : Server * Exit) := fst y = s /\ ex_code (snd y) <> 0 in
     (forall host e, refused (osa_revoke status_text s connect token now host e)) /\
     (forall e, refused (osa_token default_ttl status_text s connect token now e)) /\
     (forall host run_as argv i e events, refused (osa_exec status_text s connect token now host run_as argv i e events)) /\
     (forall head e, refused (osa_audit_verify status_text audit_error_text s connect token now head e))) /\
  (forall (A : Type) cfmakeraw (tty : option A) raw_ok open msgs, fst (osa_shell cfmakeraw tty raw_ok true open msgs) = tty).
Proof.
  split; [|split; [|split; [|split; [|split]]]].
  - intros host e s' x. unfold osa_revoke. destruct (request _ _ _ _ _ _) as [s1 [[]|]] eqn:Er; intros [= <- <-]; [|done]. intros _.
    apply request_ok in Er as [Hr _]. unfold revoke_host in Hr. destruct (uuid_parse host) as [u|]; [|done]. exists u. split; [done|].
    destruct (revoke _ _ _ _) as [r [[]|]] eqn:Erv; [|done]. injection Hr as Hr. rewrite <- Hr. simpl. apply revoke_ok in Erv as ->. set_solver.
  - intros e s' x. unfold osa_token. destruct (request _ _ _ _ _ _) as [s1 [[tok exp]|]] eqn:Er; intros [= <- <-]; [|done]. intros _.
    apply request_ok in Er as [Hr _]. unfold mint_token in Hr. change (bval (wrap 0 : u64) =? 0) with true in Hr. cbn match in Hr.
    destruct (token_mint _ _ _) as [t [[tok' exp']|[]]]; try done. injection Hr as Hr <- <-. exists tok', exp'. by rewrite <- Hr.
  - intros. by eapply osa_exec_ok.
  - intros. by eapply osa_audit_ok.
  - intros v Hv Ht refused. by apply (refused_unchanged status_text audit_error_text s connect token now default_ttl v).
  - intros A cfmakeraw tty raw_ok open msgs. unfold osa_shell. pose proof (raw_mode_restored cfmakeraw tty raw_ok) as Hr.
    destruct (RawMode_enable _ _ _) as [saved during]. destruct open; [destruct (shell_output msgs)|]; exact Hr.
Qed.
