(* ===== verification/AgentCli.v ===== *)
(** * The agent's command line (osa-agent/src/main.rs [main])

    Every subcommand of [osa-agent] from its arguments to its end: enrolling, renewing and
    running through their own files, the local exec, the local shell with its copy loops and
    teardown, the inventory printout and the backstop check.  The theorems say what exit
    status 0 means and what each subcommand leaves alone. *)
From S2P Require Import Prelude Proto Concrete Text Topics Ip IpText Seal Handshake Allowlist Registries Disk Session Ca Service Exec JobRunner Pty ShellStream ControlChannel Netbox Inventory Enroll AgentMain Teardown.

(** [Command], with clap's defaults filled in. *)
Inductive Command :=
| CmdEnroll (coordinator token state_dir : string) (force : bool)
| CmdRun (state_dir coordinator broker_host : string) (broker_port : u16) (allowlist : option string)
| CmdCheck (allowlist : option string) (kind run_as : string)
| CmdRenew (coordinator state_dir : string)
| CmdExec (run_as : string) (argv : list string)
| CmdShell (run_as : string)
| CmdInventory.

(** ** [Command::Inventory] *)

(** [join(", ")] *)
Fixpoint join_comma (l : list string) : string :=
  match l with
  | [] => EmptyString
  | s :: l => match l with [] => s | _ => s +:+ String "," (String " " (join_comma l)) end
  end.
Definition interface_line (i : NetworkInterface) : string :=
  "  " +:+ (ni_name i +:+ (" [" +:+ (ni_mac i +:+ ("] " +:+ join_comma (ip_to_string <$> ni_ips i))))).
Definition gap_line (g : Gap) : string := "  " +:+ (gap_as_str (gap_field g) +:+ (": " +:+ gap_reason g)).
Definition print_inventory (inv : HostInventory) : bytes :=
  println ("dmi_serial: " +:+ default "<none>" (hi_dmi_serial inv)) ++
  println ("hostname:   " +:+ si_hostname (hi_system inv)) ++
  println ("os:         " +:+ si_os (hi_system inv)) ++
  println ("kernel:     " +:+ si_kernel (hi_system inv)) ++
  println ("cpus:       " +:+ to_dec (Z.of_nat (si_cpu_count (hi_system inv)))) ++
  println ("memory:     " +:+ (to_dec (bval (si_memory_bytes (hi_system inv))) +:+ " bytes")) ++
  println "interfaces:" ++
  mjoin ((fun i => println (interface_line i)) <$> hi_interfaces inv) ++
  match hi_gaps inv with
  | [] => []
  | gaps => println "gaps:" ++ mjoin ((fun g => println (gap_line g)) <$> gaps)
  end.

(** ** [Command::Shell] *)

(** What the three futures of the [select!] do: a copy moves bytes, a copy ends (end of
    file or an error, which is not looked at), the shell is waited for. *)
Inductive LocalEvent := LeOutput (d : bytes) | LeInput (d : bytes) | LeOutputEnd | LeInputEnd | LeExited.

(** Which future ended the [select!]: a copy, or the wait, which reaps the shell. *)
Inductive Selected := ByCopy | ByWait.
Fixpoint select_shell (out input : bytes) (evs : list LocalEvent) : bytes * bytes * option Selected :=
  match evs with
  | [] => (out, input, None)
  | LeOutput d :: evs => select_shell (out ++ d) input evs
  | LeInput d :: evs => select_shell out (input ++ d) evs
  | LeOutputEnd :: _ | LeInputEnd :: _ => (out, input, Some ByCopy)
  | LeExited :: _ => (out, input, Some ByWait)
  end.

(** A local shell that was started: what went to stdout and to the terminal, and the
    processes after [shutdown], once the [select!] is over.  [t] is the process table then,
    [fg] the terminal's foreground group. *)
Definition local_shell `{Kernel} (env : PtyEnv) (run_as : string) (evs : list LocalEvent) (fg : Z) (t : Procs)
    : result (bytes * bytes * option Procs) PtyError :=
  let? _ := PtySession_spawn env run_as (wrap 24) (wrap 80) in
  let '(out, input, sel) := select_shell [] [] evs in
  Ok (out, input, match sel with
                  | None => None
                  | Some ByCopy => Some (shutdown (Some (pe_pid env)) fg t)
                  | Some ByWait => Some (shutdown None fg (wait (pe_pid env) t))
                  end).

(** ** [main] *)

Inductive AgentError := AeText (msg : string) | AeExec (e : ExecError) | AePty (e : PtyError) | AeLoad (e : LoadError).

(** The end of [main]: an exit with what was printed; an error it returned, with status 1;
    the agent at its reconnect loop; a shell still open. *)
Inductive AgentEnd :=
| Finished (stdout stderr : bytes) (code : Z)
| Failed (e : AgentError)
| Serving (backstop : LocalAllowlist) (p : Process)
| ShellOpen (out input : bytes).
Definition end_status (e : AgentEnd) : option Z :=
  match e with Finished _ _ code => Some code | Failed _ => Some 1 | Serving _ _ | ShellOpen _ _ => None end.

(** What the outside answers to one invocation. *)
Record AgentEnv (S : Type) := mkAgentEnv {
  ae_enroll : S -> string -> bytes -> S * result EnrollResponse string;
  ae_connected : bool;
  ae_generated : result string string;
  ae_renew : bytes -> bytes -> result bytes string;
  ae_faults : list IoFault;
  ae_host_fail : option string;
  ae_tls_fail : string -> option string;
  ae_jobs : result Dir string;
  ae_read : string -> option string;
  ae_parse : string -> option AllowlistDoc;
  ae_exec : RunEnv;
  ae_pty : PtyEnv;
  ae_shell : list LocalEvent;
  ae_foreground : Z;
  ae_dmi : string -> result string IoError;
  ae_sys : SysReadings;
  ae_networks : Networks
}.
Arguments ae_enroll {S} _.
Arguments ae_connected {S} _.
Arguments ae_generated {S} _.
Arguments ae_renew {S} _.
Arguments ae_faults {S} _.
Arguments ae_host_fail {S} _.
Arguments ae_tls_fail {S} _.
Arguments ae_jobs {S} _.
Arguments ae_read {S} _.
Arguments ae_parse {S} _.
Arguments ae_exec {S} _.
Arguments ae_pty {S} _.
Arguments ae_shell {S} _.
Arguments ae_foreground {S} _.
Arguments ae_dmi {S} _.
Arguments ae_sys {S} _.
Arguments ae_networks {S} _.

(** The state directory as the running agent reads it: all of it on disk. *)
Definition dir_of (d : StateDir) : Dir := mkDir (f_bytes <$> sd_files d) (f_bytes <$> sd_files d).

Section Main.
Context `{X509} `{Pki} `{Kernel} {S : Type}.
Variable umask : Z.
Variable key_csr : string -> result bytes string.
Variable debug_str : string -> string.
Implicit Types (env : AgentEnv S) (s : S) (d : StateDir) (t : Procs).

Definition agent_check env (path : option string) (kind run_as : string) : AgentEnd :=
  match check path (ae_read env) (ae_parse env) kind run_as with
  | Err e => Failed (AeLoad e)
  | Ok (CheckPermitted kind run_as) => Finished (println ("PERMITTED: kind=" +:+ (kind +:+ (" run_as=" +:+ debug_str run_as)))) [] 0
  | Ok (CheckRefused denial) => Finished [] (println ("REFUSED: " +:+ denial_text debug_str denial)) 1
  end.

(** The whole of [main]: [s] is the coordinator, [d] the state directory, [t] the processes
    when a shell is torn down. *)
Definition agent_main env s d t (cmd : Command) : S * StateDir * Procs * AgentEnd :=
  match cmd with
  | CmdEnroll _ token _ force =>
      let '(s, (d, _, r)) := Enroll.run umask key_csr (ae_enroll env) (ae_connected env) (ae_generated env) token force s d (ae_faults env) in
      (s, d, t, match r with Ok _ => Finished [] [] 0 | Err e => Failed (AeText e) end)
  | CmdRenew _ _ =>
      let '(d, _, r) := renew umask key_csr (ae_renew env) d (ae_faults env) in
      (s, d, t, match r with Ok _ => Finished [] [] 0 | Err e => Failed (AeText e) end)
  | CmdRun _ _ _ _ allowlist =>
      (s, d, t, match run_command allowlist (ae_read env) (ae_parse env) (dir_of d) (ae_host_fail env) (ae_tls_fail env) (ae_jobs env) with
                | Ok (backstop, p) => Serving backstop p
                | Err e => Failed (AeText e)
                end)
  | CmdExec run_as argv =>
      (s, d, t, match exec_command (ae_exec env) argv run_as with
                | Ok (out, err, code) => Finished out err code
                | Err e => Failed (AeExec e)
                end)
  | CmdShell run_as =>
      match local_shell (ae_pty env) run_as (ae_shell env) (ae_foreground env) t with
      | Err e => (s, d, t, Failed (AePty e))
      | Ok (out, input, None) => (s, d, t, ShellOpen out input)
      | Ok (out, input, Some t) => (s, d, t, Finished out [] 0)
      end
  | CmdInventory => (s, d, t, Finished (print_inventory (collect (ae_dmi env) (ae_sys env) (ae_networks env))) [] 0)
  | CmdCheck path kind run_as => (s, d, t, agent_check env path kind run_as)
  end.

(** ** Lemmas *)

(** A successful enrollment stored what the coordinator answered. *)
Lemma enroll_run_ok rpc connected generated token force s d fs s' d' fs' host :
  Enroll.run umask key_csr rpc connected generated token force s d fs = (s', (d', fs', Ok host)) ->
  exists key csr resp, generated = Ok key /\ key_csr key = Ok csr /\ rpc s token csr = (s', Ok resp) /\
    complete d' (mkIdentity (er_host_id resp) key (pem_of_der (er_cert resp)) (pem_of_der (er_ca_root resp))).
Proof.
  unfold Enroll.run. destruct (is_empty (trim token)); [done|]. unfold ensure_not_enrolled.
  destruct (bool_decide (is_Some (sd_files d !! KEY_FILE)) && negb force) eqn:Eg; [done|].
  destruct generated as [key|]; [|done]. destruct (key_csr key) as [csr|] eqn:Ec; [|done]. destruct connected; [|done]. cbn [negb].
  destruct (rpc s token csr) as [s1 [resp|]] eqn:Er; [|done]. intros [= <- Hp].
  apply fbind_inv in Hp as [(e & _ & ?)|([] & d1 & fs1 & Hp & Hr)]; [done|]. injection Hr as <- <- <-.
  exists key, csr, resp. split; [done|]. split; [done|]. split; [done|].
  pose proof (persist_spec _ _ _ _ _ _ _ _ Eg Hp) as Hs. simpl in Hs. destruct Hs as [(Hcert & Hca & Hid & Hkey) _].
  unfold complete, holds in *. by rewrite Hkey.
Qed.

(** Whichever future ends the [select!], the shell is gone and other sessions are untouched. *)
Lemma local_shell_contained `{Kernel} (env : PtyEnv) run_as evs fg t out input t' :
  local_shell env run_as evs fg t = Ok (out, input, Some t') ->
  own_group (pe_pid env) t -> (forall shell, t !! pe_pid env = Some shell -> p_sid shell = pe_pid env) ->
  t' !! pe_pid env = None /\ forall q p, t !! q = Some p -> p_sid p <> pe_pid env -> t' !! q = Some p.
Proof.
  unfold local_shell. destruct (PtySession_spawn _ _ _ _) as [c|]; [|done].
  destruct (select_shell [] [] evs) as [[o i] [[]|]]; intros [= <- <- <-] Hin Hs; (split; [apply wait_reaps|]); intros q p Hq Hp.
  - by apply shutdown_frame.
  - apply wait_frame; [done| |done]. intros ->. by apply Hp, Hs.
Qed.

(** ** Properties *)

(** What exit status 0 of a subcommand means. *)
Definition success_means env s d t (cmd : Command) s' d' t' (e : AgentEnd) : Prop :=
  match cmd with
  | CmdEnroll _ token _ force =>
      exists key csr resp, ae_generated env = Ok key /\ key_csr key = Ok csr /\ ae_enroll env s token csr = (s', Ok resp) /\
        complete d' (mkIdentity (er_host_id resp) key (pem_of_der (er_cert resp)) (pem_of_der (er_ca_root resp)))
  | CmdRenew _ _ =>
      same_on kept_files d d' /\
      exists current csr cert ca_file ca_der ca leaf, ae_renew env current csr = Ok cert /\ holds d' CERT_FILE (bytes_of (pem_of_der cert)) /\
        holds d CA_FILE ca_file /\ pem_contents (String.string_of_list_byte ca_file) = Ok ca_der /\
        x509_from_der ca_der = Ok ca /\ x509_from_der cert = Ok leaf /\ x509_verify_signature leaf (xc_key ca) = true
  | CmdRun _ _ _ _ _ => False
  | CmdExec run_as argv =>
      exists o, Exec.run (ae_exec env) argv run_as = Ok o /\ exec_status o = 0 /\
        exists err, e = Finished (eo_stdout o) err 0
  | CmdShell _ =>
      let pid := pe_pid (ae_pty env) in
      own_group pid t -> (forall shell, t !! pid = Some shell -> p_sid shell = pid) ->
      t' !! pid = None /\ forall q p, t !! q = Some p -> p_sid p <> pid -> t' !! q = Some p
  | CmdInventory => e = Finished (print_inventory (collect (ae_dmi env) (ae_sys env) (ae_networks env))) [] 0
  | CmdCheck path kind run_as =>
      exists allow, Allowlist.load path (ae_read env) (ae_parse env) = Ok allow /\ permits allow (mkAction kind EmptyString run_as []) = Ok tt
  end.

(** Exit status 0 is the truth, and no subcommand reaches beyond its business: only enroll
    calls the coordinator's Enroll, only enroll and renew change the state directory, only
    a shell's end touches processes.  Status 0 means: enrolled, with the identity the
    coordinator issued complete on disk; renewed under the pinned CA, the rest kept; the
    command ran and its status was 0; the shell is gone and other sessions are untouched; the
    inventory printed is the one collected; the loaded allowlist permits the action. *)
Theorem agent_success_is_truthful env s d t cmd :
  let '(s', d', t', e) := agent_main env s d t cmd in
  (match cmd with CmdEnroll _ _ _ _ => True | _ => s' = s end) /\
  (match cmd with CmdEnroll _ _ _ _ | CmdRenew _ _ => True | _ => d' = d end) /\
  (match cmd with CmdShell _ => True | _ => t' = t end) /\
  (end_status e = Some 0 -> success_means env s d t cmd s' d' t' e).
Proof.
  destruct cmd as [c token sd force|sd c bh bp al|path kind run_as|c sd|run_as argv|run_as|]; cbn [agent_main].
  - destruct (Enroll.run _ _ _ _ _ _ _ _ _ _) as [s' [[d' fs'] [h|]]] eqn:E; (do 3 (split; [done|])); [|done]. intros _. by eapply enroll_run_ok.
  - do 3 (split; [done|]). destruct (run_command _ _ _ _ _ _ _) as [[]|]; done.
  - do 3 (split; [done|]). unfold agent_check, check. destruct (Allowlist.load _ _ _) as [allow|] eqn:El; [|done].
    destruct (permits _ _) as [[]|] eqn:Ep; [|done]. intros _. by exists allow.
  - destruct (renew _ _ _ _ _) as [[d' fs'] r] eqn:E. apply renew_spec in E as (Hk & _ & Hr). (do 3 (split; [done|])). destruct r as [[]|]; [|done].
    intros _. split; [done|]. destruct (Hr eq_refl) as (key & current & csr & cert & ca_file & ca_der & ca & leaf & _ & _ & Hrest). eauto 10.
  - do 3 (split; [done|]). unfold exec_command. cbn [success_means]. destruct (Exec.run _ _ _) as [o|]; [|done]. cbn. intros [= Ho]. exists o. rewrite Ho. eauto.
  - destruct (local_shell _ _ _ _ _) as [[[out input] [t'|]]|] eqn:E; (do 3 (split; [done|])); try done. intros _. exact (local_shell_contained _ _ _ _ _ _ _ _ E).
  - done.
Qed.

(** Without an allowlist every check is refused with status 1. *)
Lemma check_without_allowlist env kind run_as : end_status (agent_check env None kind run_as) = Some 1.
Proof. unfold agent_check, check. simpl. unfold permits. by rewrite orb_true_r. Qed.

End Main.

(** ** The printed addresses *)

(** Reading a printed list of addresses back. *)
Definition read_addresses (s : string) : option (list IpAddr) :=
  if is_empty s then Some [] else mapM (fun piece => parse_ip (remove_char " " piece)) (split_on "," s).

Lemma ip_text_no_char c a : ip_valid a -> ip_char c = false -> has_char c (ip_to_string a) = false.
Proof. intros Ha Hc. eapply ip_no_char; [done|]. by apply parse_ip_to_string. Qed.

Lemma split_on_one c s : has_char c s = false -> split_on c s = [s].
Proof.
  induction s as [|a s IH]; [done|]. simpl. intros [Ha Hs]%orb_false_iff. apply bool_decide_eq_false in Ha.
  by rewrite decide_False, IH.
Qed.

Lemma split_join l : forall s, has_char "," s = false -> Forall (fun x => has_char "," x = false) l ->
  split_on "," (join_comma (s :: l)) = s :: (String " " <$> l).
Proof.
  induction l as [|x l IH]; intros s Hs Hl; [by apply split_on_one|]. apply Forall_cons in Hl as [Hx Hl].
  change (join_comma (s :: x :: l)) with (s +:+ String "," (String " " (join_comma (x :: l)))).
  rewrite split_on_app by done. cbn [split_on]. rewrite decide_False by done. by rewrite (IH x).
Qed.

(** The addresses on an interface's line are the interface's. *)
Theorem printed_addresses_read_back ips : Forall ip_valid ips -> read_addresses (join_comma (ip_to_string <$> ips)) = Some ips.
Proof.
  intros Hv. unfold read_addresses. destruct Hv as [|a ips Ha Hips]; [done|].
  assert (forall b, ip_valid b -> has_char "," (ip_to_string b) = false) as Hcomma by (intros b Hb; by apply ip_text_no_char).
  assert (forall b, ip_valid b -> remove_char " " (ip_to_string b) = ip_to_string b) as Hspace by (intros b Hb; by apply remove_char_fixed, ip_text_no_char).
  assert (is_empty (join_comma (ip_to_string <$> a :: ips)) = false) as ->.
  { apply parse_ip_to_string in Ha. cbn [fmap list_fmap join_comma]. destruct (ip_to_string a); [done|]. by destruct ips. }
  cbn [fmap list_fmap]. rewrite split_join; [|auto|by apply Forall_fmap, (Forall_impl ip_valid)].
  apply mapM_Some. constructor; [rewrite Hspace by done; by apply parse_ip_to_string|].
  induction Hips as [|b ips Hb _ IH]; [constructor|]. cbn [fmap list_fmap]. constructor; [|exact IH].
  cbn [remove_char]. rewrite decide_True by done. rewrite Hspace by done. by apply parse_ip_to_string.
Qed.

(** Each is an address the NetBox sink can write, of its own family. *)
Lemma printed_address_is_cidr a : ip_valid a ->
  exists cidr, to_cidr (ip_to_string a) = Some cidr /\ is_ipv4_cidr cidr = match a with V4 _ => true | V6 _ => false end.
Proof.
  intros Ha. pose proof (parse_ip_to_string a Ha) as Hp. pose proof (ip_text_no_char "/" a Ha eq_refl) as Hc.
  unfold to_cidr, is_ipv4_cidr. rewrite Hp. destruct a; (eexists; split; [done|]); rewrite split_on_app by done; by rewrite Hp.
Qed.

(** A printout, and a check. *)
Lemma inventory_printout :
  let inv := mkHostInventory None (mkSystemInfo "web-1" "Linux" "6.8" 4 (wrap 1024))
    [mkNetworkInterface "eth0" "02:00:00:00:00:01" [V4 0xC0000205; V6 0x20010db8000000000000000000000001]] [mkGapOf GapDmiSerial "not readable"] in
  print_inventory inv = mjoin (println <$>
    ["dmi_serial: <none>"; "hostname:   web-1"; "os:         Linux"; "kernel:     6.8"; "cpus:       4"; "memory:     1024 bytes"; "interfaces:";
     "  eth0 [02:00:00:00:00:01] 192.0.2.5, 2001:db8::1"; "gaps:"; "  dmi_serial: not readable"]).
Proof. vm_compute. reflexivity. Qed.
